(** * Service-metrics aggregation engine: model and verification

    A shallow embedding of [ServiceMetricsService.aggregateServiceMetrics]
    (services/serviceMetricsService.ts) and of the helpers it calls:
    [buildDateFilter], [buildServiceFilter], [getTimeRangeInMs],
    [processErrorsByStatusCode], [processErrorsBySeverity], [rankServices],
    [calculateResourceUtilization] and [DateUtils.getTimeRangeInMinutes].

    Further parts embed [createSampleMetrics], the pagination code
    ([DateUtils.validateDateRange], [PaginationUtils] and
    [MongoService.paginate]) and the two parse routes.

    Conventions of the embedding.
    - Counts, status codes and epoch-millisecond instants are integers ([Z]).
    - Every other JavaScript [number] (rates, percentages, averages,
      rounded latencies) is a [Double]: [NaN], an infinity, or a finite
      binary64 value given as the rational it denotes.  An operation
      returns the double nearest to its exact result, ties going to the
      even significand ([nearest], [rnd]); the operations are [fmul],
      [fdiv], [fsub], [Math.round], [Math.max] and the comparisons.
    - The number fields of a stored document ([responseTime], [cpuUsage],
      [memoryUsage]) are given by the rational of their decimal notation;
      the pipeline reads the double nearest to it ([double]).
    - The MongoDB collection is the list of its documents in the order the
      server scans them, an order the store chooses: [$group] emits the
      groups in order of first appearance and [$push] appends in scan
      order, so that the scans of all the reorderings of a collection give
      every emission order and every array order the store may produce.
    - [$divide] by zero makes the server reject the pipeline, so the
      aggregation is fallible: [None] is the rejected promise.
    - [Array.prototype.sort] is a stable sort driven by the sign of the
      comparator. *)

From Stdlib Require Import String ZArith QArith Qround Qabs Qpower List Bool Lia Lqa.
From Stdlib Require Import Permutation Sorted DecimalString Ascii.
Import ListNotations.
Open Scope Z_scope.


(** ** Binary64 numbers *)

Definition pow2 (k : Z) : Q := (2 ^ k)%Q.

(** [floor (log2 |x|)] for [x <> 0]. *)
Definition ilog2 (x : Q) : Z :=
  let k := Z.log2 (Z.abs (Qnum x)) - Z.log2 (Zpos (Qden x)) in
  if Qle_bool (pow2 k) (Qabs x) then k else k - 1.

(** The nearest integer, a half going to the even neighbour. *)
Definition roundHalfEven (x : Q) : Z :=
  let f := Qfloor x in
  match (x - inject_Z f ?= 1 # 2)%Q with
  | Lt => f
  | Gt => f + 1
  | Eq => if Z.even f then f else f + 1
  end.

(** The exponent of the last place of a double near [x]: 53 significant
    bits, and no finer than [2^-1074]. *)
Definition ulpExponent (x : Q) : Z := Z.max (-1074) (ilog2 x - 52).

Definition nearestPositive (a : Q) : Q :=
  let e := ulpExponent a in
  (inject_Z (roundHalfEven (a / pow2 e)) * pow2 e)%Q.

(** The double nearest to [x] if exponents were unbounded above. *)
Definition nearest (x : Q) : Q :=
  match (x ?= 0)%Q with
  | Eq => 0%Q
  | Gt => Qred (nearestPositive x)
  | Lt => Qred (- nearestPositive (- x))
  end.

(** A JavaScript [number], which is also the BSON [double] of the store.
    The two zeros are one value here: nothing in this code divides by a
    zero or prints its sign. *)
Inductive Double := NaN | Infinity (negative : bool) | Finite (q : Q).

(** The result of an operation whose exact value is [x]: the nearest
    double, an infinity from [2^1024 - 2^970] on. *)
Definition rnd (x : Q) : Double :=
  let y := nearest x in
  if Qle_bool (pow2 1024) (Qabs y) then Infinity (negb (Qle_bool 0 y)) else Finite y.

(** An integer as a number.  The integers of this code are counts, array
    lengths and milliseconds, none of which reaches [2^1024]. *)
Definition ofZ (z : Z) : Double := Finite (nearest (inject_Z z)).

(** [x * y], [x / y] and [x - y]. *)
Definition fmul (x y : Double) : Double :=
  match x, y with
  | NaN, _ | _, NaN => NaN
  | Finite a, Finite b => rnd (a * b)
  | Infinity s, Finite b | Finite b, Infinity s =>
      match (b ?= 0)%Q with
      | Eq => NaN
      | Gt => Infinity s
      | Lt => Infinity (negb s)
      end
  | Infinity s, Infinity s' => Infinity (xorb s s')
  end.

Definition fdiv (x y : Double) : Double :=
  match x, y with
  | NaN, _ | _, NaN => NaN
  | Finite a, Finite b =>
      if Qeq_bool b 0 then
        match (a ?= 0)%Q with
        | Eq => NaN
        | Gt => Infinity false
        | Lt => Infinity true
        end
      else rnd (a / b)
  | Finite _, Infinity _ => Finite 0
  | Infinity s, Finite b => Infinity (if Qle_bool 0 b then s else negb s)
  | Infinity _, Infinity _ => NaN
  end.

Definition fsub (x y : Double) : Double :=
  match x, y with
  | NaN, _ | _, NaN => NaN
  | Finite a, Finite b => rnd (a - b)
  | Finite _, Infinity s => Infinity (negb s)
  | Infinity s, Finite _ => Infinity s
  | Infinity s, Infinity s' => if Bool.eqb s s' then NaN else Infinity s
  end.

(** [x <= y] and [x < y]; a comparison with [NaN] is false. *)
Definition jsLe (x y : Double) : bool :=
  match x, y with
  | NaN, _ | _, NaN => false
  | Infinity true, _ => true
  | _, Infinity false => true
  | Finite a, Finite b => Qle_bool a b
  | _, _ => false
  end.

Definition jsLt (x y : Double) : bool :=
  match x, y with
  | NaN, _ | _, NaN => false
  | _, _ => negb (jsLe y x)
  end.

(** [Math.max(a, b)] and [Math.min(a, b)]: [NaN] when either is. *)
Definition mathMax (a b : Double) : Double :=
  match a, b with
  | NaN, _ | _, NaN => NaN
  | _, _ => if jsLt a b then b else a
  end.

Definition mathMin (a b : Double) : Double :=
  match a, b with
  | NaN, _ | _, NaN => NaN
  | _, _ => if jsLt b a then b else a
  end.

(** [Math.round]: the nearest integer, halves going up.  On a double the
    result is a double: from [2^52] on every double is an integer. *)
Definition mathRound (x : Double) : Double :=
  match x with
  | Finite y => Finite (inject_Z (Qfloor (y + (1 # 2))))
  | _ => x
  end.

(** [Math.floor] and [Math.ceil]. *)
Definition mathFloor (x : Double) : Double :=
  match x with
  | Finite y => Finite (inject_Z (Qfloor y))
  | _ => x
  end.

Definition mathCeil (x : Double) : Double :=
  match x with
  | Finite y => Finite (inject_Z (Qceiling y))
  | _ => x
  end.

(** [Math.round(x * 100) / 100]. *)
Definition round2 (x : Double) : Double :=
  fdiv (mathRound (fmul x (Finite 100))) (Finite 100).

(** [x || 1] on a number: [NaN] and [0] are falsy. *)
Definition orOne (x : Double) : Double :=
  match x with
  | NaN => Finite 1
  | Finite v => if Qeq_bool v 0 then Finite 1 else x
  | Infinity _ => x
  end.

(** The order of the numbers that are not [NaN]. *)
Definition dle (x y : Double) : Prop := jsLe x y = true.

(** The doubles are multiples of [2^-1074]. *)
Definition onGrid (x : Q) : Prop := exists k : Z, (x == inject_Z k * pow2 (-1074))%Q.

(** What an operation can return besides [NaN]. *)
Definition regular (x : Double) : Prop :=
  match x with
  | NaN => False
  | Infinity _ => True
  | Finite q => onGrid q
  end.

(** How [Array.prototype.sort] reads the result [c] of its comparator:
    the first argument stays in front unless [c > 0]; [NaN] counts as 0. *)
Definition notPositive (c : Double) : bool :=
  match c with
  | NaN => true
  | Infinity s => s
  | Finite q => Qle_bool q 0
  end.

(** [x <= y] with [NaN] below every number: the order in which a
    consistent comparator arranges the numbers. *)
Definition dleb (x y : Double) : bool :=
  match x, y with
  | NaN, _ => true
  | _, NaN => false
  | _, _ => jsLe x y
  end.

(** The unit roundoff of the doubles and a bound of the absolute error of
    a result below the normal range. *)
Definition ulp53 : Q := 1 # 9007199254740992.
Definition tiny : Q := pow2 (-1075).

(** [r] is a whole number of hundredths read as a double, [k / 100], whose
    numerator is within [1/2 + slack] of [100 x]: [x] rounded to two
    decimals, up to [slack]. *)
Definition hundredthsNear (slack x : Q) (r : Double) : Prop :=
  exists k : Z,
    r = Finite (nearest (inject_Z k / 100)) /\
    (Qabs (inject_Z k - 100 * x) <= (1 # 2) + slack)%Q.

(** [x > 0]. *)
Definition isPositive (x : Double) : Prop := jsLt (Finite 0) x = true.


(** ** types/serviceMetrics.ts *)

Inductive Severity := low | medium | high | critical.

Definition severityString (s : Severity) : string :=
  match s with
  | low => "low"
  | medium => "medium"
  | high => "high"
  | critical => "critical"
  end%string.

(** The number fields of a stored document are written as the rational
    of their decimal notation; the document holds the double nearest to it
    (see [double]). *)
Record ServiceMetric := {
  servicename : string;
  severity : Severity;
  timestamp : Z;
  responseTime : Q;
  statusCode : Z;
  requestCount : Z;
  cpuUsage : option Q;
  memoryUsage : option Q
}.

Inductive TimeRangeOption :=
| tr_5minutes | tr_10minutes | tr_1hour | tr_24hours | tr_7days | tr_custom.

Record AggregationQuery := {
  timeRange : option TimeRangeOption;
  startDate : option string;
  endDate : option string;
  servicenames : option (list string);
  severities : option (list string);
  rankBy : option string;
  limit : option Z
}.

Record StatusCodeEntry := {
  sc_statusCode : Z;
  sc_count : Z;
  sc_percentage : Double
}.

Record SeverityEntry := {
  sv_severity : string;
  sv_count : Z;
  sv_percentage : Double
}.

Module Rate.
Record t := {
  requestsPerSecond : Double;
  requestsPerMinute : Double;
  totalRequests : Z
}.
End Rate.

Module Error.
Record t := {
  errorRate : Double;
  errorCount : Z;
  totalRequests : Z;
  errorsByType : list StatusCodeEntry;
  errorsBySeverity : list SeverityEntry
}.
End Error.

Module Duration.
Record t := {
  averageResponseTime : Double;
  medianResponseTime : Double;
  p95ResponseTime : Double;
  p99ResponseTime : Double;
  minResponseTime : Double;
  maxResponseTime : Double
}.
End Duration.

Module Saturation.
Record t := {
  averageCpuUsage : Double;
  averageMemoryUsage : Double;
  maxCpuUsage : Double;
  maxMemoryUsage : Double;
  resourceUtilization : Severity
}.
End Saturation.

Record ServiceAggregation := {
  sa_servicename : string;
  rank : Z;
  rate : Rate.t;
  error : Error.t;
  duration : Duration.t;
  saturation : Saturation.t
}.

(** ** JavaScript and MongoDB primitives *)

(** Truthiness of an optional string: [undefined] and [""] are falsy. *)
Definition truthyString (s : option string) : bool :=
  match s with
  | Some s => negb (s =? "")%string
  | None => false
  end.

(** The value a number field holds: BSON, like JSON and a JavaScript
    literal, stores the double nearest to the decimal that is written. *)
Definition double (literal : Q) : Q := nearest literal.

(** A number read from a field or an array slot that may be missing:
    [undefined] becomes [NaN] in arithmetic. *)
Definition orUndefined (x : option Q) : Double :=
  match x with
  | Some v => Finite v
  | None => NaN
  end.

(** A count or a number of milliseconds that may be [NaN]. *)
Definition toNumber (x : option Z) : Double :=
  match x with
  | Some z => ofZ z
  | None => NaN
  end.

(** [Math.floor(n * 0.95)] and [Math.floor(n * 0.99)] on an array length.
    The doubles nearest to 0.95 and 0.99 lie below them by less than
    5e-17, and the product with an integer length rounds back to the
    integer whenever the exact product is one, so the floor is that of the
    exact product. *)
Definition p95IndexOf (n : nat) : nat := Z.to_nat (Qfloor (inject_Z (Z.of_nat n) * (95 # 100))).
Definition p99IndexOf (n : nat) : nat := Z.to_nat (Qfloor (inject_Z (Z.of_nat n) * (99 # 100))).

(** [$divide] and [$multiply] compute in doubles, integers being
    converted first; on a zero divisor the server raises "can't $divide by
    zero". *)
Definition mongoDivide (a b : Double) : option Double :=
  match b with
  | Finite q => if Qeq_bool q 0 then None else Some (fdiv a b)
  | _ => Some (fdiv a b)
  end.

Definition Qsum (l : list Q) : Q := fold_right Qplus 0%Q l.
Definition Zsum (l : list Z) : Z := fold_right Z.add 0 l.

Definition Qmin (a b : Q) : Q := if Qle_bool a b then a else b.
Definition Qmax (a b : Q) : Q := if Qle_bool a b then b else a.

(** [$avg], [$min], [$max] over an array field.  On an empty array the
    server yields [null]; a group always holds at least one document, and
    the value [0] stands for that unreachable case.  [$avg] divides the sum
    by the count.  The server adds doubles in a compensated (double-double)
    accumulator: the sum is taken exact and rounded once, which is what
    that accumulator returns unless the exact sum lies within about
    [2^-100] of the midpoint of two doubles. *)
Definition mongoAvg (l : list Q) : Double :=
  match l with
  | [] => Finite 0
  | _ => fdiv (rnd (Qsum l)) (ofZ (Z.of_nat (length l)))
  end.

Definition mongoMin (l : list Q) : Q :=
  match l with
  | [] => 0%Q
  | x :: l' => fold_left Qmin l' x
  end.

Definition mongoMax (l : list Q) : Q :=
  match l with
  | [] => 0%Q
  | x :: l' => fold_left Qmax l' x
  end.

(** [$slice: [array, position, n]] for a non-negative position. *)
Definition mongoSlice {A} (l : list A) (position n : nat) : list A :=
  firstn n (skipn position l).

(** [$arrayElemAt] for a non-negative index; [None] is the missing field. *)
Definition arrayElemAt {A} (l : list A) (i : nat) : option A := nth_error l i.

(** [Array.prototype.sort(cmp)]: [a] is placed after [b] only when
    [cmp a b > 0]; equal elements keep their order. *)
Section Sort.
Context {A : Type} (cmp : A -> A -> Double).

Fixpoint sortInsert (x : A) (l : list A) : list A :=
  match l with
  | [] => [x]
  | y :: l' => if notPositive (cmp x y) then x :: l else y :: sortInsert x l'
  end.

Definition jsSort (l : list A) : list A := fold_right sortInsert [] l.
End Sort.

(** [$sortArray: { input, sortBy: 1 }] on numbers: the server compares
    the values themselves. *)
Definition sortArray (l : list Q) : list Q := jsSort (fun a b => Finite (a - b)) l.

(** [Array.prototype.slice(0, end)]: a negative [end] counts from the end. *)
Definition jsSlice0 {A} (l : list A) (e : Z) : list A :=
  let len := Z.of_nat (length l) in
  let k := if e <? 0 then Z.max (len + e) 0 else Z.min e len in
  firstn (Z.to_nat k) l.

(** [array.map((x, index) => f x index)]. *)
Fixpoint mapi_from {A B} (f : A -> nat -> B) (i : nat) (l : list A) : list B :=
  match l with
  | [] => []
  | x :: l' => f x i :: mapi_from f (S i) l'
  end.

Definition mapi {A B} (f : A -> nat -> B) (l : list A) : list B := mapi_from f 0 l.

(** Sequencing of fallible steps. *)
Definition bind {A B} (m : option A) (k : A -> option B) : option B :=
  match m with Some a => k a | None => None end.

Notation "x <- m ;; k" := (bind m (fun x => k))
  (at level 61, m at next level, right associativity).

Fixpoint mapM {A B} (f : A -> option B) (l : list A) : option (list B) :=
  match l with
  | [] => Some []
  | x :: l' => y <- f x ;; ys <- mapM f l' ;; Some (y :: ys)
  end.

(** [Map<K, number>]: entries in insertion order; [set] on a present key
    keeps its position. *)
Section JsMap.
Context {K : Type} (eqb : K -> K -> bool).

Fixpoint mapGet (m : list (K * Z)) (k : K) : option Z :=
  match m with
  | [] => None
  | (k', v) :: m' => if eqb k' k then Some v else mapGet m' k
  end.

Fixpoint mapSet (m : list (K * Z)) (k : K) (v : Z) : list (K * Z) :=
  match m with
  | [] => [(k, v)]
  | (k', v') :: m' =>
      if eqb k' k then (k', v) :: m' else (k', v') :: mapSet m' k v
  end.
End JsMap.

(** [x || 0] on the result of [Map.get]. *)
Definition orZero (x : option Z) : Z :=
  match x with Some v => v | None => 0 end.

(** ** utils/dateUtils.ts *)

Module DateUtils.
Definition getTimeRangeInMinutes (timeRange : TimeRangeOption) : Z :=
  match timeRange with
  | tr_5minutes => 5
  | tr_10minutes => 10
  | tr_1hour => 60
  | tr_24hours => 1440
  | tr_7days => 10080
  | tr_custom => 0
  end.

(** [now] is the value of [new Date()] read by the call. *)
Definition getDateRangeFromTimeOption (now : Z) (timeRange : TimeRangeOption) : Z * Z :=
  let endDate := now in
  let minutes := getTimeRangeInMinutes timeRange in
  let startDate := endDate - minutes * 60 * 1000 in
  (startDate, endDate).
End DateUtils.

(** ** services/serviceMetricsService.ts *)

(** Documents flowing between the pipeline stages. *)
Record GroupDoc := {
  g_id : string;
  g_totalRequests : Z;
  g_errorCount : Z;
  g_responseTimes : list Q;
  g_cpuUsages : list Q;
  g_memoryUsages : list Q;
  g_errorsByStatusCode : list (option (Z * Z));
  g_errorsBySeverity : list (option (string * Z))
}.

Record ProjectDoc := {
  p_servicename : string;
  p_totalRequests : Z;
  p_errorCount : Z;
  p_errorRate : Double;
  p_requestsPerSecond : Double;
  p_requestsPerMinute : Double;
  p_responseTimes : list Q;
  p_cpuUsages : list Q;
  p_memoryUsages : list Q;
  p_errorsByStatusCode : list (option (Z * Z));
  p_errorsBySeverity : list (option (string * Z))
}.

Record ResultDoc := {
  doc : ProjectDoc;
  r_averageResponseTime : Double;
  r_medianResponseTime : option Q;
  r_minResponseTime : Q;
  r_maxResponseTime : Q;
  r_averageCpuUsage : Double;
  r_averageMemoryUsage : Double;
  r_maxCpuUsage : Q;
  r_maxMemoryUsage : Q
}.

(** The [timestamp] clause of the match stage: [$gte] and [$lte] bounds,
    each a [Date] whose [getTime()] may be [NaN]. *)
Definition DateFilter : Type := option (option Z * option Z).

(** The driver writes a [Date] as the 64-bit integer of its [getTime()],
    and an invalid one as 0. *)
Definition bsonDate (d : option Z) : Z :=
  match d with Some t => t | None => 0 end.

Section Service.
(** [new Date(s).getTime()], [None] when [s] does not parse. *)
Variable parseDate : string -> option Z.

Definition buildDateFilter (now : Z) (query : AggregationQuery) : DateFilter :=
  match timeRange query with
  | Some tr_custom | None =>
      if truthyString (startDate query) && truthyString (endDate query) then
        match startDate query, endDate query with
        | Some s, Some e => Some (parseDate s, parseDate e)
        | _, _ => None
        end
      else None
  | Some tr =>
      let '(s, e) := DateUtils.getDateRangeFromTimeOption now tr in
      Some (Some s, Some e)
  end.

(** The [servicename] and [severity] clauses: an optional [$in] list each. *)
Definition buildServiceFilter (query : AggregationQuery)
  : option (list string) * option (list string) :=
  (match servicenames query with
   | Some l => if (0 <? Z.of_nat (length l)) then Some l else None
   | None => None
   end,
   match severities query with
   | Some l => if (0 <? Z.of_nat (length l)) then Some l else None
   | None => None
   end).

Definition inList (s : string) (l : list string) : bool :=
  existsb (String.eqb s) l.

Definition matchesDate (f : DateFilter) (m : ServiceMetric) : bool :=
  match f with
  | Some (s, e) => (bsonDate s <=? timestamp m) && (timestamp m <=? bsonDate e)
  | None => true
  end.

Definition matchesService (f : option (list string) * option (list string))
    (m : ServiceMetric) : bool :=
  match fst f with Some l => inList (servicename m) l | None => true end
  && match snd f with Some l => inList (severityString (severity m)) l | None => true end.

(** [{ $match: { ...dateFilter, ...serviceFilter } }]. *)
Definition matchStage (now : Z) (query : AggregationQuery) (m : ServiceMetric) : bool :=
  matchesDate (buildDateFilter now query) m
  && matchesService (buildServiceFilter query) m.

Definition calculateResourceUtilization (cpuUsage memoryUsage : Double) : Severity :=
  let maxUsage := mathMax cpuUsage memoryUsage in
  if jsLe (Finite 90) maxUsage then critical
  else if jsLe (Finite 70) maxUsage then high
  else if jsLe (Finite 50) maxUsage then medium
  else low.

Definition getTimeRangeInMs (query : AggregationQuery) : option Z :=
  match timeRange query with
  | Some tr_custom | None =>
      if truthyString (startDate query) && truthyString (endDate query) then
        match startDate query, endDate query with
        | Some s, Some e =>
            e' <- parseDate e ;; s' <- parseDate s ;; Some (e' - s')
        | _, _ => Some (24 * 60 * 60 * 1000)
        end
      else Some (24 * 60 * 60 * 1000)
  | Some tr =>
      let minutes := DateUtils.getTimeRangeInMinutes tr in
      Some (minutes * 60 * 1000)
  end.

Definition timeRangeSeconds (query : AggregationQuery) : Double :=
  fdiv (toNumber (getTimeRangeInMs query)) (Finite 1000).

Definition timeRangeMinutes (query : AggregationQuery) : Double :=
  fdiv (timeRangeSeconds query) (Finite 60).

(** The [$group] stage: one accumulator document per [servicename],
    updated by each matching document in turn.  The order of the list is
    the order in which the server happens to scan the documents: it fixes
    the order in which the groups are emitted and the order of the pushed
    arrays, neither of which the store promises.  What holds of every run
    is therefore stated for every arrangement of the collection. *)
Definition isError (m : ServiceMetric) : bool := 400 <=? statusCode m.

Definition ifNull (x : option Q) (d : Q) : Q :=
  match x with Some v => v | None => d end.

Definition emptyGroup (id : string) : GroupDoc :=
  {| g_id := id; g_totalRequests := 0; g_errorCount := 0;
     g_responseTimes := []; g_cpuUsages := []; g_memoryUsages := [];
     g_errorsByStatusCode := []; g_errorsBySeverity := [] |}.

Definition accumulate (g : GroupDoc) (m : ServiceMetric) : GroupDoc :=
  {| g_id := g_id g;
     g_totalRequests := g_totalRequests g + requestCount m;
     g_errorCount := g_errorCount g + (if isError m then requestCount m else 0);
     g_responseTimes := g_responseTimes g ++ [double (responseTime m)];
     g_cpuUsages := g_cpuUsages g ++ [ifNull (option_map double (cpuUsage m)) 0];
     g_memoryUsages := g_memoryUsages g ++ [ifNull (option_map double (memoryUsage m)) 0];
     g_errorsByStatusCode :=
       g_errorsByStatusCode g ++
       [if isError m then Some (statusCode m, requestCount m) else None];
     g_errorsBySeverity :=
       g_errorsBySeverity g ++
       [if isError m then Some (severityString (severity m), requestCount m)
        else None] |}.

Fixpoint upsertGroup (m : ServiceMetric) (gs : list GroupDoc) : list GroupDoc :=
  match gs with
  | [] => [accumulate (emptyGroup (servicename m)) m]
  | g :: gs' =>
      if (g_id g =? servicename m)%string then accumulate g m :: gs'
      else g :: upsertGroup m gs'
  end.

Definition groupStage (docs : list ServiceMetric) : list GroupDoc :=
  fold_left (fun gs m => upsertGroup m gs) docs [].

Definition notNull {A} (x : option A) : bool :=
  match x with Some _ => true | None => false end.

(** The [$project] stage. *)
Definition projectStage (query : AggregationQuery) (g : GroupDoc) : option ProjectDoc :=
  ratio <- mongoDivide (ofZ (g_errorCount g)) (ofZ (g_totalRequests g)) ;;
  rps <- mongoDivide (ofZ (g_totalRequests g)) (orOne (timeRangeSeconds query)) ;;
  rpm <- mongoDivide (ofZ (g_totalRequests g)) (orOne (timeRangeMinutes query)) ;;
  Some {| p_servicename := g_id g;
          p_totalRequests := g_totalRequests g;
          p_errorCount := g_errorCount g;
          p_errorRate := fmul ratio (Finite 100);
          p_requestsPerSecond := rps;
          p_requestsPerMinute := rpm;
          p_responseTimes := g_responseTimes g;
          p_cpuUsages := g_cpuUsages g;
          p_memoryUsages := g_memoryUsages g;
          p_errorsByStatusCode := filter notNull (g_errorsByStatusCode g);
          p_errorsBySeverity := filter notNull (g_errorsBySeverity g) |}.

(** The [$addFields] stage. *)
Definition addFieldsStage (p : ProjectDoc) : ResultDoc :=
  {| doc := p;
     r_averageResponseTime := mongoAvg (p_responseTimes p);
     r_medianResponseTime :=
       arrayElemAt
         (mongoSlice (sortArray (p_responseTimes p))
                     (Nat.div (length (p_responseTimes p)) 2) 1)
         0;
     r_minResponseTime := mongoMin (p_responseTimes p);
     r_maxResponseTime := mongoMax (p_responseTimes p);
     r_averageCpuUsage := mongoAvg (p_cpuUsages p);
     r_averageMemoryUsage := mongoAvg (p_memoryUsages p);
     r_maxCpuUsage := mongoMax (p_cpuUsages p);
     r_maxMemoryUsage := mongoMax (p_memoryUsages p) |}.

(** [collection.aggregate(pipeline).toArray()]. *)
Definition runPipeline (now : Z) (query : AggregationQuery)
    (collection : list ServiceMetric) : option (list ResultDoc) :=
  ps <- mapM (projectStage query) (groupStage (filter (matchStage now query) collection)) ;;
  Some (map addFieldsStage ps).

(** [totalErrors > 0 ? Math.round((count / totalErrors) * 10000) / 100 : 0]. *)
Definition percentageOf (count totalErrors : Z) : Double :=
  if 0 <? totalErrors
  then fdiv (mathRound (fmul (fdiv (ofZ count) (ofZ totalErrors)) (Finite 10000)))
            (Finite 100)
  else Finite 0.

Definition tallyStatusCode (errorMap : list (Z * Z)) (error : option (Z * Z)) : list (Z * Z) :=
  match error with
  | Some (statusCode, count) =>
      if negb (statusCode =? 0) then
        let current := orZero (mapGet Z.eqb errorMap statusCode) in
        mapSet Z.eqb errorMap statusCode (current + count)
      else errorMap
  | None => errorMap
  end.

Definition processErrorsByStatusCode (errors : list (option (Z * Z))) (totalErrors : Z)
  : list StatusCodeEntry :=
  let errorMap := fold_left tallyStatusCode errors [] in
  jsSort (fun a b => ofZ (sc_count b - sc_count a))
    (map (fun '(statusCode, count) =>
            {| sc_statusCode := statusCode; sc_count := count;
               sc_percentage := percentageOf count totalErrors |})
         errorMap).

Definition tallySeverity (severityMap : list (string * Z)) (error : option (string * Z))
  : list (string * Z) :=
  match error with
  | Some (severity, count) =>
      if negb (severity =? "")%string then
        let current := orZero (mapGet String.eqb severityMap severity) in
        mapSet String.eqb severityMap severity (current + count)
      else severityMap
  | None => severityMap
  end.

Definition processErrorsBySeverity (errors : list (option (string * Z))) (totalErrors : Z)
  : list SeverityEntry :=
  let severityMap := fold_left tallySeverity errors [] in
  jsSort (fun a b => ofZ (sv_count b - sv_count a))
    (map (fun '(severity, count) =>
            {| sv_severity := severity; sv_count := count;
               sv_percentage := percentageOf count totalErrors |})
         severityMap).

(** The callback of [results.map] in [aggregateServiceMetrics]. *)
Definition processResult (result : ResultDoc) (index : nat) : ServiceAggregation :=
  let responseTimes :=
    jsSort (fun a b => fsub (Finite a) (Finite b)) (p_responseTimes (doc result)) in
  let p95Index := p95IndexOf (length responseTimes) in
  let p99Index := p99IndexOf (length responseTimes) in
  let errorsByType :=
    processErrorsByStatusCode (p_errorsByStatusCode (doc result)) (p_errorCount (doc result)) in
  let errorsBySeverity :=
    processErrorsBySeverity (p_errorsBySeverity (doc result)) (p_errorCount (doc result)) in
  {| sa_servicename := p_servicename (doc result);
     rank := Z.of_nat index + 1;
     rate :=
       {| Rate.requestsPerSecond := round2 (p_requestsPerSecond (doc result));
          Rate.requestsPerMinute := round2 (p_requestsPerMinute (doc result));
          Rate.totalRequests := p_totalRequests (doc result) |};
     error :=
       {| Error.errorRate := round2 (p_errorRate (doc result));
          Error.errorCount := p_errorCount (doc result);
          Error.totalRequests := p_totalRequests (doc result);
          Error.errorsByType := errorsByType;
          Error.errorsBySeverity := errorsBySeverity |};
     duration :=
       {| Duration.averageResponseTime := round2 (r_averageResponseTime result);
          Duration.medianResponseTime :=
            round2 (orUndefined (r_medianResponseTime result));
          Duration.p95ResponseTime :=
            round2 (orUndefined (nth_error responseTimes p95Index));
          Duration.p99ResponseTime :=
            round2 (orUndefined (nth_error responseTimes p99Index));
          Duration.minResponseTime := Finite (r_minResponseTime result);
          Duration.maxResponseTime := Finite (r_maxResponseTime result) |};
     saturation :=
       {| Saturation.averageCpuUsage := round2 (r_averageCpuUsage result);
          Saturation.averageMemoryUsage := round2 (r_averageMemoryUsage result);
          Saturation.maxCpuUsage := Finite (r_maxCpuUsage result);
          Saturation.maxMemoryUsage := Finite (r_maxMemoryUsage result);
          Saturation.resourceUtilization :=
            calculateResourceUtilization
              (r_averageCpuUsage result) (r_averageMemoryUsage result) |} |}.

(** The sort key selected by the [switch] of [rankServices]. *)
Definition saturationKey (a : ServiceAggregation) : Double :=
  mathMax (Saturation.averageCpuUsage (saturation a))
          (Saturation.averageMemoryUsage (saturation a)).

Definition rankKey (rankBy : string) (a : ServiceAggregation) : Double :=
  if (rankBy =? "rate")%string then Rate.requestsPerSecond (rate a)
  else if (rankBy =? "error")%string then Error.errorRate (error a)
  else if (rankBy =? "duration")%string then Duration.averageResponseTime (duration a)
  else if (rankBy =? "saturation")%string then saturationKey a
  else Error.errorRate (error a).

Definition setRank (service : ServiceAggregation) (index : nat) : ServiceAggregation :=
  {| sa_servicename := sa_servicename service;
     rank := Z.of_nat index + 1;
     rate := rate service;
     error := error service;
     duration := duration service;
     saturation := saturation service |}.

(** [limit ? sortedServices.slice(0, limit) : sortedServices]:
    [undefined], [0] and [NaN] are falsy; a [NaN] limit behaves as none. *)
Definition rankServices (services : list ServiceAggregation) (rankBy : string)
    (limit : option Z) : list ServiceAggregation :=
  let sortedServices :=
    jsSort (fun a b => fsub (rankKey rankBy b) (rankKey rankBy a)) services in
  let ranked := mapi setRank sortedServices in
  match limit with
  | Some k => if negb (k =? 0) then jsSlice0 ranked k else ranked
  | None => ranked
  end.

(** [query.rankBy || 'error']. *)
Definition rankByOrDefault (query : AggregationQuery) : string :=
  match rankBy query with
  | Some s => if (s =? "")%string then "error"%string else s
  | None => "error"%string
  end.

Definition aggregateServiceMetrics (now : Z) (query : AggregationQuery)
    (collection : list ServiceMetric) : option (list ServiceAggregation) :=
  results <- runPipeline now query collection ;;
  let processedResults := mapi processResult results in
  Some (rankServices processedResults (rankByOrDefault query) (limit query)).
End Service.

(** * Definitions used by the statements *)

(** [a] may stand before [b] in an array sorted with [cmp]. *)
Definition sortedBefore {A : Type} (cmp : A -> A -> Double) (a b : A) : Prop :=
  notPositive (cmp a b) = true.

(** The documents of one service among [docs], in scan order. *)
Definition eventsOf (id : string) (docs : list ServiceMetric) : list ServiceMetric :=
  filter (fun m => (servicename m =? id)%string) docs.

(** The accumulator of one service over a whole scan. *)
Definition groupOf (id : string) (docs : list ServiceMetric) : GroupDoc :=
  fold_left accumulate (eventsOf id docs) (emptyGroup id).

(** The items [$push]ed for one document. *)
Definition statusItem (m : ServiceMetric) : option (Z * Z) :=
  if isError m then Some (statusCode m, requestCount m) else None.

Definition severityItem (m : ServiceMetric) : option (string * Z) :=
  if isError m then Some (severityString (severity m), requestCount m) else None.

(** What the accumulator list holds after scanning [docs]. *)
Record GroupsInv (docs : list ServiceMetric) (gs : list GroupDoc) : Prop := {
  inv_nodup : NoDup (map g_id gs);
  inv_group : forall g, In g gs -> g = groupOf (g_id g) docs /\ eventsOf (g_id g) docs <> [];
  inv_cover : forall m, In m docs -> In (servicename m) (map g_id gs)
}.

(** The documents the [$match] stage lets through. *)
Definition matched (parseDate : string -> option Z) (now : Z) (query : AggregationQuery)
    (collection : list ServiceMetric) : list ServiceMetric :=
  filter (matchStage parseDate now query) collection.

(** The fully ranked list, before the limit is applied. *)
Definition rankedAll (services : list ServiceAggregation) (rb : string) : list ServiceAggregation :=
  mapi setRank (jsSort (fun a b => fsub (rankKey rb b) (rankKey rb a)) services).

(** The sort key of each criterion, as the ranking table of the
    specification lists them: the error rate is the key for [error], for an
    absent criterion and for any unrecognised one. *)
Definition criterionKey (rankBy : option string) (a : ServiceAggregation) : Double :=
  match rankBy with
  | None => Error.errorRate (error a)
  | Some s =>
      if (s =? "rate")%string then Rate.requestsPerSecond (rate a)
      else if (s =? "duration")%string then Duration.averageResponseTime (duration a)
      else if (s =? "saturation")%string then
        mathMax (Saturation.averageCpuUsage (saturation a))
                (Saturation.averageMemoryUsage (saturation a))
      else Error.errorRate (error a)
  end.

Definition withoutLimit (query : AggregationQuery) : AggregationQuery :=
  {| timeRange := timeRange query; startDate := startDate query;
     endDate := endDate query; servicenames := servicenames query;
     severities := severities query; rankBy := rankBy query; limit := None |}.

(** The two divisors the [$project] stage uses. *)
Definition secondsDivisor (parseDate : string -> option Z) (query : AggregationQuery)
  : Double :=
  orOne (timeRangeSeconds parseDate query).

Definition minutesDivisor (parseDate : string -> option Z) (query : AggregationQuery)
  : Double :=
  orOne (timeRangeMinutes parseDate query).

(** The fixed window lengths of the named time ranges, in seconds, as the
    specification lists them. *)
Definition namedSeconds (tr : TimeRangeOption) : option Z :=
  match tr with
  | tr_5minutes => Some 300
  | tr_10minutes => Some 600
  | tr_1hour => Some 3600
  | tr_24hours => Some 86400
  | tr_7days => Some 604800
  | tr_custom => None
  end.

(** The query selects its window by explicit bounds. *)
Definition customOrAbsent (query : AggregationQuery) : Prop :=
  timeRange query = Some tr_custom \/ timeRange query = None.

Definition bothBounds (query : AggregationQuery) : bool :=
  truthyString (startDate query) && truthyString (endDate query).

(** The latency samples of one service: one per matching document. *)
Definition responseTimesOf (parseDate : string -> option Z) (now : Z)
    (query : AggregationQuery) (collection : list ServiceMetric) (id : string) : list Q :=
  map (fun m => double (responseTime m))
    (filter (fun m => matchStage parseDate now query m && (servicename m =? id)%string)
            collection).

(** Both breakdowns tally [(key, count)] items into a [Map]: [tally] is
    the step their [forEach] callbacks share, for any key type, [eqb]
    being the key comparison of the map and [truthy] the test the callback
    makes on the key. *)
Definition tally {K : Type} (eqb : K -> K -> bool) (truthy : K -> bool)
    (m : list (K * Z)) (item : option (K * Z)) : list (K * Z) :=
  match item with
  | Some (k, c) =>
      if truthy k then mapSet eqb m k (orZero (mapGet eqb m k) + c) else m
  | None => m
  end.

(** The item is tallied under key [k]. *)
Definition itemHasKey {K : Type} (eqb : K -> K -> bool) (truthy : K -> bool)
    (k : K) (item : option (K * Z)) : bool :=
  match item with
  | Some (k', _) => truthy k' && eqb k' k
  | None => false
  end.

(** What the item adds to the map. *)
Definition itemCount {K : Type} (truthy : K -> bool) (item : option (K * Z)) : Z :=
  match item with
  | Some (k, c) => if truthy k then c else 0
  | None => 0
  end.

Definition keySeen {K : Type} (eqb : K -> K -> bool) (truthy : K -> bool)
    (k : K) (items : list (option (K * Z))) : bool :=
  existsb (itemHasKey eqb truthy k) items.

Definition keyCount {K : Type} (eqb : K -> K -> bool) (truthy : K -> bool)
    (k : K) (items : list (option (K * Z))) : Z :=
  Zsum (map (itemCount truthy) (filter (itemHasKey eqb truthy k) items)).

(** What a breakdown array is, relative to the error events [errs] of the
    group and its [totalErrors]: one entry per distinct key, each with the
    summed count of its events and its share of the errors as a whole
    number of hundredths next to [100 * count / totalErrors], the larger
    counts first, the shares adding up to 100 within a little more than
    half a hundredth per entry. *)
Record Breakdown {K Entry : Type} (eqb : K -> K -> bool)
    (key : Entry -> K) (count : Entry -> Z) (percentage : Entry -> Double)
    (keyOf : ServiceMetric -> K) (errs : list ServiceMetric) (totalErrors : Z)
    (entries : list Entry) : Prop := {
  bd_distinct : NoDup (map key entries);
  bd_keys : forall k, In k (map key entries) <-> exists m, In m errs /\ keyOf m = k;
  bd_count : forall e, In e entries ->
    count e = Zsum (map requestCount (filter (fun m => eqb (keyOf m) (key e)) errs));
  bd_percentage : forall e, In e entries ->
    if 0 <? totalErrors
    then hundredthsNear (pow2 (-36))
           (100 * inject_Z (count e) / inject_Z totalErrors) (percentage e)
    else percentage e = Finite 0;
  bd_sorted : StronglySorted (fun a b => count b <= count a) entries;
  bd_sum : 0 < totalErrors ->
    exists shares : list Q,
      map percentage entries = map Finite shares /\
      (Qabs (Qsum shares - 100)
       <= inject_Z (Z.of_nat (length entries)) * ((1 # 200) + pow2 (-42)))%Q
}.

(** The items the pipeline hands over for the error events [errs], keyed
    by [keyOf]. *)
Definition itemsOf {K : Type} (keyOf : ServiceMetric -> K) (errs : list ServiceMetric)
  : list (option (K * Z)) :=
  map (fun m => Some (keyOf m, requestCount m)) errs.

(** The common shape of [processErrorsByStatusCode] and
    [processErrorsBySeverity]. *)
Definition processWith {K Entry : Type} (eqb : K -> K -> bool) (truthy : K -> bool)
    (mk : K -> Z -> Double -> Entry) (count : Entry -> Z)
    (items : list (option (K * Z))) (totalErrors : Z) : list Entry :=
  jsSort (fun a b => ofZ (count b - count a))
    (map (fun '(k, c) => mk k c (percentageOf c totalErrors))
         (fold_left (tally eqb truthy) items [])).

(** ** Example data *)

(** [new Date(s).getTime()] on the two date strings the examples use. *)
Definition isoDate (s : string) : option Z :=
  if (s =? "1970-01-01T00:00:00.000Z")%string then Some 0
  else if (s =? "1970-01-02T00:00:00.000Z")%string then Some 86400000
  else None.

(** An event of severity [high] at instant 0 standing for one request. *)
Definition metric (name : string) (rt : Q) (sc : Z) : ServiceMetric :=
  {| servicename := name; severity := high; timestamp := 0; responseTime := rt;
     statusCode := sc; requestCount := 1; cpuUsage := None; memoryUsage := None |}.

Definition anyQuery : AggregationQuery :=
  {| timeRange := None; startDate := None; endDate := None; servicenames := None;
     severities := None; rankBy := None; limit := None |}.

Definition withLimit (k : Z) : AggregationQuery :=
  {| timeRange := None; startDate := None; endDate := None; servicenames := None;
     severities := None; rankBy := None; limit := Some k |}.

Definition customQuery (s e : string) : AggregationQuery :=
  {| timeRange := Some tr_custom; startDate := Some s; endDate := Some e;
     servicenames := None; severities := None; rankBy := None; limit := None |}.

Definition namedQuery (tr : TimeRangeOption) : AggregationQuery :=
  {| timeRange := Some tr; startDate := None; endDate := None; servicenames := None;
     severities := None; rankBy := None; limit := None |}.

(** The scenario of the specification: three events of service [A]. *)
Definition specExample : list ServiceMetric :=
  [metric "A" 10 200; metric "A" 20 500; metric "A" 30 200].

Definition noSaturation : Saturation.t :=
  {| Saturation.averageCpuUsage := Finite 0; Saturation.averageMemoryUsage := Finite 0;
     Saturation.maxCpuUsage := Finite 0; Saturation.maxMemoryUsage := Finite 0;
     Saturation.resourceUtilization := low |}.

Definition specExampleA : ServiceAggregation :=
  {| sa_servicename := "A"; rank := 1;
     rate := {| Rate.requestsPerSecond := Finite 0; Rate.requestsPerMinute := Finite 0;
                Rate.totalRequests := 3 |};
     error := {| Error.errorRate := rnd (3333 # 100); Error.errorCount := 1;
                 Error.totalRequests := 3;
                 Error.errorsByType :=
                   [{| sc_statusCode := 500; sc_count := 1; sc_percentage := Finite 100 |}];
                 Error.errorsBySeverity :=
                   [{| sv_severity := "high"; sv_count := 1; sv_percentage := Finite 100 |}] |};
     duration := {| Duration.averageResponseTime := Finite 20;
                    Duration.medianResponseTime := Finite 20;
                    Duration.p95ResponseTime := Finite 30;
                    Duration.p99ResponseTime := Finite 30;
                    Duration.minResponseTime := Finite 10;
                    Duration.maxResponseTime := Finite 30 |};
     saturation := noSaturation |}.

(** One event whose latency has three decimals. *)
Definition fractionalExample : list ServiceMetric := [metric "B" (10004 # 1000) 404].

Definition fractionalExampleB : ServiceAggregation :=
  {| sa_servicename := "B"; rank := 1;
     rate := {| Rate.requestsPerSecond := Finite 0; Rate.requestsPerMinute := Finite 0;
                Rate.totalRequests := 1 |};
     error := {| Error.errorRate := Finite 100; Error.errorCount := 1;
                 Error.totalRequests := 1;
                 Error.errorsByType :=
                   [{| sc_statusCode := 404; sc_count := 1; sc_percentage := Finite 100 |}];
                 Error.errorsBySeverity :=
                   [{| sv_severity := "high"; sv_count := 1; sv_percentage := Finite 100 |}] |};
     duration := {| Duration.averageResponseTime := Finite 10;
                    Duration.medianResponseTime := Finite 10;
                    Duration.p95ResponseTime := Finite 10;
                    Duration.p99ResponseTime := Finite 10;
                    Duration.minResponseTime := rnd (10004 # 1000);
                    Duration.maxResponseTime := rnd (10004 # 1000) |};
     saturation := noSaturation |}.

(** Two services: [B] has the higher error rate and is ranked first. *)
Definition twoServices : list ServiceMetric := specExample ++ fractionalExample.

Definition twoServicesRanked : list ServiceAggregation :=
  [fractionalExampleB; setRank specExampleA 1].

(** Explicit bounds with the end one day before the start, and with the end
    equal to the start. *)
Definition backwardsQuery : AggregationQuery :=
  customQuery "1970-01-02T00:00:00.000Z" "1970-01-01T00:00:00.000Z".

Definition instantQuery : AggregationQuery :=
  customQuery "1970-01-01T00:00:00.000Z" "1970-01-01T00:00:00.000Z".


(** * Definitions used by the further properties *)

(** The order of the utilisation bands. *)
Definition severityRank (s : Severity) : Z :=
  match s with
  | low => 0
  | medium => 1
  | high => 2
  | critical => 3
  end.

(** The query with another [servicenames] allow-list. *)
Definition withServicenames (l : option (list string)) (query : AggregationQuery)
  : AggregationQuery :=
  {| timeRange := timeRange query; startDate := startDate query;
     endDate := endDate query; servicenames := l;
     severities := severities query; rankBy := rankBy query; limit := limit query |}.

(** The query with another [severities] allow-list. *)
Definition withSeverities (l : option (list string)) (query : AggregationQuery)
  : AggregationQuery :=
  {| timeRange := timeRange query; startDate := startDate query;
     endDate := endDate query; servicenames := servicenames query;
     severities := l; rankBy := rankBy query; limit := limit query |}.

(** The query with another ranking criterion. *)
Definition withRankBy (rb : option string) (query : AggregationQuery)
  : AggregationQuery :=
  {| timeRange := timeRange query; startDate := startDate query;
     endDate := endDate query; servicenames := servicenames query;
     severities := severities query; rankBy := rb; limit := limit query |}.

(** A record with its rank reset. *)
Definition unranked (r : ServiceAggregation) : ServiceAggregation := setRank r 0.

(** The matching documents of one service, and their gauges with 0 for an
    absent one. *)
Definition matchingEventsOf (parseDate : string -> option Z) (now : Z)
    (query : AggregationQuery) (collection : list ServiceMetric) (id : string)
  : list ServiceMetric :=
  filter (fun m => matchStage parseDate now query m && (servicename m =? id)%string)
         collection.

Definition cpuSamplesOf (parseDate : string -> option Z) (now : Z)
    (query : AggregationQuery) (collection : list ServiceMetric) (id : string) : list Q :=
  map (fun m => ifNull (option_map double (cpuUsage m)) 0)
      (matchingEventsOf parseDate now query collection id).

Definition memorySamplesOf (parseDate : string -> option Z) (now : Z)
    (query : AggregationQuery) (collection : list ServiceMetric) (id : string) : list Q :=
  map (fun m => ifNull (option_map double (memoryUsage m)) 0)
      (matchingEventsOf parseDate now query collection id).

(** The record computed for one service from its matching documents
    [evs], as the pipeline and the result callback build it. *)
Definition summaryOf (parseDate : string -> option Z) (query : AggregationQuery)
    (id : string) (evs : list ServiceMetric) : option ServiceAggregation :=
  p <- projectStage parseDate query (fold_left accumulate evs (emptyGroup id)) ;;
  Some (processResult (addFieldsStage p) 0).

(** Two records report the same statistics: every field but the rank
    agrees, the breakdown arrays up to the order of their entries. *)
Record SameStatistics (r r' : ServiceAggregation) : Prop := {
  same_name : sa_servicename r' = sa_servicename r;
  same_rate : rate r' = rate r;
  same_errorRate : Error.errorRate (error r') = Error.errorRate (error r);
  same_errorCount : Error.errorCount (error r') = Error.errorCount (error r);
  same_totalRequests : Error.totalRequests (error r') = Error.totalRequests (error r);
  same_errorsByType :
    forall e, In e (Error.errorsByType (error r')) <-> In e (Error.errorsByType (error r));
  same_errorsBySeverity :
    forall e, In e (Error.errorsBySeverity (error r'))
              <-> In e (Error.errorsBySeverity (error r));
  same_duration : duration r' = duration r;
  same_saturation : saturation r' = saturation r
}.

(** The numbers an array of the pipeline holds: doubles, each in its
    canonical form. *)
Definition doubles (l : list Q) : Prop := Forall (fun x => onGrid x /\ Qred x = x) l.

(** Two documents of the [$project] stage for the same service whose
    arrays hold the same elements in another order. *)
Record PermutedDocs (p p' : ProjectDoc) : Prop := {
  pd_name : p_servicename p' = p_servicename p;
  pd_total : p_totalRequests p' = p_totalRequests p;
  pd_errors : p_errorCount p' = p_errorCount p;
  pd_errorRate : p_errorRate p' = p_errorRate p;
  pd_rps : p_requestsPerSecond p' = p_requestsPerSecond p;
  pd_rpm : p_requestsPerMinute p' = p_requestsPerMinute p;
  pd_responseTimes : Permutation (p_responseTimes p) (p_responseTimes p');
  pd_cpu : Permutation (p_cpuUsages p) (p_cpuUsages p');
  pd_memory : Permutation (p_memoryUsages p) (p_memoryUsages p');
  pd_byStatus : Permutation (p_errorsByStatusCode p) (p_errorsByStatusCode p');
  pd_bySeverity : Permutation (p_errorsBySeverity p) (p_errorsBySeverity p');
  pd_doubles :
    doubles (p_responseTimes p) /\ doubles (p_cpuUsages p) /\ doubles (p_memoryUsages p)
}.

(** One gauge of the saturation block: the reported maximum is the
    greatest sample, the exact mean is at most the maximum, and for samples
    of magnitude at most [M] the mean [$avg] computes is within
    [3 M 2^-53] of the exact one and the reported average a whole number of
    hundredths within [1/2 + (M + 1) 2^-44] hundredths of it. *)
Definition gaugeStatistics (samples : list Q) (average maximum : Double) : Prop :=
  let mean := (Qsum samples / inject_Z (Z.of_nat (length samples)))%Q in
  average = round2 (mongoAvg samples) /\
  exists hi : Q,
    maximum = Finite hi /\ In hi samples /\ (forall x, In x samples -> x <= hi)%Q /\
    (mean <= hi)%Q /\
    forall M : Q,
      (forall x, In x samples -> Qabs x <= M)%Q -> (M <= pow2 40)%Q ->
      (Z.of_nat (length samples) < 2 ^ 53)%Z ->
      (exists d, mongoAvg samples = Finite d /\
                 (Qabs (d - mean) <= 3 * M * ulp53 + 3 * tiny)%Q) /\
      hundredthsNear ((M + 1) * pow2 (-44)) mean average.

(** * Pagination: utils/dateUtils.ts, utils/paginationUtils.ts and
      services/mongoService.ts *)

(** The integer part of a number, towards zero. *)
Definition truncate (q : Q) : Z := if Qle_bool 0 q then Qfloor q else Qceiling q.

(** [Number.prototype.toString] writes a double of magnitude from
    [0.000001] up to, not including, [10^21] in positional notation; 0 is
    written ["0"]; every other number gets an exponent. *)
Definition positional (q : Q) : bool :=
  Qle_bool (nearest (1 # 1000000)) (Qabs q) && negb (Qle_bool (10 ^ 21) (Qabs q)).

Section ToString.
(** The first digit of the shortest decimal that reads back as the
    double: what [toString] prints before the point in exponent notation. *)
Variable leadingDigit : Q -> Z.

(** [parseInt(x.toString())]: [parseInt] reads the digits before the
    point, the [e] or the end; ["NaN"] and ["Infinity"] start with none. *)
Definition parseIntOfToString (x : Double) : Double :=
  match x with
  | Finite q =>
      if Qeq_bool q 0 then Finite 0
      else if positional q then Finite (inject_Z (truncate q))
      else Finite (inject_Z (if Qle_bool 0 q then leadingDigit q else - leadingDigit q))
  | _ => NaN
  end.
End ToString.

(** A number is an integer. *)
Definition isInteger (q : Q) : bool := Qeq_bool q (inject_Z (Qfloor q)).

Module Pagination.

Record PaginationQuery := {
  page : option Double;
  limit : option Double;
  sortBy : option string;
  sortOrder : option string;
  startDate : option string;
  endDate : option string;
  timeRange : option TimeRangeOption;
  search : option string
}.

(** The [createdAt] clause: an optional [$gte] and an optional [$lte]
    bound, each a [Date] whose [getTime()] may be [NaN]. *)
Record CreatedAtFilter := {
  gte : option (option Z);
  lte : option (option Z)
}.

Record Validation := {
  isValid : bool;
  error : option string
}.

Record Filters := {
  dateRange : option (option Z * option Z);
  f_timeRange : option TimeRangeOption;
  f_search : option string
}.

Record PageInfo := {
  currentPage : Double;
  totalPages : Double;
  totalItems : Z;
  itemsPerPage : Double;
  hasNextPage : bool;
  hasPrevPage : bool
}.

Record PaginationResult (T : Type) := {
  data : list T;
  pagination : PageInfo;
  filters : Filters
}.

Arguments data {T} _.
Arguments pagination {T} _.
Arguments filters {T} _.

Record ValidatedParams := {
  v_page : Double;
  v_limit : Double;
  v_sortBy : string;
  v_sortOrder : string
}.

Section Utils.
(** [new Date(s).getTime()], [None] when [s] does not parse. *)
Variable parseDate : string -> option Z.
(** The digit [toString] prints first in exponent notation. *)
Variable leadingDigit : Q -> Z.

(** [DateUtils.validateDateRange]. *)
Definition validateDateRange (startDate endDate : string) : Validation :=
  match parseDate startDate with
  | None => {| isValid := false; error := Some "Invalid start date format"%string |}
  | Some start =>
      match parseDate endDate with
      | None => {| isValid := false; error := Some "Invalid end date format"%string |}
      | Some end_ =>
          if end_ <=? start
          then {| isValid := false;
                  error := Some "Start date must be before end date"%string |}
          else {| isValid := true; error := None |}
      end
  end.

(** [query.page?.toString() || d]: the string of a number is never empty. *)
Definition numberOr (n : option Double) (d : Z) : Double :=
  match n with
  | Some n => parseIntOfToString leadingDigit n
  | None => Finite (inject_Z d)
  end.

(** [PaginationUtils.validatePaginationParams]. *)
Definition validatePaginationParams (query : PaginationQuery) : ValidatedParams :=
  {| v_page := mathMax (Finite 1) (numberOr (page query) 1);
     v_limit := mathMin (Finite 100) (mathMax (Finite 1) (numberOr (limit query) 10));
     v_sortBy := if truthyString (sortBy query)
                 then match sortBy query with Some s => s | None => "createdAt" end
                 else "createdAt";
     v_sortOrder := match sortOrder query with
                    | Some s => if (s =? "asc")%string then "asc" else "desc"
                    | None => "desc"
                    end |}%string.

(** [PaginationUtils.buildDateFilter]; [None] is the empty filter. *)
Definition buildDateFilter (now : Z) (query : PaginationQuery) : option CreatedAtFilter :=
  match timeRange query with
  | Some tr_custom | None =>
      if truthyString (startDate query) && truthyString (endDate query) then
        match startDate query, endDate query with
        | Some s, Some e =>
            if isValid (validateDateRange s e)
            then Some {| gte := Some (parseDate s); lte := Some (parseDate e) |}
            else None
        | _, _ => None
        end
      else if truthyString (startDate query) then
        match startDate query with
        | Some s => Some {| gte := Some (parseDate s); lte := None |}
        | None => None
        end
      else if truthyString (endDate query) then
        match endDate query with
        | Some e => Some {| gte := None; lte := Some (parseDate e) |}
        | None => None
        end
      else None
  | Some tr =>
      let '(s, e) := DateUtils.getDateRangeFromTimeOption now tr in
      Some {| gte := Some (Some s); lte := Some (Some e) |}
  end.

(** [PaginationUtils.buildSearchFilter]: the [(field, pattern)] pairs of
    the [$or] clause, [None] being the empty filter. *)
Definition buildSearchFilter (searchTerm : option string) (searchFields : list string)
  : option (list (string * string)) :=
  if negb (truthyString searchTerm) || (Z.of_nat (length searchFields) =? 0) then None
  else match searchTerm with
       | Some t => Some (map (fun field => (field, t)) searchFields)
       | None => None
       end.

(** [PaginationUtils.buildSortObject]: the field and its direction. *)
Definition buildSortObject (sortBy sortOrder : string) : string * Z :=
  (sortBy, if (sortOrder =? "asc")%string then 1 else -1).

(** [PaginationUtils.buildPaginationResult]; [now] is read when a named
    time range is reported. *)
Definition buildPaginationResult {T} (now : Z) (data : list T) (totalItems : Z)
    (page limit : Double) (query : PaginationQuery) : PaginationResult T :=
  let totalPages := mathCeil (fdiv (ofZ totalItems) limit) in
  let '(range, reported) :=
    match timeRange query with
    | Some tr_custom | None =>
        if truthyString (startDate query) && truthyString (endDate query) then
          match startDate query, endDate query with
          | Some s, Some e => (Some (parseDate s, parseDate e), Some tr_custom)
          | _, _ => (None, None)
          end
        else (None, None)
    | Some tr =>
        let '(s, e) := DateUtils.getDateRangeFromTimeOption now tr in
        (Some (Some s, Some e), Some tr)
    end in
  {| data := data;
     pagination :=
       {| currentPage := page;
          totalPages := totalPages;
          totalItems := totalItems;
          itemsPerPage := limit;
          hasNextPage := jsLt page totalPages;
          hasPrevPage := jsLt (Finite 1) page |};
     filters :=
       {| dateRange := range;
          f_timeRange := reported;
          f_search := if truthyString (search query) then search query else None |} |}.

(** [cursor.skip(skip).limit(limit).toArray()] on the documents a cursor
    would yield, for a non-negative integer [skip] and a positive integer
    [limit].  [None] stands for every other call, which the driver
    rejects. *)
Definition skipLimit {T} (cursor : list T) (skip limit : Double) : option (list T) :=
  match skip, limit with
  | Finite s, Finite l =>
      if isInteger s && isInteger l && Qle_bool 0 s && Qle_bool 1 l
      then Some (firstn (Z.to_nat (Qfloor l)) (skipn (Z.to_nat (Qfloor s)) cursor))
      else None
  | _, _ => None
  end.

(** [MongoService.paginate].  [findSorted] is the store's answer to
    [find(combinedFilter).sort(sortObject)], given the three parts the
    filter is spread from; [countDocuments] of the same filter is its
    length.  [nowFilter] and [nowResult] are the two readings of the clock,
    by [buildDateFilter] and by [buildPaginationResult]. *)
Definition paginate {T Extra : Type}
    (findSorted : option CreatedAtFilter -> option (list (string * string)) -> Extra ->
                  string * Z -> list T)
    (nowFilter nowResult : Z) (query : PaginationQuery) (searchFields : list string)
    (additionalFilters : Extra) : option (PaginationResult T) :=
  let params := validatePaginationParams query in
  let dateFilter := buildDateFilter nowFilter query in
  let searchFilter := buildSearchFilter (search query) searchFields in
  let sortObject := buildSortObject (v_sortBy params) (v_sortOrder params) in
  let cursor := findSorted dateFilter searchFilter additionalFilters sortObject in
  let skip := fmul (fsub (v_page params) (Finite 1)) (v_limit params) in
  data <- skipLimit cursor skip (v_limit params) ;;
  let totalItems := Z.of_nat (length cursor) in
  Some (buildPaginationResult nowResult data totalItems
          (v_page params) (v_limit params) query).
End Utils.

(** ** Definitions used by the pagination properties *)

(** The query asking for page [p]. *)
Definition withPage (p : Z) (query : PaginationQuery) : PaginationQuery :=
  {| page := Some (ofZ p); limit := limit query; sortBy := sortBy query;
     sortOrder := sortOrder query; startDate := startDate query;
     endDate := endDate query; timeRange := timeRange query; search := search query |}.


(** The documents delivered for page [p], none when the call fails. *)
Definition pageData {T Extra : Type} (parseDate : string -> option Z)
    (leadingDigit : Q -> Z)
    (findSorted : option CreatedAtFilter -> option (list (string * string)) -> Extra ->
                  string * Z -> list T)
    (nowFilter nowResult : Z) (query : PaginationQuery) (searchFields : list string)
    (additionalFilters : Extra) (p : Z) : list T :=
  match paginate parseDate leadingDigit findSorted nowFilter nowResult (withPage p query)
          searchFields additionalFilters with
  | Some r => data r
  | None => []
  end.

(** The documents the store answers to the filter and the sort order of a
    query, whatever the page. *)
Definition cursorOf {T Extra : Type} (parseDate : string -> option Z)
    (leadingDigit : Q -> Z)
    (findSorted : option CreatedAtFilter -> option (list (string * string)) -> Extra ->
                  string * Z -> list T)
    (nowFilter : Z) (query : PaginationQuery) (searchFields : list string)
    (additionalFilters : Extra) : list T :=
  findSorted (buildDateFilter parseDate nowFilter query)
    (buildSearchFilter (search query) searchFields) additionalFilters
    (buildSortObject (v_sortBy (validatePaginationParams leadingDigit query))
       (v_sortOrder (validatePaginationParams leadingDigit query))).

(** The applied filter and the reported range describe the same window. *)
Definition sameWindow (applied : option CreatedAtFilter)
    (reported : option (option Z * option Z)) : Prop :=
  match applied, reported with
  | None, None => True
  | Some f, Some (s, e) => gte f = Some s /\ lte f = Some e
  | _, _ => False
  end.

(** The time range is named: set and not ['custom']. *)
Definition namedRange (query : PaginationQuery) : Prop :=
  exists tr, timeRange query = Some tr /\ tr <> tr_custom.

End Pagination.

(** ** Example data of the further properties *)

(** An event with both gauges set. *)
Definition gauged (name : string) (cpu mem : Q) : ServiceMetric :=
  {| servicename := name; severity := low; timestamp := 0; responseTime := 10;
     statusCode := 200; requestCount := 1; cpuUsage := Some cpu;
     memoryUsage := Some mem |}.

Definition gaugedExample : list ServiceMetric := [gauged "A" 40 30; gauged "A" 95 20].

(** A request for page [p] of [l] documents, and one for an explicit range. *)
Definition pageQuery (p l : Z) : Pagination.PaginationQuery :=
  {| Pagination.page := Some (ofZ p); Pagination.limit := Some (ofZ l);
     Pagination.sortBy := None; Pagination.sortOrder := None;
     Pagination.startDate := None; Pagination.endDate := None;
     Pagination.timeRange := None; Pagination.search := None |}.

Definition rangeQuery (s e : string) : Pagination.PaginationQuery :=
  {| Pagination.page := None; Pagination.limit := None;
     Pagination.sortBy := None; Pagination.sortOrder := None;
     Pagination.startDate := Some s; Pagination.endDate := Some e;
     Pagination.timeRange := None; Pagination.search := None |}.

(** A store that answers five documents to every query. *)
Definition fiveDocuments (dateFilter : option Pagination.CreatedAtFilter)
    (searchFilter : option (list (string * string))) (additionalFilters : unit)
    (sortObject : string * Z) : list Z :=
  [1; 2; 3; 4; 5].

(** * Seeding: [ServiceMetricsService.createSampleMetrics] *)

Module Sample.

(** A generated document: the fields the aggregation reads, and the rest. *)
Record SampleMetric := {
  metric : ServiceMetric;
  errorMessage : option string;
  endpoint : string;
  method : string;
  userId : string;
  traceId : string
}.

Definition services : list string :=
  ["auth-service"; "user-service"; "payment-service"; "notification-service";
   "analytics-service"; "file-service"]%string.

Definition severities : list Severity := [low; medium; high; critical].

Definition statusCodes : list Z := [200; 201; 400; 401; 403; 404; 500; 502; 503].

Definition endpoints : list string :=
  ["/api/login"; "/api/users"; "/api/payments"; "/api/notifications";
   "/api/analytics"; "/api/files"]%string.

Definition methods : list string := ["GET"; "POST"; "PUT"; "DELETE"]%string.

Definition batchSize : nat := 1000.

(** The decimal digits of an integer, as a template literal prints it. *)
Definition decimal (n : Z) : string := NilZero.string_of_int (Z.to_int n).

(** [new Date(x).getTime()]: the number truncated towards zero. *)
Definition newDate (x : Q) : Z := if Qle_bool 0 x then Qfloor x else Qceiling x.

(** [array.slice(i, j)] for [0 <= i <= j]. *)
Definition slice {A} (l : list A) (i j : nat) : list A := firstn (j - i) (skipn i l).

Section Seed.
(** The successive results of [Math.random()] and of [Date.now()] during
    the call, numbered from 0. *)
Variable random : nat -> Q.
Variable clock : nat -> Z.

(** The callback of [Array.from]: element [i] makes the calls
    [5 i .. 5 i + 4] of [Math.random()] and [2 i], [2 i + 1] of
    [Date.now()]. *)
Definition sampleMetric (i : nat) : SampleMetric :=
  let name := nth (i mod length services) services ""%string in
  let sev := nth (i mod length severities) severities low in
  let code := nth (i mod length statusCodes) statusCodes 0 in
  let isError := 400 <=? code in
  {| metric :=
       {| servicename := name;
          severity := sev;
          timestamp :=
            newDate (inject_Z (clock (2 * i)) - random (5 * i) * 7 * 24 * 60 * 60 * 1000)%Q;
          responseTime := (random (5 * i + 1) * 2000 + 10)%Q;
          statusCode := code;
          requestCount := Qfloor (random (5 * i + 2) * 10)%Q + 1;
          cpuUsage := Some (random (5 * i + 3) * 100)%Q;
          memoryUsage := Some (random (5 * i + 4) * 100)%Q |};
     errorMessage :=
       if isError
       then Some ("Error " ++ decimal code ++ ": " ++ name ++ " failed")%string
       else None;
     endpoint := nth (i mod length endpoints) endpoints ""%string;
     method := nth (i mod length methods) methods ""%string;
     userId := ("user" ++ decimal (Z.of_nat (i mod 1000) + 1))%string;
     traceId :=
       ("trace-" ++ decimal (Z.of_nat i + 1) ++ "-" ++ decimal (clock (2 * i + 1)))%string |}.

(** [Array.from({ length: count }, ...)] for an integer [count]. *)
Definition sampleMetrics (count : Z) : list SampleMetric :=
  map sampleMetric (seq 0 (Z.to_nat count)).

(** The loop [for (i = 0; i < length; i += batchSize)]: the arguments of
    the successive [insertMany] calls.  Every turn advances [i], so
    [length] turns are enough. *)
Fixpoint batchesFrom (fuel i : nat) (samples : list SampleMetric) : list (list SampleMetric) :=
  match fuel with
  | O => []
  | S fuel =>
      if (i <? length samples)%nat
      then slice samples i (i + batchSize) :: batchesFrom fuel (i + batchSize) samples
      else []
  end.

Definition batches (samples : list SampleMetric) : list (list SampleMetric) :=
  batchesFrom (length samples) 0 samples.

(** [insertMany] appends to the collection. *)
Definition insertMany (collection batch : list SampleMetric) : list SampleMetric :=
  collection ++ batch.

(** [createSampleMetrics(count)]: the collection after the call. *)
Definition createSampleMetrics (count : Z) (collection : list SampleMetric)
  : list SampleMetric :=
  let existingCount := Z.of_nat (length collection) in
  if 0 <? existingCount then collection
  else fold_left insertMany (batches (sampleMetrics count)) collection.
End Seed.

(** The services all of whose generated events are errors. *)
Definition alwaysFailing (name : string) : Prop :=
  name = "payment-service"%string \/ name = "file-service"%string.

End Sample.

(** A run in which [Math.random()] always returns one half and
    [Date.now()] always the same instant. *)
Definition halfRandom (k : nat) : Q := 1 # 2.

Definition fixedClock (k : nat) : Z := 1700000000000.

(** * The parse routes: [POST /api/v1/parse] and [POST /api/v2/parse] *)

Module Parse.

(** The fragment of regular expressions the routes use: a sequence of
    groups, each a sequence of atoms, an atom being a character class
    under a greedy [+] or a literal text. *)
Inductive Atom :=
| Plus (class : ascii -> bool)
| Lit (text : list ascii).

Definition chars (s : string) : list ascii := list_ascii_of_string s.

(** [[A-Za-z]] and [[0-9]]. *)
Definition letter (c : ascii) : bool :=
  let n := nat_of_ascii c in
  ((65 <=? n) && (n <=? 90) || (97 <=? n) && (n <=? 122))%nat.

Definition digit (c : ascii) : bool :=
  let n := nat_of_ascii c in ((48 <=? n) && (n <=? 57))%nat.

(** [/([A-Za-z]+0000)([A-Za-z]+000)([0-9]+)/] *)
Definition pattern : list (list Atom) :=
  [[Plus letter; Lit (chars "0000")]; [Plus letter; Lit (chars "000")]; [Plus digit]].

(** The length of the longest prefix in the class. *)
Fixpoint takeWhile (class : ascii -> bool) (s : list ascii) : nat :=
  match s with
  | c :: s' => if class c then S (takeWhile class s') else O
  | [] => O
  end.

Fixpoint stripPrefix (text s : list ascii) : option (list ascii) :=
  match text, s with
  | [], _ => Some s
  | a :: text', c :: s' => if Ascii.eqb a c then stripPrefix text' s' else None
  | _ :: _, [] => None
  end.

(** Backtracking over the repetitions of a greedy [+]: [n] of them first,
    then one fewer, down to one. *)
Fixpoint backtrack {A} (continue : nat -> option A) (n : nat) : option A :=
  match n with
  | O => None
  | S n' =>
      match continue n with
      | Some r => Some r
      | None => backtrack continue n'
      end
  end.

(** The atoms matched in sequence at the start of [s]: the text each
    consumed, for the first successful choice of repetitions. *)
Fixpoint matchAtoms (atoms : list Atom) (s : list ascii) : option (list (list ascii)) :=
  match atoms with
  | [] => Some []
  | Lit text :: rest =>
      match stripPrefix text s with
      | Some s' => option_map (cons text) (matchAtoms rest s')
      | None => None
      end
  | Plus class :: rest =>
      backtrack
        (fun n => option_map (cons (firstn n s)) (matchAtoms rest (skipn n s)))
        (takeWhile class s)
  end.

(** The match at the leftmost position that has one. *)
Fixpoint search (atoms : list Atom) (s : list ascii) : option (list (list ascii)) :=
  match matchAtoms atoms s with
  | Some captures => Some captures
  | None =>
      match s with
      | [] => None
      | _ :: s' => search atoms s'
      end
  end.

(** The text of each group, from the texts of its atoms. *)
Fixpoint regroup (groups : list (list Atom)) (captures : list (list ascii))
  : list (list ascii) :=
  match groups with
  | [] => []
  | g :: groups' =>
      concat (firstn (length g) captures) :: regroup groups' (skipn (length g) captures)
  end.

(** [reqData.match(pattern)]: the groups 1, 2, 3 of the result, [None]
    for [null]. *)
Definition jsMatch (reqData : list ascii) : option (list (list ascii)) :=
  option_map (regroup pattern) (search (concat pattern) reqData).

(** [s.slice(0, -k)] and [s.slice(-k)]. *)
Definition sliceUntilLast (k : nat) (s : list ascii) : list ascii :=
  firstn (length s - k) s.

Definition sliceLast (k : nat) (s : list ascii) : list ascii :=
  skipn (length s - k) s.

Record Response := {
  firstName : list ascii;
  lastName : list ascii;
  clientId : list ascii
}.

(** The handlers; [data] is [req.body.data] when it is a string.  [None]
    is the [TypeError] thrown on an absent [data] or on a [null] match. *)
Definition parseV1 (data : option (list ascii)) : option Response :=
  reqData <- data ;;
  groups <- jsMatch reqData ;;
  Some {| firstName := nth 0 groups [];
          lastName := nth 1 groups [];
          clientId := nth 2 groups [] |}.

Definition parseV2 (data : option (list ascii)) : option Response :=
  reqData <- data ;;
  groups <- jsMatch reqData ;;
  Some {| firstName := sliceUntilLast 4 (nth 0 groups []);
          lastName := sliceUntilLast 3 (nth 1 groups []);
          clientId := sliceUntilLast 4 (nth 2 groups []) ++ chars "-"
                      ++ sliceLast 4 (nth 2 groups []) |}.

(** A non-empty text of the class. *)
Definition word (class : ascii -> bool) (w : list ascii) : Prop :=
  w <> [] /\ forallb class w = true.

(** The texts an atom can consume. *)
Definition atomText (a : Atom) (t : list ascii) : Prop :=
  match a with
  | Plus class => word class t
  | Lit text => t = text
  end.

(** The text of a record as the clients send it. *)
Definition encode (first last id : list ascii) : list ascii :=
  first ++ chars "0000" ++ last ++ chars "000" ++ id.

End Parse.

(** ** The selection of events, as the specification words it *)

(** Modelled from the spec (section 4.1): the bounds of the window a
    query resolves to, [None] when there is no time filter.  A named range
    ends at the evaluation instant and starts its fixed duration earlier;
    explicit bounds are used verbatim when both are supplied (as non-empty
    texts) and denote dates; otherwise there is no time filter. *)
Definition explicitWindow (parseDate : string -> option Z) (query : AggregationQuery)
  : option (Z * Z) :=
  match startDate query, endDate query with
  | Some s, Some e =>
      if ((s =? "") || (e =? ""))%string then None
      else match parseDate s, parseDate e with
           | Some a, Some b => Some (a, b)
           | _, _ => None
           end
  | _, _ => None
  end.

Definition specWindow (parseDate : string -> option Z) (now : Z) (query : AggregationQuery)
  : option (Z * Z) :=
  match timeRange query with
  | Some tr =>
      match namedSeconds tr with
      | Some secs => Some (now - secs * 1000, now)
      | None => explicitWindow parseDate query
      end
  | None => explicitWindow parseDate query
  end.

(** Modelled from the spec (glossary): the window is the interval
    [[start, end)].  With [closed] the end instant belongs to it too. *)
Definition inWindow (closed : bool) (w : option (Z * Z)) (t : Z) : bool :=
  match w with
  | None => true
  | Some (a, b) => (a <=? t) && (if closed then t <=? b else t <? b)
  end.

(** Modelled from the spec (section 4.1): an allow-list that is absent or
    empty imposes no constraint. *)
Definition allowed (l : option (list string)) (s : string) : bool :=
  match l with
  | None => true
  | Some [] => true
  | Some names => if in_dec string_dec s names then true else false
  end.

(** The events a query selects: in the window, of an allowed service and
    of an allowed severity. *)
Definition selects (closed : bool) (parseDate : string -> option Z) (now : Z)
    (query : AggregationQuery) (m : ServiceMetric) : bool :=
  inWindow closed (specWindow parseDate now query) (timestamp m)
  && allowed (servicenames query) (servicename m)
  && allowed (severities query) (severityString (severity m)).

(** The explicit bounds of the query, when they are the ones that count
    and both are supplied, denote dates. *)
Definition boundsParse (parseDate : string -> option Z) (query : AggregationQuery) : Prop :=
  customOrAbsent query ->
  forall s e, startDate query = Some s -> endDate query = Some e ->
    s <> ""%string -> e <> ""%string ->
    parseDate s <> None /\ parseDate e <> None.

(** An event of service [name] at instant [t], of severity [sev], standing
    for [n] requests answered with status [sc]. *)
Definition eventAt (name : string) (t : Z) (sev : Severity) (sc n : Z) : ServiceMetric :=
  {| servicename := name; severity := sev; timestamp := t; responseTime := 10;
     statusCode := sc; requestCount := n; cpuUsage := None; memoryUsage := None |}.

(** The last hour, services [A] and [C] only, severity [high] only. *)
Definition lastHourOfA : AggregationQuery :=
  {| timeRange := Some tr_1hour; startDate := None; endDate := None;
     servicenames := Some ["A"; "C"]%string; severities := Some ["high"]%string;
     rankBy := None; limit := None |}.

(** At instant 7200000 (two hours after the epoch): an event of [A] within
    the hour, one of [A] from before it, one of [B], and one of [A] of
    another severity. *)
Definition mixedEvents : list ServiceMetric :=
  [eventAt "A" 7000000 high 500 3; eventAt "A" 1000 high 200 5;
   eventAt "B" 7000000 high 200 7; eventAt "A" 7100000 low 500 11;
   eventAt "A" 3600000 high 200 13].

(** The first day of 1970, and two events of it: one at noon, one at the
    very end of the day. *)
Definition firstDay : AggregationQuery :=
  {| timeRange := Some tr_custom; startDate := Some "1970-01-01T00:00:00.000Z"%string;
     endDate := Some "1970-01-02T00:00:00.000Z"%string; servicenames := None;
     severities := None; rankBy := None; limit := None |}.

Definition noonAndMidnight : list ServiceMetric :=
  [eventAt "A" 43200000 high 200 1; eventAt "A" 86400000 high 200 1].

(** ** Rounding to two decimals, as the specification words it *)

(** Modelled from the spec (section 4.3): [x] rounded to two decimal
    places, a half going away from zero. *)
Definition decimalRound2 (x : Q) : Q :=
  if Qle_bool 0 x
  then inject_Z (Qfloor (x * 100 + (1 # 2))) / 100
  else - (inject_Z (Qfloor (- x * 100 + (1 # 2))) / 100).

(** 23 failed requests out of 160 for service [A]. *)
Definition errors23of160 : list ServiceMetric :=
  [eventAt "A" 0 high 500 23; eventAt "A" 0 high 200 137].

(** ** The limit, applied to a ranked list *)



(** ** Further example data *)

(** The double next to 0.015, which lies below it, as a latency. *)
Definition halfwayLatency : Q := double (15 # 1000).

(** 139 failed requests with status 500 and 661 with status 404. *)
Definition errors139of800 : list ServiceMetric :=
  [eventAt "A" 0 high 500 139; eventAt "A" 0 low 404 661].

(** Four events of one service: status 500 twice, status 404 once, and a
    success. *)
Definition breakdownExample : list ServiceMetric :=
  [eventAt "A" 0 high 500 2; eventAt "A" 0 low 404 5; eventAt "A" 0 high 500 1;
   eventAt "A" 0 high 200 4].

(** 603 requests in the last ten minutes. *)
Definition requests603 : list ServiceMetric := [eventAt "A" 0 high 200 603].

(** Forty events of one service, 23 with both gauges at 1 and 17 without
    gauges. *)
Definition gauges23of40 : list ServiceMetric :=
  repeat {| servicename := "A"; severity := low; timestamp := 0; responseTime := 10;
            statusCode := 200; requestCount := 1; cpuUsage := Some 1%Q;
            memoryUsage := Some 1%Q |} 23
  ++ repeat (metric "A" 10 200) 17.


(** A printer all of whose numbers in exponent notation start with 1. *)
Definition firstDigitOne (q : Q) : Z := 1.

(** * Verification *)

(** ** Facts about binary64 numbers *)

Section Pow2.
Local Open Scope Q_scope.

Lemma two_nonzero : ~ 2 == 0.
Proof. discriminate. Qed.

Lemma pow2_pos (k : Z) : 0 < pow2 k.
Proof. apply Qpower_0_lt. reflexivity. Qed.

Lemma pow2_nonzero (k : Z) : ~ pow2 k == 0.
Proof. pose proof (pow2_pos k). lra. Qed.

Lemma pow2_add (a b : Z) : pow2 (a + b) == pow2 a * pow2 b.
Proof. apply Qpower_plus, two_nonzero. Qed.

Lemma pow2_sub (a b : Z) : pow2 (a - b) == pow2 a / pow2 b.
Proof. apply Qpower_minus, two_nonzero. Qed.

Lemma pow2_le (a b : Z) : (a <= b)%Z -> pow2 a <= pow2 b.
Proof. intros H. apply Qpower_le_compat_l; [exact H|discriminate]. Qed.

Lemma pow2_lt (a b : Z) : (a < b)%Z -> pow2 a < pow2 b.
Proof. intros H. apply Qpower_lt_compat_l; [exact H|reflexivity]. Qed.

Lemma pow2_lt_inv (a b : Z) : pow2 a < pow2 b -> (a < b)%Z.
Proof. intros H. apply (Qpower_lt_compat_l_inv 2); [exact H|reflexivity]. Qed.

Lemma pow2_le_inv (a b : Z) : pow2 a <= pow2 b -> (a <= b)%Z.
Proof. intros H. apply (Qpower_le_compat_l_inv 2); [exact H|reflexivity]. Qed.

Lemma pow2_Z (a : Z) : (0 <= a)%Z -> pow2 a == inject_Z (2 ^ a).
Proof. intros H. unfold pow2. now rewrite Zpower_Qpower. Qed.

Lemma pow2_succ (a : Z) : pow2 (a + 1) == 2 * pow2 a.
Proof. rewrite pow2_add. change (pow2 1) with 2. ring. Qed.

Lemma pow2_0 : pow2 0 == 1.
Proof. reflexivity. Qed.
End Pow2.

Section Rounding.
Local Open Scope Q_scope.

Lemma Qabs_make (n : Z) (d : positive) :
  Qabs (n # d) == inject_Z (Z.abs n) / inject_Z (Zpos d).
Proof.
  unfold Qabs. rewrite (Qmake_Qdiv (Z.abs n) d). reflexivity.
Qed.

Lemma Qdiv_lt_cross (a b c d : Q) : 0 < b -> 0 < d -> a * d < c * b -> a / b < c / d.
Proof.
  intros Hb Hd H. apply Qlt_shift_div_l; [exact Hd|].
  assert (E : a / b * d == a * d / b) by (field; lra). rewrite E.
  apply Qlt_shift_div_r; [exact Hb|exact H].
Qed.

Lemma Qdiv_le_cross (a b c d : Q) : 0 < b -> 0 < d -> a * d <= c * b -> a / b <= c / d.
Proof.
  intros Hb Hd H. apply Qle_shift_div_l; [exact Hd|].
  assert (E : a / b * d == a * d / b) by (field; lra). rewrite E.
  apply Qle_shift_div_r; [exact Hb|exact H].
Qed.

Lemma ilog2_spec (x : Q) :
  ~ x == 0 -> pow2 (ilog2 x) <= Qabs x /\ Qabs x < pow2 (ilog2 x + 1).
Proof.
  intros Hx. destruct x as [n d]. unfold ilog2. cbn [Qnum Qden].
  assert (Hn : (0 < Z.abs n)%Z).
  { assert (n <> 0%Z); [|lia]. intros ->. apply Hx. reflexivity. }
  set (a := Z.log2 (Z.abs n)). set (b := Z.log2 (Zpos d)).
  destruct (Z.log2_spec (Z.abs n) Hn) as [Ha1 Ha2]. fold a in Ha1, Ha2.
  destruct (Z.log2_spec (Zpos d) ltac:(lia)) as [Hb1 Hb2]. fold b in Hb1, Hb2.
  assert (Ha0 : (0 <= a)%Z) by apply Z.log2_nonneg.
  assert (Hb0 : (0 <= b)%Z) by apply Z.log2_nonneg.
  set (N := inject_Z (Z.abs n)). set (D := inject_Z (Zpos d)).
  assert (HN0 : 0 <= N) by (unfold N; change 0 with (inject_Z 0); rewrite <- Zle_Qle; lia).
  assert (HN1 : pow2 a <= N) by (rewrite pow2_Z by lia; unfold N; now rewrite <- Zle_Qle).
  assert (HN2 : N < pow2 (a + 1))
    by (rewrite pow2_Z by lia; unfold N; rewrite <- Zlt_Qlt; unfold Z.succ in Ha2; lia).
  assert (HD1 : pow2 b <= D) by (rewrite pow2_Z by lia; unfold D; now rewrite <- Zle_Qle).
  assert (HD2 : D < pow2 (b + 1))
    by (rewrite pow2_Z by lia; unfold D; rewrite <- Zlt_Qlt; unfold Z.succ in Hb2; lia).
  pose proof (pow2_pos a) as Pa. pose proof (pow2_pos b) as Pb.
  pose proof (pow2_pos (b + 1)) as Pb1. pose proof (pow2_pos (a + 1)) as Pa1.
  assert (HD0 : 0 < D) by lra.
  assert (Habs : Qabs (n # d) == N / D) by apply Qabs_make.
  destruct (Qle_bool (pow2 (a - b)) (Qabs (n # d))) eqn:E.
  - apply Qle_bool_iff in E. split; [exact E|].
    rewrite Habs.
    replace (a - b + 1)%Z with (a + 1 - b)%Z by lia. rewrite pow2_sub.
    apply Qdiv_lt_cross; [exact HD0|exact Pb|]. nra.
  - assert (E' : Qabs (n # d) < pow2 (a - b)).
    { apply Qnot_le_lt. intros H. apply Qle_bool_iff in H. congruence. }
    split.
    + rewrite Habs.
      replace (a - b - 1)%Z with (a - (b + 1))%Z by lia. rewrite pow2_sub.
      apply Qdiv_le_cross; [exact Pb1|exact HD0|]. nra.
    + replace (a - b - 1 + 1)%Z with (a - b)%Z by lia. exact E'.
Qed.

Lemma ilog2_unique (y : Q) (e e' : Z) :
  pow2 e <= y -> y < pow2 (e + 1) -> pow2 e' <= y -> y < pow2 (e' + 1) -> e = e'.
Proof.
  intros H1 H2 H3 H4.
  assert (pow2 e < pow2 (e' + 1)) by lra. assert (pow2 e' < pow2 (e + 1)) by lra.
  apply pow2_lt_inv in H, H0. lia.
Qed.

Lemma ilog2_ext (x y : Q) : ~ x == 0 -> Qabs x == Qabs y -> ilog2 x = ilog2 y.
Proof.
  intros Hx E.
  assert (Hy : ~ y == 0).
  { intros H. apply Hx.
    assert (A : Qabs x <= 0) by (rewrite E, H; apply Qle_refl).
    apply Qabs_Qle_condition in A. lra. }
  destruct (ilog2_spec x Hx) as [H1 H2]. destruct (ilog2_spec y Hy) as [H3 H4].
  rewrite <- E in H3, H4. exact (ilog2_unique _ _ _ H1 H2 H3 H4).
Qed.

Lemma ilog2_mono (x y : Q) : 0 < x -> x <= y -> (ilog2 x <= ilog2 y)%Z.
Proof.
  intros Hx Hxy.
  destruct (ilog2_spec x ltac:(lra)) as [H1 _].
  destruct (ilog2_spec y ltac:(lra)) as [_ H4].
  rewrite Qabs_pos in H1 by lra. rewrite Qabs_pos in H4 by lra.
  assert (H : pow2 (ilog2 x) < pow2 (ilog2 y + 1)) by lra.
  apply pow2_lt_inv in H. lia.
Qed.

(** *** Rounding to an integer *)

Lemma roundHalfEven_cases (x : Q) :
  let f := Qfloor x in
  (x - inject_Z f < 1 # 2 -> roundHalfEven x = f) /\
  (1 # 2 < x - inject_Z f -> roundHalfEven x = (f + 1)%Z) /\
  (roundHalfEven x = f \/ roundHalfEven x = (f + 1)%Z).
Proof.
  intros f. unfold roundHalfEven. fold f.
  destruct (x - inject_Z f ?= 1 # 2) eqn:E.
  - apply Qeq_alt in E. repeat split; try (intros; lra).
    destruct (Z.even f); auto.
  - apply Qlt_alt in E. repeat split; auto. intros; lra.
  - apply Qgt_alt in E. repeat split; auto. intros; lra.
Qed.

Lemma Qfloor_bounds (x : Q) : inject_Z (Qfloor x) <= x /\ x < inject_Z (Qfloor x) + 1.
Proof.
  split; [apply Qfloor_le|].
  pose proof (Qlt_floor x) as H. rewrite inject_Z_plus in H. exact H.
Qed.

Lemma roundHalfEven_error (x : Q) : Qabs (inject_Z (roundHalfEven x) - x) <= 1 # 2.
Proof.
  destruct (roundHalfEven_cases x) as (H1 & H2 & H3).
  destruct (Qfloor_bounds x) as [F1 F2].
  apply Qabs_Qle_condition.
  destruct (Qlt_le_dec (x - inject_Z (Qfloor x)) (1 # 2)) as [L|L].
  - rewrite (H1 L). split; lra.
  - destruct (Qlt_le_dec (1 # 2) (x - inject_Z (Qfloor x))) as [G|G].
    + rewrite (H2 G), inject_Z_plus. change (inject_Z 1) with 1. split; lra.
    + destruct H3 as [-> | ->]; [|rewrite inject_Z_plus; change (inject_Z 1) with 1];
        split; lra.
Qed.

Lemma roundHalfEven_ext (x y : Q) : x == y -> roundHalfEven x = roundHalfEven y.
Proof.
  intros E. unfold roundHalfEven. rewrite (Qfloor_comp x y E).
  assert (E' : x - inject_Z (Qfloor y) == y - inject_Z (Qfloor y)) by (rewrite E; reflexivity).
  now rewrite (Qcompare_comp _ _ E' (1 # 2) (1 # 2) (Qeq_refl _)).
Qed.

Lemma roundHalfEven_Z (z : Z) : roundHalfEven (inject_Z z) = z.
Proof.
  destruct (roundHalfEven_cases (inject_Z z)) as (H1 & _).
  rewrite Qfloor_Z in H1. apply H1. lra.
Qed.

Lemma roundHalfEven_mono (x y : Q) : x <= y -> (roundHalfEven x <= roundHalfEven y)%Z.
Proof.
  intros Hxy.
  destruct (Qeq_dec x y) as [E|NE]; [rewrite (roundHalfEven_ext _ _ E); lia|].
  assert (Hlt : x < y) by (apply Qle_lteq in Hxy; destruct Hxy; [assumption|contradiction]).
  pose proof (Qfloor_resp_le _ _ Hxy) as Hf.
  destruct (roundHalfEven_cases x) as (X1 & X2 & X3).
  destruct (roundHalfEven_cases y) as (Y1 & Y2 & Y3).
  destruct (Z.eq_dec (Qfloor x) (Qfloor y)) as [Ef|Nf].
  - destruct X3 as [-> | Hx]; [destruct Y3 as [-> | ->]; lia|].
    destruct (Qlt_le_dec (x - inject_Z (Qfloor x)) (1 # 2)) as [L|L].
    + rewrite (X1 L) in Hx. lia.
    + assert (G : 1 # 2 < y - inject_Z (Qfloor y)) by (rewrite <- Ef; lra).
      rewrite Hx, (Y2 G). lia.
  - destruct X3 as [-> | ->]; destruct Y3 as [-> | ->]; lia.
Qed.

Lemma roundHalfEven_nonneg (x : Q) : 0 <= x -> (0 <= roundHalfEven x)%Z.
Proof.
  intros H. rewrite <- (roundHalfEven_Z 0). now apply roundHalfEven_mono.
Qed.

(** *** Rounding to the last place *)

Lemma scale_pow2 (a : Q) (e : Z) : a / pow2 e * pow2 e == a.
Proof. field. apply pow2_nonzero. Qed.

Lemma ulpExponent_spec (a : Q) :
  0 < a ->
  (-1074 <= ulpExponent a)%Z /\
  a / pow2 (ulpExponent a) < pow2 53 /\
  ((-1074 < ulpExponent a)%Z ->
   ulpExponent a = (ilog2 a - 52)%Z /\ pow2 52 <= a / pow2 (ulpExponent a)).
Proof.
  intros Ha. destruct (ilog2_spec a ltac:(lra)) as [H1 H2].
  rewrite Qabs_pos in H1, H2 by lra.
  unfold ulpExponent. set (L := ilog2 a) in *. set (e := Z.max (-1074) (L - 52)).
  pose proof (pow2_pos e) as Pe.
  split; [lia|]. split.
  - apply Qlt_shift_div_r; [exact Pe|]. rewrite <- pow2_add.
    apply Qlt_le_trans with (pow2 (L + 1)); [exact H2|]. apply pow2_le. lia.
  - intros He. assert (E : e = (L - 52)%Z) by lia. split; [exact E|].
    apply Qle_shift_div_l; [exact Pe|]. rewrite <- pow2_add.
    apply Qle_trans with (pow2 L); [|exact H1]. apply pow2_le. lia.
Qed.

Lemma ulpExponent_mono (a b : Q) : 0 < a -> a <= b -> (ulpExponent a <= ulpExponent b)%Z.
Proof.
  intros Ha Hab. pose proof (ilog2_mono a b Ha Hab). unfold ulpExponent. lia.
Qed.

Lemma ulpExponent_ext (a b : Q) : 0 < a -> a == b -> ulpExponent a = ulpExponent b.
Proof.
  intros Ha E. unfold ulpExponent.
  rewrite (ilog2_ext a b); [reflexivity|lra|now rewrite E].
Qed.

Lemma mantissa_bounds (a : Q) :
  0 < a ->
  let m := roundHalfEven (a / pow2 (ulpExponent a)) in
  (0 <= m <= 2 ^ 53)%Z /\ ((-1074 < ulpExponent a)%Z -> (2 ^ 52 <= m)%Z).
Proof.
  intros Ha m. destruct (ulpExponent_spec a Ha) as (He & Hs & Hn).
  pose proof (pow2_pos (ulpExponent a)) as Pe.
  assert (S0 : 0 <= a / pow2 (ulpExponent a)) by (apply Qle_shift_div_l; lra).
  split; [split|].
  - now apply roundHalfEven_nonneg.
  - rewrite <- (roundHalfEven_Z (2 ^ 53)). apply roundHalfEven_mono.
    rewrite <- pow2_Z by lia. lra.
  - intros Hlt. destruct (Hn Hlt) as [_ H52].
    rewrite <- (roundHalfEven_Z (2 ^ 52)). apply roundHalfEven_mono.
    rewrite <- pow2_Z by lia. exact H52.
Qed.

Lemma nearestPositive_nonneg (a : Q) : 0 < a -> 0 <= nearestPositive a.
Proof.
  intros Ha. destruct (mantissa_bounds a Ha) as [[H0 _] _].
  unfold nearestPositive. pose proof (pow2_pos (ulpExponent a)).
  apply Qmult_le_0_compat; [|lra].
  change 0 with (inject_Z 0). now rewrite <- Zle_Qle.
Qed.

Lemma nearestPositive_ext (a b : Q) :
  0 < a -> a == b -> nearestPositive a == nearestPositive b.
Proof.
  intros Ha E. unfold nearestPositive. rewrite <- (ulpExponent_ext a b Ha E).
  rewrite (roundHalfEven_ext (a / pow2 (ulpExponent a)) (b / pow2 (ulpExponent a)));
    [reflexivity|apply Qdiv_comp; [exact E|reflexivity]].
Qed.

Lemma nearestPositive_mono (a b : Q) :
  0 < a -> a <= b -> nearestPositive a <= nearestPositive b.
Proof.
  intros Ha Hab. assert (Hb : 0 < b) by lra.
  pose proof (ulpExponent_mono a b Ha Hab) as He.
  destruct (mantissa_bounds a Ha) as [[A0 A53] _].
  destruct (mantissa_bounds b Hb) as [[B0 B53] B52].
  unfold nearestPositive.
  set (ea := ulpExponent a) in *. set (eb := ulpExponent b) in *.
  set (ma := roundHalfEven (a / pow2 ea)) in *.
  set (mb := roundHalfEven (b / pow2 eb)) in *.
  pose proof (pow2_pos ea) as Pa. pose proof (pow2_pos eb) as Pb.
  destruct (Z.eq_dec ea eb) as [E|NE].
  - assert (Hm : (ma <= mb)%Z).
    { unfold ma, mb. rewrite <- E. apply roundHalfEven_mono.
      apply Qdiv_le_cross; [exact Pa|exact Pa|]. nra. }
    rewrite <- E. apply Qmult_le_compat_r; [now rewrite <- Zle_Qle|lra].
  - assert (Hlt : (ea < eb)%Z) by lia.
    destruct (ulpExponent_spec a Ha) as (Hea & _).
    specialize (B52 ltac:(lia)).
    apply Qle_trans with (pow2 53 * pow2 ea).
    + apply Qmult_le_compat_r; [|lra]. rewrite pow2_Z by lia. now rewrite <- Zle_Qle.
    + apply Qle_trans with (pow2 52 * pow2 eb).
      * rewrite <- !pow2_add. apply pow2_le. lia.
      * apply Qmult_le_compat_r; [|lra]. rewrite pow2_Z by lia. now rewrite <- Zle_Qle.
Qed.

Lemma nearestPositive_error (a : Q) :
  0 < a -> Qabs (nearestPositive a - a) <= pow2 (ulpExponent a) / 2.
Proof.
  intros Ha. unfold nearestPositive. set (e := ulpExponent a).
  pose proof (pow2_pos e) as Pe.
  pose proof (roundHalfEven_error (a / pow2 e)) as H.
  set (m := inject_Z (roundHalfEven (a / pow2 e))) in *.
  assert (E : m * pow2 e - a == (m - a / pow2 e) * pow2 e) by (field; lra).
  rewrite E, Qabs_Qmult, (Qabs_pos (pow2 e)) by lra.
  assert (Hp : Qabs (m - a / pow2 e) * pow2 e <= (1 # 2) * pow2 e)
    by (apply Qmult_le_compat_r; lra).
  assert (E2 : pow2 e / 2 == (1 # 2) * pow2 e) by field.
  rewrite E2. exact Hp.
Qed.

Lemma nearestPositive_relative (a : Q) :
  0 < a ->
  Qabs (nearestPositive a - a) <= a * pow2 (-53) + pow2 (-1075).
Proof.
  intros Ha. pose proof (nearestPositive_error a Ha) as H.
  destruct (ulpExponent_spec a Ha) as (He & _ & Hn).
  pose proof (pow2_pos (-1075)) as P1. pose proof (pow2_pos (-53)) as P2.
  destruct (Z.eq_dec (ulpExponent a) (-1074)) as [E|NE].
  - rewrite E in H.
    assert (E2 : pow2 (-1074) / 2 == pow2 (-1075)).
    { replace (-1074)%Z with (-1075 + 1)%Z by lia. rewrite pow2_succ. field. }
    rewrite E2 in H. nra.
  - destruct (Hn ltac:(lia)) as [Ee H52].
    pose proof (pow2_pos (ulpExponent a)) as Pe.
    assert (Hle : pow2 52 * pow2 (ulpExponent a) <= a).
    { apply Qle_trans with (a / pow2 (ulpExponent a) * pow2 (ulpExponent a)).
      - apply Qmult_le_compat_r; lra.
      - rewrite scale_pow2. apply Qle_refl. }
    assert (E53 : pow2 (ulpExponent a) / 2 == pow2 52 * pow2 (ulpExponent a) * pow2 (-53)).
    { assert (K : pow2 52 * pow2 (-53) == 1 # 2) by reflexivity.
      transitivity (pow2 (ulpExponent a) * (pow2 52 * pow2 (-53))); [rewrite K; field|ring]. }
    rewrite E53 in H.
    assert (pow2 52 * pow2 (ulpExponent a) * pow2 (-53) <= a * pow2 (-53))
      by (apply Qmult_le_compat_r; lra).
    lra.
Qed.

Lemma nearestPositive_grid (a : Q) :
  0 < a -> exists k : Z, nearestPositive a == inject_Z k * pow2 (-1074).
Proof.
  intros Ha. destruct (ulpExponent_spec a Ha) as (He & _).
  unfold nearestPositive. set (e := ulpExponent a) in *.
  exists (roundHalfEven (a / pow2 e) * 2 ^ (e + 1074))%Z.
  rewrite inject_Z_mult, <- pow2_Z by lia.
  replace e with ((e + 1074) + -1074)%Z at 2 by lia. rewrite pow2_add. ring.
Qed.

Lemma nearestPositive_Z (z : Z) :
  (0 < z < 2 ^ 53)%Z -> nearestPositive (inject_Z z) == inject_Z z.
Proof.
  intros [Hz Hlt]. assert (Ha : 0 < inject_Z z) by (change 0 with (inject_Z 0); now rewrite <- Zlt_Qlt).
  destruct (ulpExponent_spec _ Ha) as (He & _ & Hn).
  destruct (ilog2_spec (inject_Z z) ltac:(lra)) as [HL _].
  rewrite Qabs_pos in HL by lra.
  assert (HL' : (ilog2 (inject_Z z) < 53)%Z).
  { apply pow2_lt_inv. apply Qle_lt_trans with (inject_Z z); [exact HL|].
    rewrite pow2_Z by lia. now rewrite <- Zlt_Qlt. }
  assert (He0 : (ulpExponent (inject_Z z) <= 0)%Z) by (unfold ulpExponent; lia).
  unfold nearestPositive. set (e := ulpExponent (inject_Z z)) in *.
  assert (E : inject_Z z / pow2 e == inject_Z (z * 2 ^ (- e))).
  { rewrite inject_Z_mult, <- pow2_Z by lia.
    assert (K : pow2 e * pow2 (- e) == 1).
    { rewrite <- pow2_add. replace (e + - e)%Z with 0%Z by lia. apply pow2_0. }
    pose proof (pow2_nonzero e). pose proof (pow2_pos e). pose proof (pow2_pos (- e)).
    apply Qmult_inj_r with (pow2 e); [assumption|].
    rewrite scale_pow2.
    transitivity (inject_Z z * (pow2 e * pow2 (- e))); [rewrite K; ring|ring]. }
  rewrite (roundHalfEven_ext _ _ E), roundHalfEven_Z, <- E. apply scale_pow2.
Qed.

Lemma nearest_pos (x : Q) : 0 < x -> nearest x = Qred (nearestPositive x).
Proof.
  intros H. unfold nearest. destruct (x ?= 0) eqn:E; [apply Qeq_alt in E; lra| |reflexivity].
  apply Qlt_alt in E. lra.
Qed.

Lemma nearest_neg (x : Q) : x < 0 -> nearest x = Qred (- nearestPositive (- x)).
Proof.
  intros H. unfold nearest. destruct (x ?= 0) eqn:E; [apply Qeq_alt in E; lra|reflexivity|].
  apply Qgt_alt in E. lra.
Qed.

Lemma nearest_zero (x : Q) : x == 0 -> nearest x = 0.
Proof.
  intros H. unfold nearest. destruct (x ?= 0) eqn:E; [reflexivity| |].
  - apply Qlt_alt in E. lra.
  - apply Qgt_alt in E. lra.
Qed.

Lemma nearest_ext (x y : Q) : x == y -> nearest x = nearest y.
Proof.
  intros E. destruct (Q_dec x 0) as [[H|H]|H].
  - rewrite (nearest_neg x H), (nearest_neg y) by lra.
    apply Qred_complete. apply Qopp_comp. apply nearestPositive_ext; [lra|].
    now rewrite E.
  - rewrite (nearest_pos x H), (nearest_pos y) by lra.
    apply Qred_complete. now apply nearestPositive_ext.
  - rewrite (nearest_zero x H), (nearest_zero y); [reflexivity|].
    now rewrite <- E.
Qed.

Lemma Qred_involutive (q : Q) : Qred (Qred q) = Qred q.
Proof. apply Qred_complete, Qred_correct. Qed.

Lemma nearest_canonical (x : Q) : Qred (nearest x) = nearest x.
Proof.
  destruct (Q_dec x 0) as [[H|H]|H].
  - rewrite (nearest_neg x H). apply Qred_involutive.
  - rewrite (nearest_pos x H). apply Qred_involutive.
  - rewrite (nearest_zero x H). reflexivity.
Qed.

Lemma nearest_opp (x : Q) : nearest (- x) == - nearest x.
Proof.
  destruct (Q_dec x 0) as [[H|H]|H].
  - rewrite (nearest_neg x H), (nearest_pos (- x)) by lra.
    rewrite !Qred_correct. ring.
  - rewrite (nearest_pos x H), (nearest_neg (- x)) by lra.
    rewrite !Qred_correct. apply Qopp_comp. apply nearestPositive_ext; [lra|ring].
  - rewrite (nearest_zero x H), (nearest_zero (- x)); [reflexivity|].
    rewrite H. reflexivity.
Qed.

Lemma nearest_nonneg (x : Q) : 0 <= x -> 0 <= nearest x.
Proof.
  intros H. destruct (Qle_lt_or_eq _ _ H) as [Hp|E].
  - rewrite (nearest_pos x Hp), Qred_correct. now apply nearestPositive_nonneg.
  - rewrite (nearest_zero x); [apply Qle_refl|now symmetry].
Qed.

Lemma nearest_nonpos (x : Q) : x <= 0 -> nearest x <= 0.
Proof.
  intros H. pose proof (nearest_nonneg (- x) ltac:(lra)) as K.
  rewrite nearest_opp in K. lra.
Qed.

Lemma nearest_mono (x y : Q) : x <= y -> nearest x <= nearest y.
Proof.
  intros Hxy. destruct (Qlt_le_dec 0 x) as [Hx|Hx].
  - rewrite (nearest_pos x Hx), (nearest_pos y) by lra. rewrite !Qred_correct.
    now apply nearestPositive_mono.
  - destruct (Qlt_le_dec y 0) as [Hy|Hy].
    + rewrite (nearest_neg x), (nearest_neg y) by lra. rewrite !Qred_correct.
      assert (nearestPositive (- y) <= nearestPositive (- x))
        by (apply nearestPositive_mono; lra).
      lra.
    + pose proof (nearest_nonpos x Hx). pose proof (nearest_nonneg y Hy). lra.
Qed.

Lemma nearest_error (x : Q) :
  Qabs (nearest x - x) <= Qabs x * pow2 (-53) + pow2 (-1075).
Proof.
  pose proof (pow2_pos (-1075)) as P.
  destruct (Q_dec x 0) as [[H|H]|H].
  - rewrite (nearest_neg x H), Qred_correct.
    pose proof (nearestPositive_relative (- x) ltac:(lra)) as K.
    rewrite (Qabs_neg x) by lra.
    assert (E : - nearestPositive (- x) - x == - (nearestPositive (- x) - - x)) by ring.
    rewrite E, Qabs_opp. exact K.
  - rewrite (nearest_pos x H), Qred_correct, (Qabs_pos x) by lra.
    now apply nearestPositive_relative.
  - rewrite (nearest_zero x H).
    assert (E : Qabs (0 - x) == 0) by (rewrite H; reflexivity).
    pose proof (Qmult_le_0_compat _ _ (Qabs_nonneg x) (Qlt_le_weak _ _ (pow2_pos (-53)))).
    rewrite E. lra.
Qed.

Lemma onGrid_ext (x y : Q) : x == y -> onGrid x -> onGrid y.
Proof. intros E [k Hk]. exists k. now rewrite <- E. Qed.

Lemma onGrid_opp (x : Q) : onGrid x -> onGrid (- x).
Proof.
  intros [k Hk]. exists (- k)%Z. rewrite Hk, inject_Z_opp. ring.
Qed.

Lemma onGrid_0 : onGrid 0.
Proof. exists 0%Z. ring. Qed.

Lemma nearest_grid (x : Q) : onGrid (nearest x).
Proof.
  destruct (Q_dec x 0) as [[H|H]|H].
  - rewrite (nearest_neg x H). apply onGrid_ext with (- nearestPositive (- x)).
    + symmetry. apply Qred_correct.
    + apply onGrid_opp. apply nearestPositive_grid. lra.
  - rewrite (nearest_pos x H). apply onGrid_ext with (nearestPositive x).
    + symmetry. apply Qred_correct.
    + now apply nearestPositive_grid.
  - rewrite (nearest_zero x H). apply onGrid_0.
Qed.

Lemma Qred_inject_Z (z : Z) : Qred (inject_Z z) = inject_Z z.
Proof.
  unfold Qred, inject_Z.
  pose proof (Z.ggcd_gcd z 1) as G. pose proof (Z.ggcd_correct_divisors z 1) as D.
  change (Zpos 1) with 1%Z.
  destruct (Z.ggcd z 1) as [g [a b]]. cbn [fst snd] in *.
  rewrite Z.gcd_1_r in G. subst g. destruct D as [D1 D2].
  replace a with z by lia. replace b with 1%Z by lia. reflexivity.
Qed.

Lemma nearest_Z (z : Z) : (Z.abs z < 2 ^ 53)%Z -> nearest (inject_Z z) = inject_Z z.
Proof.
  intros Hz. rewrite <- (Qred_inject_Z z) at 2. rewrite <- nearest_canonical.
  apply Qred_complete.
  destruct (Z.lt_trichotomy z 0) as [H|[H|H]].
  - assert (Hq : inject_Z z < 0) by (change 0 with (inject_Z 0); now rewrite <- Zlt_Qlt).
    rewrite (nearest_neg _ Hq), Qred_correct.
    rewrite (nearestPositive_ext (- inject_Z z) (inject_Z (- z))).
    + rewrite nearestPositive_Z by lia. rewrite inject_Z_opp. ring.
    + lra.
    + rewrite inject_Z_opp. reflexivity.
  - subst z. reflexivity.
  - assert (Hq : 0 < inject_Z z) by (change 0 with (inject_Z 0); now rewrite <- Zlt_Qlt).
    rewrite (nearest_pos _ Hq), Qred_correct. apply nearestPositive_Z. lia.
Qed.

Lemma grid_step (x : Q) : onGrid x -> 0 < x -> pow2 (-1074) <= x.
Proof.
  intros [k Hk] Hx. pose proof (pow2_pos (-1074)) as P.
  assert (Hk0 : (0 < k)%Z).
  { destruct (Z_lt_le_dec 0 k) as [?|Hle]; [assumption|exfalso].
    rewrite Zle_Qle in Hle. change (inject_Z 0) with 0 in Hle.
    assert (inject_Z k * pow2 (-1074) <= 0) by nra. lra. }
  assert (1 <= inject_Z k) by (change 1 with (inject_Z 1); rewrite <- Zle_Qle; lia).
  rewrite Hk. nra.
Qed.

Lemma onGrid_minus (x y : Q) : onGrid x -> onGrid y -> onGrid (x - y).
Proof.
  intros [k Hk] [j Hj]. exists (k - j)%Z.
  rewrite Hk, Hj. unfold Zminus. rewrite inject_Z_plus, inject_Z_opp. ring.
Qed.

Lemma nearest_smallest : nearest (pow2 (-1074)) == pow2 (-1074).
Proof. vm_compute. reflexivity. Qed.

(** The rounded difference of two doubles has the sign of the difference. *)
Lemma nearest_sign (a b : Q) :
  onGrid a -> onGrid b -> (nearest (a - b) <= 0 <-> a <= b).
Proof.
  intros Ha Hb. split.
  - intros H. destruct (Qlt_le_dec b a) as [Hlt|Hle]; [exfalso|exact Hle].
    pose proof (grid_step (a - b) (onGrid_minus a b Ha Hb) ltac:(lra)) as G.
    apply nearest_mono in G. rewrite nearest_smallest in G.
    pose proof (pow2_pos (-1074)). lra.
  - intros H. apply nearest_nonpos. lra.
Qed.
End Rounding.

(** *** Numbers *)

Section Doubles.
Local Open Scope Q_scope.

Lemma ulp53_pow2 : pow2 (-53) == ulp53.
Proof. reflexivity. Qed.

Lemma tiny_pos : 0 < tiny.
Proof. apply pow2_pos. Qed.

Lemma tiny_small : tiny <= 1 # 1267650600228229401496703205376.
Proof.
  assert (E : (1 # 1267650600228229401496703205376) == pow2 (-100)) by reflexivity.
  rewrite E. apply pow2_le. lia.
Qed.

(** The error of one rounding, for an operand bounded by [M]. *)
Lemma nearest_within (x M : Q) :
  Qabs x <= M -> Qabs (nearest x - x) <= M * ulp53 + tiny.
Proof.
  intros H. pose proof (nearest_error x) as E. rewrite ulp53_pow2 in E.
  unfold tiny. unfold ulp53 in *. lra.
Qed.

Lemma dle_Finite (a b : Q) : dle (Finite a) (Finite b) <-> a <= b.
Proof. unfold dle. cbn. apply Qle_bool_iff. Qed.

Lemma dle_notNaN (x y : Double) : dle x y -> x <> NaN /\ y <> NaN.
Proof.
  unfold dle. destruct x as [|[]|], y as [|[]|]; cbn; intros H; split; congruence.
Qed.

Lemma dle_refl (x : Double) : x <> NaN -> dle x x.
Proof.
  unfold dle. destruct x as [|[]|q]; cbn; intros H; try congruence.
  apply Qle_bool_iff, Qle_refl.
Qed.

Lemma dle_trans (x y z : Double) : dle x y -> dle y z -> dle x z.
Proof.
  unfold dle. destruct x as [|[]|a], y as [|[]|b], z as [|[]|c]; cbn; try congruence.
  rewrite !Qle_bool_iff. apply Qle_trans.
Qed.

Lemma dle_total (x y : Double) : x <> NaN -> y <> NaN -> dle x y \/ dle y x.
Proof.
  unfold dle. destruct x as [|[]|a], y as [|[]|b]; cbn; intros Hx Hy; try congruence; auto.
  rewrite !Qle_bool_iff. destruct (Qlt_le_dec b a); [right|left]; lra.
Qed.

Lemma dleb_total (x y : Double) : dleb x y = true \/ dleb y x = true.
Proof.
  destruct x as [|[]|a], y as [|[]|b]; cbn; auto.
  rewrite !Qle_bool_iff. destruct (Qlt_le_dec b a); [right|left]; lra.
Qed.

Lemma dleb_trans (x y z : Double) : dleb x y = true -> dleb y z = true -> dleb x z = true.
Proof.
  destruct x as [|[]|a], y as [|[]|b], z as [|[]|c]; cbn; try congruence.
  rewrite !Qle_bool_iff. apply Qle_trans.
Qed.

Lemma dleb_dle (x y : Double) : x <> NaN -> (dleb x y = true <-> dle x y).
Proof.
  unfold dle. destruct x as [|[]|a], y as [|[]|b]; cbn; intros H; try congruence; tauto.
Qed.

Lemma nearest_pow2_1023 : nearest (pow2 1023) == pow2 1023.
Proof. vm_compute. reflexivity. Qed.

Lemma nearest_pow2_1024 : nearest (pow2 1024) == pow2 1024.
Proof. vm_compute. reflexivity. Qed.

(** The three outcomes of a rounding. *)
Lemma rnd_spec (x : Q) :
  (rnd x = Finite (nearest x) /\ Qabs (nearest x) < pow2 1024) \/
  (rnd x = Infinity false /\ pow2 1024 <= nearest x) \/
  (rnd x = Infinity true /\ nearest x <= - pow2 1024).
Proof.
  unfold rnd. cbv zeta. pose proof (pow2_pos 1024) as P.
  destruct (Qle_bool (pow2 1024) (Qabs (nearest x))) eqn:E.
  - apply Qle_bool_iff in E. right.
    destruct (Qle_bool 0 (nearest x)) eqn:S.
    + apply Qle_bool_iff in S. rewrite Qabs_pos in E by exact S. left. split; [reflexivity|exact E].
    + right. split; [reflexivity|].
      destruct (Qlt_le_dec (nearest x) 0) as [Hn|Hn].
      * rewrite Qabs_neg in E by lra. lra.
      * apply Qle_bool_iff in Hn. congruence.
  - left. split; [reflexivity|].
    destruct (Qlt_le_dec (Qabs (nearest x)) (pow2 1024)) as [H|H]; [exact H|].
    apply Qle_bool_iff in H. congruence.
Qed.

Lemma rnd_finite (x : Q) : Qabs x <= pow2 1023 -> rnd x = Finite (nearest x).
Proof.
  intros H. apply Qabs_Qle_condition in H. destruct H as [H1 H2].
  pose proof (nearest_mono _ _ H1) as L. pose proof (nearest_mono _ _ H2) as U.
  rewrite nearest_opp in L. rewrite nearest_pow2_1023 in L, U.
  assert (P : pow2 1023 < pow2 1024) by (apply pow2_lt; lia).
  destruct (rnd_spec x) as [[E _]|[[_ K]|[_ K]]]; [exact E|lra|lra].
Qed.

Lemma rnd_notNaN (x : Q) : rnd x <> NaN.
Proof. destruct (rnd_spec x) as [[E _]|[[E _]|[E _]]]; rewrite E; discriminate. Qed.

Lemma rnd_regular (x : Q) : regular (rnd x).
Proof.
  destruct (rnd_spec x) as [[E _]|[[E _]|[E _]]]; rewrite E; cbn; auto using nearest_grid.
Qed.

Lemma rnd_mono (x y : Q) : x <= y -> dle (rnd x) (rnd y).
Proof.
  intros H. apply nearest_mono in H. pose proof (pow2_pos 1024) as P.
  destruct (rnd_spec x) as [[E B]|[[E B]|[E B]]], (rnd_spec y) as [[E' B']|[[E' B']|[E' B']]];
    rewrite E, E'; unfold dle; cbn; try reflexivity.
  1: now apply Qle_bool_iff.
  all: exfalso; try apply Qabs_Qlt_condition in B; try apply Qabs_Qlt_condition in B'; lra.
Qed.

Lemma rnd_ext (x y : Q) : x == y -> rnd x = rnd y.
Proof. intros E. unfold rnd. rewrite (nearest_ext x y E). reflexivity. Qed.

Lemma notPositive_rnd (z : Q) : notPositive (rnd z) = Qle_bool (nearest z) 0.
Proof.
  pose proof (pow2_pos 1024) as P.
  destruct (rnd_spec z) as [[E B]|[[E B]|[E B]]]; rewrite E; cbn.
  - reflexivity.
  - symmetry. destruct (Qle_bool (nearest z) 0) eqn:K; [|reflexivity].
    apply Qle_bool_iff in K. lra.
  - symmetry. apply Qle_bool_iff. lra.
Qed.

(** The comparator [b - a] orders the doubles as [<=] does. *)
Lemma notPositive_fsub (x y : Double) :
  regular x -> regular y -> notPositive (fsub x y) = dleb x y.
Proof.
  intros Hx Hy. destruct x as [|s|a], y as [|s'|b]; cbn in *; try contradiction.
  - destruct s, s'; reflexivity.
  - destruct s; reflexivity.
  - destruct s'; reflexivity.
  - rewrite notPositive_rnd.
    destruct (Qle_bool a b) eqn:K.
    + apply Qle_bool_iff. apply (nearest_sign a b Hx Hy). now apply Qle_bool_iff.
    + destruct (Qle_bool (nearest (a - b)) 0) eqn:K'; [|reflexivity].
      apply Qle_bool_iff in K'. apply (nearest_sign a b Hx Hy) in K'.
      apply Qle_bool_iff in K'. congruence.
Qed.

Lemma fmul_mono (c : Q) (x y : Double) :
  0 < c -> dle x y -> dle (fmul x (Finite c)) (fmul y (Finite c)).
Proof.
  intros Hc H. apply Qgt_alt in Hc.
  destruct x as [|s|a], y as [|s'|b]; cbn; try (now destruct (dle_notNaN _ _ H); congruence);
    rewrite ?Hc.
  - exact H.
  - destruct s; [|discriminate H].
    pose proof (rnd_notNaN (b * c)). destruct (rnd (b * c)) as [|[]|]; try congruence; reflexivity.
  - destruct s'; [discriminate H|].
    pose proof (rnd_notNaN (a * c)). destruct (rnd (a * c)) as [|[]|]; try congruence; reflexivity.
  - apply rnd_mono. apply dle_Finite in H. apply Qgt_alt in Hc.
    apply Qmult_le_compat_r; lra.
Qed.

Lemma fdiv_mono (c : Q) (x y : Double) :
  0 < c -> dle x y -> dle (fdiv x (Finite c)) (fdiv y (Finite c)).
Proof.
  intros Hc H.
  assert (Z0 : Qeq_bool c 0 = false).
  { destruct (Qeq_bool c 0) eqn:K; [|reflexivity]. apply Qeq_bool_iff in K. lra. }
  assert (P0 : Qle_bool 0 c = true) by (apply Qle_bool_iff; lra).
  destruct x as [|s|a], y as [|s'|b]; cbn; try (now destruct (dle_notNaN _ _ H); congruence);
    rewrite ?Z0, ?P0.
  - exact H.
  - destruct s; [|discriminate H].
    pose proof (rnd_notNaN (b / c)). destruct (rnd (b / c)) as [|[]|]; try congruence; reflexivity.
  - destruct s'; [discriminate H|].
    pose proof (rnd_notNaN (a / c)). destruct (rnd (a / c)) as [|[]|]; try congruence; reflexivity.
  - apply rnd_mono. apply dle_Finite in H.
    apply Qmult_le_compat_r; [exact H|]. apply Qlt_le_weak, Qinv_lt_0_compat, Hc.
Qed.

Lemma mathRound_mono (x y : Double) : dle x y -> dle (mathRound x) (mathRound y).
Proof.
  destruct x as [|s|a], y as [|s'|b]; cbn [mathRound]; intros H; try exact H.
  apply dle_Finite in H. apply dle_Finite. rewrite <- Zle_Qle.
  apply Qfloor_resp_le. lra.
Qed.

Lemma round2_mono (x y : Double) : dle x y -> dle (round2 x) (round2 y).
Proof.
  intros H. unfold round2. apply fdiv_mono; [reflexivity|].
  apply mathRound_mono. apply fmul_mono; [reflexivity|exact H].
Qed.

Lemma fmul_notNaN (c : Q) (x : Double) : 0 < c -> x <> NaN -> fmul x (Finite c) <> NaN.
Proof.
  intros Hc Hx. apply Qgt_alt in Hc. destruct x as [|s|a]; cbn; [congruence| |apply rnd_notNaN].
  rewrite Hc. discriminate.
Qed.

Lemma fdiv_notNaN (c : Q) (x : Double) : ~ c == 0 -> x <> NaN -> fdiv x (Finite c) <> NaN.
Proof.
  intros Hc Hx.
  assert (Z0 : Qeq_bool c 0 = false).
  { destruct (Qeq_bool c 0) eqn:K; [|reflexivity]. apply Qeq_bool_iff in K. contradiction. }
  destruct x as [|s|a]; cbn; [congruence|discriminate|]. rewrite Z0. apply rnd_notNaN.
Qed.

Lemma fdiv_regular (c : Q) (x : Double) : ~ c == 0 -> x <> NaN -> regular (fdiv x (Finite c)).
Proof.
  intros Hc Hx.
  assert (Z0 : Qeq_bool c 0 = false).
  { destruct (Qeq_bool c 0) eqn:K; [|reflexivity]. apply Qeq_bool_iff in K. contradiction. }
  destruct x as [|s|a]; cbn; [congruence|exact I|]. rewrite Z0. apply rnd_regular.
Qed.

Lemma mathRound_notNaN (x : Double) : x <> NaN -> mathRound x <> NaN.
Proof. destruct x; cbn; congruence. Qed.

Lemma round2_notNaN (x : Double) : x <> NaN -> round2 x <> NaN.
Proof.
  intros H. unfold round2. apply fdiv_notNaN; [discriminate|].
  apply mathRound_notNaN. apply fmul_notNaN; [reflexivity|exact H].
Qed.

Lemma round2_regular (x : Double) : x <> NaN -> regular (round2 x).
Proof.
  intros H. unfold round2. apply fdiv_regular; [discriminate|].
  apply mathRound_notNaN. apply fmul_notNaN; [reflexivity|exact H].
Qed.

Lemma regular_notNaN (x : Double) : regular x -> x <> NaN.
Proof. destruct x; cbn; [contradiction|discriminate..]. Qed.

Lemma round2_NaN : round2 NaN = NaN.
Proof. reflexivity. Qed.

(** *** Error bounds *)

Lemma floor_half (y : Q) : Qabs (inject_Z (Qfloor (y + (1 # 2))) - y) <= 1 # 2.
Proof.
  destruct (Qfloor_bounds (y + (1 # 2))) as [H1 H2].
  apply Qabs_Qle_condition. split; lra.
Qed.

Lemma nearest_1 : nearest 1 = 1.
Proof. exact (nearest_Z 1 eq_refl). Qed.

Lemma nearest_0 : nearest 0 = 0.
Proof. reflexivity. Qed.

Lemma nearest_100 : nearest 100 = 100.
Proof. exact (nearest_Z 100 eq_refl). Qed.

Lemma nearest_10000 : nearest 10000 = 10000.
Proof. exact (nearest_Z 10000 eq_refl). Qed.

Lemma nearest_pow2_1010 : nearest (pow2 1010) == pow2 1010.
Proof. vm_compute. reflexivity. Qed.

Lemma nearest_abs_le (x M : Q) : Qabs x <= M -> nearest M == M -> Qabs (nearest x) <= M.
Proof.
  intros H E. apply Qabs_Qle_condition in H. destruct H as [H1 H2].
  apply nearest_mono in H1, H2. rewrite nearest_opp in H1. rewrite E in H1, H2.
  apply Qabs_Qle_condition. split; assumption.
Qed.

Lemma pow2_1000_1010 : 1000 * pow2 1000 <= pow2 1010.
Proof.
  replace 1010%Z with (10 + 1000)%Z by reflexivity. rewrite pow2_add.
  assert (E : pow2 10 == 1024) by reflexivity. rewrite E.
  pose proof (pow2_pos 1000). lra.
Qed.

Lemma pow2_1010_1023 : pow2 1010 <= pow2 1023.
Proof. apply pow2_le. lia. Qed.

Lemma one_le_pow2 (k : Z) : (0 <= k)%Z -> 1 <= pow2 k.
Proof. intros H. rewrite <- pow2_0. now apply pow2_le. Qed.

(** [Math.round(x * 100) / 100] on a number that is not huge. *)
Lemma round2_Finite (x : Q) :
  Qabs x <= pow2 1000 ->
  round2 (Finite x)
  = Finite (nearest (inject_Z (Qfloor (nearest (x * 100) + (1 # 2))) / 100)).
Proof.
  intros H. pose proof pow2_1000_1010 as P1. pose proof pow2_1010_1023 as P2.
  pose proof (pow2_pos 1000) as P0. pose proof (one_le_pow2 1010 ltac:(lia)) as P3.
  assert (B : Qabs (x * 100) <= pow2 1010).
  { rewrite Qabs_Qmult. change (Qabs 100) with 100. lra. }
  unfold round2. cbn [fmul]. rewrite (rnd_finite (x * 100)) by lra.
  cbn [mathRound fdiv]. change (Qeq_bool 100 0) with false. cbv iota.
  apply rnd_finite.
  pose proof (nearest_abs_le _ _ B nearest_pow2_1010) as By.
  pose proof (floor_half (nearest (x * 100))) as F.
  set (y := nearest (x * 100)) in *. set (k := inject_Z (Qfloor (y + (1 # 2)))) in *.
  apply Qabs_Qle_condition in By, F. apply Qabs_Qle_condition.
  unfold Qdiv. change (/ 100) with (1 # 100). split; lra.
Qed.

Lemma round2_spec (x M : Q) :
  Qabs x <= M -> M <= pow2 1000 ->
  hundredthsNear (100 * M * ulp53 + tiny) x (round2 (Finite x)).
Proof.
  intros H HM. exists (Qfloor (nearest (x * 100) + (1 # 2))). split.
  - apply round2_Finite. lra.
  - assert (B : Qabs (x * 100) <= 100 * M).
    { rewrite Qabs_Qmult. change (Qabs 100) with 100. lra. }
    pose proof (nearest_within _ _ B) as E.
    pose proof (floor_half (nearest (x * 100))) as F.
    set (y := nearest (x * 100)) in *. set (k := inject_Z (Qfloor (y + (1 # 2)))) in *.
    apply Qabs_Qle_condition in E, F. apply Qabs_Qle_condition. split; lra.
Qed.

(** The reading of a two-decimal rounding as a value: within half a
    hundredth of [x], up to the slack and one more rounding. *)
Lemma hundredthsNear_close (slack x : Q) (r : Double) :
  hundredthsNear slack x r -> Qabs x <= 100 -> 0 <= slack <= 1 ->
  exists p, r = Finite p /\ Qabs (p - x) <= (1 # 200) + slack / 100 + 102 * ulp53.
Proof.
  intros (k & -> & Hk) Hx Hs. exists (nearest (inject_Z k / 100)). split; [reflexivity|].
  apply Qabs_Qle_condition in Hk, Hx.
  assert (B : Qabs (inject_Z k / 100) <= 101).
  { apply Qabs_Qle_condition. unfold Qdiv. change (/ 100) with (1 # 100). split; lra. }
  pose proof (nearest_within _ _ B) as E. pose proof tiny_small as T.
  apply Qabs_Qle_condition in E. apply Qabs_Qle_condition.
  unfold Qdiv in *. change (/ 100) with (1 # 100) in *. unfold ulp53 in *. split; lra.
Qed.

Lemma ofZ_error (z : Z) :
  (0 <= z)%Z ->
  0 <= nearest (inject_Z z) /\
  Qabs (nearest (inject_Z z) - inject_Z z) <= 2 * ulp53 * inject_Z z.
Proof.
  intros Hz. assert (H0 : 0 <= inject_Z z) by (change 0 with (inject_Z 0); now rewrite <- Zle_Qle).
  split; [now apply nearest_nonneg|].
  destruct (Z.eq_dec z 0) as [->|Hn].
  - vm_compute. discriminate.
  - assert (H1 : 1 <= inject_Z z) by (change 1 with (inject_Z 1); rewrite <- Zle_Qle; lia).
    pose proof (nearest_within (inject_Z z) (inject_Z z)) as E.
    rewrite Qabs_pos in E by exact H0. specialize (E (Qle_refl _)).
    pose proof tiny_small as T. unfold ulp53 in *. apply Qabs_Qle_condition in E.
    apply Qabs_Qle_condition. split; lra.
Qed.

Lemma Qmult_le_compat_l (z x y : Q) : 0 <= z -> x <= y -> z * x <= z * y.
Proof.
  intros Hz H. rewrite (Qmult_comm z x), (Qmult_comm z y). now apply Qmult_le_compat_r.
Qed.

(** The quotient of two counts, as [$divide] and [/] compute it. *)
Lemma ratio_error (e t : Z) :
  (0 <= e <= t)%Z -> (0 < t)%Z ->
  exists r, fdiv (ofZ e) (ofZ t) = Finite r /\ 0 <= r <= 1 /\
            Qabs (r - inject_Z e / inject_Z t) <= 8 * ulp53.
Proof.
  intros [He Het] Ht.
  destruct (ofZ_error e He) as [E0 Ee]. destruct (ofZ_error t ltac:(lia)) as [T0 Te].
  assert (Hle : nearest (inject_Z e) <= nearest (inject_Z t))
    by (apply nearest_mono; now rewrite <- Zle_Qle).
  assert (T1 : 1 <= nearest (inject_Z t)).
  { rewrite <- nearest_1. apply nearest_mono. change 1 with (inject_Z 1).
    rewrite <- Zle_Qle. lia. }
  assert (a0 : 0 <= inject_Z e) by (change 0 with (inject_Z 0); now rewrite <- Zle_Qle).
  assert (b1 : 1 <= inject_Z t) by (change 1 with (inject_Z 1); rewrite <- Zle_Qle; lia).
  assert (ab : inject_Z e <= inject_Z t) by now rewrite <- Zle_Qle.
  set (a := inject_Z e) in *. set (b := inject_Z t) in *.
  set (E := nearest a) in *. set (T := nearest b) in *.
  unfold ofZ. fold a b E T. cbn [fdiv].
  assert (Z0 : Qeq_bool T 0 = false).
  { destruct (Qeq_bool T 0) eqn:K; [|reflexivity]. apply Qeq_bool_iff in K. lra. }
  rewrite Z0.
  assert (Q0 : 0 <= E / T) by (apply Qle_shift_div_l; lra).
  assert (Q1 : E / T <= 1) by (apply Qle_shift_div_r; lra).
  rewrite rnd_finite.
  2:{ rewrite Qabs_pos by exact Q0. pose proof (one_le_pow2 1023 ltac:(lia)). lra. }
  exists (nearest (E / T)). split; [reflexivity|].
  assert (R0 : 0 <= nearest (E / T)) by now apply nearest_nonneg.
  assert (R1 : nearest (E / T) <= 1) by (rewrite <- nearest_1; now apply nearest_mono).
  split; [split; assumption|].
  assert (q0 : 0 <= a / b) by (apply Qle_shift_div_l; lra).
  assert (q1 : a / b <= 1) by (apply Qle_shift_div_r; lra).
  assert (qb : a / b * b == a) by (field; lra).
  apply Qabs_Qle_condition in Ee, Te. unfold ulp53 in *.
  set (u := 1 # 9007199254740992) in *.
  assert (HL : a / b - 5 * u <= E / T).
  { apply Qle_shift_div_l; [lra|].
    destruct (Qlt_le_dec (a / b) (5 * u)) as [Hs|Hs].
    - assert (0 <= (5 * u - a / b) * T) by (apply Qmult_le_0_compat; lra). lra.
    - apply Qle_trans with ((a / b - 5 * u) * (b * (1 + 2 * u))).
      + apply Qmult_le_compat_l; lra.
      + assert (K : (a / b - 5 * u) * (b * (1 + 2 * u))
                    == a / b * b * (1 + 2 * u) - 5 * u * (1 + 2 * u) * b) by ring.
        rewrite K, qb. unfold u in *. lra. }
  assert (HU : E / T <= a / b + 5 * u).
  { apply Qle_shift_div_r; [lra|].
    apply Qle_trans with ((a / b + 5 * u) * (b * (1 - 2 * u))).
    - assert (K : (a / b + 5 * u) * (b * (1 - 2 * u))
                  == a / b * b * (1 - 2 * u) + 5 * u * (1 - 2 * u) * b) by ring.
      rewrite K, qb. unfold u in *. lra.
    - apply Qmult_le_compat_l; unfold u in *; lra. }
  assert (Hq : Qabs (E / T - a / b) <= 5 * u) by (apply Qabs_Qle_condition; split; lra).
  assert (B : Qabs (E / T) <= 1) by (rewrite Qabs_pos; lra).
  pose proof (nearest_within _ _ B) as Er. pose proof tiny_small as Ts.
  apply Qabs_Qle_condition in Er, Hq. apply Qabs_Qle_condition.
  unfold ulp53, u in *. split; lra.
Qed.

Lemma hundredthsNear_shift (s s' x y : Q) (r : Double) :
  hundredthsNear s y r -> Qabs (y - x) * 100 + s <= s' -> hundredthsNear s' x r.
Proof.
  intros (k & E & Hk) H. exists k. split; [exact E|].
  apply Qabs_Qle_condition in Hk. apply Qabs_Qle_condition.
  destruct (Qabs_Qle_condition (y - x) (Qabs (y - x))) as [B _].
  specialize (B (Qle_refl _)). split; lra.
Qed.

(** A quotient of counts scaled by [c], as in [(e / t) * 100]. *)
Lemma scaled_ratio (e t : Z) (c : Q) :
  (0 <= e <= t)%Z -> (0 < t)%Z -> 1 <= c <= 10000 -> nearest c == c ->
  exists y, fmul (fdiv (ofZ e) (ofZ t)) (Finite c) = Finite y /\ 0 <= y <= c /\
            Qabs (y - c * (inject_Z e / inject_Z t)) <= 10 * c * ulp53.
Proof.
  intros He Ht Hc Ec. destruct (ratio_error e t He Ht) as (r & -> & [R0 R1] & Hr).
  cbn [fmul].
  assert (B : Qabs (r * c) <= c).
  { apply Qabs_Qle_condition. split; nra. }
  rewrite rnd_finite.
  2:{ pose proof (one_le_pow2 1023 ltac:(lia)) as P.
      assert (P2 : pow2 14 <= pow2 1023) by (apply pow2_le; lia).
      assert (E14 : pow2 14 == 16384) by reflexivity. rewrite E14 in P2. lra. }
  exists (nearest (r * c)). split; [reflexivity|]. split.
  - split.
    + apply nearest_nonneg. nra.
    + pose proof (nearest_mono (r * c) c ltac:(nra)) as M. lra.
  - pose proof (nearest_within _ _ B) as E. pose proof tiny_small as T.
    set (q := inject_Z e / inject_Z t) in *.
    apply Qabs_Qle_condition in E, Hr. apply Qabs_Qle_condition.
    unfold ulp53 in *. split; nra.
Qed.

Lemma round2_0 : round2 (Finite 0) = Finite 0.
Proof. vm_compute. reflexivity. Qed.

Lemma round2_100 : round2 (Finite 100) = Finite 100.
Proof. vm_compute. reflexivity. Qed.

Lemma pow2_36 : pow2 (-36) == 131072 * ulp53.
Proof. reflexivity. Qed.

Lemma pow2_1000_big : 10000 <= pow2 1000.
Proof.
  assert (P : pow2 14 <= pow2 1000) by (apply pow2_le; lia).
  assert (E14 : pow2 14 == 16384) by reflexivity. rewrite E14 in P. lra.
Qed.

(** The error rate: [Math.round(((e / t) * 100) * 100) / 100]. *)
Lemma errorRate_spec (e t : Z) :
  (0 <= e <= t)%Z -> (0 < t)%Z ->
  let rate := round2 (fmul (fdiv (ofZ e) (ofZ t)) (Finite 100)) in
  hundredthsNear (pow2 (-36)) (100 * inject_Z e / inject_Z t) rate /\
  dle (Finite 0) rate /\ dle rate (Finite 100).
Proof.
  intros He Ht rate.
  destruct (scaled_ratio e t 100 He Ht ltac:(lra) ltac:(now rewrite nearest_100))
    as (y & Ey & [Y0 Y1] & Hy).
  unfold rate. rewrite Ey. split; [|split].
  - assert (B : Qabs y <= 100) by (apply Qabs_Qle_condition; split; lra).
    pose proof (round2_spec y 100 B ltac:(pose proof pow2_1000_big; lra)) as S.
    apply (hundredthsNear_shift _ _ _ _ _ S).
    rewrite pow2_36. pose proof tiny_small as T. unfold ulp53 in *.
    assert (E : y - 100 * inject_Z e / inject_Z t == y - 100 * (inject_Z e / inject_Z t))
      by (unfold Qdiv; ring).
    rewrite E. set (d := Qabs (y - 100 * (inject_Z e / inject_Z t))) in *. lra.
  - rewrite <- round2_0. apply round2_mono. now apply dle_Finite.
  - rewrite <- round2_100. apply round2_mono. now apply dle_Finite.
Qed.

(** A share of the errors: [Math.round((c / t) * 10000) / 100]. *)
Lemma share_spec (c t : Z) :
  (0 <= c <= t)%Z -> (0 < t)%Z ->
  let share := fdiv (mathRound (fmul (fdiv (ofZ c) (ofZ t)) (Finite 10000))) (Finite 100) in
  hundredthsNear (pow2 (-36)) (100 * inject_Z c / inject_Z t) share /\
  dle (Finite 0) share /\ dle share (Finite 100).
Proof.
  intros Hc Ht share.
  destruct (scaled_ratio c t 10000 Hc Ht ltac:(lra) ltac:(now rewrite nearest_10000))
    as (y & Ey & [Y0 Y1] & Hy).
  unfold share. rewrite Ey. cbn [mathRound fdiv]. change (Qeq_bool 100 0) with false. cbv iota.
  pose proof (floor_half y) as F.
  assert (K0 : (0 <= Qfloor (y + (1 # 2)))%Z).
  { change 0%Z with (Qfloor (0 + (1 # 2))). apply Qfloor_resp_le. lra. }
  assert (K1 : (Qfloor (y + (1 # 2)) <= 10000)%Z).
  { change 10000%Z with (Qfloor (10000 + (1 # 2))). apply Qfloor_resp_le. lra. }
  set (k := Qfloor (y + (1 # 2))) in *.
  rewrite Zle_Qle in K0, K1. change (inject_Z 0) with 0 in K0.
  change (inject_Z 10000) with 10000 in K1.
  assert (D : inject_Z k / 100 == inject_Z k * (1 # 100)) by reflexivity.
  rewrite rnd_finite.
  2:{ rewrite D. pose proof pow2_1000_big.
      assert (pow2 1000 <= pow2 1023) by (apply pow2_le; lia).
      apply Qabs_Qle_condition. split; lra. }
  split; [|split].
  - exists k. split; [reflexivity|].
    rewrite pow2_36. unfold ulp53 in *.
    assert (E : 100 * (100 * inject_Z c / inject_Z t) == 10000 * (inject_Z c / inject_Z t))
      by (unfold Qdiv; ring).
    rewrite E. set (q := inject_Z c / inject_Z t) in *.
    apply Qabs_Qle_condition in F, Hy. apply Qabs_Qle_condition. split; lra.
  - apply dle_Finite. apply nearest_nonneg. rewrite D. lra.
  - apply dle_Finite. rewrite <- nearest_100. apply nearest_mono. rewrite D. lra.
Qed.

Lemma pow2_42 : pow2 (-42) == 2048 * ulp53.
Proof. reflexivity. Qed.

(** A two-decimal rounding of a percentage, read as a value. *)
Lemma hundredthsNear_value (x : Q) (r : Double) :
  hundredthsNear (pow2 (-36)) x r -> 0 <= x <= 100 ->
  exists p, r = Finite p /\ Qabs (p - x) <= (1 # 200) + pow2 (-42).
Proof.
  intros H Hx.
  destruct (hundredthsNear_close (pow2 (-36)) x r H) as (p & E & Hp).
  - apply Qabs_Qle_condition. split; lra.
  - rewrite pow2_36. unfold ulp53. split; lra.
  - exists p. split; [exact E|]. rewrite pow2_42. rewrite pow2_36 in Hp.
    unfold ulp53 in *. unfold Qdiv in Hp. change (/ 100) with (1 # 100) in Hp. lra.
Qed.

Lemma fdiv_Finite_notNaN (a : Q) (d : Double) :
  d <> NaN -> (forall q, d = Finite q -> ~ q == 0) -> fdiv (Finite a) d <> NaN.
Proof.
  intros Hn Hz. destruct d as [|s|q]; cbn; [congruence|discriminate|].
  destruct (Qeq_bool q 0) eqn:E.
  - apply Qeq_bool_iff in E. now destruct (Hz q eq_refl).
  - apply rnd_notNaN.
Qed.

Lemma mathMax_cases (a b : Double) :
  a <> NaN -> b <> NaN -> mathMax a b = a \/ mathMax a b = b.
Proof.
  intros Ha Hb. unfold mathMax.
  destruct a as [|s|x]; [congruence| |]; destruct b as [|s'|y]; try congruence;
    match goal with |- context [if ?c then _ else _] => destruct c end; auto.
Qed.

Lemma mathMax_regular (a b : Double) : regular a -> regular b -> regular (mathMax a b).
Proof.
  intros Ha Hb.
  destruct (mathMax_cases a b (regular_notNaN _ Ha) (regular_notNaN _ Hb)) as [-> | ->];
    assumption.
Qed.

(** *** Quotients by a positive constant *)

Lemma tiny_relative (x : Q) : pow2 (-1000) <= x -> tiny <= ulp53 * x.
Proof.
  intros H. unfold tiny. rewrite <- ulp53_pow2.
  apply Qle_trans with (pow2 (-53) * pow2 (-1000)).
  - rewrite <- pow2_add. apply pow2_le. lia.
  - apply Qmult_le_compat_l; [apply Qlt_le_weak, pow2_pos|exact H].
Qed.

Lemma nearest_relative (x : Q) :
  pow2 (-1000) <= x -> 0 < nearest x /\ Qabs (nearest x - x) <= 2 * ulp53 * x.
Proof.
  intros H. pose proof (pow2_pos (-1000)) as P.
  pose proof (nearest_within x x) as E. rewrite Qabs_pos in E by lra.
  specialize (E (Qle_refl _)). pose proof (tiny_relative x H) as T.
  apply Qabs_Qle_condition in E. unfold ulp53 in *.
  split; [lra|]. apply Qabs_Qle_condition. split; lra.
Qed.

Lemma fdiv_const (a c : Q) :
  0 < c -> pow2 (-1000) <= a / c <= pow2 1000 ->
  exists d, fdiv (Finite a) (Finite c) = Finite d /\ 0 < d /\
            Qabs (d - a / c) <= 2 * ulp53 * (a / c).
Proof.
  intros Hc [H0 H1]. cbn [fdiv].
  assert (Z0 : Qeq_bool c 0 = false).
  { destruct (Qeq_bool c 0) eqn:K; [|reflexivity]. apply Qeq_bool_iff in K. lra. }
  rewrite Z0. pose proof (pow2_pos (-1000)) as P.
  rewrite rnd_finite.
  2:{ rewrite Qabs_pos by lra.
      assert (pow2 1000 <= pow2 1023) by (apply pow2_le; lia). lra. }
  exists (nearest (a / c)). split; [reflexivity|]. now apply nearest_relative.
Qed.

Lemma positive_Finite (q : Q) : isPositive (Finite q) <-> 0 < q.
Proof.
  unfold isPositive. cbn. split.
  - intros H. destruct (Qlt_le_dec 0 q) as [L|L]; [exact L|].
    apply Qle_bool_iff in L. rewrite L in H. discriminate.
  - intros H. destruct (Qle_bool q 0) eqn:E; [|reflexivity].
    apply Qle_bool_iff in E. lra.
Qed.

Lemma positive_dle (lo : Q) (x : Double) : 0 < lo -> dle (Finite lo) x -> isPositive x.
Proof.
  intros Hlo H. destruct x as [|s|q]; [discriminate H|destruct s; [discriminate H|reflexivity]|].
  apply dle_Finite in H. apply positive_Finite. lra.
Qed.

(** A number that is at least [lo > 0] stays positive when divided by a
    constant [c > 0]. *)
Lemma fdiv_lower (lo c : Q) (x : Double) :
  0 < c -> Qabs (lo / c) <= pow2 1023 -> dle (Finite lo) x ->
  dle (Finite (nearest (lo / c))) (fdiv x (Finite c)).
Proof.
  intros Hc Hb H. apply (fdiv_mono c _ _ Hc) in H.
  assert (Z0 : Qeq_bool c 0 = false).
  { destruct (Qeq_bool c 0) eqn:K; [|reflexivity]. apply Qeq_bool_iff in K. lra. }
  assert (E : fdiv (Finite lo) (Finite c) = Finite (nearest (lo / c))).
  { cbn [fdiv]. rewrite Z0. now apply rnd_finite. }
  rewrite E in H. exact H.
Qed.

Lemma ofZ_lower (z : Z) : (1 <= z)%Z -> dle (Finite 1) (ofZ z).
Proof.
  intros H. unfold ofZ. apply dle_Finite. rewrite <- nearest_1. apply nearest_mono.
  change 1 with (inject_Z 1). now rewrite <- Zle_Qle.
Qed.

(** The duration of a window of [ms >= 1] milliseconds, in seconds and
    in minutes, is positive. *)
Lemma window_positive (ms : Z) :
  (1 <= ms)%Z ->
  isPositive (fdiv (ofZ ms) (Finite 1000)) /\
  isPositive (fdiv (fdiv (ofZ ms) (Finite 1000)) (Finite 60)).
Proof.
  intros H. pose proof (ofZ_lower ms H) as L.
  assert (L1 : dle (Finite (nearest (1 / 1000))) (fdiv (ofZ ms) (Finite 1000))).
  { apply fdiv_lower; [reflexivity| |exact L].
    pose proof (one_le_pow2 1023 ltac:(lia)) as P. apply Qabs_Qle_condition.
    assert (E : 1 / 1000 == 1 # 1000) by reflexivity. rewrite E. split; lra. }
  assert (L2 : dle (Finite (nearest (nearest (1 / 1000) / 60)))
                   (fdiv (fdiv (ofZ ms) (Finite 1000)) (Finite 60))).
  { apply fdiv_lower; [reflexivity| |exact L1].
    pose proof (one_le_pow2 1023 ltac:(lia)) as P. apply Qabs_Qle_condition.
    pose proof (nearest_nonneg (1 / 1000) ltac:(discriminate)) as A0.
    pose proof (nearest_mono (1 / 1000) 1 ltac:(discriminate)) as A1.
    rewrite nearest_1 in A1.
    assert (E : nearest (1 / 1000) / 60 == nearest (1 / 1000) * (1 # 60)) by reflexivity.
    rewrite E. split; lra. }
  split.
  - refine (positive_dle (nearest (1 / 1000)) _ _ L1). vm_compute. reflexivity.
  - refine (positive_dle (nearest (nearest (1 / 1000) / 60)) _ _ L2). vm_compute. reflexivity.
Qed.

Lemma pow2_44 : pow2 (-44) == 512 * ulp53.
Proof. reflexivity. Qed.

(** A rate: [Math.round((t / c) * 100) / 100] for a count [t] and a
    duration [c >= 1/60]. *)
Lemma rate_spec (t : Z) (c : Q) :
  (1 <= t < 2 ^ 53)%Z -> 1 # 60 <= c <= pow2 20 ->
  hundredthsNear (inject_Z t / c * pow2 (-44)) (inject_Z t / c)
    (round2 (fdiv (ofZ t) (Finite c))).
Proof.
  intros Ht [Hc Hc']. unfold ofZ. rewrite nearest_Z by lia.
  assert (T1 : 1 <= inject_Z t) by (change 1 with (inject_Z 1); rewrite <- Zle_Qle; lia).
  assert (T2 : inject_Z t <= pow2 53).
  { rewrite pow2_Z by lia. rewrite <- Zle_Qle. lia. }
  assert (E20 : pow2 20 == 1048576) by reflexivity.
  assert (E20' : pow2 (-20) == 1 # 1048576) by reflexivity.
  assert (E53 : pow2 53 == 9007199254740992) by reflexivity.
  rewrite E20 in Hc'. rewrite E53 in T2.
  set (x := inject_Z t / c).
  assert (X0 : pow2 (-20) <= x).
  { unfold x. apply Qle_shift_div_l; [lra|]. rewrite E20'. lra. }
  assert (X1 : x <= 60 * pow2 53).
  { unfold x. apply Qle_shift_div_r; [lra|]. rewrite E53. lra. }
  assert (L : pow2 (-1000) <= pow2 (-20)) by (apply pow2_le; lia).
  assert (U : 128 * pow2 53 <= pow2 1000).
  { assert (E7 : 128 == pow2 7) by reflexivity. rewrite E7, <- pow2_add. apply pow2_le. lia. }
  pose proof (pow2_pos 53) as P53.
  destruct (fdiv_const (inject_Z t) c ltac:(lra)) as (d & Ed & D0 & Hd).
  { fold x. split; lra. }
  fold x in Hd. rewrite Ed.
  pose proof (tiny_relative x ltac:(lra)) as T.
  assert (B : Qabs d <= x * (1 + 2 * ulp53)).
  { rewrite Qabs_pos by lra. apply Qabs_Qle_condition in Hd. lra. }
  pose proof (round2_spec d (x * (1 + 2 * ulp53)) B) as S.
  rewrite E20' in X0.
  apply (hundredthsNear_shift _ _ _ _ _ (S ltac:(unfold ulp53; lra))).
  rewrite pow2_44.
  destruct (Qabs_Qle_condition (d - x) (2 * ulp53 * x)) as [K _]. specialize (K Hd).
  assert (A : Qabs (d - x) <= 2 * ulp53 * x) by exact Hd.
  set (e := Qabs (d - x)) in *. unfold ulp53 in *. lra.
Qed.

Lemma pow2_50 : pow2 (-50) == 8 * ulp53.
Proof. reflexivity. Qed.

(** The duration of a window of [ms] milliseconds in seconds, [ms / 1000],
    and in minutes, [(ms / 1000) / 60]. *)
Lemma window_duration (ms : Z) :
  (1 <= ms <= 2 ^ 54)%Z ->
  exists d d',
    fdiv (ofZ ms) (Finite 1000) = Finite d /\ fdiv (Finite d) (Finite 60) = Finite d' /\
    0 < d /\ 0 < d' /\
    Qabs (d - inject_Z ms / 1000) <= inject_Z ms / 1000 * pow2 (-50) /\
    Qabs (d' - inject_Z ms / 60000) <= inject_Z ms / 60000 * pow2 (-50).
Proof.
  intros [H1 H2].
  destruct (ofZ_error ms ltac:(lia)) as [M0 HM].
  assert (Z1 : 1 <= inject_Z ms) by (change 1 with (inject_Z 1); now rewrite <- Zle_Qle).
  assert (Z2 : inject_Z ms <= 18014398509481984).
  { change 18014398509481984 with (inject_Z (2 ^ 54)). now rewrite <- Zle_Qle. }
  unfold ofZ. set (z := inject_Z ms) in *. set (M := nearest z) in *.
  apply Qabs_Qle_condition in HM. unfold ulp53 in HM.
  assert (L : pow2 (-1000) <= 1 # 1048576).
  { assert (E : (1 # 1048576) == pow2 (-20)) by reflexivity. rewrite E. apply pow2_le. lia. }
  assert (U : 1152921504606846976 <= pow2 1000).
  { assert (E : 1152921504606846976 == pow2 60) by reflexivity. rewrite E. apply pow2_le. lia. }
  assert (D1 : M / 1000 == M * (1 # 1000)) by reflexivity.
  destruct (fdiv_const M 1000 ltac:(reflexivity)) as (d & Ed & D0 & Hd).
  { rewrite D1. split; lra. }
  assert (D2 : d / 60 == d * (1 # 60)) by reflexivity.
  rewrite D1 in Hd. apply Qabs_Qle_condition in Hd. unfold ulp53 in Hd.
  destruct (fdiv_const d 60 ltac:(reflexivity)) as (d' & Ed' & D0' & Hd').
  { rewrite D2. split; lra. }
  rewrite D2 in Hd'. apply Qabs_Qle_condition in Hd'. unfold ulp53 in Hd'.
  exists d, d'. rewrite pow2_50. unfold ulp53.
  assert (E1 : z / 1000 == z * (1 # 1000)) by reflexivity.
  assert (E2 : z / 60000 == z * (1 # 60000)) by reflexivity.
  rewrite E1, E2.
  repeat split; try assumption; apply Qabs_Qle_condition; split; lra.
Qed.

Lemma orOne_positive (x : Double) : isPositive x -> orOne x = x.
Proof.
  destruct x as [|s|q]; cbn; intros H; [discriminate|reflexivity|].
  destruct (Qeq_bool q 0) eqn:E; [|reflexivity].
  apply Qeq_bool_iff in E. apply (positive_Finite q) in H. lra.
Qed.

Lemma hundredthsNear_ext (s s' x x' : Q) (r : Double) :
  s == s' -> x == x' -> hundredthsNear s x r -> hundredthsNear s' x' r.
Proof.
  intros Es Ex (k & E & H). exists k. split; [exact E|]. now rewrite <- Es, <- Ex.
Qed.
End Doubles.


(** ** Facts about the primitives *)

Section SortFacts.
Context {A : Type} (cmp : A -> A -> Double).

Lemma sortInsert_perm (x : A) (l : list A) :
  Permutation (x :: l) (sortInsert cmp x l).
Proof.
  induction l as [|y l IH]; simpl.
  - reflexivity.
  - destruct (notPositive (cmp x y)).
    + reflexivity.
    + rewrite perm_swap. now apply perm_skip.
Qed.

Lemma jsSort_perm (l : list A) : Permutation l (jsSort cmp l).
Proof.
  induction l as [|x l IH]; simpl.
  - constructor.
  - rewrite <- sortInsert_perm. now apply perm_skip.
Qed.

Lemma jsSort_length (l : list A) : length (jsSort cmp l) = length l.
Proof. symmetry. apply Permutation_length, jsSort_perm. Qed.

Lemma jsSort_In (l : list A) (x : A) : In x (jsSort cmp l) <-> In x l.
Proof.
  split; apply Permutation_in; [symmetry|]; apply jsSort_perm.
Qed.

(** The comparator orders its arguments consistently. *)
Hypothesis cmp_total : forall a b, sortedBefore cmp a b \/ sortedBefore cmp b a.
Hypothesis cmp_trans :
  forall a b c, sortedBefore cmp a b -> sortedBefore cmp b c -> sortedBefore cmp a c.

Lemma sortInsert_sorted (x : A) (l : list A) :
  StronglySorted (sortedBefore cmp) l ->
  StronglySorted (sortedBefore cmp) (sortInsert cmp x l).
Proof.
  induction 1 as [|y l Hs IH Hy]; simpl.
  - repeat constructor.
  - destruct (notPositive (cmp x y)) eqn:E.
    + constructor; [now constructor|].
      constructor; [exact E|].
      eapply Forall_impl; [|exact Hy].
      intros z Hz. now apply (cmp_trans x y z).
    + constructor; [exact IH|].
      apply (Permutation_Forall (sortInsert_perm x l)).
      constructor; [|exact Hy].
      destruct (cmp_total y x) as [H|H]; [exact H|].
      unfold sortedBefore in H. congruence.
Qed.

Lemma jsSort_sorted (l : list A) : StronglySorted (sortedBefore cmp) (jsSort cmp l).
Proof.
  induction l as [|x l IH]; simpl.
  - constructor.
  - now apply sortInsert_sorted.
Qed.
End SortFacts.

Lemma StronglySorted_weaken {A} (R S : A -> A -> Prop) (l : list A) :
  (forall a b, R a b -> S a b) -> StronglySorted R l -> StronglySorted S l.
Proof.
  intros HRS. induction 1 as [|x l Hs IH Hx]; constructor.
  - exact IH.
  - eapply Forall_impl; [|exact Hx]. intros y. apply HRS.
Qed.

Lemma StronglySorted_weaken_in {A} (P : A -> Prop) (R S : A -> A -> Prop) (l : list A) :
  (forall a b, P a -> P b -> R a b -> S a b) -> Forall P l ->
  StronglySorted R l -> StronglySorted S l.
Proof.
  intros HRS HP. induction 1 as [|x l Hs IH Hx]; constructor.
  - apply IH. now inversion HP.
  - inversion HP as [|? ? Px Pl]; subst.
    rewrite Forall_forall in *. intros y Hy. apply HRS; auto.
Qed.

(** Only the signs the comparator takes on the elements matter. *)
Lemma sortInsert_ext_in {A} (cmp cmp' : A -> A -> Double) (x : A) (l : list A) :
  (forall y, In y l -> notPositive (cmp x y) = notPositive (cmp' x y)) ->
  sortInsert cmp x l = sortInsert cmp' x l.
Proof.
  induction l as [|y l IH]; intros H; simpl; [reflexivity|].
  rewrite (H y (or_introl eq_refl)).
  destruct (notPositive (cmp' x y)); [reflexivity|].
  f_equal. apply IH. intros z Hz. apply H. now right.
Qed.

Lemma jsSort_ext_in {A} (cmp cmp' : A -> A -> Double) (l : list A) :
  (forall a b, In a l -> In b l -> notPositive (cmp a b) = notPositive (cmp' a b)) ->
  jsSort cmp l = jsSort cmp' l.
Proof.
  induction l as [|x l IH]; intros H; simpl; [reflexivity|].
  rewrite IH by (intros a b Ha Hb; apply H; now right).
  apply sortInsert_ext_in. intros y Hy. apply jsSort_In in Hy.
  apply H; [now left|now right].
Qed.

(** [$sortArray] yields an ascending array. *)
Lemma sortArray_ascending (l : list Q) : StronglySorted Qle (sortArray l).
Proof.
  unfold sortArray.
  eapply StronglySorted_weaken; [|apply jsSort_sorted].
  - intros a b H. unfold sortedBefore in H. cbn in H. apply Qle_bool_iff in H. lra.
  - intros a b. unfold sortedBefore. cbn. rewrite !Qle_bool_iff.
    destruct (Qlt_le_dec b a); [right|left]; lra.
  - intros a b c. unfold sortedBefore. cbn. rewrite !Qle_bool_iff. lra.
Qed.

(** On doubles, sorting with [(a, b) => a - b] is sorting by value. *)
Lemma sort_numbers (l : list Q) :
  Forall onGrid l -> jsSort (fun a b => fsub (Finite a) (Finite b)) l = sortArray l.
Proof.
  intros H. unfold sortArray. apply jsSort_ext_in. intros a b Ha Hb.
  rewrite Forall_forall in H.
  rewrite (notPositive_fsub (Finite a) (Finite b)) by (cbn; auto).
  cbn. destruct (Qle_bool a b) eqn:E, (Qle_bool (a - b) 0) eqn:E'; try reflexivity.
  - apply Qle_bool_iff in E.
    assert (K : Qle_bool (a - b) 0 = true) by (apply Qle_bool_iff; lra). congruence.
  - apply Qle_bool_iff in E'.
    assert (K : Qle_bool a b = true) by (apply Qle_bool_iff; lra). congruence.
Qed.

Lemma sort_ascending (l : list Q) :
  Forall onGrid l ->
  StronglySorted Qle (jsSort (fun a b => fsub (Finite a) (Finite b)) l).
Proof. intros H. rewrite (sort_numbers l H). apply sortArray_ascending. Qed.

(** Sorting with [(a, b) => key b - key a] yields descending keys. *)
Lemma sort_descending {A} (key : A -> Double) (l : list A) :
  Forall (fun a => regular (key a)) l ->
  StronglySorted (fun a b => dle (key b) (key a))
    (jsSort (fun a b => fsub (key b) (key a)) l).
Proof.
  intros H.
  set (cmp' := fun a b : A => if dleb (key b) (key a) then Finite 0 else Finite 1).
  assert (S' : forall a b, sortedBefore cmp' a b <-> dleb (key b) (key a) = true).
  { intros a b. unfold sortedBefore, cmp'. destruct (dleb (key b) (key a)); cbn; split; congruence. }
  rewrite (jsSort_ext_in _ cmp').
  - apply (StronglySorted_weaken_in (fun a => regular (key a)) (sortedBefore cmp')).
    + intros a b Ha Hb Hab. apply S' in Hab.
      apply dleb_dle in Hab; [exact Hab|]. now apply regular_notNaN.
    + apply Forall_forall. intros a Ha. apply jsSort_In in Ha.
      rewrite Forall_forall in H. now apply H.
    + apply jsSort_sorted.
      * intros a b. rewrite !S'. apply dleb_total.
      * intros a b c. rewrite !S'. intros H1 H2. now apply dleb_trans with (key b).
  - intros a b Ha Hb. rewrite Forall_forall in H.
    rewrite notPositive_fsub by auto.
    unfold cmp'. destruct (dleb (key b) (key a)); reflexivity.
Qed.

Lemma ofZ_sign (z : Z) : notPositive (ofZ z) = (z <=? 0).
Proof.
  unfold ofZ. cbn [notPositive].
  destruct (Z.leb_spec z 0) as [H|H].
  - apply Qle_bool_iff. apply nearest_nonpos.
    rewrite Zle_Qle in H. exact H.
  - destruct (Qle_bool (nearest (inject_Z z)) 0) eqn:E; [|reflexivity].
    apply Qle_bool_iff in E.
    assert (H1 : (1 <= inject_Z z)%Q) by (change 1%Q with (inject_Z 1); rewrite <- Zle_Qle; lia).
    apply nearest_mono in H1. rewrite nearest_1 in H1. lra.
Qed.

Lemma ofZ_zero (z : Z) : (nearest (inject_Z z) == 0)%Q <-> z = 0.
Proof.
  split.
  - intros E. pose proof (ofZ_sign z) as S. pose proof (ofZ_sign (- z)) as S'.
    unfold ofZ in S, S'. cbn [notPositive] in S, S'.
    assert (E' : (nearest (inject_Z (- z)) == 0)%Q).
    { rewrite inject_Z_opp, nearest_opp, E. reflexivity. }
    assert (T : Qle_bool (nearest (inject_Z z)) 0 = true) by (apply Qle_bool_iff; lra).
    assert (T' : Qle_bool (nearest (inject_Z (- z))) 0 = true) by (apply Qle_bool_iff; lra).
    rewrite T in S. rewrite T' in S'. symmetry in S, S'.
    apply Z.leb_le in S, S'. lia.
  - intros ->. reflexivity.
Qed.

(** ** The grouping stage *)

Lemma Zsum_app (l1 l2 : list Z) : Zsum (l1 ++ l2) = Zsum l1 + Zsum l2.
Proof. induction l1 as [|x l1 IH]; simpl; lia. Qed.

Lemma accumulate_fold (evs : list ServiceMetric) (g : GroupDoc) :
  let g' := fold_left accumulate evs g in
  g_id g' = g_id g /\
  g_totalRequests g' = g_totalRequests g + Zsum (map requestCount evs) /\
  g_errorCount g' = g_errorCount g + Zsum (map requestCount (filter isError evs)) /\
  g_responseTimes g' = g_responseTimes g ++ map (fun m => double (responseTime m)) evs /\
  g_cpuUsages g' =
    g_cpuUsages g ++ map (fun m => ifNull (option_map double (cpuUsage m)) 0) evs /\
  g_memoryUsages g' =
    g_memoryUsages g ++ map (fun m => ifNull (option_map double (memoryUsage m)) 0) evs /\
  g_errorsByStatusCode g' = g_errorsByStatusCode g ++ map statusItem evs /\
  g_errorsBySeverity g' = g_errorsBySeverity g ++ map severityItem evs.
Proof.
  revert g. induction evs as [|m evs IH]; intros g; simpl.
  - rewrite !app_nil_r. repeat split; lia.
  - specialize (IH (accumulate g m)). simpl in IH.
    destruct IH as (H1 & H2 & H3 & H4 & H5 & H6 & H7 & H8).
    rewrite H1, H2, H3, H4, H5, H6, H7, H8.
    rewrite <- !app_assoc. simpl.
    repeat split; try reflexivity; try lia.
    destruct (isError m); simpl; lia.
Qed.

Lemma groupOf_fields (id : string) (docs : list ServiceMetric) :
  let g := groupOf id docs in
  let evs := eventsOf id docs in
  g_id g = id /\
  g_totalRequests g = Zsum (map requestCount evs) /\
  g_errorCount g = Zsum (map requestCount (filter isError evs)) /\
  g_responseTimes g = map (fun m => double (responseTime m)) evs /\
  g_cpuUsages g = map (fun m => ifNull (option_map double (cpuUsage m)) 0) evs /\
  g_memoryUsages g = map (fun m => ifNull (option_map double (memoryUsage m)) 0) evs /\
  g_errorsByStatusCode g = map statusItem evs /\
  g_errorsBySeverity g = map severityItem evs.
Proof.
  unfold groupOf. simpl.
  destruct (accumulate_fold (eventsOf id docs) (emptyGroup id))
    as (H1 & H2 & H3 & H4 & H5 & H6 & H7 & H8).
  simpl in *. repeat split; assumption.
Qed.

Lemma eventsOf_snoc (id : string) (docs : list ServiceMetric) (m : ServiceMetric) :
  eventsOf id (docs ++ [m]) =
  eventsOf id docs ++ (if (servicename m =? id)%string then [m] else []).
Proof. unfold eventsOf. rewrite filter_app. reflexivity. Qed.

Lemma groupOf_snoc_same (docs : list ServiceMetric) (m : ServiceMetric) :
  groupOf (servicename m) (docs ++ [m]) = accumulate (groupOf (servicename m) docs) m.
Proof.
  unfold groupOf. rewrite eventsOf_snoc, String.eqb_refl, fold_left_app. reflexivity.
Qed.

Lemma groupOf_snoc_other (id : string) (docs : list ServiceMetric) (m : ServiceMetric) :
  (servicename m =? id)%string = false -> groupOf id (docs ++ [m]) = groupOf id docs.
Proof.
  intros H. unfold groupOf. rewrite eventsOf_snoc, H, app_nil_r. reflexivity.
Qed.

Lemma upsertGroup_ids (m : ServiceMetric) (gs : list GroupDoc) :
  map g_id (upsertGroup m gs) =
  if existsb (fun g => (g_id g =? servicename m)%string) gs
  then map g_id gs else map g_id gs ++ [servicename m].
Proof.
  induction gs as [|g gs IH]; simpl.
  - reflexivity.
  - destruct (g_id g =? servicename m)%string eqn:E; simpl.
    + reflexivity.
    + rewrite IH. destruct (existsb _ gs); reflexivity.
Qed.

Lemma existsb_id_false (id : string) (gs : list GroupDoc) :
  existsb (fun g => (g_id g =? id)%string) gs = false -> ~ In id (map g_id gs).
Proof.
  intros H Hin. apply in_map_iff in Hin. destruct Hin as (g & Hg & Hin).
  assert (existsb (fun g => (g_id g =? id)%string) gs = true); [|congruence].
  apply existsb_exists. exists g. split; [exact Hin|]. now apply String.eqb_eq.
Qed.

Lemma app_nonempty_l {A} (l1 l2 : list A) : l1 <> [] -> l1 ++ l2 <> [].
Proof. destruct l1; [congruence|discriminate]. Qed.

Lemma upsertGroup_groups (docs : list ServiceMetric) (m : ServiceMetric) (gs : list GroupDoc) :
  NoDup (map g_id gs) ->
  (forall g, In g gs -> g = groupOf (g_id g) docs /\ eventsOf (g_id g) docs <> []) ->
  (~ In (servicename m) (map g_id gs) -> eventsOf (servicename m) docs = []) ->
  forall g', In g' (upsertGroup m gs) ->
    g' = groupOf (g_id g') (docs ++ [m]) /\ eventsOf (g_id g') (docs ++ [m]) <> [].
Proof.
  induction gs as [|g gs IH]; simpl; intros Hnd Hgs Hnew g' Hin.
  - destruct Hin as [<-|[]]. simpl.
    rewrite groupOf_snoc_same, eventsOf_snoc, String.eqb_refl.
    unfold groupOf. rewrite (Hnew (fun H => H)). simpl.
    split; [reflexivity|discriminate].
  - inversion Hnd as [|? ? Hnotin Hnd']; subst.
    destruct (g_id g =? servicename m)%string eqn:E.
    + apply String.eqb_eq in E.
      destruct Hin as [<-|Hin].
      * destruct (Hgs g (or_introl eq_refl)) as [Hg Hne]. simpl.
        rewrite E, groupOf_snoc_same, <- E, <- Hg.
        split; [reflexivity|]. rewrite E. rewrite eventsOf_snoc.
        rewrite <- E. now apply app_nonempty_l.
      * destruct (Hgs g' (or_intror Hin)) as [Hg Hne].
        assert (Hd : (servicename m =? g_id g')%string = false).
        { apply String.eqb_neq. intros Heq. apply Hnotin.
          rewrite E, Heq. now apply in_map. }
        rewrite (groupOf_snoc_other _ _ _ Hd), eventsOf_snoc, Hd, app_nil_r.
        split; assumption.
    + destruct Hin as [<-|Hin].
      * destruct (Hgs g (or_introl eq_refl)) as [Hg Hne].
        rewrite String.eqb_sym in E.
        rewrite (groupOf_snoc_other _ _ _ E), eventsOf_snoc, E, app_nil_r.
        split; assumption.
      * apply IH; auto.
        intros Hn. apply Hnew. intros [Heq|Hin']; [|contradiction].
        apply String.eqb_neq in E. contradiction.
Qed.

Lemma upsertGroup_inv (docs : list ServiceMetric) (m : ServiceMetric) (gs : list GroupDoc) :
  GroupsInv docs gs -> GroupsInv (docs ++ [m]) (upsertGroup m gs).
Proof.
  intros [Hnd Hgs Hcov].
  assert (Hnew : ~ In (servicename m) (map g_id gs) -> eventsOf (servicename m) docs = []).
  { intros Hn. unfold eventsOf.
    destruct (filter _ docs) as [|m' l] eqn:F; [reflexivity|exfalso].
    assert (Hin : In m' (filter (fun m0 => (servicename m0 =? servicename m)%string) docs)).
    { rewrite F. now left. }
    apply filter_In in Hin. destruct Hin as [Hin Heq].
    apply String.eqb_eq in Heq. apply Hn. rewrite <- Heq. now apply Hcov. }
  constructor.
  - rewrite upsertGroup_ids.
    destruct (existsb _ gs) eqn:E; [exact Hnd|].
    apply existsb_id_false in E.
    apply (Permutation_NoDup (l := servicename m :: map g_id gs)).
    + rewrite Permutation_app_comm. reflexivity.
    + now constructor.
  - now apply upsertGroup_groups.
  - intros m' Hin. rewrite upsertGroup_ids.
    destruct (existsb _ gs) eqn:E.
    + apply in_app_or in Hin. destruct Hin as [Hin|[<-|[]]]; [now apply Hcov|].
      apply existsb_exists in E. destruct E as (g & Hg & Heq).
      apply String.eqb_eq in Heq. rewrite <- Heq. now apply in_map.
    + apply in_or_app. apply in_app_or in Hin.
      destruct Hin as [Hin|[<-|[]]]; [left; now apply Hcov|right; now left].
Qed.

Lemma groupStage_fold_inv (docs done : list ServiceMetric) (gs : list GroupDoc) :
  GroupsInv done gs ->
  GroupsInv (done ++ docs) (fold_left (fun gs m => upsertGroup m gs) docs gs).
Proof.
  revert done gs. induction docs as [|m docs IH]; intros done gs Hinv; simpl.
  - now rewrite app_nil_r.
  - replace (done ++ m :: docs) with ((done ++ [m]) ++ docs)
      by (rewrite <- app_assoc; reflexivity).
    apply IH. now apply upsertGroup_inv.
Qed.

Lemma groupStage_inv (docs : list ServiceMetric) : GroupsInv docs (groupStage docs).
Proof.
  apply (groupStage_fold_inv docs [] []).
  constructor; simpl; [constructor|intros ? []|intros ? []].
Qed.

(** ** Provenance of the output records *)

Lemma mapi_from_In {A B} (f : A -> nat -> B) (l : list A) (i : nat) (y : B) :
  In y (mapi_from f i l) -> exists x k, In x l /\ y = f x k.
Proof.
  revert i. induction l as [|x l IH]; simpl; intros i H.
  - contradiction.
  - destruct H as [<-|H].
    + exists x, i. auto.
    + destruct (IH _ H) as (x' & k & Hin & ->). exists x', k. auto.
Qed.

Lemma mapi_from_nth {A B} (f : A -> nat -> B) (l : list A) (i n : nat) :
  nth_error (mapi_from f i l) n = option_map (fun x => f x (i + n)%nat) (nth_error l n).
Proof.
  revert i n. induction l as [|x l IH]; intros i [|n]; simpl; try reflexivity.
  - now rewrite Nat.add_0_r.
  - rewrite IH. now rewrite Nat.add_succ_r.
Qed.

Lemma mapM_Forall2 {A B} (f : A -> option B) (l : list A) (ys : list B) :
  mapM f l = Some ys -> Forall2 (fun x y => f x = Some y) l ys.
Proof.
  revert ys. induction l as [|x l IH]; simpl; intros ys H.
  - injection H as <-. constructor.
  - destruct (f x) as [y|] eqn:E; simpl in H; [|discriminate].
    destruct (mapM f l) as [ys'|]; simpl in H; [|discriminate].
    injection H as <-. constructor; auto.
Qed.

Lemma mapM_total {A B} (f : A -> option B) (l : list A) :
  Forall (fun x => f x <> None) l -> exists ys, mapM f l = Some ys.
Proof.
  induction 1 as [|x l Hx _ [ys IH]]; simpl.
  - eexists. reflexivity.
  - destruct (f x) as [y|]; [|congruence]. rewrite IH. simpl. eexists. reflexivity.
Qed.

Lemma Forall2_In_r {A B} (R : A -> B -> Prop) (l : list A) (ys : list B) (y : B) :
  Forall2 R l ys -> In y ys -> exists x, In x l /\ R x y.
Proof.
  induction 1 as [|x y' l ys Hxy _ IH]; simpl.
  - contradiction.
  - intros [<-|H].
    + exists x. auto.
    + destruct (IH H) as (x' & Hin & HR). exists x'. auto.
Qed.

Lemma jsSlice0_prefix {A} (l : list A) (e : Z) :
  exists n, jsSlice0 l e = firstn n l.
Proof. unfold jsSlice0. eexists. reflexivity. Qed.

Lemma firstn_In {A} (n : nat) (l : list A) (x : A) : In x (firstn n l) -> In x l.
Proof.
  intros H. rewrite <- (firstn_skipn n l). apply in_or_app. now left.
Qed.

Lemma firstn_nth_error {A} (n : nat) (l : list A) (i : nat) (x : A) :
  nth_error (firstn n l) i = Some x -> nth_error l i = Some x.
Proof.
  revert l i. induction n as [|n IH]; intros [|y l] [|i]; simpl; try discriminate; auto.
Qed.

Lemma firstn_StronglySorted {A} (R : A -> A -> Prop) (n : nat) (l : list A) :
  StronglySorted R l -> StronglySorted R (firstn n l).
Proof.
  intros H. revert n. induction H as [|x l Hs IH Hx]; intros [|n]; simpl;
    try constructor.
  - apply IH.
  - apply Forall_forall. intros y Hy. apply firstn_In in Hy.
    rewrite Forall_forall in Hx. now apply Hx.
Qed.

Lemma rankServices_prefix (services : list ServiceAggregation) (rb : string) (lim : option Z) :
  exists n, rankServices services rb lim = firstn n (rankedAll services rb).
Proof.
  unfold rankServices. fold (rankedAll services rb).
  destruct lim as [k|].
  - destruct (negb (k =? 0)).
    + apply jsSlice0_prefix.
    + exists (length (rankedAll services rb)). now rewrite firstn_all.
  - exists (length (rankedAll services rb)). now rewrite firstn_all.
Qed.

Lemma rankedAll_In (services : list ServiceAggregation) (rb : string) (r : ServiceAggregation) :
  In r (rankedAll services rb) -> exists s j, In s services /\ r = setRank s j.
Proof.
  intros H. apply mapi_from_In in H. destruct H as (s & j & Hin & ->).
  apply jsSort_In in Hin. exists s, j. auto.
Qed.

Lemma rankServices_In (services : list ServiceAggregation) (rb : string) (lim : option Z)
    (r : ServiceAggregation) :
  In r (rankServices services rb lim) -> exists s j, In s services /\ r = setRank s j.
Proof.
  destruct (rankServices_prefix services rb lim) as [n ->].
  intros H. apply firstn_In in H. now apply (rankedAll_In services rb).
Qed.

Lemma aggregate_origin (parseDate : string -> option Z) (now : Z)
    (query : AggregationQuery) (collection : list ServiceMetric)
    (out : list ServiceAggregation) (r : ServiceAggregation) :
  aggregateServiceMetrics parseDate now query collection = Some out ->
  In r out ->
  exists p i j,
    projectStage parseDate query
      (groupOf (sa_servicename r) (matched parseDate now query collection)) = Some p /\
    eventsOf (sa_servicename r) (matched parseDate now query collection) <> [] /\
    r = setRank (processResult (addFieldsStage p) i) j.
Proof.
  unfold aggregateServiceMetrics, runPipeline.
  fold (matched parseDate now query collection).
  set (ms := matched parseDate now query collection).
  destruct (mapM _ (groupStage ms)) as [ps|] eqn:E; simpl; [|discriminate].
  intros H Hin. injection H as <-.
  apply rankServices_In in Hin. destruct Hin as (s & j & Hin & ->).
  apply mapi_from_In in Hin. destruct Hin as (res & i & Hin & ->).
  apply in_map_iff in Hin. destruct Hin as (p & <- & Hin).
  apply mapM_Forall2 in E.
  destruct (Forall2_In_r _ _ _ _ E Hin) as (g & Hg & Hp).
  destruct (inv_group _ _ (groupStage_inv ms) g Hg) as [Hgo Hne].
  assert (Hid : p_servicename p = g_id g).
  { unfold projectStage in Hp.
    destruct (mongoDivide _ _); simpl in Hp; [|discriminate].
    destruct (mongoDivide _ _); simpl in Hp; [|discriminate].
    destruct (mongoDivide _ _); simpl in Hp; [|discriminate].
    injection Hp as <-. reflexivity. }
  exists p, i, j. simpl. rewrite Hid, <- Hgo. auto.
Qed.

Lemma filter_filter_andb {A} (f g : A -> bool) (l : list A) :
  filter f (filter g l) = filter (fun x => g x && f x) l.
Proof.
  induction l as [|x l IH]; simpl; [reflexivity|].
  destruct (g x); simpl; [destruct (f x)|]; now rewrite IH.
Qed.

Lemma mongoDivide_Some (a b c : Double) :
  mongoDivide a b = Some c -> (forall q, b = Finite q -> ~ (q == 0)%Q) /\ c = fdiv a b.
Proof.
  unfold mongoDivide. destruct b as [|s|q].
  - intros H. injection H as <-. split; [discriminate|reflexivity].
  - intros H. injection H as <-. split; [discriminate|reflexivity].
  - destruct (Qeq_bool q 0) eqn:E; [discriminate|].
    intros H. injection H as <-. split; [|reflexivity].
    intros q' [= <-]. now apply Qeq_bool_neq.
Qed.

Lemma mongoDivide_ofZ (a : Double) (z : Z) :
  z <> 0 -> mongoDivide a (ofZ z) = Some (fdiv a (ofZ z)).
Proof.
  intros H. unfold mongoDivide, ofZ.
  destruct (Qeq_bool (nearest (inject_Z z)) 0) eqn:E; [|reflexivity].
  apply Qeq_bool_iff in E. apply (proj1 (ofZ_zero z)) in E. contradiction.
Qed.

Lemma orOne_cases (x : Double) :
  orOne x <> NaN /\ forall q, orOne x = Finite q -> ~ (q == 0)%Q.
Proof.
  destruct x as [|s|v]; cbn.
  - split; [discriminate|]. intros q [= <-]. discriminate.
  - split; [discriminate|]. discriminate.
  - destruct (Qeq_bool v 0) eqn:E.
    + split; [discriminate|]. intros q [= <-]. discriminate.
    + split; [discriminate|]. intros q [= <-]. now apply Qeq_bool_neq.
Qed.

Lemma mongoDivide_orOne (a x : Double) :
  mongoDivide a (orOne x) = Some (fdiv a (orOne x)).
Proof.
  destruct (orOne_cases x) as [_ H]. unfold mongoDivide.
  destruct (orOne x) as [|s|q]; try reflexivity.
  destruct (Qeq_bool q 0) eqn:E; [|reflexivity].
  apply Qeq_bool_iff in E. now destruct (H q eq_refl).
Qed.

Lemma projectStage_Some (parseDate : string -> option Z) (query : AggregationQuery)
    (g : GroupDoc) (p : ProjectDoc) :
  projectStage parseDate query g = Some p ->
  g_totalRequests g <> 0 /\
  p_servicename p = g_id g /\
  p_totalRequests p = g_totalRequests g /\
  p_errorCount p = g_errorCount g /\
  p_errorRate p =
    fmul (fdiv (ofZ (g_errorCount g)) (ofZ (g_totalRequests g))) (Finite 100) /\
  p_requestsPerSecond p =
    fdiv (ofZ (g_totalRequests g)) (orOne (timeRangeSeconds parseDate query)) /\
  p_requestsPerMinute p =
    fdiv (ofZ (g_totalRequests g)) (orOne (timeRangeMinutes parseDate query)) /\
  p_responseTimes p = g_responseTimes g /\
  p_cpuUsages p = g_cpuUsages g /\
  p_memoryUsages p = g_memoryUsages g /\
  p_errorsByStatusCode p = filter notNull (g_errorsByStatusCode g) /\
  p_errorsBySeverity p = filter notNull (g_errorsBySeverity g).
Proof.
  unfold projectStage. intros H.
  destruct (mongoDivide _ (ofZ (g_totalRequests g))) as [ratio|] eqn:E1;
    simpl in H; [|discriminate].
  destruct (mongoDivide _ (orOne (timeRangeSeconds _ _))) as [rps|] eqn:E2;
    simpl in H; [|discriminate].
  destruct (mongoDivide _ (orOne (timeRangeMinutes _ _))) as [rpm|] eqn:E3;
    simpl in H; [|discriminate].
  injection H as <-. simpl.
  apply mongoDivide_Some in E1, E2, E3.
  destruct E1 as [N1 ->], E2 as [N2 ->], E3 as [N3 ->].
  assert (N1' : g_totalRequests g <> 0).
  { intros E. apply (N1 _ eq_refl). rewrite E. reflexivity. }
  repeat split; auto.
Qed.


(** ** Totals per service (C1) *)

Lemma inList_allowed (l : list string) (s : string) :
  l <> [] -> inList s l = allowed (Some l) s.
Proof.
  intros Hne. unfold allowed, inList. destruct l as [|x l]; [congruence|].
  destruct (in_dec string_dec s (x :: l)) as [Hin|Hnin].
  - apply existsb_exists. exists s. split; [exact Hin|apply String.eqb_refl].
  - destruct (existsb (String.eqb s) (x :: l)) eqn:E; [|reflexivity].
    apply existsb_exists in E. destruct E as (y & Hy & E).
    apply String.eqb_eq in E. subst y. contradiction.
Qed.

Lemma matchesService_allowed (query : AggregationQuery) (m : ServiceMetric) :
  matchesService (buildServiceFilter query) m =
  allowed (servicenames query) (servicename m)
  && allowed (severities query) (severityString (severity m)).
Proof.
  unfold matchesService, buildServiceFilter. cbn [fst snd]. f_equal.
  - destruct (servicenames query) as [[|x l]|]; try reflexivity.
    cbn [length]. rewrite Nat2Z.inj_succ.
    destruct (Z.ltb_spec 0 (Z.succ (Z.of_nat (length l)))); [|lia].
    now apply inList_allowed.
  - destruct (severities query) as [[|x l]|]; try reflexivity.
    cbn [length]. rewrite Nat2Z.inj_succ.
    destruct (Z.ltb_spec 0 (Z.succ (Z.of_nat (length l)))); [|lia].
    now apply inList_allowed.
Qed.

Lemma explicit_filter (parseDate : string -> option Z) (query : AggregationQuery)
    (m : ServiceMetric) :
  boundsParse parseDate query -> customOrAbsent query ->
  matchesDate
    (if truthyString (startDate query) && truthyString (endDate query)
     then match startDate query, endDate query with
          | Some s, Some e => Some (parseDate s, parseDate e)
          | _, _ => None
          end
     else None) m
  = inWindow true (explicitWindow parseDate query) (timestamp m).
Proof.
  intros Hb Hc. unfold explicitWindow. specialize (Hb Hc).
  destruct (startDate query) as [s|]; [|reflexivity].
  destruct (endDate query) as [e|]; [|cbn; now rewrite andb_false_r].
  specialize (Hb s e eq_refl eq_refl). cbn [truthyString].
  destruct (String.eqb_spec s "") as [->|Hs]; [reflexivity|].
  destruct (String.eqb_spec e "") as [->|He]; [reflexivity|].
  destruct (Hb Hs He) as [Ps Pe]. cbn.
  destruct (parseDate s) as [a|]; [|congruence].
  destruct (parseDate e) as [b|]; [|congruence].
  reflexivity.
Qed.

(** The match stage selects the events in the closed window that pass the
    two allow-lists. *)
Lemma matchStage_selects (parseDate : string -> option Z) (now : Z)
    (query : AggregationQuery) (m : ServiceMetric) :
  boundsParse parseDate query ->
  matchStage parseDate now query m = selects true parseDate now query m.
Proof.
  intros Hb. unfold matchStage, selects. rewrite matchesService_allowed, <- andb_assoc.
  f_equal. unfold buildDateFilter, specWindow.
  destruct (timeRange query) as [tr|] eqn:Etr.
  - destruct tr; try (cbn; f_equal; f_equal; lia).
    apply explicit_filter; [exact Hb|now left].
  - apply explicit_filter; [exact Hb|now right].
Qed.

Lemma selects_open (parseDate : string -> option Z) (now : Z)
    (query : AggregationQuery) (m : ServiceMetric) :
  (forall a b, specWindow parseDate now query = Some (a, b) -> timestamp m <> b) ->
  selects true parseDate now query m = selects false parseDate now query m.
Proof.
  intros H. unfold selects, inWindow.
  destruct (specWindow parseDate now query) as [[a b]|]; [|reflexivity].
  specialize (H a b eq_refl). do 3 f_equal.
  destruct (Z.leb_spec (timestamp m) b), (Z.ltb_spec (timestamp m) b); try reflexivity; lia.
Qed.

Lemma filter_ext_in' {A} (f g : A -> bool) (l : list A) :
  (forall x, In x l -> f x = g x) -> filter f l = filter g l.
Proof.
  induction l as [|x l IH]; intros H; simpl; [reflexivity|].
  rewrite (H x (or_introl eq_refl)), IH; [reflexivity|].
  intros y Hy. apply H. now right.
Qed.

(** C1 (amended).  For a query whose explicit bounds (if they are the ones
    that count) denote dates, every service in the output reports, as its
    [totalRequests] (in both the rate and the error block), the sum of
    [requestCount] over exactly the events of the collection that carry its
    name, lie in the window with both ends included, and pass the service
    and the severity allow-list (an absent or empty list allowing
    everything); and as its [errorCount] the sum over those of them whose
    status code is at least 400.  When no event of the service lies at the
    very end of the window, these are the sums over the events of the
    half-open window of the specification. *)
Theorem totals_sum_over_matching_events :
  forall (parseDate : string -> option Z) (now : Z) (query : AggregationQuery)
         (collection : list ServiceMetric) (out : list ServiceAggregation)
         (r : ServiceAggregation),
    boundsParse parseDate query ->
    aggregateServiceMetrics parseDate now query collection = Some out ->
    In r out ->
    let eventsIn closed :=
      filter (fun m => selects closed parseDate now query m
                       && (servicename m =? sa_servicename r)%string) collection in
    let errorsIn closed := filter (fun m => 400 <=? statusCode m) (eventsIn closed) in
    (Rate.totalRequests (rate r) = Zsum (map requestCount (eventsIn true)) /\
     Error.totalRequests (error r) = Zsum (map requestCount (eventsIn true)) /\
     Error.errorCount (error r) = Zsum (map requestCount (errorsIn true))) /\
    ((forall m a b, In m collection -> servicename m = sa_servicename r ->
                    specWindow parseDate now query = Some (a, b) -> timestamp m <> b) ->
     Rate.totalRequests (rate r) = Zsum (map requestCount (eventsIn false)) /\
     Error.totalRequests (error r) = Zsum (map requestCount (eventsIn false)) /\
     Error.errorCount (error r) = Zsum (map requestCount (errorsIn false))).
Proof.
  intros parseDate now query collection out r Hb Hout Hin eventsIn errorsIn.
  destruct (aggregate_origin _ _ _ _ _ _ Hout Hin) as (p & i & j & Hp & _ & Hr).
  apply projectStage_Some in Hp.
  destruct Hp as (_ & _ & Ht & He & _).
  destruct (groupOf_fields (sa_servicename r) (matched parseDate now query collection))
    as (_ & Gt & Ge & _).
  assert (Hevs : eventsOf (sa_servicename r) (matched parseDate now query collection)
                 = eventsIn true).
  { unfold eventsOf, matched, eventsIn. rewrite filter_filter_andb.
    apply filter_ext. intros m. now rewrite matchStage_selects. }
  rewrite Hevs in Gt, Ge.
  assert (Hclosed :
    Rate.totalRequests (rate r) = Zsum (map requestCount (eventsIn true)) /\
    Error.totalRequests (error r) = Zsum (map requestCount (eventsIn true)) /\
    Error.errorCount (error r) = Zsum (map requestCount (errorsIn true))).
  { rewrite Hr. simpl. rewrite Ht, He. auto. }
  split; [exact Hclosed|].
  intros Hend.
  assert (Hsame : eventsIn true = eventsIn false).
  { unfold eventsIn. apply filter_ext_in'. intros m Hm.
    destruct (String.eqb_spec (servicename m) (sa_servicename r)) as [E|E].
    - f_equal. apply selects_open. intros a b. now apply Hend.
    - now rewrite !andb_false_r. }
  unfold errorsIn. rewrite <- Hsame. exact Hclosed.
Qed.

(** ** Totality under the data-model invariant *)

Lemma Zsum_pos (evs : list ServiceMetric) :
  Forall (fun m => 1 <= requestCount m) evs -> evs <> [] ->
  0 < Zsum (map requestCount evs).
Proof.
  intros H Hne. destruct H as [|m evs Hm Hevs]; [congruence|]. simpl.
  assert (0 <= Zsum (map requestCount evs)); [|lia].
  clear Hne Hm. induction Hevs; simpl; lia.
Qed.

Lemma Zsum_filter_bounds (f : ServiceMetric -> bool) (evs : list ServiceMetric) :
  Forall (fun m => 1 <= requestCount m) evs ->
  0 <= Zsum (map requestCount (filter f evs)) <= Zsum (map requestCount evs).
Proof.
  induction 1 as [|m evs Hm _ IH]; simpl; [lia|].
  destruct (f m); simpl; lia.
Qed.

Lemma Forall_filter_keep {A} (P : A -> Prop) (f : A -> bool) (l : list A) :
  Forall P l -> Forall P (filter f l).
Proof.
  rewrite !Forall_forall. intros H x Hx. apply filter_In in Hx. now apply H.
Qed.

Lemma projectStage_total (parseDate : string -> option Z) (query : AggregationQuery)
    (g : GroupDoc) :
  g_totalRequests g <> 0 -> projectStage parseDate query g <> None.
Proof.
  intros Ht. unfold projectStage.
  rewrite (mongoDivide_ofZ _ _ Ht), !mongoDivide_orOne. simpl. discriminate.
Qed.

(** With every [requestCount] at least 1 the pipeline is accepted and the
    aggregation returns a list. *)
Lemma aggregate_total (parseDate : string -> option Z) (now : Z)
    (query : AggregationQuery) (collection : list ServiceMetric) :
  Forall (fun m => 1 <= requestCount m) collection ->
  exists out, aggregateServiceMetrics parseDate now query collection = Some out.
Proof.
  intros Hrc. unfold aggregateServiceMetrics, runPipeline.
  fold (matched parseDate now query collection).
  set (ms := matched parseDate now query collection).
  assert (Hms : Forall (fun m => 1 <= requestCount m) ms)
    by now apply Forall_filter_keep.
  destruct (mapM_total (projectStage parseDate query) (groupStage ms)) as [ps Hps].
  - apply Forall_forall. intros g Hg.
    destruct (inv_group _ _ (groupStage_inv ms) g Hg) as [Hgo Hne].
    apply projectStage_total. rewrite Hgo.
    destruct (groupOf_fields (g_id g) ms) as (_ & -> & _).
    assert (0 < Zsum (map requestCount (eventsOf (g_id g) ms))); [|lia].
    apply Zsum_pos; [|exact Hne]. now apply Forall_filter_keep.
  - rewrite Hps. simpl. eexists. reflexivity.
Qed.

(** ** Error rate (C4) *)

(** C4 (amended).  When every event has [requestCount >= 1] (the invariant
    of the data model), the aggregation returns, and every service it emits
    has [totalRequests > 0] and an [errorRate] that is a whole number of
    hundredths [k / 100] (as a double) with [k] within
    [1/2 + 2^-36] of [10000 * errorCount / totalRequests]; the rate is
    therefore within [0.005 + 2^-42] of [100 * errorCount / totalRequests],
    and it lies between 0 and 100. *)
Theorem errorRate_formula_and_range :
  forall (parseDate : string -> option Z) (now : Z) (query : AggregationQuery)
         (collection : list ServiceMetric),
    Forall (fun m => 1 <= requestCount m) collection ->
    exists out,
      aggregateServiceMetrics parseDate now query collection = Some out /\
      forall r, In r out ->
        let exact := (100 * inject_Z (Error.errorCount (error r))
                      / inject_Z (Error.totalRequests (error r)))%Q in
        0 < Error.totalRequests (error r) /\
        0 <= Error.errorCount (error r) <= Error.totalRequests (error r) /\
        hundredthsNear (pow2 (-36)) exact (Error.errorRate (error r)) /\
        (exists p, Error.errorRate (error r) = Finite p /\
                   Qabs (p - exact) <= (1 # 200) + pow2 (-42) /\ 0 <= p <= 100)%Q.
Proof.
  intros parseDate now query collection Hrc.
  destruct (aggregate_total parseDate now query collection Hrc) as [out Hout].
  exists out. split; [exact Hout|]. intros r Hin exact.
  destruct (aggregate_origin _ _ _ _ _ _ Hout Hin) as (p & i & j & Hp & Hne & Hr).
  apply projectStage_Some in Hp.
  destruct Hp as (_ & _ & Ht & He & Hrate & _).
  set (ms := matched parseDate now query collection) in *.
  destruct (groupOf_fields (sa_servicename r) ms) as (_ & Gt & Ge & _).
  assert (Hms : Forall (fun m => 1 <= requestCount m) (eventsOf (sa_servicename r) ms)).
  { apply Forall_filter_keep. now apply Forall_filter_keep. }
  pose proof (Zsum_pos _ Hms Hne) as Hpos.
  pose proof (Zsum_filter_bounds isError _ Hms) as Hbnd.
  rewrite <- Gt in Hpos, Hbnd. rewrite <- Ge in Hbnd. rewrite <- Ht, <- He in *.
  clear Gt Ge Hms Hne.
  assert (Hfields : Error.totalRequests (error r) = p_totalRequests p /\
                    Error.errorCount (error r) = p_errorCount p /\
                    Error.errorRate (error r) = round2 (p_errorRate p)).
  { rewrite Hr. simpl. auto. }
  destruct Hfields as (Ft & Fe & Fr). unfold exact. rewrite Ft, Fe, Fr, Hrate.
  destruct (errorRate_spec (p_errorCount p) (p_totalRequests p) Hbnd Hpos) as (Hn & H0 & H1).
  split; [exact Hpos|]. split; [exact Hbnd|]. split; [exact Hn|].
  assert (Hx : (0 <= 100 * inject_Z (p_errorCount p) / inject_Z (p_totalRequests p) <= 100)%Q).
  { assert (Tpos : (0 < inject_Z (p_totalRequests p))%Q).
    { change 0%Q with (inject_Z 0). now rewrite <- Zlt_Qlt. }
    assert (Ele : (0 <= inject_Z (p_errorCount p) <= inject_Z (p_totalRequests p))%Q).
    { change 0%Q with (inject_Z 0). rewrite <- !Zle_Qle. lia. }
    split; [apply Qle_shift_div_l|apply Qle_shift_div_r]; lra. }
  destruct (hundredthsNear_value _ _ Hn Hx) as (v & Ev & Hv).
  exists v. split; [exact Ev|]. split; [exact Hv|].
  rewrite Ev in H0, H1. apply dle_Finite in H0, H1. split; assumption.
Qed.


(** ** Ranking (C3) *)

Lemma mapi_from_map {A B C} (g : B -> C) (h : A -> C) (f : A -> nat -> B)
    (l : list A) (i : nat) :
  (forall x k, g (f x k) = h x) -> map g (mapi_from f i l) = map h l.
Proof.
  intros H. revert i. induction l as [|x l IH]; intros i; simpl.
  - reflexivity.
  - now rewrite H, IH.
Qed.

Lemma mapM_map {A B C} (f : A -> option B) (h : B -> C) (k : A -> C)
    (l : list A) (ys : list B) :
  (forall x y, f x = Some y -> h y = k x) ->
  mapM f l = Some ys -> map h ys = map k l.
Proof.
  intros H Hm. apply mapM_Forall2 in Hm.
  induction Hm as [|x y l ys Hxy _ IH]; simpl.
  - reflexivity.
  - now rewrite (H x y Hxy), IH.
Qed.

Lemma NoDup_firstn {A} (n : nat) (l : list A) : NoDup l -> NoDup (firstn n l).
Proof.
  intros H. rewrite <- (firstn_skipn n l) in H. now apply NoDup_app_remove_r in H.
Qed.

Lemma aggregate_shape (parseDate : string -> option Z) (now : Z)
    (query : AggregationQuery) (collection : list ServiceMetric)
    (out : list ServiceAggregation) :
  aggregateServiceMetrics parseDate now query collection = Some out ->
  exists ps,
    mapM (projectStage parseDate query)
         (groupStage (matched parseDate now query collection)) = Some ps /\
    out = rankServices (mapi processResult (map addFieldsStage ps))
            (rankByOrDefault query) (limit query).
Proof.
  unfold aggregateServiceMetrics, runPipeline.
  fold (matched parseDate now query collection).
  destruct (mapM _ _) as [ps|]; simpl; [|discriminate].
  intros H. injection H as <-. exists ps. auto.
Qed.

Lemma rankServices_unlimited (services : list ServiceAggregation) (rb : string)
    (lim : option Z) :
  lim = None \/ lim = Some 0 -> rankServices services rb lim = rankedAll services rb.
Proof. intros [-> | ->]; reflexivity. Qed.

Lemma rankedAll_names (services : list ServiceAggregation) (rb : string) :
  Permutation (map sa_servicename services) (map sa_servicename (rankedAll services rb)).
Proof.
  unfold rankedAll, mapi.
  rewrite (mapi_from_map sa_servicename sa_servicename) by reflexivity.
  apply Permutation_map, jsSort_perm.
Qed.

Lemma processed_names (ps : list ProjectDoc) :
  map sa_servicename (mapi processResult (map addFieldsStage ps)) = map p_servicename ps.
Proof.
  unfold mapi.
  rewrite (mapi_from_map sa_servicename (fun res => p_servicename (doc res)))
    by reflexivity.
  rewrite map_map. reflexivity.
Qed.

Lemma projected_names (parseDate : string -> option Z) (query : AggregationQuery)
    (gs : list GroupDoc) (ps : list ProjectDoc) :
  mapM (projectStage parseDate query) gs = Some ps ->
  map p_servicename ps = map g_id gs.
Proof.
  apply mapM_map. intros g p Hp. apply projectStage_Some in Hp. tauto.
Qed.

Lemma mongoAvg_notNaN (l : list Q) : mongoAvg l <> NaN.
Proof.
  destruct l as [|x l]; [discriminate|]. unfold mongoAvg.
  apply fdiv_notNaN; [|apply rnd_notNaN].
  intros E. apply (proj1 (ofZ_zero _)) in E. cbn [length] in E. lia.
Qed.

Lemma orUndefined_some (l : list Q) (i : nat) :
  (i < length l)%nat -> exists v, nth_error l i = Some v /\ orUndefined (nth_error l i) = Finite v.
Proof.
  intros H. destruct (nth_error l i) as [v|] eqn:E.
  - exists v. auto.
  - apply nth_error_None in E. lia.
Qed.

(** The sort keys of a processed result are numbers. *)
Lemma processResult_keys (parseDate : string -> option Z) (query : AggregationQuery)
    (g : GroupDoc) (p : ProjectDoc) (i : nat) :
  projectStage parseDate query g = Some p ->
  forall rb, regular (rankKey rb (processResult (addFieldsStage p) i)).
Proof.
  intros Hp rb. apply projectStage_Some in Hp.
  destruct Hp as (Hnz & _ & _ & _ & Hrate & Hrps & _).
  assert (Krps : regular (round2 (p_requestsPerSecond p))).
  { apply round2_regular. rewrite Hrps. unfold ofZ.
    destruct (orOne_cases (timeRangeSeconds parseDate query)) as [N Z0].
    now apply fdiv_Finite_notNaN. }
  assert (Kerr : regular (round2 (p_errorRate p))).
  { apply round2_regular. rewrite Hrate. apply fmul_notNaN; [reflexivity|].
    unfold ofZ. apply fdiv_Finite_notNaN; [discriminate|].
    intros q [= <-] E. apply (proj1 (ofZ_zero _)) in E. contradiction. }
  assert (Kavg : forall l, regular (round2 (mongoAvg l))).
  { intros l. apply round2_regular, mongoAvg_notNaN. }
  unfold rankKey, saturationKey, processResult, addFieldsStage.
  cbn [rate error duration saturation Rate.requestsPerSecond Error.errorRate
       Duration.averageResponseTime Saturation.averageCpuUsage
       Saturation.averageMemoryUsage doc r_averageResponseTime r_averageCpuUsage
       r_averageMemoryUsage].
  destruct (rb =? "rate")%string; [exact Krps|].
  destruct (rb =? "error")%string; [exact Kerr|].
  destruct (rb =? "duration")%string; [apply Kavg|].
  destruct (rb =? "saturation")%string; [|exact Kerr].
  apply mathMax_regular; apply Kavg.
Qed.

Lemma processed_keys (parseDate : string -> option Z) (query : AggregationQuery)
    (gs : list GroupDoc) (ps : list ProjectDoc) (rb : string) :
  mapM (projectStage parseDate query) gs = Some ps ->
  Forall (fun a => regular (rankKey rb a)) (mapi processResult (map addFieldsStage ps)).
Proof.
  intros H. apply mapM_Forall2 in H. apply Forall_forall. intros a Ha.
  apply mapi_from_In in Ha. destruct Ha as (res & i & Hres & ->).
  apply in_map_iff in Hres. destruct Hres as (p & <- & Hp).
  destruct (Forall2_In_r _ _ _ _ H Hp) as (g & _ & Hg).
  now apply (processResult_keys parseDate query g).
Qed.

Lemma rankKey_criterionKey (query : AggregationQuery) (a : ServiceAggregation) :
  rankKey (rankByOrDefault query) a = criterionKey (rankBy query) a.
Proof.
  unfold rankByOrDefault, criterionKey. destruct (rankBy query) as [s|]; [|reflexivity].
  destruct (s =? "")%string eqn:E0.
  - apply String.eqb_eq in E0. subst s. reflexivity.
  - unfold rankKey.
    destruct (s =? "rate")%string; [reflexivity|].
    destruct (s =? "error")%string eqn:E1; [|reflexivity].
    apply String.eqb_eq in E1. subst s. reflexivity.
Qed.

Lemma mapi_from_StronglySorted {A B} (R : A -> A -> Prop) (S : B -> B -> Prop)
    (f : A -> nat -> B) (l : list A) (i : nat) :
  (forall x y m n, R x y -> S (f x m) (f y n)) ->
  StronglySorted R l -> StronglySorted S (mapi_from f i l).
Proof.
  intros HRS H. revert i. induction H as [|x l Hs IH Hx]; intros i; simpl; constructor.
  - apply IH.
  - apply Forall_forall. intros y Hy.
    apply mapi_from_In in Hy. destruct Hy as (z & k & Hz & ->).
    apply HRS. rewrite Forall_forall in Hx. now apply Hx.
Qed.

Lemma rankedAll_descending (services : list ServiceAggregation) (rb : string) :
  Forall (fun a => regular (rankKey rb a)) services ->
  StronglySorted (fun a b => dle (rankKey rb b) (rankKey rb a)) (rankedAll services rb).
Proof.
  intros H. unfold rankedAll, mapi.
  eapply mapi_from_StronglySorted; [|apply (sort_descending (rankKey rb) _ H)].
  intros x y m n Hxy. exact Hxy.
Qed.

Lemma rankedAll_rank (services : list ServiceAggregation) (rb : string) (i : nat)
    (r : ServiceAggregation) :
  nth_error (rankedAll services rb) i = Some r -> rank r = Z.of_nat i + 1.
Proof.
  unfold rankedAll, mapi. rewrite mapi_from_nth.
  destruct (nth_error _ i) as [s|]; simpl; [|discriminate].
  intros H. injection H as <-. reflexivity.
Qed.

(** C3.  The returned list is in descending order of the key of the
    requested criterion (requests per second for [rate], error rate for
    [error] and when no criterion is given, average response time for
    [duration], the larger of the two average usages for [saturation]),
    and the [rank] of the record at 0-based position [i] is [i + 1].  The
    keys are numbers, never [NaN]: [dle] is their order. *)
Theorem ranking_descending_with_dense_ranks :
  forall (parseDate : string -> option Z) (now : Z) (query : AggregationQuery)
         (collection : list ServiceMetric) (out : list ServiceAggregation),
    aggregateServiceMetrics parseDate now query collection = Some out ->
    StronglySorted
      (fun a b => dle (criterionKey (rankBy query) b) (criterionKey (rankBy query) a)) out /\
    (forall i r, nth_error out i = Some r -> rank r = Z.of_nat i + 1).
Proof.
  intros parseDate now query collection out Hout.
  destruct (aggregate_shape _ _ _ _ _ Hout) as (ps & Hps & ->).
  destruct (rankServices_prefix (mapi processResult (map addFieldsStage ps))
              (rankByOrDefault query) (limit query)) as [n ->].
  split.
  - apply firstn_StronglySorted.
    eapply StronglySorted_weaken;
      [|apply rankedAll_descending, (processed_keys _ _ _ _ _ Hps)].
    intros a b H. simpl in H. now rewrite <- !rankKey_criterionKey.
  - intros i r H. apply firstn_nth_error in H. now apply rankedAll_rank in H.
Qed.

(** ** Limit (C6) *)

Lemma firstn_min_length {A} (n : nat) (l : list A) :
  firstn (Nat.min n (length l)) l = firstn n l.
Proof.
  destruct (Nat.le_ge_cases n (length l)) as [H|H].
  - now rewrite Nat.min_l.
  - rewrite Nat.min_r by exact H. rewrite firstn_all. symmetry. now apply firstn_all2.
Qed.

Lemma jsSlice0_positive {A} (l : list A) (k : Z) :
  0 < k -> jsSlice0 l k = firstn (Z.to_nat k) l.
Proof.
  intros Hk. unfold jsSlice0.
  destruct (k <? 0) eqn:E; [apply Z.ltb_lt in E; lia|].
  rewrite <- (firstn_min_length (Z.to_nat k) l). f_equal. lia.
Qed.

(** C6 (amended).  When [limit] is a positive integer [k], the output is
    the first [k] records of the ranked list that the same query returns
    without a limit, hence holds at most [k] records.  When [limit] is 0,
    the output is the whole ranked list, as without a limit: this holds for
    every query and every collection. *)
Theorem positive_limit_keeps_top_k :
  forall (parseDate : string -> option Z) (now : Z) (query : AggregationQuery)
         (collection : list ServiceMetric),
    (forall k, limit query = Some k -> 0 < k ->
       aggregateServiceMetrics parseDate now query collection =
         option_map (firstn (Z.to_nat k))
           (aggregateServiceMetrics parseDate now (withoutLimit query) collection) /\
       (forall out, aggregateServiceMetrics parseDate now query collection = Some out ->
          Z.of_nat (length out) <= k)) /\
    (limit query = Some 0 ->
       aggregateServiceMetrics parseDate now query collection =
       aggregateServiceMetrics parseDate now (withoutLimit query) collection).
Proof.
  intros parseDate now query collection. split.
  2:{ intros Hlim. unfold aggregateServiceMetrics.
      change (runPipeline parseDate now (withoutLimit query) collection)
        with (runPipeline parseDate now query collection).
      destruct (runPipeline parseDate now query collection) as [results|]; simpl;
        [|reflexivity].
      change (rankByOrDefault (withoutLimit query)) with (rankByOrDefault query).
      unfold rankServices. rewrite Hlim. reflexivity. }
  intros k Hlim Hk.
  assert (Heq : aggregateServiceMetrics parseDate now query collection =
      option_map (firstn (Z.to_nat k))
        (aggregateServiceMetrics parseDate now (withoutLimit query) collection)).
  { unfold aggregateServiceMetrics.
    change (runPipeline parseDate now (withoutLimit query) collection)
      with (runPipeline parseDate now query collection).
    destruct (runPipeline parseDate now query collection) as [results|]; simpl;
      [|reflexivity].
    change (rankByOrDefault (withoutLimit query)) with (rankByOrDefault query).
    unfold rankServices. rewrite Hlim.
    destruct (k =? 0) eqn:E; [apply Z.eqb_eq in E; lia|]. simpl.
    now rewrite jsSlice0_positive. }
  split; [exact Heq|].
  intros out Hout. rewrite Heq in Hout.
  destruct (aggregateServiceMetrics parseDate now (withoutLimit query) collection)
    as [full|]; simpl in Hout; [|discriminate].
  injection Hout as <-. pose proof (firstn_le_length (Z.to_nat k) full). lia.
Qed.


(** ** The rate divisors (C7) *)

Section Divisors.
Variable parseDate : string -> option Z.

Lemma divisors_named (query : AggregationQuery) (tr : TimeRangeOption) (secs : Z) :
  timeRange query = Some tr -> namedSeconds tr = Some secs ->
  secondsDivisor parseDate query = Finite (inject_Z secs) /\
  (exists c, minutesDivisor parseDate query = Finite c /\ (c == inject_Z secs / 60)%Q) /\
  forall now, buildDateFilter parseDate now query
              = Some (Some (now - secs * 1000)%Z, Some now).
Proof.
  intros Htr Hs.
  unfold secondsDivisor, minutesDivisor, timeRangeMinutes, timeRangeSeconds,
    getTimeRangeInMs, buildDateFilter.
  rewrite Htr.
  destruct tr; simpl in Hs; try discriminate; injection Hs as <-;
    (split; [vm_compute; reflexivity|
     split; [eexists; split; [vm_compute; reflexivity|reflexivity]|
             intros now; reflexivity]]).
Qed.

Lemma divisors_default (query : AggregationQuery) :
  customOrAbsent query -> bothBounds query = false ->
  secondsDivisor parseDate query = Finite 86400 /\
  minutesDivisor parseDate query = Finite 1440 /\
  forall now, buildDateFilter parseDate now query = None.
Proof.
  intros Hc Hb.
  unfold secondsDivisor, minutesDivisor, timeRangeMinutes, timeRangeSeconds,
    getTimeRangeInMs, buildDateFilter.
  unfold bothBounds in Hb.
  destruct Hc as [-> | ->]; rewrite Hb;
    (split; [vm_compute; reflexivity|split; [vm_compute; reflexivity|intros now; reflexivity]]).
Qed.

Lemma timeRangeInMs_custom (query : AggregationQuery) (s e : string) (s' e' : Z) :
  customOrAbsent query -> bothBounds query = true ->
  startDate query = Some s -> endDate query = Some e ->
  parseDate s = Some s' -> parseDate e = Some e' ->
  getTimeRangeInMs parseDate query = Some (e' - s')%Z /\
  forall now, buildDateFilter parseDate now query = Some (Some s', Some e').
Proof.
  intros Hc Hb Hs He Ps Pe.
  unfold getTimeRangeInMs, buildDateFilter. unfold bothBounds in Hb.
  destruct Hc as [-> | ->]; rewrite Hb, Hs, He, Ps, Pe; simpl; auto.
Qed.

Lemma divisors_custom (query : AggregationQuery) (s e : string) (s' e' : Z) :
  customOrAbsent query -> bothBounds query = true ->
  startDate query = Some s -> endDate query = Some e ->
  parseDate s = Some s' -> parseDate e = Some e' ->
  (s' < e' <= s' + 2 ^ 54 ->
     secondsDivisor parseDate query = fdiv (ofZ (e' - s')) (Finite 1000) /\
     minutesDivisor parseDate query = fdiv (secondsDivisor parseDate query) (Finite 60) /\
     exists d d',
       secondsDivisor parseDate query = Finite d /\
       minutesDivisor parseDate query = Finite d' /\
       (0 < d /\ 0 < d' /\
        Qabs (d - inject_Z (e' - s') / 1000) <= inject_Z (e' - s') / 1000 * pow2 (-50) /\
        Qabs (d' - inject_Z (e' - s') / 60000)
          <= inject_Z (e' - s') / 60000 * pow2 (-50))%Q) /\
  (s' = e' ->
     secondsDivisor parseDate query = Finite 1 /\ minutesDivisor parseDate query = Finite 1).
Proof.
  intros Hc Hb Hs He Ps Pe.
  destruct (timeRangeInMs_custom query s e s' e' Hc Hb Hs He Ps Pe) as [Hms _].
  unfold secondsDivisor, minutesDivisor, timeRangeMinutes, timeRangeSeconds.
  rewrite Hms. cbn [toNumber]. split.
  - intros Hlt.
    destruct (window_duration (e' - s') ltac:(lia))
      as (d & d' & Ed & Ed' & D0 & D0' & Hd & Hd').
    rewrite Ed. rewrite (orOne_positive (Finite d)) by now apply positive_Finite.
    rewrite Ed'. rewrite (orOne_positive (Finite d')) by now apply positive_Finite.
    split; [reflexivity|]. split; [reflexivity|].
    exists d, d'. auto 8.
  - intros ->. replace (e' - e')%Z with 0%Z by lia. split; vm_compute; reflexivity.
Qed.

(** The window length is never negative when a document passes the
    date filter. *)
Lemma timeRangeInMs_nonneg (now : Z) (query : AggregationQuery) (m : ServiceMetric) (ms : Z) :
  matchesDate (buildDateFilter parseDate now query) m = true ->
  getTimeRangeInMs parseDate query = Some ms -> (0 <= ms)%Z.
Proof.
  unfold buildDateFilter, getTimeRangeInMs.
  assert (Hcustom :
    matchesDate
      (if truthyString (startDate query) && truthyString (endDate query)
       then match startDate query, endDate query with
            | Some s, Some e => Some (parseDate s, parseDate e)
            | _, _ => None
            end
       else None) m = true ->
    (if truthyString (startDate query) && truthyString (endDate query)
     then match startDate query, endDate query with
          | Some s, Some e =>
              e' <- parseDate e ;; s' <- parseDate s ;; Some (e' - s')%Z
          | _, _ => Some (24 * 60 * 60 * 1000)%Z
          end
     else Some (24 * 60 * 60 * 1000)%Z) = Some ms -> (0 <= ms)%Z).
  { destruct (truthyString (startDate query) && truthyString (endDate query));
      [|intros _ H; injection H as <-; lia].
    destruct (startDate query) as [s|]; [|intros _ H; injection H as <-; lia].
    destruct (endDate query) as [e|]; [|intros _ H; injection H as <-; lia].
    destruct (parseDate e) as [e'|]; simpl; [|discriminate].
    destruct (parseDate s) as [s'|]; simpl; [|discriminate].
    intros Hm H. injection H as <-.
    apply andb_prop in Hm. destruct Hm as [H1 H2].
    apply Z.leb_le in H1, H2. lia. }
  destruct (timeRange query) as [[]|]; try exact Hcustom;
    intros _ H; injection H as <-; simpl; lia.
Qed.

Lemma divisors_pos_when_matched (now : Z) (query : AggregationQuery) (m : ServiceMetric) :
  matchStage parseDate now query m = true ->
  isPositive (secondsDivisor parseDate query) /\ isPositive (minutesDivisor parseDate query).
Proof.
  intros Hm. unfold matchStage in Hm. apply andb_prop in Hm. destruct Hm as [Hm _].
  pose proof (fun ms => timeRangeInMs_nonneg now query m ms Hm) as Hnn.
  unfold secondsDivisor, minutesDivisor, timeRangeMinutes, timeRangeSeconds.
  destruct (getTimeRangeInMs parseDate query) as [ms|]; cbn [toNumber].
  - specialize (Hnn ms eq_refl).
    destruct (Z.eq_dec ms 0) as [->|Hne]; [split; vm_compute; reflexivity|].
    destruct (window_positive ms ltac:(lia)) as [P1 P2].
    rewrite (orOne_positive _ P1), (orOne_positive _ P2). split; assumption.
  - split; vm_compute; reflexivity.
Qed.
End Divisors.

Lemma eventsOf_matched (parseDate : string -> option Z) (now : Z)
    (query : AggregationQuery) (collection : list ServiceMetric) (id : string) :
  eventsOf id (matched parseDate now query collection) <> [] ->
  exists m, In m collection /\ matchStage parseDate now query m = true /\ servicename m = id.
Proof.
  intros Hne. destruct (eventsOf _ _) as [|m l] eqn:E; [congruence|].
  assert (Hin : In m (eventsOf id (matched parseDate now query collection))).
  { rewrite E. now left. }
  unfold eventsOf, matched in Hin. apply filter_In in Hin. destruct Hin as [Hin Hid].
  apply filter_In in Hin. destruct Hin as [Hin Hm].
  exists m. apply String.eqb_eq in Hid. auto.
Qed.

(** C7 (amended).  The two rate divisors are numbers other than zero.  A
    named time range gives its fixed length; explicit bounds with the end
    after the start give their difference divided by 1000 and by 60, each
    quotient rounded to the nearest double; equal bounds give the divisor 1
    for the per-second rate and 1 for the per-minute rate; missing or
    partial bounds give 86400 seconds (1440 minutes) and no time filter.
    Both divisors are strictly positive for every query that emits a
    service, and the emitted rates are the quotients of the total by them,
    computed in doubles and rounded to two decimals: under a named range
    and for a total below [2^53] they are whole hundredths within
    [1/2 + rate * 2^-44] hundredths of the exact quotient. *)
Theorem rate_divisors_resolved :
  forall (parseDate : string -> option Z) (query : AggregationQuery),
    let seconds := secondsDivisor parseDate query in
    let minutes := minutesDivisor parseDate query in
    (seconds <> NaN /\ minutes <> NaN /\
     forall q, seconds = Finite q \/ minutes = Finite q -> ~ (q == 0)%Q) /\
    (forall tr secs,
       timeRange query = Some tr -> namedSeconds tr = Some secs ->
       seconds = Finite (inject_Z secs) /\
       exists c, minutes = Finite c /\ (c == inject_Z secs / 60)%Q) /\
    (forall s e s' e',
       customOrAbsent query -> bothBounds query = true ->
       startDate query = Some s -> endDate query = Some e ->
       parseDate s = Some s' -> parseDate e = Some e' ->
       (s' < e' <= s' + 2 ^ 54 ->
          seconds = fdiv (ofZ (e' - s')) (Finite 1000) /\
          minutes = fdiv seconds (Finite 60) /\
          exists d d',
            seconds = Finite d /\ minutes = Finite d' /\
            (0 < d /\ 0 < d' /\
             Qabs (d - inject_Z (e' - s') / 1000)
               <= inject_Z (e' - s') / 1000 * pow2 (-50) /\
             Qabs (d' - inject_Z (e' - s') / 60000)
               <= inject_Z (e' - s') / 60000 * pow2 (-50))%Q) /\
       (s' = e' -> seconds = Finite 1 /\ minutes = Finite 1)) /\
    (customOrAbsent query -> bothBounds query = false ->
       seconds = Finite 86400 /\ minutes = Finite 1440 /\
       forall now, buildDateFilter parseDate now query = None) /\
    (forall now collection out r,
       aggregateServiceMetrics parseDate now query collection = Some out ->
       In r out ->
       isPositive seconds /\ isPositive minutes /\
       Rate.requestsPerSecond (rate r) =
         round2 (fdiv (ofZ (Rate.totalRequests (rate r))) seconds) /\
       Rate.requestsPerMinute (rate r) =
         round2 (fdiv (ofZ (Rate.totalRequests (rate r))) minutes)) /\
    (forall tr secs now collection out r,
       timeRange query = Some tr -> namedSeconds tr = Some secs ->
       aggregateServiceMetrics parseDate now query collection = Some out ->
       In r out ->
       0 < Rate.totalRequests (rate r) < 2 ^ 53 ->
       let perSecond := (inject_Z (Rate.totalRequests (rate r)) / inject_Z secs)%Q in
       let perMinute := (60 * perSecond)%Q in
       hundredthsNear (perSecond * pow2 (-44)) perSecond (Rate.requestsPerSecond (rate r)) /\
       hundredthsNear (perMinute * pow2 (-44)) perMinute (Rate.requestsPerMinute (rate r))).
Proof.
  intros parseDate query seconds minutes.
  assert (Hemit : forall now collection out r,
       aggregateServiceMetrics parseDate now query collection = Some out ->
       In r out ->
       isPositive seconds /\ isPositive minutes /\
       Rate.requestsPerSecond (rate r) =
         round2 (fdiv (ofZ (Rate.totalRequests (rate r))) seconds) /\
       Rate.requestsPerMinute (rate r) =
         round2 (fdiv (ofZ (Rate.totalRequests (rate r))) minutes)).
  { intros now collection out r Hout Hin.
    destruct (aggregate_origin _ _ _ _ _ _ Hout Hin) as (p & i & j & Hp & Hne & Hr).
    apply eventsOf_matched in Hne. destruct Hne as (m & _ & Hm & _).
    destruct (divisors_pos_when_matched parseDate now query m Hm) as [H1 H2].
    apply projectStage_Some in Hp.
    destruct Hp as (_ & _ & Ht & _ & _ & Hrps & Hrpm & _).
    rewrite Hr. simpl. rewrite Hrps, Hrpm, Ht. auto. }
  split; [|split; [|split; [|split; [|split]]]].
  - destruct (orOne_cases (timeRangeSeconds parseDate query)) as [N1 Z1].
    destruct (orOne_cases (timeRangeMinutes parseDate query)) as [N2 Z2].
    split; [exact N1|]. split; [exact N2|].
    intros q [E|E]; [now apply Z1|now apply Z2].
  - intros tr secs Htr Hs.
    destruct (divisors_named parseDate query tr secs Htr Hs) as (H1 & H2 & _). auto.
  - intros s e s' e'. apply divisors_custom.
  - apply divisors_default.
  - exact Hemit.
  - intros tr secs now collection out r Htr Hs Hout Hin Htot perSecond perMinute.
    destruct (Hemit now collection out r Hout Hin) as (_ & _ & -> & ->).
    destruct (divisors_named parseDate query tr secs Htr Hs) as (H1 & (c & H2 & Ec) & _).
    fold seconds in H1. fold minutes in H2. rewrite H1, H2.
    assert (Hsecs : (inject_Z 300 <= inject_Z secs <= inject_Z 604800)%Q).
    { rewrite <- !Zle_Qle. destruct tr; simpl in Hs; try discriminate;
        injection Hs as <-; lia. }
    change (inject_Z 300) with 300%Q in Hsecs.
    change (inject_Z 604800) with 604800%Q in Hsecs.
    assert (E20 : (pow2 20 == 1048576)%Q) by reflexivity.
    assert (D : (inject_Z secs / 60 == inject_Z secs * (1 # 60))%Q) by reflexivity.
    split.
    + apply rate_spec; [lia|]. rewrite E20. split; lra.
    + assert (Ex : (inject_Z (Rate.totalRequests (rate r)) / c == perMinute)%Q).
      { unfold perMinute, perSecond. rewrite Ec. field. lra. }
      apply (hundredthsNear_ext
               (inject_Z (Rate.totalRequests (rate r)) / c * pow2 (-44)) _
               (inject_Z (Rate.totalRequests (rate r)) / c)).
      * now rewrite Ex.
      * exact Ex.
      * apply rate_spec; [lia|]. rewrite E20, Ec, D. split; lra.
Qed.

(** ** Percentile indices (C10) *)

Lemma p95IndexOf_floor (n : nat) : p95IndexOf n = Z.to_nat (Z.of_nat n * 95 / 100).
Proof. reflexivity. Qed.

Lemma p99IndexOf_floor (n : nat) : p99IndexOf n = Z.to_nat (Z.of_nat n * 99 / 100).
Proof. reflexivity. Qed.

Lemma p95IndexOf_lt (n : nat) : (1 <= n)%nat -> (p95IndexOf n < n)%nat.
Proof.
  intros H. rewrite p95IndexOf_floor.
  assert (Z.of_nat n * 95 / 100 < Z.of_nat n); [|lia].
  apply Z.div_lt_upper_bound; lia.
Qed.

Lemma p99IndexOf_lt (n : nat) : (1 <= n)%nat -> (p99IndexOf n < n)%nat.
Proof.
  intros H. rewrite p99IndexOf_floor.
  assert (Z.of_nat n * 99 / 100 < Z.of_nat n); [|lia].
  apply Z.div_lt_upper_bound; lia.
Qed.

(** C10.  For an array of [n >= 1] response times the indices
    [floor(n * 0.95)] and [floor(n * 0.99)] are at most [n - 1], so both
    reads of the sorted array find an element. *)
Theorem percentile_indices_in_bounds :
  forall (responseTimes : list Q),
    let sorted := jsSort (fun a b => fsub (Finite a) (Finite b)) responseTimes in
    let n := length sorted in
    (1 <= length responseTimes)%nat ->
    (p95IndexOf n <= n - 1)%nat /\ (p99IndexOf n <= n - 1)%nat /\
    (exists v, nth_error sorted (p95IndexOf n) = Some v) /\
    (exists v, nth_error sorted (p99IndexOf n) = Some v).
Proof.
  intros responseTimes sorted n Hn.
  assert (Hn' : (1 <= n)%nat) by (unfold n, sorted; now rewrite jsSort_length).
  pose proof (p95IndexOf_lt n Hn') as H95.
  pose proof (p99IndexOf_lt n Hn') as H99.
  repeat split; try lia.
  - destruct (nth_error sorted (p95IndexOf n)) as [v|] eqn:E; [now exists v|].
    apply nth_error_None in E. fold n in E. lia.
  - destruct (nth_error sorted (p99IndexOf n)) as [v|] eqn:E; [now exists v|].
    apply nth_error_None in E. fold n in E. lia.
Qed.

(** ** Median and percentiles (C2) *)

(** Two ascending arrangements of the same numbers agree position by
    position, up to the representation of each rational. *)
Lemma sorted_canonical_unique (l l' : list Q) :
  Forall (fun x => Qred x = x) l ->
  Permutation l l' -> StronglySorted Qle l -> StronglySorted Qle l' -> l = l'.
Proof.
  intros Hc. revert l'. induction l as [|a l IH]; intros l' Hp Hs Hs'.
  - apply Permutation_nil in Hp. now subst.
  - destruct l' as [|b l'].
    { apply Permutation_sym, Permutation_nil in Hp. discriminate. }
    inversion Hc as [|? ? Ha Hc']; subst.
    inversion Hs as [|? ? Hs1 Ha_le]; subst.
    inversion Hs' as [|? ? Hs1' Hb_le]; subst.
    assert (Hcb : Qred b = b).
    { assert (Hin : In b (a :: l)).
      { apply Permutation_in with (b :: l'); [now symmetry|now left]. }
      rewrite Forall_forall in Hc. now apply Hc. }
    assert (Hab : a = b).
    { rewrite <- Ha, <- Hcb. apply Qred_complete.
      assert (H1 : (a <= b)%Q).
      { assert (Hin : In b (a :: l)).
        { apply Permutation_in with (b :: l'); [now symmetry|now left]. }
        destruct Hin as [->|Hin]; [apply Qle_refl|].
        rewrite Forall_forall in Ha_le. now apply Ha_le. }
      assert (H2 : (b <= a)%Q).
      { assert (Hin : In a (b :: l')).
        { apply Permutation_in with (a :: l); [exact Hp|now left]. }
        destruct Hin as [->|Hin]; [apply Qle_refl|].
        rewrite Forall_forall in Hb_le. now apply Hb_le. }
      now apply Qle_antisym. }
    subst b. f_equal. apply IH; auto.
    now apply Permutation_cons_inv with a.
Qed.

Lemma responseTimes_doubles (parseDate : string -> option Z) (now : Z)
    (query : AggregationQuery) (collection : list ServiceMetric) (id : string) :
  Forall (fun x => onGrid x /\ Qred x = x) (responseTimesOf parseDate now query collection id).
Proof.
  unfold responseTimesOf. apply Forall_forall. intros x Hx.
  apply in_map_iff in Hx. destruct Hx as (m & <- & _). unfold double.
  split; [apply nearest_grid|apply nearest_canonical].
Qed.

(** An ascending arrangement of doubles is the array [$sortArray] and
    [sort((a, b) => a - b)] produce. *)
Lemma sorted_is_sortArray (l sorted : list Q) :
  Forall (fun x => onGrid x /\ Qred x = x) l ->
  Permutation l sorted -> StronglySorted Qle sorted ->
  sortArray l = sorted /\ jsSort (fun a b => fsub (Finite a) (Finite b)) l = sorted.
Proof.
  intros H Hp Hs.
  assert (G : Forall onGrid l) by (eapply Forall_impl; [|exact H]; now intros a [? ?]).
  assert (C : Forall (fun x => Qred x = x) l) by (eapply Forall_impl; [|exact H]; now intros a [? ?]).
  assert (E : sortArray l = sorted).
  { apply sorted_canonical_unique.
    - apply Forall_forall. intros x Hx. unfold sortArray in Hx. apply jsSort_In in Hx.
      rewrite Forall_forall in C. now apply C.
    - rewrite <- Hp. symmetry. apply jsSort_perm.
    - apply sortArray_ascending.
    - exact Hs. }
  split; [exact E|]. now rewrite sort_numbers.
Qed.

Lemma mongoSlice_one {A} (l : list A) (k : nat) :
  arrayElemAt (mongoSlice l k 1) 0 = nth_error l k.
Proof.
  unfold arrayElemAt, mongoSlice.
  rewrite <- (Nat.add_0_r k) at 2. rewrite <- nth_error_skipn.
  destruct (skipn k l); reflexivity.
Qed.

Lemma duration_fields (parseDate : string -> option Z) (now : Z)
    (query : AggregationQuery) (collection : list ServiceMetric)
    (out : list ServiceAggregation) (r : ServiceAggregation) :
  aggregateServiceMetrics parseDate now query collection = Some out ->
  In r out ->
  let rts := responseTimesOf parseDate now query collection (sa_servicename r) in
  let sorted := sortArray rts in
  let n := length rts in
  (1 <= n)%nat /\
  Duration.averageResponseTime (duration r) = round2 (mongoAvg rts) /\
  Duration.medianResponseTime (duration r) =
    round2 (orUndefined (nth_error sorted (Nat.div n 2))) /\
  Duration.p95ResponseTime (duration r) =
    round2 (orUndefined (nth_error sorted (p95IndexOf n))) /\
  Duration.p99ResponseTime (duration r) =
    round2 (orUndefined (nth_error sorted (p99IndexOf n))) /\
  Duration.minResponseTime (duration r) = Finite (mongoMin rts) /\
  Duration.maxResponseTime (duration r) = Finite (mongoMax rts).
Proof.
  intros Hout Hin rts sorted n.
  destruct (aggregate_origin _ _ _ _ _ _ Hout Hin) as (p & i & j & Hp & Hne & Hr).
  apply projectStage_Some in Hp.
  destruct Hp as (_ & _ & _ & _ & _ & _ & _ & Hrt & _).
  destruct (groupOf_fields (sa_servicename r) (matched parseDate now query collection))
    as (_ & _ & _ & Grt & _).
  assert (Hevs : eventsOf (sa_servicename r) (matched parseDate now query collection)
                 = filter (fun m => matchStage parseDate now query m
                                    && (servicename m =? sa_servicename r)%string)
                          collection).
  { unfold eventsOf, matched. apply filter_filter_andb. }
  assert (Hrts : p_responseTimes p = rts).
  { unfold rts, responseTimesOf. now rewrite Hrt, Grt, Hevs. }
  assert (Hn : (1 <= n)%nat).
  { unfold n, rts, responseTimesOf. rewrite length_map, <- Hevs.
    destruct (eventsOf _ _); [congruence|simpl; lia]. }
  assert (Hd : duration r = duration (processResult (addFieldsStage p) 0)).
  { rewrite Hr. reflexivity. }
  assert (Hg : Forall onGrid rts).
  { eapply Forall_impl; [|apply responseTimes_doubles]. now intros a [? ?]. }
  clearbody rts. clear Hr Hevs Grt Hrt Hne.
  split; [exact Hn|]. rewrite Hd.
  unfold processResult, addFieldsStage.
  cbn [duration Duration.averageResponseTime Duration.medianResponseTime
       Duration.p95ResponseTime Duration.p99ResponseTime Duration.minResponseTime
       Duration.maxResponseTime doc r_averageResponseTime r_medianResponseTime
       r_minResponseTime r_maxResponseTime].
  rewrite Hrts. rewrite (sort_numbers rts Hg).
  assert (L : length (sortArray rts) = length rts) by apply jsSort_length.
  rewrite mongoSlice_one, L. repeat split; reflexivity.
Qed.

(** What [Math.round(v * 100) / 100] returns for a double [v]. *)
Lemma round2_double (v : Q) :
  (Qabs v <= pow2 1000)%Q ->
  hundredthsNear (Qabs v * pow2 (-46) + tiny) v (round2 (Finite v)).
Proof.
  intros H. pose proof (round2_spec v (Qabs v) (Qle_refl _) H) as S.
  apply (hundredthsNear_shift _ _ _ _ _ S).
  assert (E : (pow2 (-46) == 128 * ulp53)%Q) by reflexivity. rewrite E.
  assert (Z0 : (Qabs (v - v) == 0)%Q).
  { assert (K : (v - v == 0)%Q) by ring. now rewrite K. }
  rewrite Z0. pose proof (Qabs_nonneg v) as A. set (a := Qabs v) in *.
  unfold ulp53. lra.
Qed.

(** C2 (amended).  With [n >= 1] the number of latency samples of an
    emitted service and [sorted] any ascending arrangement of them, the
    reported median is computed from the element [v] of [sorted] at index
    [floor(n / 2)], the reported p95 and p99 from its elements at indices
    [floor(n * 0.95)] and [floor(n * 0.99)].  What is reported is
    [Math.round(v * 100) / 100] evaluated in doubles: a whole number of
    hundredths, read as a double, within [1/2 + |v| * 2^-46] hundredths of
    [v] (for [|v| <= 2^1000]). *)
Theorem percentiles_index_sorted_samples :
  forall (parseDate : string -> option Z) (now : Z) (query : AggregationQuery)
         (collection : list ServiceMetric) (out : list ServiceAggregation)
         (r : ServiceAggregation) (sorted : list Q),
    aggregateServiceMetrics parseDate now query collection = Some out ->
    In r out ->
    let rts := responseTimesOf parseDate now query collection (sa_servicename r) in
    let n := length rts in
    let reports (reported : Double) (v : Q) :=
      reported = round2 (Finite v) /\
      ((Qabs v <= pow2 1000)%Q ->
       hundredthsNear (Qabs v * pow2 (-46) + tiny) v reported) in
    Permutation rts sorted -> StronglySorted Qle sorted ->
    (1 <= n)%nat /\
    (exists v, nth_error sorted (Nat.div n 2) = Some v /\
               reports (Duration.medianResponseTime (duration r)) v) /\
    (exists v, nth_error sorted (Z.to_nat (Z.of_nat n * 95 / 100)) = Some v /\
               reports (Duration.p95ResponseTime (duration r)) v) /\
    (exists v, nth_error sorted (Z.to_nat (Z.of_nat n * 99 / 100)) = Some v /\
               reports (Duration.p99ResponseTime (duration r)) v).
Proof.
  intros parseDate now query collection out r sorted Hout Hin rts n reports Hperm Hsorted.
  destruct (duration_fields _ _ _ _ _ _ Hout Hin) as (Hn & _ & Hmed & H95 & H99 & _).
  fold rts in Hmed, H95, H99, Hn. fold n in Hmed, H95, H99, Hn.
  destruct (sorted_is_sortArray rts sorted (responseTimes_doubles _ _ _ _ _) Hperm Hsorted)
    as [Hagree _].
  rewrite Hagree in Hmed, H95, H99.
  assert (Hlen : length sorted = n) by (symmetry; now apply Permutation_length).
  assert (Hrep : forall k reported,
             (k < n)%nat -> reported = round2 (orUndefined (nth_error sorted k)) ->
             exists v, nth_error sorted k = Some v /\ reports reported v).
  { intros k reported Hk E.
    destruct (orUndefined_some sorted k ltac:(lia)) as (v & Hv & Ev).
    exists v. split; [exact Hv|]. rewrite Ev in E. split; [exact E|].
    intros B. rewrite E. now apply round2_double. }
  rewrite p95IndexOf_floor in H95. rewrite p99IndexOf_floor in H99.
  split; [exact Hn|]. split; [|split].
  - apply Hrep; [apply Nat.div_lt; lia|exact Hmed].
  - apply Hrep; [rewrite <- p95IndexOf_floor; now apply p95IndexOf_lt|exact H95].
  - apply Hrep; [rewrite <- p99IndexOf_floor; now apply p99IndexOf_lt|exact H99].
Qed.


(** ** Duration statistics (C8) *)

Section Extremes.
Local Open Scope Q_scope.

Lemma Qmin_le_l (a b : Q) : Qmin a b <= a.
Proof.
  unfold Qmin. destruct (Qle_bool a b) eqn:E; [apply Qle_refl|].
  destruct (Qlt_le_dec b a) as [H|H]; [lra|].
  apply Qle_bool_iff in H. congruence.
Qed.

Lemma Qmin_le_r (a b : Q) : Qmin a b <= b.
Proof.
  unfold Qmin. destruct (Qle_bool a b) eqn:E; [now apply Qle_bool_iff|apply Qle_refl].
Qed.

Lemma Qmax_ge_l (a b : Q) : a <= Qmax a b.
Proof.
  unfold Qmax. destruct (Qle_bool a b) eqn:E; [now apply Qle_bool_iff|apply Qle_refl].
Qed.

Lemma Qmax_ge_r (a b : Q) : b <= Qmax a b.
Proof.
  unfold Qmax. destruct (Qle_bool a b) eqn:E; [apply Qle_refl|].
  destruct (Qlt_le_dec b a) as [H|H]; [lra|].
  apply Qle_bool_iff in H. congruence.
Qed.

Lemma fold_Qmin_le (l : list Q) (x : Q) :
  fold_left Qmin l x <= x /\ forall y, In y l -> fold_left Qmin l x <= y.
Proof.
  revert x. induction l as [|a l IH]; intros x; simpl.
  - split; [apply Qle_refl|intros y []].
  - destruct (IH (Qmin x a)) as [H1 H2]. split.
    + eapply Qle_trans; [exact H1|apply Qmin_le_l].
    + intros y [<-|Hy]; [|now apply H2].
      eapply Qle_trans; [exact H1|apply Qmin_le_r].
Qed.

Lemma fold_Qmax_ge (l : list Q) (x : Q) :
  x <= fold_left Qmax l x /\ forall y, In y l -> y <= fold_left Qmax l x.
Proof.
  revert x. induction l as [|a l IH]; intros x; simpl.
  - split; [apply Qle_refl|intros y []].
  - destruct (IH (Qmax x a)) as [H1 H2]. split.
    + eapply Qle_trans; [apply Qmax_ge_l|exact H1].
    + intros y [<-|Hy]; [|now apply H2].
      eapply Qle_trans; [apply Qmax_ge_r|exact H1].
Qed.

Lemma mongoMin_le (l : list Q) (y : Q) : In y l -> mongoMin l <= y.
Proof.
  destruct l as [|x l]; simpl; [intros []|].
  destruct (fold_Qmin_le l x) as [H1 H2].
  intros [<-|Hy]; [exact H1|now apply H2].
Qed.

Lemma mongoMax_ge (l : list Q) (y : Q) : In y l -> y <= mongoMax l.
Proof.
  destruct l as [|x l]; simpl; [intros []|].
  destruct (fold_Qmax_ge l x) as [H1 H2].
  intros [<-|Hy]; [exact H1|now apply H2].
Qed.

Lemma Qsum_bounds (lo hi : Q) (l : list Q) :
  (forall y, In y l -> lo <= y <= hi) ->
  inject_Z (Z.of_nat (length l)) * lo <= Qsum l <= inject_Z (Z.of_nat (length l)) * hi.
Proof.
  induction l as [|x l IH]; intros H.
  - change (inject_Z (Z.of_nat (length (@nil Q)))) with 0. simpl Qsum. split; lra.
  - change (length (x :: l)) with (S (length l)).
    rewrite Nat2Z.inj_succ. unfold Z.succ. rewrite inject_Z_plus.
    change (inject_Z 1) with 1. simpl Qsum.
    destruct (H x (or_introl eq_refl)) as [Hlo Hhi].
    destruct IH as [IH1 IH2]; [intros y Hy; apply H; now right|].
    set (k := inject_Z (Z.of_nat (length l))) in *.
    setoid_replace ((k + 1) * lo) with (k * lo + lo) by ring.
    setoid_replace ((k + 1) * hi) with (k * hi + hi) by ring.
    split; lra.
Qed.

Lemma fold_Qmin_In (l : list Q) (x : Q) :
  fold_left Qmin l x = x \/ In (fold_left Qmin l x) l.
Proof.
  revert x. induction l as [|a l IH]; intros x; simpl; [now left|].
  destruct (IH (Qmin x a)) as [E|H]; [|now right; right].
  rewrite E. unfold Qmin. destruct (Qle_bool x a); [now left|now right; left].
Qed.

Lemma fold_Qmax_In (l : list Q) (x : Q) :
  fold_left Qmax l x = x \/ In (fold_left Qmax l x) l.
Proof.
  revert x. induction l as [|a l IH]; intros x; simpl; [now left|].
  destruct (IH (Qmax x a)) as [E|H]; [|now right; right].
  rewrite E. unfold Qmax. destruct (Qle_bool x a); [now right; left|now left].
Qed.

Lemma mongoMin_In (l : list Q) : l <> [] -> In (mongoMin l) l.
Proof.
  destruct l as [|x l]; [congruence|]. intros _. simpl.
  destruct (fold_Qmin_In l x) as [E|H]; [now left|now right].
Qed.

Lemma mongoMax_In (l : list Q) : l <> [] -> In (mongoMax l) l.
Proof.
  destruct l as [|x l]; [congruence|]. intros _. simpl.
  destruct (fold_Qmax_In l x) as [E|H]; [now left|now right].
Qed.

Lemma length_pos (l : list Q) : l <> [] -> 1 <= inject_Z (Z.of_nat (length l)).
Proof.
  intros H. change 1 with (inject_Z 1). rewrite <- Zle_Qle.
  destruct l; [congruence|simpl; lia].
Qed.

(** The mean of the samples lies between the least and the greatest. *)
Lemma mean_bounds (l : list Q) :
  l <> [] -> mongoMin l <= Qsum l / inject_Z (Z.of_nat (length l)) <= mongoMax l.
Proof.
  intros Hne.
  pose proof (Qsum_bounds (mongoMin l) (mongoMax l) l) as Hb.
  destruct Hb as [H1 H2].
  { intros y Hy. split; [now apply mongoMin_le|now apply mongoMax_ge]. }
  pose proof (length_pos l Hne) as Hn.
  split.
  - apply Qle_shift_div_l; [lra|]. lra.
  - apply Qle_shift_div_r; [lra|]. lra.
Qed.

Lemma Qdiv_abs_le (a n b : Q) : 0 < n -> Qabs a <= n * b -> Qabs (a / n) <= b.
Proof.
  intros Hn H. apply Qabs_Qle_condition in H. apply Qabs_Qle_condition. split.
  - apply Qle_shift_div_l; [exact Hn|]. lra.
  - apply Qle_shift_div_r; [exact Hn|]. lra.
Qed.

(** [$avg] on doubles: the exact sum rounded, divided by the count.  For
    samples of magnitude at most [M] the result is within [3 M 2^-53] of
    their mean. *)
Lemma mongoAvg_near (l : list Q) (M : Q) :
  l <> [] -> (forall x, In x l -> Qabs x <= M) -> M <= pow2 40 ->
  (Z.of_nat (length l) < 2 ^ 53)%Z ->
  exists d, mongoAvg l = Finite d /\
    Qabs (d - Qsum l / inject_Z (Z.of_nat (length l))) <= 3 * M * ulp53 + 3 * tiny /\
    Qabs d <= 2 * M + 1.
Proof.
  intros Hne HM HM40 Hlen.
  pose proof (length_pos l Hne) as Hn.
  assert (Hn53 : inject_Z (Z.of_nat (length l)) <= 9007199254740992).
  { change 9007199254740992 with (inject_Z (2 ^ 53)). rewrite <- Zle_Qle. lia. }
  assert (En : nearest (inject_Z (Z.of_nat (length l))) = inject_Z (Z.of_nat (length l))).
  { apply nearest_Z. lia. }
  assert (M0 : 0 <= M).
  { destruct l as [|x l']; [congruence|].
    eapply Qle_trans; [apply (Qabs_nonneg x)|apply HM; now left]. }
  assert (E40 : pow2 40 == 1099511627776) by reflexivity.
  rewrite E40 in HM40.
  destruct (Qsum_bounds (- M) M l) as [S1 S2].
  { intros y Hy. apply Qabs_Qle_condition. now apply HM. }
  unfold mongoAvg. destruct l as [|x0 l0] eqn:El; [congruence|]. rewrite <- El in *.
  clear El x0 l0.
  set (n := inject_Z (Z.of_nat (length l))) in *.
  set (S := Qsum l) in *.
  assert (NM : 0 <= n * M) by (apply Qmult_le_0_compat; lra).
  assert (NM' : n * M <= 9007199254740992 * 1099511627776).
  { apply Qle_trans with (n * 1099511627776).
    - apply Qmult_le_compat_l; lra.
    - apply Qmult_le_compat_r; lra. }
  assert (BS : Qabs S <= n * M) by (apply Qabs_Qle_condition; split; lra).
  assert (P93 : 9007199254740992 * 1099511627776 <= pow2 1023).
  { assert (E : 9007199254740992 * 1099511627776 == pow2 93) by reflexivity.
    rewrite E. apply pow2_le. lia. }
  rewrite rnd_finite by lra.
  unfold ofZ. fold n. rewrite En. cbn [fdiv].
  assert (Z0 : Qeq_bool n 0 = false).
  { destruct (Qeq_bool n 0) eqn:K; [|reflexivity]. apply Qeq_bool_iff in K. lra. }
  rewrite Z0.
  pose proof (nearest_within S (n * M) BS) as E1.
  pose proof tiny_pos as T0. pose proof tiny_small as T1.
  assert (NT : tiny <= n * tiny).
  { rewrite <- (Qmult_1_l tiny) at 1. apply Qmult_le_compat_r; lra. }
  assert (E2 : Qabs (nearest S / n - S / n) <= M * ulp53 + tiny).
  { assert (E : nearest S / n - S / n == (nearest S - S) / n) by (field; lra).
    rewrite E. apply Qdiv_abs_le; [lra|].
    assert (K : n * (M * ulp53 + tiny) == n * M * ulp53 + n * tiny) by ring.
    rewrite K. lra. }
  assert (B0 : Qabs (S / n) <= M).
  { apply Qdiv_abs_le; [lra|exact BS]. }
  assert (B1 : Qabs (nearest S / n) <= 2 * M + 1).
  { apply Qabs_Qle_condition in E2, B0. apply Qabs_Qle_condition.
    unfold ulp53 in *. split; lra. }
  assert (B1' : Qabs (nearest S / n) <= M + M * ulp53 + tiny).
  { apply Qabs_Qle_condition in E2, B0. apply Qabs_Qle_condition. split; lra. }
  rewrite rnd_finite by (unfold ulp53 in *; lra).
  exists (nearest (nearest S / n)). split; [reflexivity|].
  pose proof (nearest_within _ _ B1') as E3.
  apply Qabs_Qle_condition in E2, E3, B0.
  split; apply Qabs_Qle_condition; unfold ulp53 in *; split; lra.
Qed.

(** A number of hundredths that is close to [x] is not below a
    two-decimal literal that [x] is not below. *)
Lemma hundredths_above (slack x : Q) (r : Double) (k0 : Z) :
  hundredthsNear slack x r -> nearest (inject_Z k0 / 100) <= x ->
  slack <= 1 # 4 -> (Z.abs k0 <= 2 ^ 46)%Z ->
  dle (Finite (nearest (inject_Z k0 / 100))) r.
Proof.
  intros (k & -> & Hk) Hx Hs Hk0. apply dle_Finite, nearest_mono.
  destruct (Z_lt_le_dec k k0) as [L|L].
  2:{ rewrite Zle_Qle in L. unfold Qdiv. apply Qmult_le_compat_r; [exact L|discriminate]. }
  exfalso.
  assert (L' : inject_Z k <= inject_Z k0 - 1).
  { assert (K : (k <= k0 - 1)%Z) by lia. rewrite Zle_Qle in K.
    unfold Z.sub in K. rewrite inject_Z_plus in K. exact K. }
  assert (B : Qabs (inject_Z k0 / 100) <= 1099511627776).
  { apply Qdiv_abs_le; [reflexivity|]. apply Qabs_Qle_condition.
    assert (A1 : (- 2 ^ 46 <= k0)%Z) by lia. assert (A2 : (k0 <= 2 ^ 46)%Z) by lia.
    rewrite Zle_Qle in A1, A2.
    change (inject_Z (- 2 ^ 46)) with (- 70368744177664) in A1.
    change (inject_Z (2 ^ 46)) with 70368744177664 in A2. split; lra. }
  pose proof (nearest_within _ _ B) as E. pose proof tiny_pos as T0.
  pose proof tiny_small as T1.
  assert (D : inject_Z k0 / 100 == inject_Z k0 * (1 # 100)) by reflexivity.
  rewrite D in *.
  apply Qabs_Qle_condition in E, Hk. unfold ulp53 in *. lra.
Qed.

Lemma hundredths_below (slack x : Q) (r : Double) (k0 : Z) :
  hundredthsNear slack x r -> x <= nearest (inject_Z k0 / 100) ->
  slack <= 1 # 4 -> (Z.abs k0 <= 2 ^ 46)%Z ->
  dle r (Finite (nearest (inject_Z k0 / 100))).
Proof.
  intros (k & -> & Hk) Hx Hs Hk0. apply dle_Finite, nearest_mono.
  destruct (Z_lt_le_dec k0 k) as [L|L].
  2:{ rewrite Zle_Qle in L. unfold Qdiv. apply Qmult_le_compat_r; [exact L|discriminate]. }
  exfalso.
  assert (L' : inject_Z k0 + 1 <= inject_Z k).
  { assert (K : (k0 + 1 <= k)%Z) by lia. rewrite Zle_Qle in K.
    rewrite inject_Z_plus in K. exact K. }
  assert (B : Qabs (inject_Z k0 / 100) <= 1099511627776).
  { apply Qdiv_abs_le; [reflexivity|]. apply Qabs_Qle_condition.
    assert (A1 : (- 2 ^ 46 <= k0)%Z) by lia. assert (A2 : (k0 <= 2 ^ 46)%Z) by lia.
    rewrite Zle_Qle in A1, A2.
    change (inject_Z (- 2 ^ 46)) with (- 70368744177664) in A1.
    change (inject_Z (2 ^ 46)) with 70368744177664 in A2. split; lra. }
  pose proof (nearest_within _ _ B) as E. pose proof tiny_pos as T0.
  pose proof tiny_small as T1.
  assert (D : inject_Z k0 / 100 == inject_Z k0 * (1 # 100)) by reflexivity.
  rewrite D in *.
  apply Qabs_Qle_condition in E, Hk. unfold ulp53 in *. lra.
Qed.

(** A two-decimal literal of at most [2^46] hundredths is stored as a
    double of magnitude at most [2^40]. *)
Lemma literal_bound (k0 : Z) :
  (Z.abs k0 <= 2 ^ 46)%Z -> Qabs (nearest (inject_Z k0 / 100)) <= pow2 40.
Proof.
  intros Hk0. apply nearest_abs_le; [|vm_compute; reflexivity].
  assert (E40 : pow2 40 == 1099511627776) by reflexivity. rewrite E40.
  apply Qdiv_abs_le; [reflexivity|]. apply Qabs_Qle_condition.
  assert (A1 : (- 2 ^ 46 <= k0)%Z) by lia. assert (A2 : (k0 <= 2 ^ 46)%Z) by lia.
  rewrite Zle_Qle in A1, A2.
  change (inject_Z (- 2 ^ 46)) with (- 70368744177664) in A1.
  change (inject_Z (2 ^ 46)) with 70368744177664 in A2. split; lra.
Qed.

(** The reported median and average of samples of magnitude at most
    [M <= 2^40]. *)
Lemma rounded_statistics (l : list Q) (M m : Q) :
  l <> [] -> (forall x, In x l -> Qabs x <= M) -> M <= pow2 40 ->
  (Z.of_nat (length l) < 2 ^ 53)%Z -> In m l ->
  hundredthsNear ((M + 1) * pow2 (-44)) m (round2 (Finite m)) /\
  hundredthsNear ((M + 1) * pow2 (-44))
    (Qsum l / inject_Z (Z.of_nat (length l))) (round2 (mongoAvg l)).
Proof.
  intros Hne HM HM40 Hlen Hm.
  assert (M0 : 0 <= M).
  { eapply Qle_trans; [apply (Qabs_nonneg m)|now apply HM]. }
  assert (E40 : pow2 40 == 1099511627776) by reflexivity.
  assert (P1000 : 4398046511104 <= pow2 1000).
  { assert (E : 4398046511104 == pow2 42) by reflexivity. rewrite E. apply pow2_le. lia. }
  pose proof tiny_pos as T0. pose proof tiny_small as T1.
  assert (E44 : pow2 (-44) == 512 * ulp53) by reflexivity.
  split.
  - pose proof (round2_spec m M (HM m Hm)) as S.
    apply (hundredthsNear_shift _ _ _ _ _ (S ltac:(lra))).
    assert (Z0 : Qabs (m - m) == 0).
    { assert (K : m - m == 0) by ring. now rewrite K. }
    rewrite Z0, E44. unfold ulp53. lra.
  - destruct (mongoAvg_near l M Hne HM HM40 Hlen) as (d & -> & Hd & Bd).
    pose proof (round2_spec d (2 * M + 1) Bd) as S.
    apply (hundredthsNear_shift _ _ _ _ _ (S ltac:(lra))).
    rewrite E44. set (e := Qabs (d - Qsum l / inject_Z (Z.of_nat (length l)))) in *.
    unfold ulp53 in *. lra.
Qed.
End Extremes.

(** C8 (amended).  For every emitted service, with [lo] and [hi] the
    reported minimum and maximum (the least and the greatest sample), [m]
    the sample at index [floor(n / 2)] of the sorted samples and [mean]
    the exact mean: [lo <= m <= hi] and [lo <= mean <= hi]; the reported
    median is [m] rounded and lies between [lo] and [hi] both rounded; for
    samples of magnitude at most [M <= 2^40] the reported median and
    average are whole hundredths within [1/2 + (M + 1) * 2^-44] hundredths
    of [m] and of [mean]; and when [lo] and [hi] are stored two-decimal
    literals the reported median and average lie between them. *)
Theorem duration_order_up_to_rounding :
  forall (parseDate : string -> option Z) (now : Z) (query : AggregationQuery)
         (collection : list ServiceMetric) (out : list ServiceAggregation)
         (r : ServiceAggregation),
    aggregateServiceMetrics parseDate now query collection = Some out ->
    In r out ->
    let rts := responseTimesOf parseDate now query collection (sa_servicename r) in
    let n := length rts in
    let mean := (Qsum rts / inject_Z (Z.of_nat n))%Q in
    let median := Duration.medianResponseTime (duration r) in
    let average := Duration.averageResponseTime (duration r) in
    exists lo hi m : Q,
      Duration.minResponseTime (duration r) = Finite lo /\
      Duration.maxResponseTime (duration r) = Finite hi /\
      In lo rts /\ In hi rts /\ (forall x, In x rts -> lo <= x <= hi)%Q /\
      nth_error (sortArray rts) (Nat.div n 2) = Some m /\
      (lo <= m <= hi)%Q /\ (lo <= mean <= hi)%Q /\
      median = round2 (Finite m) /\
      average = round2 (mongoAvg rts) /\
      dle (round2 (Finite lo)) median /\ dle median (round2 (Finite hi)) /\
      (forall M : Q,
         (Qabs lo <= M)%Q -> (Qabs hi <= M)%Q -> (M <= pow2 40)%Q ->
         (Z.of_nat n < 2 ^ 53)%Z ->
         hundredthsNear ((M + 1) * pow2 (-44)) m median /\
         hundredthsNear ((M + 1) * pow2 (-44)) mean average) /\
      (forall klo khi : Z,
         (Z.abs klo <= 2 ^ 46)%Z -> (Z.abs khi <= 2 ^ 46)%Z ->
         lo = double (inject_Z klo / 100) -> hi = double (inject_Z khi / 100) ->
         (Z.of_nat n < 2 ^ 53)%Z ->
         dle (Finite lo) median /\ dle median (Finite hi) /\
         dle (Finite lo) average /\ dle average (Finite hi)).
Proof.
  intros parseDate now query collection out r Hout Hin rts n mean median average.
  destruct (duration_fields _ _ _ _ _ _ Hout Hin)
    as (Hn & Havg & Hmed & _ & _ & Hmin & Hmax).
  fold rts in Hn, Havg, Hmed, Hmin, Hmax. fold n in Hn, Hmed.
  fold median in Hmed. fold average in Havg.
  destruct (orUndefined_some (sortArray rts) (Nat.div n 2)) as (m & Em & Eu).
  { unfold sortArray. rewrite jsSort_length. apply Nat.div_lt; unfold n in *; lia. }
  rewrite Eu in Hmed.
  assert (Hm : In m rts).
  { apply nth_error_In in Em. unfold sortArray in Em. now apply jsSort_In in Em. }
  assert (Hne : rts <> []).
  { intros E. unfold n in Hn. rewrite E in Hn. simpl in Hn. lia. }
  assert (Hall : forall x, In x rts -> (mongoMin rts <= x <= mongoMax rts)%Q).
  { intros x Hx. split; [now apply mongoMin_le|now apply mongoMax_ge]. }
  pose proof (mean_bounds rts Hne) as Hmean.
  assert (Hstat : forall M : Q,
             (Qabs (mongoMin rts) <= M)%Q -> (Qabs (mongoMax rts) <= M)%Q ->
             (M <= pow2 40)%Q -> (Z.of_nat n < 2 ^ 53)%Z ->
             hundredthsNear ((M + 1) * pow2 (-44)) m median /\
             hundredthsNear ((M + 1) * pow2 (-44)) mean average).
  { intros M B1 B2 HM Hlen. rewrite Hmed, Havg.
    apply rounded_statistics; try assumption.
    intros x Hx. destruct (Hall x Hx) as [L U].
    apply Qabs_Qle_condition in B1, B2. apply Qabs_Qle_condition. split; lra. }
  exists (mongoMin rts), (mongoMax rts), m.
  split; [exact Hmin|]. split; [exact Hmax|].
  split; [now apply mongoMin_In|]. split; [now apply mongoMax_In|].
  split; [exact Hall|]. split; [exact Em|]. split; [now apply Hall|].
  split; [exact Hmean|]. split; [exact Hmed|]. split; [exact Havg|].
  split; [rewrite Hmed; apply round2_mono, dle_Finite, Hall, Hm|].
  split; [rewrite Hmed; apply round2_mono, dle_Finite, Hall, Hm|].
  split; [exact Hstat|].
  intros klo khi Klo Khi Elo Ehi Hlen.
  destruct (Hstat (pow2 40)) as [S1 S2]; try assumption.
  { rewrite Elo. now apply literal_bound. }
  { rewrite Ehi. now apply literal_bound. }
  { apply Qle_refl. }
  assert (Hs : ((pow2 40 + 1) * pow2 (-44) <= 1 # 4)%Q) by (vm_compute; discriminate).
  destruct (Hall m Hm) as [L U]. destruct Hmean as [L' U'].
  rewrite Elo in L, L' |- *. rewrite Ehi in U, U' |- *. unfold double in *.
  split; [exact (hundredths_above _ m _ klo S1 L Hs Klo)|].
  split; [exact (hundredths_below _ m _ khi S1 U Hs Khi)|].
  split; [exact (hundredths_above _ mean _ klo S2 L' Hs Klo)
         |exact (hundredths_below _ mean _ khi S2 U' Hs Khi)].
Qed.


(** ** Error breakdowns (C5) *)

Section Tally.
Context {K : Type} (eqb : K -> K -> bool).
Hypothesis eqb_eq : forall a b, eqb a b = true <-> a = b.
Variable truthy : K -> bool.

Lemma eqb_refl' (k : K) : eqb k k = true.
Proof. now apply eqb_eq. Qed.

Lemma mapGet_mapSet (m : list (K * Z)) (k k' : K) (v : Z) :
  mapGet eqb (mapSet eqb m k v) k' = if eqb k k' then Some v else mapGet eqb m k'.
Proof.
  induction m as [|[k0 v0] m IH]; simpl.
  - reflexivity.
  - destruct (eqb k0 k) eqn:E0; simpl.
    + apply eqb_eq in E0. subst k0. destruct (eqb k k'); reflexivity.
    + destruct (eqb k0 k') eqn:E1; [|exact IH].
      apply eqb_eq in E1. subst k0.
      destruct (eqb k k') eqn:E2; [|reflexivity].
      apply eqb_eq in E2. subst k'. rewrite eqb_refl' in E0. discriminate.
Qed.

Lemma mapGet_None (m : list (K * Z)) (k : K) :
  mapGet eqb m k = None <-> ~ In k (map fst m).
Proof.
  induction m as [|[k0 v0] m IH]; simpl.
  - tauto.
  - destruct (eqb k0 k) eqn:E.
    + apply eqb_eq in E. split; [discriminate|intros H; exfalso; apply H; now left].
    + rewrite IH. split.
      * intros H [Heq|Hin]; [|contradiction].
        apply eqb_eq in Heq. congruence.
      * intros H Hin. apply H. now right.
Qed.

Lemma mapSet_keys (m : list (K * Z)) (k : K) (v : Z) :
  map fst (mapSet eqb m k v) =
  match mapGet eqb m k with
  | Some _ => map fst m
  | None => map fst m ++ [k]
  end.
Proof.
  induction m as [|[k0 v0] m IH]; simpl.
  - reflexivity.
  - destruct (eqb k0 k) eqn:E; simpl.
    + reflexivity.
    + rewrite IH. destruct (mapGet eqb m k); reflexivity.
Qed.

Lemma mapSet_sum (m : list (K * Z)) (k : K) (c : Z) :
  Zsum (map snd (mapSet eqb m k (orZero (mapGet eqb m k) + c))) = Zsum (map snd m) + c.
Proof.
  induction m as [|[k0 v0] m IH]; simpl.
  - lia.
  - destruct (eqb k0 k) eqn:E; simpl; [lia|]. rewrite IH. lia.
Qed.

Lemma mapSet_NoDup (m : list (K * Z)) (k : K) (v : Z) :
  NoDup (map fst m) -> NoDup (map fst (mapSet eqb m k v)).
Proof.
  intros H. rewrite mapSet_keys. destruct (mapGet eqb m k) eqn:E; [exact H|].
  apply mapGet_None in E.
  apply (Permutation_NoDup (l := k :: map fst m)).
  - rewrite Permutation_app_comm. reflexivity.
  - now constructor.
Qed.

Lemma mapGet_In (m : list (K * Z)) (k : K) (c : Z) :
  NoDup (map fst m) -> (In (k, c) m <-> mapGet eqb m k = Some c).
Proof.
  induction m as [|[k0 v0] m IH]; simpl; intros Hnd.
  - split; [intros []|discriminate].
  - inversion Hnd as [|? ? Hnotin Hnd']; subst.
    destruct (eqb k0 k) eqn:E.
    + apply eqb_eq in E. subst k0. split.
      * intros [H|H]; [congruence|].
        exfalso. apply Hnotin. apply in_map_iff. exists (k, c). auto.
      * intros H. left. congruence.
    + rewrite <- (IH Hnd'). split.
      * intros [H|H]; [|exact H].
        injection H as -> ->. rewrite eqb_refl' in E. discriminate.
      * intros H. now right.
Qed.

(** What the map holds once [items] have been tallied. *)
Lemma tally_fold (items : list (option (K * Z))) :
  let m := fold_left (tally eqb truthy) items [] in
  NoDup (map fst m) /\
  (forall k, mapGet eqb m k =
             if keySeen eqb truthy k items then Some (keyCount eqb truthy k items) else None) /\
  Zsum (map snd m) = Zsum (map (itemCount truthy) items).
Proof.
  induction items as [|item items IH] using rev_ind; simpl.
  - repeat split. constructor.
  - rewrite fold_left_app. simpl.
    destruct IH as (Hnd & Hget & Hsum).
    set (m := fold_left (tally eqb truthy) items []) in *.
    unfold keySeen, keyCount in *.
    assert (Hskip :
      itemCount truthy item = 0 -> (forall k, itemHasKey eqb truthy k item = false) ->
      NoDup (map fst m) /\
      (forall k, mapGet eqb m k =
         if existsb (itemHasKey eqb truthy k) (items ++ [item])
         then Some (Zsum (map (itemCount truthy) (filter (itemHasKey eqb truthy k) (items ++ [item]))))
         else None) /\
      Zsum (map snd m) = Zsum (map (itemCount truthy) (items ++ [item]))).
    { intros H0 Hk. repeat split; [exact Hnd| |].
      - intros k. rewrite existsb_app, filter_app. simpl. rewrite (Hk k).
        rewrite orb_false_r, app_nil_r. apply Hget.
      - rewrite map_app, Zsum_app. simpl. lia. }
    destruct item as [[k c]|]; simpl.
    2: { apply Hskip; reflexivity. }
    destruct (truthy k) eqn:T.
    2: { apply Hskip; simpl; rewrite T; reflexivity. }
    repeat split.
    + now apply mapSet_NoDup.
    + intros k'. rewrite mapGet_mapSet, existsb_app, filter_app, map_app, Zsum_app.
      simpl. rewrite T. simpl.
      destruct (eqb k k') eqn:E.
      * apply eqb_eq in E. subst k'. rewrite orb_true_r. simpl. rewrite T.
        rewrite Hget. destruct (existsb (itemHasKey eqb truthy k) items) eqn:S; simpl.
        -- f_equal. lia.
        -- f_equal.
           assert (F : filter (itemHasKey eqb truthy k) items = []).
           { destruct (filter (itemHasKey eqb truthy k) items) as [|x l] eqn:F; [reflexivity|].
             assert (Hx : In x (filter (itemHasKey eqb truthy k) items)) by (rewrite F; now left).
             apply filter_In in Hx.
             assert (existsb (itemHasKey eqb truthy k) items = true); [|congruence].
             apply existsb_exists. now exists x. }
           rewrite F. simpl. lia.
      * rewrite orb_false_r. simpl. rewrite Z.add_0_r. apply Hget.
    + rewrite mapSet_sum, map_app, Zsum_app. simpl. rewrite T. lia.
Qed.

Lemma tally_entries (items : list (option (K * Z))) (k : K) (c : Z) :
  In (k, c) (fold_left (tally eqb truthy) items []) <->
  keySeen eqb truthy k items = true /\ c = keyCount eqb truthy k items.
Proof.
  destruct (tally_fold items) as (Hnd & Hget & _).
  rewrite (mapGet_In _ k c Hnd), Hget.
  destruct (keySeen eqb truthy k items); split.
  - intros H. injection H as <-. auto.
  - intros [_ ->]. reflexivity.
  - discriminate.
  - intros [H _]. discriminate.
Qed.
End Tally.

Section PercentageFacts.
Local Open Scope Q_scope.

Lemma Qsum_perm (l l' : list Q) : Permutation l l' -> Qsum l == Qsum l'.
Proof.
  induction 1; simpl; try lra.
Qed.

Lemma exact_share_range (c t : Z) :
  (0 <= c <= t)%Z -> (0 < t)%Z -> 0 <= 100 * inject_Z c / inject_Z t <= 100.
Proof.
  intros [H0 H1] Ht. rewrite Zle_Qle in H0, H1. rewrite Zlt_Qlt in Ht.
  change (inject_Z 0) with 0 in *. split.
  - apply Qle_shift_div_l; [exact Ht|]. lra.
  - apply Qle_shift_div_r; [exact Ht|]. lra.
Qed.

Lemma percentageOf_spec (count totalErrors : Z) :
  (0 <= count <= totalErrors)%Z -> (0 < totalErrors)%Z ->
  hundredthsNear (pow2 (-36)) (100 * inject_Z count / inject_Z totalErrors)
    (percentageOf count totalErrors) /\
  exists p, percentageOf count totalErrors = Finite p /\
    Qabs (p - 100 * inject_Z count / inject_Z totalErrors) <= (1 # 200) + pow2 (-42).
Proof.
  intros Hc Ht. unfold percentageOf.
  destruct (0 <? totalErrors)%Z eqn:E; [|apply Z.ltb_ge in E; lia].
  destruct (share_spec count totalErrors Hc Ht) as (S & _).
  split; [exact S|].
  apply hundredthsNear_value; [exact S|now apply exact_share_range].
Qed.

Lemma percentage_sum_near (counts : list Z) (totalErrors : Z) :
  (0 < totalErrors)%Z -> Forall (fun c => (0 <= c <= totalErrors)%Z) counts ->
  exists shares : list Q,
    map (fun c => percentageOf c totalErrors) counts = map Finite shares /\
    Qabs (Qsum shares - 100 * inject_Z (Zsum counts) / inject_Z totalErrors)
      <= inject_Z (Z.of_nat (length counts)) * ((1 # 200) + pow2 (-42)).
Proof.
  intros Ht H. assert (T : 0 < inject_Z totalErrors).
  { change 0 with (inject_Z 0). now rewrite <- Zlt_Qlt. }
  induction H as [|c counts Hc _ IH].
  - exists []. split; [reflexivity|]. simpl.
    assert (E : 0 - 100 * inject_Z 0 / inject_Z totalErrors == 0) by (field; lra).
    rewrite E. vm_compute. discriminate.
  - destruct IH as (shares & Es & Hs).
    destruct (percentageOf_spec c totalErrors Hc Ht) as (_ & p & Ep & Hp).
    exists (p :: shares). split; [simpl; now rewrite Ep, Es|].
    change (length (c :: counts)) with (S (length counts)).
    rewrite Nat2Z.inj_succ. unfold Z.succ. rewrite inject_Z_plus.
    change (inject_Z 1) with 1. simpl Zsum. rewrite inject_Z_plus. simpl Qsum.
    set (k := inject_Z (Z.of_nat (length counts))) in *.
    set (eps := (1 # 200) + pow2 (-42)) in *.
    assert (E : p + Qsum shares
                  - 100 * (inject_Z c + inject_Z (Zsum counts)) / inject_Z totalErrors
                == (p - 100 * inject_Z c / inject_Z totalErrors)
                   + (Qsum shares - 100 * inject_Z (Zsum counts) / inject_Z totalErrors))
      by (field; lra).
    rewrite E.
    assert (K : (k + 1) * eps == k * eps + eps) by ring. rewrite K.
    apply Qabs_Qle_condition in Hp, Hs. apply Qabs_Qle_condition. split; lra.
Qed.
End PercentageFacts.

Section BreakdownFacts.
Context {K Entry : Type} (eqb : K -> K -> bool).
Hypothesis eqb_eq : forall a b, eqb a b = true <-> a = b.
Variable truthy : K -> bool.
Variable mk : K -> Z -> Double -> Entry.
Variables (key : Entry -> K) (count : Entry -> Z) (percentage : Entry -> Double).
Hypothesis key_mk : forall k c p, key (mk k c p) = k.
Hypothesis count_mk : forall k c p, count (mk k c p) = c.
Hypothesis percentage_mk : forall k c p, percentage (mk k c p) = p.
Variable keyOf : ServiceMetric -> K.

Variable errs : list ServiceMetric.
Hypothesis keys_truthy : Forall (fun m => truthy (keyOf m) = true) errs.

Lemma keySeen_itemsOf (k : K) :
  keySeen eqb truthy k (itemsOf keyOf errs) = true <-> exists m, In m errs /\ keyOf m = k.
Proof.
  unfold keySeen, itemsOf. rewrite existsb_exists. split.
  - intros (item & Hin & Hk). apply in_map_iff in Hin.
    destruct Hin as (m & <- & Hm). simpl in Hk.
    apply andb_prop in Hk. destruct Hk as [_ Hk]. apply eqb_eq in Hk.
    exists m. auto.
  - intros (m & Hm & <-). exists (Some (keyOf m, requestCount m)). split.
    + apply in_map_iff. exists m. auto.
    + simpl. rewrite Forall_forall in keys_truthy. rewrite (keys_truthy m Hm).
      simpl. now apply eqb_eq.
Qed.

Lemma keyCount_itemsOf (k : K) :
  keyCount eqb truthy k (itemsOf keyOf errs) =
  Zsum (map requestCount (filter (fun m => eqb (keyOf m) k) errs)).
Proof.
  unfold keyCount, itemsOf. clear eqb_eq.
  induction errs as [|m l IH]; simpl; [reflexivity|].
  inversion keys_truthy as [|? ? Hm Hl]; subst. rewrite Hm. simpl.
  destruct (eqb (keyOf m) k); simpl; rewrite ?Hm, (IH Hl); reflexivity.
Qed.

Lemma itemCount_itemsOf :
  Zsum (map (itemCount truthy) (itemsOf keyOf errs)) = Zsum (map requestCount errs).
Proof.
  unfold itemsOf. clear eqb_eq.
  induction errs as [|m l IH]; simpl; [reflexivity|].
  inversion keys_truthy as [|? ? Hm Hl]; subst. rewrite Hm, (IH Hl). reflexivity.
Qed.

Hypothesis counts_positive : Forall (fun m => 1 <= requestCount m) errs.

Lemma processWith_breakdown (totalErrors : Z) :
  totalErrors = Zsum (map requestCount errs) ->
  Breakdown eqb key count percentage keyOf errs totalErrors
    (processWith eqb truthy mk count (itemsOf keyOf errs) totalErrors).
Proof.
  intros Htotal. unfold processWith.
  set (m := fold_left (tally eqb truthy) (itemsOf keyOf errs) []).
  set (mkE := fun '(k, c) => mk k c (percentageOf c totalErrors)).
  set (cmp := fun a b => ofZ (count b - count a)).
  pose proof (jsSort_perm cmp (map mkE m)) as Hperm.
  destruct (tally_fold eqb eqb_eq truthy (itemsOf keyOf errs)) as (Hnd & _ & Hsum).
  fold m in Hnd, Hsum.
  assert (Hkeys : map key (map mkE m) = map fst m).
  { rewrite map_map. apply map_ext. intros [k c]. apply key_mk. }
  assert (Hcount : forall k c, In (k, c) m ->
            c = Zsum (map requestCount (filter (fun m => eqb (keyOf m) k) errs))).
  { intros k c Hin. apply (tally_entries eqb eqb_eq truthy) in Hin.
    destruct Hin as [_ ->]. apply keyCount_itemsOf. }
  assert (Hrange : forall k c, In (k, c) m -> 0 <= c <= totalErrors).
  { intros k c Hin. rewrite (Hcount k c Hin), Htotal.
    now apply Zsum_filter_bounds. }
  assert (Hraw : forall e, In e (jsSort cmp (map mkE m)) ->
            exists k c, In (k, c) m /\ e = mk k c (percentageOf c totalErrors)).
  { intros e He. apply jsSort_In in He. apply in_map_iff in He.
    destruct He as ([k c] & <- & Hin). exists k, c. auto. }
  constructor.
  - apply (Permutation_NoDup (l := map key (map mkE m))).
    + now apply Permutation_map.
    + now rewrite Hkeys.
  - intros k. rewrite <- keySeen_itemsOf.
    assert (Hin : In k (map key (jsSort cmp (map mkE m))) <-> In k (map fst m)).
    { rewrite <- Hkeys. split; apply Permutation_in; apply Permutation_map;
        [symmetry|]; exact Hperm. }
    rewrite Hin. split.
    + intros H. apply in_map_iff in H. destruct H as ([k' c] & <- & H).
      apply (tally_entries eqb eqb_eq truthy) in H. simpl. tauto.
    + intros H. apply in_map_iff.
      exists (k, keyCount eqb truthy k (itemsOf keyOf errs)). split; [reflexivity|].
      apply (tally_entries eqb eqb_eq truthy). auto.
  - intros e He. destruct (Hraw e He) as (k & c & Hin & ->).
    rewrite count_mk, key_mk. now apply Hcount.
  - intros e He. destruct (Hraw e He) as (k & c & Hin & ->).
    rewrite percentage_mk, count_mk.
    destruct (0 <? totalErrors) eqn:E.
    + apply Z.ltb_lt in E. apply percentageOf_spec; [now apply (Hrange k)|exact E].
    + unfold percentageOf. now rewrite E.
  - eapply StronglySorted_weaken; [|apply (jsSort_sorted cmp)].
    + intros a b H. unfold sortedBefore, cmp in H. rewrite ofZ_sign in H.
      apply Z.leb_le in H. lia.
    + intros a b. unfold sortedBefore, cmp. rewrite !ofZ_sign, !Z.leb_le. lia.
    + intros a b c. unfold sortedBefore, cmp. rewrite !ofZ_sign, !Z.leb_le. lia.
  - intros Hpos.
    destruct (percentage_sum_near (map snd m) totalErrors Hpos) as (shares & Es & Hs).
    { apply Forall_forall. intros c Hc. apply in_map_iff in Hc.
      destruct Hc as ([k c'] & <- & Hin). now apply (Hrange k). }
    assert (Hpct : map percentage (map mkE m) = map Finite shares).
    { rewrite <- Es, !map_map. apply map_ext. intros [k c]. apply percentage_mk. }
    assert (Hp : Permutation (map percentage (jsSort cmp (map mkE m)))
                   (map Finite shares)).
    { rewrite <- Hpct. symmetry. now apply Permutation_map. }
    apply Permutation_map_inv in Hp. destruct Hp as (shares' & Es' & Hp').
    exists shares'. split; [exact Es'|].
    assert (Hlen : length (jsSort cmp (map mkE m)) = length (map snd m)).
    { now rewrite jsSort_length, !length_map. }
    rewrite Hlen, <- (Qsum_perm _ _ Hp').
    rewrite Hsum, itemCount_itemsOf, <- Htotal in Hs.
    assert (T : (0 < inject_Z totalErrors)%Q).
    { change 0%Q with (inject_Z 0). now rewrite <- Zlt_Qlt. }
    assert (E100 : (100 * inject_Z totalErrors / inject_Z totalErrors == 100)%Q)
      by (field; lra).
    rewrite E100 in Hs. exact Hs.
Qed.
End BreakdownFacts.

Lemma statusItems_errors (evs : list ServiceMetric) :
  filter notNull (map statusItem evs) = itemsOf statusCode (filter isError evs).
Proof.
  unfold itemsOf, statusItem.
  induction evs as [|m evs IH]; simpl; [reflexivity|].
  destruct (isError m); simpl; now rewrite IH.
Qed.

Lemma severityItems_errors (evs : list ServiceMetric) :
  filter notNull (map severityItem evs)
  = itemsOf (fun m => severityString (severity m)) (filter isError evs).
Proof.
  unfold itemsOf, severityItem.
  induction evs as [|m evs IH]; simpl; [reflexivity|].
  destruct (isError m); simpl; now rewrite IH.
Qed.

Lemma processErrorsByStatusCode_shape (items : list (option (Z * Z))) (totalErrors : Z) :
  processErrorsByStatusCode items totalErrors =
  processWith Z.eqb (fun k => negb (k =? 0)) Build_StatusCodeEntry sc_count items totalErrors.
Proof. reflexivity. Qed.

Lemma processErrorsBySeverity_shape (items : list (option (string * Z))) (totalErrors : Z) :
  processErrorsBySeverity items totalErrors =
  processWith String.eqb (fun k => negb (k =? "")%string) Build_SeverityEntry sv_count
    items totalErrors.
Proof. reflexivity. Qed.

(** C5 (amended).  With every [requestCount] at least 1, for every
    emitted service, with [errs] its matching events of status code at
    least 400: [errorCount] is their summed [requestCount], and both the
    status-code and the severity breakdown hold one entry per distinct key
    of [errs], with the summed count of the key, in descending order of
    count; the percentage of an entry is a whole number of hundredths
    within [1/2 + 2^-36] hundredths of [100 * count / errorCount] (0 when
    [errorCount] is not positive), and the percentages add up to 100
    within [0.005 + 2^-42] per entry when [errorCount > 0]. *)
Theorem error_breakdowns_well_formed :
  forall (parseDate : string -> option Z) (now : Z) (query : AggregationQuery)
         (collection : list ServiceMetric) (out : list ServiceAggregation)
         (r : ServiceAggregation),
    Forall (fun m => 1 <= requestCount m) collection ->
    aggregateServiceMetrics parseDate now query collection = Some out ->
    In r out ->
    let errs :=
      filter (fun m => 400 <=? statusCode m)
        (filter (fun m => matchStage parseDate now query m
                          && (servicename m =? sa_servicename r)%string) collection) in
    Error.errorCount (error r) = Zsum (map requestCount errs) /\
    Breakdown Z.eqb sc_statusCode sc_count sc_percentage
      statusCode errs (Error.errorCount (error r)) (Error.errorsByType (error r)) /\
    Breakdown String.eqb sv_severity sv_count sv_percentage
      (fun m => severityString (severity m)) errs
      (Error.errorCount (error r)) (Error.errorsBySeverity (error r)).
Proof.
  intros parseDate now query collection out r Hcounts Hout Hin errs.
  assert (Hpos : Forall (fun m => 1 <= requestCount m) errs).
  { unfold errs. now do 2 apply Forall_filter_keep. }
  destruct (aggregate_origin _ _ _ _ _ _ Hout Hin) as (p & i & j & Hp & _ & Hr).
  apply projectStage_Some in Hp.
  destruct Hp as (_ & _ & _ & He & _ & _ & _ & _ & _ & _ & Hsc & Hsv).
  destruct (groupOf_fields (sa_servicename r) (matched parseDate now query collection))
    as (_ & _ & Ge & _ & _ & _ & Gsc & Gsv).
  assert (Hevs : filter isError
                   (eventsOf (sa_servicename r) (matched parseDate now query collection))
                 = errs).
  { unfold eventsOf, matched, errs.
    rewrite (filter_filter_andb (fun m => (servicename m =? sa_servicename r)%string)
               (matchStage parseDate now query)).
    reflexivity. }
  rewrite Gsc, statusItems_errors, Hevs in Hsc.
  rewrite Gsv, severityItems_errors, Hevs in Hsv.
  rewrite Ge, Hevs in He.
  assert (Hfields :
    Error.errorCount (error r) = p_errorCount p /\
    Error.errorsByType (error r)
      = processErrorsByStatusCode (p_errorsByStatusCode p) (p_errorCount p) /\
    Error.errorsBySeverity (error r)
      = processErrorsBySeverity (p_errorsBySeverity p) (p_errorCount p)).
  { rewrite Hr. repeat split. }
  destruct Hfields as (-> & -> & ->).
  rewrite Hsc, Hsv, processErrorsByStatusCode_shape, processErrorsBySeverity_shape.
  assert (Herrs : Forall (fun m => 400 <= statusCode m) errs).
  { apply Forall_forall. intros m Hm. apply filter_In in Hm.
    destruct Hm as [_ Hm]. now apply Z.leb_le in Hm. }
  clearbody errs. clear Hr Hevs.
  split; [exact He|]. split.
  - apply processWith_breakdown; auto.
    + intros a b. apply Z.eqb_eq.
    + eapply Forall_impl; [|exact Herrs]. intros m Hm. simpl in Hm.
      destruct (statusCode m =? 0) eqn:E; [apply Z.eqb_eq in E; lia|reflexivity].
  - apply processWith_breakdown; auto.
    + intros a b. apply String.eqb_eq.
    + apply Forall_forall. intros m _. destruct (severity m); reflexivity.
Qed.


(** ** Independence of the scan order (C9) *)

Lemma Zsum_perm (l l' : list Z) : Permutation l l' -> Zsum l = Zsum l'.
Proof. induction 1; simpl; lia. Qed.

Lemma filter_perm {A} (f : A -> bool) (l l' : list A) :
  Permutation l l' -> Permutation (filter f l) (filter f l').
Proof.
  induction 1 as [|x l l' H IH|x y l|l l' l'' H1 IH1 H2 IH2]; simpl.
  - constructor.
  - destruct (f x); [now constructor|exact IH].
  - destruct (f x), (f y); try reflexivity. apply perm_swap.
  - now transitivity (filter f l').
Qed.

Lemma existsb_perm {A} (f : A -> bool) (l l' : list A) :
  Permutation l l' -> existsb f l = existsb f l'.
Proof.
  intros H. destruct (existsb f l') eqn:E.
  - apply existsb_exists in E. destruct E as (x & Hx & Hf).
    apply existsb_exists. exists x. split; [|exact Hf].
    apply Permutation_in with l'; [now symmetry|exact Hx].
  - destruct (existsb f l) eqn:E'; [|reflexivity].
    apply existsb_exists in E'. destruct E' as (x & Hx & Hf).
    assert (existsb f l' = true); [|congruence].
    apply existsb_exists. exists x. split; [|exact Hf].
    now apply Permutation_in with l.
Qed.

Lemma summaryOf_record (parseDate : string -> option Z) (now : Z)
    (query : AggregationQuery) (collection : list ServiceMetric)
    (out : list ServiceAggregation) (r : ServiceAggregation) :
  aggregateServiceMetrics parseDate now query collection = Some out ->
  In r out ->
  exists s j,
    summaryOf parseDate query (sa_servicename r)
      (matchingEventsOf parseDate now query collection (sa_servicename r)) = Some s /\
    r = setRank s j.
Proof.
  intros Hout Hin.
  destruct (aggregate_origin _ _ _ _ _ _ Hout Hin) as (p & i & j & Hp & _ & Hr).
  exists (processResult (addFieldsStage p) 0), j. split.
  - unfold summaryOf, matchingEventsOf.
    rewrite <- (filter_filter_andb
                  (fun m => (servicename m =? sa_servicename r)%string)
                  (matchStage parseDate now query)).
    unfold groupOf, eventsOf, matched in Hp. rewrite Hp. reflexivity.
  - rewrite Hr at 1. reflexivity.
Qed.

Lemma perm_nonempty {A} (l l' : list A) : Permutation l l' -> l <> [] -> l' <> [].
Proof.
  intros H Hne ->. apply Hne. now apply Permutation_nil, Permutation_sym.
Qed.

Lemma doubles_In (l : list Q) (x : Q) : doubles l -> In x l -> onGrid x /\ Qred x = x.
Proof. unfold doubles. rewrite Forall_forall. auto. Qed.

Lemma doubles_perm (l l' : list Q) : Permutation l l' -> doubles l -> doubles l'.
Proof.
  unfold doubles. rewrite !Forall_forall. intros H Hl x Hx. apply Hl.
  apply Permutation_in with l'; [now symmetry|exact Hx].
Qed.

Lemma canonical_eq (a b : Q) : Qred a = a -> Qred b = b -> (a == b)%Q -> a = b.
Proof. intros Ha Hb E. rewrite <- Ha, <- Hb. now apply Qred_complete. Qed.

Lemma mongoMin_perm (l l' : list Q) :
  Permutation l l' -> doubles l -> mongoMin l = mongoMin l'.
Proof.
  intros H Hd. destruct l as [|x l0].
  - apply Permutation_nil in H. subst. reflexivity.
  - set (l := x :: l0) in *.
    assert (Hne : l <> []) by discriminate.
    pose proof (perm_nonempty _ _ H Hne) as Hne'.
    pose proof (mongoMin_In l Hne) as I. pose proof (mongoMin_In l' Hne') as I'.
    apply canonical_eq.
    + now apply (doubles_In l).
    + now apply (doubles_In l' _ (doubles_perm _ _ H Hd)).
    + apply Qle_antisym.
      * apply mongoMin_le. apply Permutation_in with l'; [now symmetry|exact I'].
      * apply mongoMin_le. apply Permutation_in with l; [exact H|exact I].
Qed.

Lemma mongoMax_perm (l l' : list Q) :
  Permutation l l' -> doubles l -> mongoMax l = mongoMax l'.
Proof.
  intros H Hd. destruct l as [|x l0].
  - apply Permutation_nil in H. subst. reflexivity.
  - set (l := x :: l0) in *.
    assert (Hne : l <> []) by discriminate.
    pose proof (perm_nonempty _ _ H Hne) as Hne'.
    pose proof (mongoMax_In l Hne) as I. pose proof (mongoMax_In l' Hne') as I'.
    apply canonical_eq.
    + now apply (doubles_In l).
    + now apply (doubles_In l' _ (doubles_perm _ _ H Hd)).
    + apply Qle_antisym.
      * apply mongoMax_ge. apply Permutation_in with l; [exact H|exact I].
      * apply mongoMax_ge. apply Permutation_in with l'; [now symmetry|exact I'].
Qed.

(** [$avg] adds the values up exactly before it rounds: the order of the
    array does not matter. *)
Lemma mongoAvg_perm (l l' : list Q) : Permutation l l' -> mongoAvg l = mongoAvg l'.
Proof.
  intros H. destruct l as [|x l0].
  - apply Permutation_nil in H. subst. reflexivity.
  - destruct l' as [|x' l0'].
    { apply Permutation_sym, Permutation_nil in H. discriminate. }
    unfold mongoAvg.
    rewrite (rnd_ext _ _ (Qsum_perm _ _ H)), (Permutation_length H). reflexivity.
Qed.

(** Both sorts of an array of doubles do not depend on its order. *)
Lemma sorted_perm (l l' : list Q) :
  Permutation l l' -> doubles l ->
  sortArray l' = sortArray l /\
  jsSort (fun a b => fsub (Finite a) (Finite b)) l'
    = jsSort (fun a b => fsub (Finite a) (Finite b)) l.
Proof.
  intros H Hd.
  assert (Hs : Permutation l' (sortArray l)).
  { rewrite <- H. apply jsSort_perm. }
  destruct (sorted_is_sortArray l' (sortArray l) (doubles_perm _ _ H Hd) Hs
              (sortArray_ascending l)) as [E1 E2].
  split; [exact E1|]. rewrite E2. symmetry. apply sort_numbers.
  eapply Forall_impl; [|exact Hd]. now intros a [? ?].
Qed.

Section BreakdownOrder.
Context {K Entry : Type} (eqb : K -> K -> bool).
Hypothesis eqb_eq : forall a b, eqb a b = true <-> a = b.
Variable truthy : K -> bool.
Variable mk : K -> Z -> Double -> Entry.
Variable count : Entry -> Z.

Lemma processWith_In (items : list (option (K * Z))) (totalErrors : Z) (e : Entry) :
  In e (processWith eqb truthy mk count items totalErrors) <->
  exists k c, keySeen eqb truthy k items = true /\
              c = keyCount eqb truthy k items /\
              e = mk k c (percentageOf c totalErrors).
Proof.
  unfold processWith. rewrite jsSort_In, in_map_iff. split.
  - intros ([k c] & <- & Hin). exists k, c.
    apply (tally_entries eqb eqb_eq truthy) in Hin. tauto.
  - intros (k & c & Hs & Hc & ->). exists (k, c). split; [reflexivity|].
    apply (tally_entries eqb eqb_eq truthy). auto.
Qed.

Lemma processWith_perm (items items' : list (option (K * Z))) (totalErrors : Z) (e : Entry) :
  Permutation items items' ->
  In e (processWith eqb truthy mk count items' totalErrors) <->
  In e (processWith eqb truthy mk count items totalErrors).
Proof.
  intros H. rewrite !processWith_In.
  assert (Hs : forall k, keySeen eqb truthy k items' = keySeen eqb truthy k items).
  { intros k. unfold keySeen. symmetry. now apply existsb_perm. }
  assert (Hc : forall k, keyCount eqb truthy k items' = keyCount eqb truthy k items).
  { intros k. unfold keyCount. symmetry.
    apply Zsum_perm, Permutation_map, filter_perm, H. }
  split; intros (k & c & H1 & H2 & H3); exists k, c.
  - rewrite <- Hs, <- Hc. auto.
  - rewrite Hs, Hc. auto.
Qed.
End BreakdownOrder.

Lemma accumulate_perm (evs evs' : list ServiceMetric) (g0 : GroupDoc) :
  Permutation evs evs' ->
  let g := fold_left accumulate evs g0 in
  let g' := fold_left accumulate evs' g0 in
  g_id g' = g_id g /\
  g_totalRequests g' = g_totalRequests g /\
  g_errorCount g' = g_errorCount g /\
  Permutation (g_responseTimes g) (g_responseTimes g') /\
  Permutation (g_cpuUsages g) (g_cpuUsages g') /\
  Permutation (g_memoryUsages g) (g_memoryUsages g') /\
  Permutation (g_errorsByStatusCode g) (g_errorsByStatusCode g') /\
  Permutation (g_errorsBySeverity g) (g_errorsBySeverity g').
Proof.
  intros H g g'.
  destruct (accumulate_fold evs g0) as (A1 & A2 & A3 & A4 & A5 & A6 & A7 & A8).
  destruct (accumulate_fold evs' g0) as (B1 & B2 & B3 & B4 & B5 & B6 & B7 & B8).
  fold g in A1, A2, A3, A4, A5, A6, A7, A8.
  fold g' in B1, B2, B3, B4, B5, B6, B7, B8.
  rewrite A1, A2, A3, A4, A5, A6, A7, A8, B1, B2, B3, B4, B5, B6, B7, B8.
  repeat apply conj.
  - reflexivity.
  - f_equal. symmetry. now apply Zsum_perm, Permutation_map.
  - f_equal. symmetry. now apply Zsum_perm, Permutation_map, filter_perm.
  - now apply Permutation_app_head, Permutation_map.
  - now apply Permutation_app_head, Permutation_map.
  - now apply Permutation_app_head, Permutation_map.
  - now apply Permutation_app_head, Permutation_map.
  - now apply Permutation_app_head, Permutation_map.
Qed.

Lemma accumulate_doubles (evs : list ServiceMetric) (id : string) :
  let g := fold_left accumulate evs (emptyGroup id) in
  doubles (g_responseTimes g) /\ doubles (g_cpuUsages g) /\ doubles (g_memoryUsages g).
Proof.
  intros g.
  destruct (accumulate_fold evs (emptyGroup id)) as (_ & _ & _ & A4 & A5 & A6 & _).
  fold g in A4, A5, A6. rewrite A4, A5, A6. simpl.
  assert (D : forall x : option Q, onGrid (ifNull (option_map double x) 0)
                                   /\ Qred (ifNull (option_map double x) 0)
                                      = ifNull (option_map double x) 0).
  { intros [x|]; simpl.
    - split; [apply nearest_grid|apply nearest_canonical].
    - split; [apply onGrid_0|reflexivity]. }
  repeat split; apply Forall_forall; intros x Hx; apply in_map_iff in Hx;
    destruct Hx as (m & <- & _).
  - split; [apply nearest_grid|apply nearest_canonical].
  - apply D.
  - apply D.
Qed.

Lemma projectStage_perm (parseDate : string -> option Z) (query : AggregationQuery)
    (g g' : GroupDoc) (p : ProjectDoc) :
  g_id g' = g_id g -> g_totalRequests g' = g_totalRequests g ->
  g_errorCount g' = g_errorCount g ->
  Permutation (g_responseTimes g) (g_responseTimes g') ->
  Permutation (g_cpuUsages g) (g_cpuUsages g') ->
  Permutation (g_memoryUsages g) (g_memoryUsages g') ->
  Permutation (g_errorsByStatusCode g) (g_errorsByStatusCode g') ->
  Permutation (g_errorsBySeverity g) (g_errorsBySeverity g') ->
  doubles (g_responseTimes g) /\ doubles (g_cpuUsages g) /\ doubles (g_memoryUsages g) ->
  projectStage parseDate query g = Some p ->
  exists p', projectStage parseDate query g' = Some p' /\ PermutedDocs p p'.
Proof.
  intros E1 E2 E3 P1 P2 P3 P4 P5 D. unfold projectStage. rewrite E1, E2, E3.
  destruct (mongoDivide _ (ofZ (g_totalRequests g))) as [ratio|]; simpl;
    [|discriminate].
  destruct (mongoDivide _ (orOne (timeRangeSeconds _ _))) as [rps|]; simpl;
    [|discriminate].
  destruct (mongoDivide _ (orOne (timeRangeMinutes _ _))) as [rpm|]; simpl;
    [|discriminate].
  intros H. injection H as <-. eexists. split; [reflexivity|].
  constructor; simpl; auto using filter_perm.
Qed.

Lemma processResult_perm (p p' : ProjectDoc) (i i' : nat) :
  PermutedDocs p p' ->
  SameStatistics (processResult (addFieldsStage p) i) (processResult (addFieldsStage p') i').
Proof.
  intros [N T E R S M Prt Pc Pm Psc Psv (Drt & Dc & Dm)].
  pose proof (Permutation_length Prt) as Hlen.
  destruct (sorted_perm _ _ Prt Drt) as [S1 S2].
  constructor; unfold processResult, addFieldsStage;
    cbn [sa_servicename rate error duration saturation doc
         Error.errorRate Error.errorCount Error.totalRequests Error.errorsByType
         Error.errorsBySeverity r_averageResponseTime r_medianResponseTime
         r_minResponseTime r_maxResponseTime r_averageCpuUsage r_averageMemoryUsage
         r_maxCpuUsage r_maxMemoryUsage].
  - exact N.
  - now rewrite S, M, T.
  - now rewrite R.
  - exact E.
  - exact T.
  - intros e. rewrite !processErrorsByStatusCode_shape, E.
    apply processWith_perm; [apply Z.eqb_eq|exact Psc].
  - intros e. rewrite !processErrorsBySeverity_shape, E.
    apply processWith_perm; [apply String.eqb_eq|exact Psv].
  - rewrite S1, S2, <- Hlen, <- (mongoAvg_perm _ _ Prt), <- (mongoMin_perm _ _ Prt Drt),
      <- (mongoMax_perm _ _ Prt Drt). reflexivity.
  - rewrite <- (mongoAvg_perm _ _ Pc), <- (mongoAvg_perm _ _ Pm),
      <- (mongoMax_perm _ _ Pc Dc), <- (mongoMax_perm _ _ Pm Dm). reflexivity.
Qed.

Lemma summaryOf_perm (parseDate : string -> option Z) (query : AggregationQuery)
    (id : string) (evs evs' : list ServiceMetric) (s : ServiceAggregation) :
  Permutation evs evs' ->
  summaryOf parseDate query id evs = Some s ->
  exists s', summaryOf parseDate query id evs' = Some s' /\ SameStatistics s s'.
Proof.
  intros H. unfold summaryOf.
  destruct (projectStage parseDate query (fold_left accumulate evs (emptyGroup id)))
    as [p|] eqn:Hp; simpl; [|discriminate].
  intros Hs. injection Hs as <-.
  destruct (accumulate_perm evs evs' (emptyGroup id) H)
    as (E1 & E2 & E3 & P1 & P2 & P3 & P4 & P5).
  destruct (projectStage_perm parseDate query _ _ p E1 E2 E3 P1 P2 P3 P4 P5
              (accumulate_doubles evs id) Hp)
    as (p' & Hp' & Hperm).
  rewrite Hp'. simpl. eexists. split; [reflexivity|].
  now apply processResult_perm.
Qed.

Lemma mapM_In_Some {A B} (f : A -> option B) (l : list A) (ys : list B) (x : A) :
  mapM f l = Some ys -> In x l -> exists y, f x = Some y.
Proof.
  intros H. apply mapM_Forall2 in H.
  induction H as [|a y l ys Hay _ IH]; simpl; [intros []|].
  intros [<-|Hin]; [now exists y|auto].
Qed.

(** The matching documents of a permuted collection are permuted, and the
    pipeline is accepted for it as well. *)
Lemma aggregate_total_perm (parseDate : string -> option Z) (now : Z)
    (query query' : AggregationQuery) (collection collection' : list ServiceMetric)
    (out : list ServiceAggregation) :
  Permutation collection collection' ->
  (forall m, matchStage parseDate now query' m = matchStage parseDate now query m) ->
  (forall g, projectStage parseDate query' g = projectStage parseDate query g) ->
  aggregateServiceMetrics parseDate now query collection = Some out ->
  exists out', aggregateServiceMetrics parseDate now query' collection' = Some out'.
Proof.
  intros Hperm Hmatch Hproj Hout.
  destruct (aggregate_shape _ _ _ _ _ Hout) as (ps & Hps & _).
  set (ms := matched parseDate now query collection) in *.
  unfold aggregateServiceMetrics, runPipeline.
  fold (matched parseDate now query' collection').
  set (ms' := matched parseDate now query' collection').
  assert (Hms : Permutation ms ms').
  { unfold ms, ms', matched. rewrite (filter_ext _ _ Hmatch). now apply filter_perm. }
  destruct (mapM_total (projectStage parseDate query') (groupStage ms')) as [ps' Hps'].
  - apply Forall_forall. intros g' Hg'.
    destruct (inv_group _ _ (groupStage_inv ms') g' Hg') as [Hgo Hne].
    rewrite Hproj. apply projectStage_total. rewrite Hgo.
    destruct (groupOf_fields (g_id g') ms') as (_ & -> & _).
    assert (Hev : Permutation (eventsOf (g_id g') ms) (eventsOf (g_id g') ms')).
    { unfold eventsOf. now apply filter_perm. }
    rewrite <- (Zsum_perm _ _ (Permutation_map requestCount Hev)).
    assert (Hne0 : eventsOf (g_id g') ms <> []).
    { intros E. apply Hne. rewrite E in Hev. now apply Permutation_nil. }
    destruct (eventsOf (g_id g') ms) as [|m l] eqn:Em; [congruence|].
    assert (Hm : In m (eventsOf (g_id g') ms)) by (rewrite Em; now left).
    unfold eventsOf in Hm. apply filter_In in Hm. destruct Hm as [Hm Hid].
    apply String.eqb_eq in Hid.
    pose proof (inv_cover _ _ (groupStage_inv ms) m Hm) as Hcov.
    apply in_map_iff in Hcov. destruct Hcov as (g & Hgid & Hg).
    destruct (mapM_In_Some _ _ _ g Hps Hg) as [p Hp].
    apply projectStage_Some in Hp. destruct Hp as (Hnz & _).
    destruct (inv_group _ _ (groupStage_inv ms) g Hg) as [Hgo' _].
    rewrite Hgo' in Hnz.
    destruct (groupOf_fields (g_id g) ms) as (_ & Gt & _). rewrite Gt in Hnz.
    rewrite Hgid, Hid, Em in Hnz. exact Hnz.
  - rewrite Hps'. simpl. eexists. reflexivity.
Qed.

Lemma aggregate_names_cover (parseDate : string -> option Z) (now : Z)
    (query : AggregationQuery) (collection : list ServiceMetric)
    (out : list ServiceAggregation) :
  aggregateServiceMetrics parseDate now query collection = Some out ->
  limit query = None \/ limit query = Some 0 ->
  forall m, In m collection -> matchStage parseDate now query m = true ->
    In (servicename m) (map sa_servicename out).
Proof.
  intros Hout Hlim m Hm Hmatch.
  destruct (aggregate_shape _ _ _ _ _ Hout) as (ps & Hps & ->).
  rewrite (rankServices_unlimited _ _ _ Hlim).
  apply (Permutation_in _ (rankedAll_names _ _)).
  rewrite processed_names, (projected_names _ _ _ _ Hps).
  apply (inv_cover _ _ (groupStage_inv _)).
  unfold matched. apply filter_In. auto.
Qed.


(** The statistics do not depend on the order in which the store scans
    the collection. *)
Lemma scan_order_statistics :
  forall (parseDate : string -> option Z) (now : Z) (query : AggregationQuery)
         (collection collection' : list ServiceMetric) (out : list ServiceAggregation),
    Permutation collection collection' ->
    aggregateServiceMetrics parseDate now query collection = Some out ->
    exists full',
      aggregateServiceMetrics parseDate now (withoutLimit query) collection' = Some full' /\
      forall r, In r out -> exists r', In r' full' /\ SameStatistics r r'.
Proof.
  intros parseDate now query collection collection' out Hperm Hout.
  destruct (aggregate_total_perm parseDate now query (withoutLimit query)
              collection collection' out Hperm) as [full' Hfull'];
    [reflexivity|reflexivity|exact Hout|].
  exists full'. split; [exact Hfull'|]. intros r Hin.
  destruct (summaryOf_record _ _ _ _ _ _ Hout Hin) as (s & j & Hs & Hr).
  set (name := sa_servicename r) in *.
  assert (Hev : Permutation
                  (matchingEventsOf parseDate now query collection name)
                  (matchingEventsOf parseDate now (withoutLimit query) collection' name)).
  { unfold matchingEventsOf. now apply filter_perm. }
  destruct (summaryOf_perm _ _ _ _ _ _ Hev Hs) as (s' & Hs' & Hsame).
  (* the service is emitted for the reordered collection *)
  destruct (aggregate_origin _ _ _ _ _ _ Hout Hin) as (_ & _ & _ & _ & Hne & _).
  apply eventsOf_matched in Hne. destruct Hne as (m & Hm & Hmatch & Hname).
  assert (Hm' : In m collection') by now apply Permutation_in with collection.
  pose proof (aggregate_names_cover _ _ _ _ _ Hfull' (or_introl eq_refl) m Hm' Hmatch)
    as Hcov.
  apply in_map_iff in Hcov. destruct Hcov as (r' & Hr'name & Hr').
  exists r'. split; [exact Hr'|].
  destruct (summaryOf_record _ _ _ _ _ _ Hfull' Hr') as (s'' & j' & Hs'' & Hr'eq).
  rewrite Hr'name, Hname in Hs''. fold name in Hs''.
  change (summaryOf parseDate (withoutLimit query)) with (summaryOf parseDate query) in Hs''.
  rewrite Hs' in Hs''. injection Hs'' as <-.
  rewrite Hr, Hr'eq. destruct Hsame. constructor; assumption.
Qed.











(** Each breakdown array lists a key once, in descending order of count. *)
Section BreakdownShape.
Context {K Entry : Type} (eqb : K -> K -> bool).
Hypothesis eqb_eq : forall a b, eqb a b = true <-> a = b.
Variable truthy : K -> bool.
Variable mk : K -> Z -> Double -> Entry.
Variables (key : Entry -> K) (count : Entry -> Z).
Hypothesis key_mk : forall k c p, key (mk k c p) = k.

End BreakdownShape.






(** * Worked examples, witnesses and counterexamples *)

Example specExample_output :
  aggregateServiceMetrics isoDate 0 anyQuery specExample = Some [specExampleA].
Proof. vm_compute. reflexivity. Qed.

Example fractionalExample_output :
  aggregateServiceMetrics isoDate 0 anyQuery fractionalExample = Some [fractionalExampleB].
Proof. vm_compute. reflexivity. Qed.

Example twoServices_output :
  aggregateServiceMetrics isoDate 0 anyQuery twoServices = Some twoServicesRanked.
Proof. vm_compute. reflexivity. Qed.

Lemma named_bounds_parse (parseDate : string -> option Z) (tr : TimeRangeOption)
    (query : AggregationQuery) :
  timeRange query = Some tr -> tr <> tr_custom -> boundsParse parseDate query.
Proof.
  intros E N [H|H]; rewrite E in H; [injection H as ->; now destruct N|discriminate].
Defined.

Lemma firstDay_bounds_parse : boundsParse isoDate firstDay.
Proof.
  intros _ s e [= <-] [= <-] _ _. split; discriminate.
Defined.

(** C1 (amended) two hours after the epoch, for the last hour, services
    [A] and [C] and severity [high]: of the five events, the one of the
    hour and the one at its first instant count, 16 requests with 3
    errors. *)
Lemma totals_sum_over_matching_events_witness :
  exists r,
    aggregateServiceMetrics isoDate 7200000 lastHourOfA mixedEvents = Some [r] /\
    sa_servicename r = "A"%string /\
    Rate.totalRequests (rate r) = 16 /\ Error.errorCount (error r) = 3.
Proof.
  eexists. split; [vm_compute; reflexivity|]. split; [reflexivity|].
  match goal with
  | |- context [rate ?r] =>
      destruct (totals_sum_over_matching_events isoDate 7200000 lastHourOfA mixedEvents
                  [r] r) as [(Ht & _ & He) _]
  end.
  - apply (named_bounds_parse isoDate tr_1hour); [reflexivity|discriminate].
  - vm_compute. reflexivity.
  - left. reflexivity.
  - split; [exact Ht|exact He].
Defined.

(** C1 fails at the last instant of the window: the filter is
    [$gte start, $lte end], so an event dated at the end of the first day
    is counted, although the window [[start, end)] does not hold it. *)
Lemma event_at_window_end_is_counted :
  exists r,
    aggregateServiceMetrics isoDate 0 firstDay noonAndMidnight = Some [r] /\
    specWindow isoDate 0 firstDay = Some (0, 86400000) /\
    Rate.totalRequests (rate r) = 2 /\
    Zsum (map requestCount (filter (selects false isoDate 0 firstDay) noonAndMidnight)) = 1.
Proof.
  eexists. split; [vm_compute; reflexivity|]. split; [reflexivity|].
  split; reflexivity.
Qed.

(** C2 (amended) on response times 10, 20, 30: the median is 20 and the
    p95 is 30. *)
Lemma percentiles_index_sorted_samples_witness :
  Duration.medianResponseTime (duration specExampleA) = round2 (Finite 20) /\
  Duration.p95ResponseTime (duration specExampleA) = round2 (Finite 30) /\
  round2 (Finite 20) = Finite 20 /\ round2 (Finite 30) = Finite 30.
Proof.
  destruct (percentiles_index_sorted_samples isoDate 0 anyQuery specExample
              [specExampleA] specExampleA [10; 20; 30]%Q)
    as (_ & (m & Hm & Hmed & _) & (p & Hp & H95 & _) & _).
  - vm_compute. reflexivity.
  - left. reflexivity.
  - vm_compute. apply Permutation_refl.
  - repeat constructor; unfold Qle; simpl; lia.
  - vm_compute in Hm, Hp. injection Hm as <-. injection Hp as <-.
    split; [exact Hmed|]. split; [exact H95|]. split; vm_compute; reflexivity.
Defined.

(** C2 fails for a latency next to a half hundredth: the double below
    0.015 is a value that rounds to 0.01, and [Math.round(x * 100) / 100]
    makes 0.02 of it, the product [x * 100] being rounded to 1.5 first.
    Likewise the latency written 1.005 is reported as 1.00. *)
Lemma median_next_to_half_hundredth :
  exists r r',
    aggregateServiceMetrics isoDate 0 anyQuery [metric "A" halfwayLatency 200] = Some [r] /\
    double halfwayLatency = halfwayLatency /\
    (halfwayLatency < 15 # 1000)%Q /\
    (decimalRound2 halfwayLatency == 1 # 100)%Q /\
    Duration.medianResponseTime (duration r) = rnd (2 # 100) /\
    aggregateServiceMetrics isoDate 0 anyQuery [metric "A" (1005 # 1000) 200] = Some [r'] /\
    (decimalRound2 (1005 # 1000) == 101 # 100)%Q /\
    Duration.medianResponseTime (duration r') = Finite 1.
Proof.
  do 2 eexists. split; [vm_compute; reflexivity|].
  split; [vm_compute; reflexivity|]. split; [vm_compute; reflexivity|].
  split; [vm_compute; reflexivity|]. split; [vm_compute; reflexivity|].
  split; [vm_compute; reflexivity|]. split; vm_compute; reflexivity.
Qed.

(** C3 on two services ranked by the default criterion. *)
Lemma ranking_descending_with_dense_ranks_witness :
  StronglySorted
    (fun a b => dle (criterionKey (rankBy anyQuery) b) (criterionKey (rankBy anyQuery) a))
    twoServicesRanked /\
  (forall i r, nth_error twoServicesRanked i = Some r -> rank r = Z.of_nat i + 1).
Proof.
  apply (ranking_descending_with_dense_ranks isoDate 0 anyQuery twoServices).
  vm_compute. reflexivity.
Defined.

(** C4 (amended) on the scenario of the specification. *)
Lemma errorRate_formula_and_range_witness :
  exists out,
    aggregateServiceMetrics isoDate 0 anyQuery specExample = Some out /\
    forall r, In r out ->
      let exact := (100 * inject_Z (Error.errorCount (error r))
                    / inject_Z (Error.totalRequests (error r)))%Q in
      0 < Error.totalRequests (error r) /\
      0 <= Error.errorCount (error r) <= Error.totalRequests (error r) /\
      hundredthsNear (pow2 (-36)) exact (Error.errorRate (error r)) /\
      (exists p, Error.errorRate (error r) = Finite p /\
                 Qabs (p - exact) <= (1 # 200) + pow2 (-42) /\ 0 <= p <= 100)%Q.
Proof.
  apply (errorRate_formula_and_range isoDate 0 anyQuery specExample).
  repeat constructor; simpl; lia.
Defined.

(** C4 fails for 23 errors in 160 requests: the rate is 14.375, which
    rounds to 14.38, and the code reports 14.37, the product
    [(23 / 160) * 100 * 100] being 1437.4999999999998 in doubles. *)
Lemma error_rate_of_23_in_160 :
  exists r,
    aggregateServiceMetrics isoDate 0 anyQuery errors23of160 = Some [r] /\
    Error.errorCount (error r) = 23 /\ Error.totalRequests (error r) = 160 /\
    Error.errorRate (error r) = rnd (1437 # 100) /\
    (decimalRound2 (100 * 23 / 160) == 1438 # 100)%Q.
Proof.
  eexists. split; [vm_compute; reflexivity|]. split; [reflexivity|].
  split; [reflexivity|]. split; vm_compute; reflexivity.
Qed.

(** C5 (amended) on four events: the two events of status 500 are merged,
    and status 404, with the larger count, comes first. *)
Lemma error_breakdowns_well_formed_witness :
  exists r,
    aggregateServiceMetrics isoDate 0 anyQuery breakdownExample = Some [r] /\
    map sc_statusCode (Error.errorsByType (error r)) = [404; 500] /\
    map sc_count (Error.errorsByType (error r)) = [5; 3] /\
    map sc_percentage (Error.errorsByType (error r)) = [rnd (625 # 10); rnd (375 # 10)] /\
    Breakdown Z.eqb sc_statusCode sc_count sc_percentage statusCode
      (filter (fun m => 400 <=? statusCode m) breakdownExample) 8
      (Error.errorsByType (error r)).
Proof.
  eexists. split; [vm_compute; reflexivity|].
  split; [reflexivity|]. split; [reflexivity|]. split; [vm_compute; reflexivity|].
  match goal with
  | |- context [error ?r] =>
      destruct (error_breakdowns_well_formed isoDate 0 anyQuery breakdownExample [r] r)
        as (_ & H & _)
  end.
  - repeat constructor; simpl; lia.
  - vm_compute. reflexivity.
  - left. reflexivity.
  - exact H.
Defined.

(** C5 fails for 139 errors of status 500 among 800: their share is
    17.375 per cent, which rounds to 17.38, and the code reports 17.37,
    the product [(139 / 800) * 10000] being 1737.4999999999998 in
    doubles. *)
Lemma share_of_139_in_800 :
  exists r e,
    aggregateServiceMetrics isoDate 0 anyQuery errors139of800 = Some [r] /\
    Error.errorCount (error r) = 800 /\
    In e (Error.errorsByType (error r)) /\
    sc_statusCode e = 500 /\ sc_count e = 139 /\
    sc_percentage e = rnd (1737 # 100) /\
    (decimalRound2 (100 * 139 / 800) == 1738 # 100)%Q.
Proof.
  do 2 eexists. split; [vm_compute; reflexivity|]. split; [reflexivity|].
  split; [right; left; reflexivity|]. split; [reflexivity|]. split; [reflexivity|].
  split; vm_compute; reflexivity.
Qed.

(** C6 fails for [limit = 0]: the guard [limit ? ... : ...] takes 0 for no
    limit, and both services are returned. *)
Lemma limit_zero_returns_everything :
  limit (withLimit 0) = Some 0 /\
  aggregateServiceMetrics isoDate 0 (withLimit 0) twoServices = Some twoServicesRanked /\
  0 < Z.of_nat (length twoServicesRanked).
Proof.
  split; [reflexivity|]. split; [vm_compute; reflexivity|reflexivity].
Qed.

(** C6 (amended) with [limit = 1] and with [limit = 0] on two services. *)
Lemma positive_limit_keeps_top_k_witness :
  (aggregateServiceMetrics isoDate 0 (withLimit 1) twoServices =
     option_map (firstn (Z.to_nat 1))
       (aggregateServiceMetrics isoDate 0 (withoutLimit (withLimit 1)) twoServices) /\
   (forall out, aggregateServiceMetrics isoDate 0 (withLimit 1) twoServices = Some out ->
      Z.of_nat (length out) <= 1)) /\
  aggregateServiceMetrics isoDate 0 (withLimit 0) twoServices =
    aggregateServiceMetrics isoDate 0 (withoutLimit (withLimit 0)) twoServices.
Proof.
  split.
  - apply (proj1 (positive_limit_keeps_top_k isoDate 0 (withLimit 1) twoServices) 1).
    + reflexivity.
    + reflexivity.
  - apply (proj2 (positive_limit_keeps_top_k isoDate 0 (withLimit 0) twoServices)).
    reflexivity.
Defined.

(** C7 fails for explicit bounds in the wrong order: both divisors stay
    negative, [x || 1] replacing 0 and [NaN] only.  With equal bounds both
    divisors are 1: the per-second rate is taken over one second, the
    per-minute rate over one minute. *)
Lemma backwards_bounds_negative_divisor :
  secondsDivisor isoDate backwardsQuery = Finite (-86400) /\
  jsLt (secondsDivisor isoDate backwardsQuery) (Finite 0) = true /\
  jsLt (minutesDivisor isoDate backwardsQuery) (Finite 0) = true /\
  secondsDivisor isoDate instantQuery = Finite 1 /\
  minutesDivisor isoDate instantQuery = Finite 1.
Proof.
  split; [vm_compute; reflexivity|]. split; [vm_compute; reflexivity|].
  split; [vm_compute; reflexivity|]. split; vm_compute; reflexivity.
Qed.

(** C7 (amended) on 603 requests in the last ten minutes: the divisors
    are 600 seconds and 10 minutes, and the rate of 1.005 requests per
    second is reported as 1. *)
Lemma rate_divisors_resolved_witness :
  exists r,
    aggregateServiceMetrics isoDate 0 (namedQuery tr_10minutes) requests603 = Some [r] /\
    secondsDivisor isoDate (namedQuery tr_10minutes) = Finite 600 /\
    Rate.requestsPerSecond (rate r) = Finite 1 /\
    hundredthsNear (inject_Z 603 / inject_Z 600 * pow2 (-44)) (inject_Z 603 / inject_Z 600)
      (Rate.requestsPerSecond (rate r)).
Proof.
  eexists. split; [vm_compute; reflexivity|].
  destruct (rate_divisors_resolved isoDate (namedQuery tr_10minutes))
    as (_ & Hnamed & _ & _ & _ & Hpinned).
  split; [apply (Hnamed tr_10minutes 600); reflexivity|].
  split; [vm_compute; reflexivity|].
  match goal with
  | |- context [rate ?r] =>
      apply (Hpinned tr_10minutes 600 0 requests603 [r] r)
  end.
  - reflexivity.
  - reflexivity.
  - vm_compute. reflexivity.
  - left. reflexivity.
  - simpl. lia.
Defined.

(** C8 fails for a latency with three decimals: the minimum is reported
    as 10.004, the median and the average as 10. *)
Lemma rounded_median_below_minimum :
  aggregateServiceMetrics isoDate 0 anyQuery fractionalExample = Some [fractionalExampleB] /\
  Duration.medianResponseTime (duration fractionalExampleB) = Finite 10 /\
  jsLt (Duration.medianResponseTime (duration fractionalExampleB))
       (Duration.minResponseTime (duration fractionalExampleB)) = true /\
  jsLt (Duration.averageResponseTime (duration fractionalExampleB))
       (Duration.minResponseTime (duration fractionalExampleB)) = true.
Proof.
  split; [vm_compute; reflexivity|]. split; [reflexivity|].
  split; vm_compute; reflexivity.
Qed.

(** C8 (amended) on the scenario of the specification, whose extremes 10
    and 30 are two-decimal literals. *)
Lemma duration_order_up_to_rounding_witness :
  dle (Duration.minResponseTime (duration specExampleA))
      (Duration.medianResponseTime (duration specExampleA)) /\
  dle (Duration.medianResponseTime (duration specExampleA))
      (Duration.maxResponseTime (duration specExampleA)) /\
  dle (Duration.minResponseTime (duration specExampleA))
      (Duration.averageResponseTime (duration specExampleA)) /\
  dle (Duration.averageResponseTime (duration specExampleA))
      (Duration.maxResponseTime (duration specExampleA)).
Proof.
  destruct (duration_order_up_to_rounding isoDate 0 anyQuery specExample
              [specExampleA] specExampleA)
    as (lo & hi & m & Hlo & Hhi & _ & _ & _ & _ & _ & _ & _ & _ & _ & _ & _ & Hlit).
  - vm_compute. reflexivity.
  - left. reflexivity.
  - injection Hlo as <-. injection Hhi as <-.
    apply (Hlit 1000 3000).
    + simpl. lia.
    + simpl. lia.
    + vm_compute. reflexivity.
    + vm_compute. reflexivity.
    + simpl. lia.
Defined.



(** C10 on three response times: both indices are 2. *)
Lemma percentile_indices_in_bounds_witness :
  (p95IndexOf 3 <= 3 - 1)%nat /\ (p99IndexOf 3 <= 3 - 1)%nat /\
  (exists v, nth_error (jsSort (fun a b => fsub (Finite a) (Finite b)) [10; 20; 30]%Q)
               (p95IndexOf 3) = Some v) /\
  (exists v, nth_error (jsSort (fun a b => fsub (Finite a) (Finite b)) [10; 20; 30]%Q)
               (p99IndexOf 3) = Some v).
Proof.
  destruct (percentile_indices_in_bounds [10; 20; 30]%Q) as (H1 & H2 & H3 & H4).
  - simpl. lia.
  - rewrite jsSort_length in H1, H2, H3, H4. simpl length in H1, H2, H3, H4.
    split; [exact H1|]. split; [exact H2|]. split; [exact H3|exact H4].
Defined.


(** * Further properties *)

(** ** Which services are emitted *)

(** X1.  Every emitted service has at least one matching document, no
    service is emitted twice, and when no limit cuts the list (absent or
    0) every service with a matching document is emitted. *)
Theorem emitted_services_are_the_matching_ones :
  forall (parseDate : string -> option Z) (now : Z) (query : AggregationQuery)
         (collection : list ServiceMetric) (out : list ServiceAggregation),
    aggregateServiceMetrics parseDate now query collection = Some out ->
    (forall r, In r out ->
       exists m, In m collection /\ matchStage parseDate now query m = true /\
                 servicename m = sa_servicename r) /\
    NoDup (map sa_servicename out) /\
    (limit query = None \/ limit query = Some 0 ->
     forall m, In m collection -> matchStage parseDate now query m = true ->
       In (servicename m) (map sa_servicename out)).
Proof.
  intros parseDate now query collection out Hout.
  split; [|split].
  - intros r Hin.
    destruct (aggregate_origin _ _ _ _ _ _ Hout Hin) as (p & i & j & _ & Hne & _).
    now apply eventsOf_matched in Hne.
  - destruct (aggregate_shape _ _ _ _ _ Hout) as (ps & Hps & ->).
    destruct (rankServices_prefix (mapi processResult (map addFieldsStage ps))
                (rankByOrDefault query) (limit query)) as [n ->].
    rewrite <- firstn_map. apply NoDup_firstn.
    apply (Permutation_NoDup (rankedAll_names _ _)).
    rewrite processed_names, (projected_names _ _ _ _ Hps).
    apply (inv_nodup _ _ (groupStage_inv _)).
  - intros Hlim m Hm Hmatch.
    destruct (aggregate_shape _ _ _ _ _ Hout) as (ps & Hps & ->).
    rewrite (rankServices_unlimited _ _ _ Hlim).
    apply (Permutation_in _ (rankedAll_names _ _)).
    rewrite processed_names, (projected_names _ _ _ _ Hps).
    apply (inv_cover _ _ (groupStage_inv _)).
    unfold matched. apply filter_In. auto.
Qed.

(** ** The allow-lists *)

Lemma inList_In (s : string) (l : list string) : inList s l = true -> In s l.
Proof.
  unfold inList. rewrite existsb_exists. intros (x & Hx & E).
  apply String.eqb_eq in E. now subst.
Qed.

Lemma matchStage_empty_servicenames (parseDate : string -> option Z) (now : Z)
    (query : AggregationQuery) (m : ServiceMetric) :
  servicenames query = Some [] ->
  matchStage parseDate now (withServicenames None query) m = matchStage parseDate now query m.
Proof.
  intros H. unfold matchStage, buildServiceFilter, matchesService. simpl.
  rewrite H. reflexivity.
Qed.

Lemma matchStage_empty_severities (parseDate : string -> option Z) (now : Z)
    (query : AggregationQuery) (m : ServiceMetric) :
  severities query = Some [] ->
  matchStage parseDate now (withSeverities None query) m = matchStage parseDate now query m.
Proof.
  intros H. unfold matchStage, buildServiceFilter, matchesService. simpl.
  rewrite H. reflexivity.
Qed.

(** X2.  With a non-empty [servicenames] list every emitted service is one
    of the list, and counts only documents whose severity is in a non-empty
    [severities] list; an empty list of either kind filters nothing: the
    result is that of the query without the list. *)
Theorem allow_lists_filter_unless_empty :
  forall (parseDate : string -> option Z) (now : Z) (query : AggregationQuery)
         (collection : list ServiceMetric),
    (forall l out r,
       servicenames query = Some l -> l <> [] ->
       aggregateServiceMetrics parseDate now query collection = Some out ->
       In r out -> In (sa_servicename r) l) /\
    (forall l m,
       severities query = Some l -> l <> [] ->
       matchStage parseDate now query m = true ->
       In (severityString (severity m)) l) /\
    (servicenames query = Some [] ->
     aggregateServiceMetrics parseDate now (withServicenames None query) collection =
     aggregateServiceMetrics parseDate now query collection) /\
    (severities query = Some [] ->
     aggregateServiceMetrics parseDate now (withSeverities None query) collection =
     aggregateServiceMetrics parseDate now query collection).
Proof.
  intros parseDate now query collection. repeat apply conj.
  - intros l out r Hl Hne Hout Hin.
    destruct (aggregate_origin _ _ _ _ _ _ Hout Hin) as (p & i & j & _ & Hev & _).
    apply eventsOf_matched in Hev. destruct Hev as (m & _ & Hm & <-).
    unfold matchStage, buildServiceFilter, matchesService in Hm. simpl in Hm.
    rewrite Hl in Hm. destruct l as [|x l]; [congruence|]. simpl in Hm.
    apply andb_prop in Hm. destruct Hm as [_ Hm].
    apply andb_prop in Hm. destruct Hm as [Hm _].
    now apply inList_In.
  - intros l m Hl Hne Hm.
    unfold matchStage, buildServiceFilter, matchesService in Hm. simpl in Hm.
    rewrite Hl in Hm. destruct l as [|x l]; [congruence|]. simpl in Hm.
    apply andb_prop in Hm. destruct Hm as [_ Hm].
    apply andb_prop in Hm. destruct Hm as [_ Hm].
    now apply inList_In.
  - intros H. unfold aggregateServiceMetrics, runPipeline.
    rewrite (filter_ext _ _ (fun m => matchStage_empty_servicenames parseDate now query m H)).
    reflexivity.
  - intros H. unfold aggregateServiceMetrics, runPipeline.
    rewrite (filter_ext _ _ (fun m => matchStage_empty_severities parseDate now query m H)).
    reflexivity.
Qed.

(** ** Saturation statistics *)

Lemma saturation_fields (parseDate : string -> option Z) (now : Z)
    (query : AggregationQuery) (collection : list ServiceMetric)
    (out : list ServiceAggregation) (r : ServiceAggregation) :
  aggregateServiceMetrics parseDate now query collection = Some out ->
  In r out ->
  let cpus := cpuSamplesOf parseDate now query collection (sa_servicename r) in
  let mems := memorySamplesOf parseDate now query collection (sa_servicename r) in
  cpus <> [] /\ mems <> [] /\
  saturation r =
    {| Saturation.averageCpuUsage := round2 (mongoAvg cpus);
       Saturation.averageMemoryUsage := round2 (mongoAvg mems);
       Saturation.maxCpuUsage := Finite (mongoMax cpus);
       Saturation.maxMemoryUsage := Finite (mongoMax mems);
       Saturation.resourceUtilization :=
         calculateResourceUtilization (mongoAvg cpus) (mongoAvg mems) |}.
Proof.
  intros Hout Hin cpus mems.
  destruct (aggregate_origin _ _ _ _ _ _ Hout Hin) as (p & i & j & Hp & Hne & Hr).
  apply projectStage_Some in Hp.
  destruct Hp as (_ & _ & _ & _ & _ & _ & _ & _ & Hc & Hm & _).
  destruct (groupOf_fields (sa_servicename r) (matched parseDate now query collection))
    as (_ & _ & _ & _ & Gc & Gm & _).
  assert (Hevs : eventsOf (sa_servicename r) (matched parseDate now query collection)
                 = matchingEventsOf parseDate now query collection (sa_servicename r)).
  { unfold eventsOf, matched, matchingEventsOf. apply filter_filter_andb. }
  assert (Hcpus : p_cpuUsages p = cpus).
  { unfold cpus, cpuSamplesOf. now rewrite Hc, Gc, Hevs. }
  assert (Hmems : p_memoryUsages p = mems).
  { unfold mems, memorySamplesOf. now rewrite Hm, Gm, Hevs. }
  assert (Hnc : cpus <> []).
  { unfold cpus, cpuSamplesOf. rewrite <- Hevs.
    destruct (eventsOf _ _); [congruence|discriminate]. }
  assert (Hnm : mems <> []).
  { unfold mems, memorySamplesOf. rewrite <- Hevs.
    destruct (eventsOf _ _); [congruence|discriminate]. }
  assert (Hs : saturation r = saturation (processResult (addFieldsStage p) 0)).
  { rewrite Hr. reflexivity. }
  clearbody cpus mems.
  split; [exact Hnc|]. split; [exact Hnm|].
  rewrite Hs. unfold processResult, addFieldsStage.
  cbn [saturation doc r_averageCpuUsage r_averageMemoryUsage r_maxCpuUsage
       r_maxMemoryUsage].
  now rewrite Hcpus, Hmems.
Qed.

Lemma gauge_statistics (samples : list Q) :
  samples <> [] ->
  gaugeStatistics samples (round2 (mongoAvg samples)) (Finite (mongoMax samples)).
Proof.
  intros Hne. split; [reflexivity|]. exists (mongoMax samples).
  split; [reflexivity|]. split; [now apply mongoMax_In|].
  split; [intros x Hx; now apply mongoMax_ge|].
  split; [now apply mean_bounds|].
  intros M HM HM40 Hlen. split.
  - destruct (mongoAvg_near samples M Hne HM HM40 Hlen) as (d & E & Hd & _).
    exists d. auto.
  - apply (rounded_statistics samples M (mongoMax samples)); auto.
    now apply mongoMax_In.
Qed.

(** X3.  For every emitted service the CPU (and likewise the memory)
    figures come from one sample per matching document, an absent gauge
    counting as 0: the reported average is [$avg] of the samples rounded
    to two decimals, the reported maximum is the greatest sample, the
    exact mean is at most the maximum, [$avg] and the reported average are
    next to the exact mean as [gaugeStatistics] says, and the utilisation
    band is the one of the unrounded averages. *)
Theorem saturation_statistics :
  forall (parseDate : string -> option Z) (now : Z) (query : AggregationQuery)
         (collection : list ServiceMetric) (out : list ServiceAggregation)
         (r : ServiceAggregation),
    aggregateServiceMetrics parseDate now query collection = Some out ->
    In r out ->
    let cpus := cpuSamplesOf parseDate now query collection (sa_servicename r) in
    let mems := memorySamplesOf parseDate now query collection (sa_servicename r) in
    let s := saturation r in
    length cpus = length (matchingEventsOf parseDate now query collection (sa_servicename r)) /\
    length mems = length cpus /\ (1 <= length cpus)%nat /\
    gaugeStatistics cpus (Saturation.averageCpuUsage s) (Saturation.maxCpuUsage s) /\
    gaugeStatistics mems (Saturation.averageMemoryUsage s) (Saturation.maxMemoryUsage s) /\
    Saturation.resourceUtilization s =
      calculateResourceUtilization (mongoAvg cpus) (mongoAvg mems).
Proof.
  intros parseDate now query collection out r Hout Hin cpus mems s.
  destruct (saturation_fields _ _ _ _ _ _ Hout Hin) as (Hnc & Hnm & Hs).
  fold cpus mems in Hnc, Hnm, Hs. unfold s. rewrite Hs.
  cbn [Saturation.averageCpuUsage Saturation.averageMemoryUsage Saturation.maxCpuUsage
       Saturation.maxMemoryUsage Saturation.resourceUtilization].
  split; [apply length_map|]. split; [unfold mems, cpus, memorySamplesOf, cpuSamplesOf;
                                      now rewrite !length_map|].
  split; [destruct cpus; [congruence|simpl; lia]|].
  split; [now apply gauge_statistics|]. split; [now apply gauge_statistics|reflexivity].
Qed.

(** ** The utilisation band *)

Lemma jsLt_jsLe (x y : Double) : x <> NaN -> y <> NaN -> jsLt x y = negb (jsLe y x).
Proof. destruct x as [|[]|a], y as [|[]|b]; cbn; congruence. Qed.

Lemma mathMax_ge_iff (a b : Double) (c : Q) :
  a <> NaN -> b <> NaN ->
  (dle (Finite c) (mathMax a b) <-> dle (Finite c) a \/ dle (Finite c) b).
Proof.
  intros Ha Hb.
  assert (M : (mathMax a b = b /\ dle a b) \/ (mathMax a b = a /\ dle b a)).
  { assert (E : mathMax a b = if jsLt a b then b else a).
    { destruct a as [|[]|], b as [|[]|]; try congruence; reflexivity. }
    rewrite E, jsLt_jsLe by auto. destruct (jsLe b a) eqn:L; cbn.
    - right. auto.
    - left. split; [reflexivity|].
      destruct (dle_total a b Ha Hb) as [T|T]; [exact T|unfold dle in T; congruence]. }
  destruct M as [[-> D]|[-> D]]; split; auto; intros [H|H]; auto;
    eapply dle_trans; eauto.
Qed.

Lemma band_by_thresholds (cpu mem : Double) :
  let band := calculateResourceUtilization cpu mem in
  let u := mathMax cpu mem in
  (band = critical <-> dle (Finite 90) u) /\
  (severityRank band >= 2 <-> dle (Finite 70) u) /\
  (severityRank band >= 1 <-> dle (Finite 50) u).
Proof.
  unfold calculateResourceUtilization. cbv zeta.
  set (u := mathMax cpu mem).
  assert (H97 : dle (Finite 90) u -> dle (Finite 70) u).
  { apply dle_trans. now apply dle_Finite. }
  assert (H75 : dle (Finite 70) u -> dle (Finite 50) u).
  { apply dle_trans. now apply dle_Finite. }
  unfold dle in *.
  destruct (jsLe (Finite 90) u), (jsLe (Finite 70) u), (jsLe (Finite 50) u);
    cbn; repeat split; intros; try discriminate; try reflexivity; try lia;
    try (now (specialize (H97 eq_refl))); try (now (specialize (H75 eq_refl))).
Qed.

(** X4.  The utilisation band depends on the larger of the two usages
    only, by the thresholds 90, 70 and 50 (each inclusive from below); it
    does not change when the two usages are exchanged and never drops when
    both usages grow.  A usage that is [NaN] gives the band [low]. *)
Theorem utilisation_band_thresholds :
  forall cpu mem : Double,
    let band := calculateResourceUtilization cpu mem in
    (cpu = NaN \/ mem = NaN -> band = low) /\
    (cpu <> NaN -> mem <> NaN ->
     (band = critical <-> dle (Finite 90) cpu \/ dle (Finite 90) mem) /\
     (band = low <-> jsLt cpu (Finite 50) = true /\ jsLt mem (Finite 50) = true) /\
     (severityRank band >= 2 <-> dle (Finite 70) cpu \/ dle (Finite 70) mem) /\
     (severityRank band >= 1 <-> dle (Finite 50) cpu \/ dle (Finite 50) mem) /\
     calculateResourceUtilization mem cpu = band /\
     (forall cpu' mem', dle cpu cpu' -> dle mem mem' ->
        severityRank band <= severityRank (calculateResourceUtilization cpu' mem'))).
Proof.
  intros cpu mem band. split.
  - intros [-> | ->]; unfold band, calculateResourceUtilization;
      [reflexivity|destruct cpu; reflexivity].
  - intros Hc Hm.
    destruct (band_by_thresholds cpu mem) as (B9 & B7 & B5). fold band in B9, B7, B5.
    cbv zeta in B9, B7, B5.
    rewrite (mathMax_ge_iff cpu mem 90 Hc Hm) in B9.
    rewrite (mathMax_ge_iff cpu mem 70 Hc Hm) in B7.
    rewrite (mathMax_ge_iff cpu mem 50 Hc Hm) in B5.
    split; [exact B9|]. split; [|split; [exact B7|split; [exact B5|split]]].
    + rewrite !jsLt_jsLe by (auto; discriminate). rewrite !negb_true_iff.
      unfold dle in B5. split.
      * intros E. rewrite E in B5. cbn [severityRank] in B5.
        destruct (jsLe (Finite 50) cpu), (jsLe (Finite 50) mem); auto;
          exfalso; assert (0 >= 1) by (apply (proj2 B5); auto); lia.
      * intros [E1 E2]. rewrite E1, E2 in B5.
        destruct band; try reflexivity; exfalso;
          assert (K : false = true \/ false = true) by (apply (proj1 B5); cbn; lia);
          destruct K; discriminate.
    + destruct (band_by_thresholds mem cpu) as (B9' & B7' & B5').
      cbv zeta in B9', B7', B5'.
      rewrite (mathMax_ge_iff mem cpu 90 Hm Hc) in B9'.
      rewrite (mathMax_ge_iff mem cpu 70 Hm Hc) in B7'.
      rewrite (mathMax_ge_iff mem cpu 50 Hm Hc) in B5'.
      assert (E9 : calculateResourceUtilization mem cpu = critical <-> band = critical)
        by tauto.
      assert (E7 : severityRank (calculateResourceUtilization mem cpu) >= 2
                   <-> severityRank band >= 2) by tauto.
      assert (E5 : severityRank (calculateResourceUtilization mem cpu) >= 1
                   <-> severityRank band >= 1) by tauto.
      destruct (calculateResourceUtilization mem cpu), band; cbn in *;
        try reflexivity; exfalso; try lia;
        try (destruct E9 as [E9a E9b];
             first [specialize (E9a eq_refl)|specialize (E9b eq_refl)]; discriminate).
    + intros cpu' mem' H1 H2.
      destruct (dle_notNaN _ _ H1) as [_ Hc']. destruct (dle_notNaN _ _ H2) as [_ Hm'].
      destruct (band_by_thresholds cpu' mem') as (B9' & B7' & B5').
      cbv zeta in B9', B7', B5'.
      rewrite (mathMax_ge_iff cpu' mem' 90 Hc' Hm') in B9'.
      rewrite (mathMax_ge_iff cpu' mem' 70 Hc' Hm') in B7'.
      rewrite (mathMax_ge_iff cpu' mem' 50 Hc' Hm') in B5'.
      assert (T : forall c, dle (Finite c) cpu \/ dle (Finite c) mem ->
                            dle (Finite c) cpu' \/ dle (Finite c) mem').
      { intros c [H|H]; [left|right]; eapply dle_trans; eauto. }
      assert (I9 : band = critical -> calculateResourceUtilization cpu' mem' = critical).
      { intros E. apply B9', T, B9, E. }
      assert (I7 : severityRank band >= 2 ->
                   severityRank (calculateResourceUtilization cpu' mem') >= 2).
      { intros E. apply B7', T, B7, E. }
      assert (I5 : severityRank band >= 1 ->
                   severityRank (calculateResourceUtilization cpu' mem') >= 1).
      { intros E. apply B5', T, B5, E. }
      assert (R0 : 0 <= severityRank (calculateResourceUtilization cpu' mem')).
      { destruct (calculateResourceUtilization cpu' mem'); cbn; lia. }
      clear B9 B7 B5 B9' B7' B5'.
      destruct band; cbn [severityRank] in *; try lia.
      rewrite (I9 eq_refl). cbn. lia.
Qed.

(** ** Independence of the scan order *)

(** X5.  The statistics do not depend on the order in which the store
    scans the collection: when the aggregation succeeds on a collection,
    it succeeds on every reordering of it, and each emitted service is
    found in the unlimited result for the reordered collection with the
    same statistics (the breakdown arrays up to the order of their
    entries, the rank apart). *)
Theorem statistics_independent_of_scan_order :
  forall (parseDate : string -> option Z) (now : Z) (query : AggregationQuery)
         (collection collection' : list ServiceMetric) (out : list ServiceAggregation),
    Permutation collection collection' ->
    aggregateServiceMetrics parseDate now query collection = Some out ->
    exists full',
      aggregateServiceMetrics parseDate now (withoutLimit query) collection' = Some full' /\
      forall r, In r out -> exists r', In r' full' /\ SameStatistics r r'.
Proof. exact scan_order_statistics. Qed.


(** * Pagination *)

Section PaginationFacts.
Import Pagination.

Variable leadingDigit : Q -> Z.
Hypothesis leadingDigit_range : forall q, 1 <= leadingDigit q <= 9.

Ltac validated :=
  unfold validatePaginationParams;
  cbn [v_page v_limit v_sortBy v_sortOrder numberOr].

Lemma Qle_bool_Z (a b : Z) : Qle_bool (inject_Z a) (inject_Z b) = (a <=? b).
Proof. unfold Qle_bool. simpl. now rewrite !Z.mul_1_r. Qed.

Lemma Qeq_bool_Z (a b : Z) : Qeq_bool (inject_Z a) (inject_Z b) = (a =? b).
Proof. unfold Qeq_bool. simpl. now rewrite !Z.mul_1_r. Qed.

Lemma mathMax_int (a b : Z) :
  mathMax (Finite (inject_Z a)) (Finite (inject_Z b)) = Finite (inject_Z (Z.max a b)).
Proof.
  unfold mathMax, jsLt, jsLe. rewrite Qle_bool_Z.
  destruct (Z.leb_spec b a); cbn; do 2 f_equal; lia.
Qed.

Lemma mathMin_int (a b : Z) :
  mathMin (Finite (inject_Z a)) (Finite (inject_Z b)) = Finite (inject_Z (Z.min a b)).
Proof.
  unfold mathMin, jsLt, jsLe. rewrite Qle_bool_Z.
  destruct (Z.leb_spec a b); cbn; do 2 f_equal; lia.
Qed.

Lemma power21 : (10 ^ 21 == inject_Z (10 ^ 21))%Q.
Proof. reflexivity. Qed.

Lemma truncate_zero (q : Q) : (q == 0)%Q -> truncate q = 0.
Proof.
  intros E. unfold truncate.
  assert (L : Qle_bool 0 q = true) by (apply Qle_bool_iff; rewrite E; apply Qle_refl).
  rewrite L. now rewrite (Qfloor_comp _ _ E).
Qed.

Lemma truncate_bound (q : Q) :
  (Qabs q < 10 ^ 21)%Q -> - 10 ^ 21 < truncate q < 10 ^ 21.
Proof.
  intros H. rewrite power21 in H. unfold truncate.
  destruct (Qle_bool 0 q) eqn:E.
  - apply Qle_bool_iff in E. rewrite Qabs_pos in H by exact E.
    pose proof (Qfloor_le q) as F.
    assert (F0 : 0 <= Qfloor q) by (apply (Qfloor_resp_le 0 q); exact E).
    assert (K : (inject_Z (Qfloor q) < inject_Z (10 ^ 21))%Q)
      by (eapply Qle_lt_trans; eauto).
    rewrite <- Zlt_Qlt in K. lia.
  - assert (N : (q < 0)%Q).
    { destruct (Qlt_le_dec q 0) as [L|L]; [exact L|].
      apply Qle_bool_iff in L. congruence. }
    rewrite Qabs_neg in H by now apply Qlt_le_weak.
    pose proof (Qle_ceiling q) as C.
    assert (C0 : Qceiling q <= 0).
    { apply (Qceiling_resp_le q 0). now apply Qlt_le_weak. }
    assert (K : (inject_Z (- 10 ^ 21) < inject_Z (Qceiling q))%Q).
    { apply Qlt_le_trans with q; [|exact C].
      change (inject_Z (- 10 ^ 21)) with (- inject_Z (10 ^ 21))%Q. lra. }
    rewrite <- Zlt_Qlt in K. lia.
Qed.

Lemma positional_bound (q : Q) : positional q = true -> (Qabs q < 10 ^ 21)%Q.
Proof.
  unfold positional. intros H. apply andb_prop in H. destruct H as [_ H].
  apply negb_true_iff in H.
  destruct (Qlt_le_dec (Qabs q) (10 ^ 21)) as [L|L]; [exact L|].
  apply Qle_bool_iff in L. congruence.
Qed.

(** What [parseInt(x.toString())] returns. *)
Lemma parseInt_spec (x : Double) :
  match x with
  | Finite q =>
      exists z, parseIntOfToString leadingDigit x = Finite (inject_Z z) /\
                - 10 ^ 21 < z < 10 ^ 21 /\
                ((q == 0)%Q \/ positional q = true -> z = truncate q) /\
                (~ (q == 0)%Q -> positional q = false ->
                 z = if Qle_bool 0 q then leadingDigit q else - leadingDigit q)
  | _ => parseIntOfToString leadingDigit x = NaN
  end.
Proof.
  destruct x as [|s|q]; try reflexivity. cbn [parseIntOfToString].
  destruct (Qeq_bool q 0) eqn:E0.
  - apply Qeq_bool_iff in E0. exists 0. split; [reflexivity|]. split; [lia|].
    split; [intros _; symmetry; now apply truncate_zero|]. intros N. now destruct N.
  - assert (N0 : ~ (q == 0)%Q) by now apply Qeq_bool_neq.
    destruct (positional q) eqn:P.
    + exists (truncate q). split; [reflexivity|].
      split; [apply truncate_bound, positional_bound, P|].
      split; [reflexivity|discriminate].
    + pose proof (leadingDigit_range q) as D. eexists. split; [reflexivity|].
      split; [destruct (Qle_bool 0 q); lia|].
      split; [intros [K|K]; [contradiction|discriminate]|reflexivity].
Qed.

Lemma parseInt_int (p : Z) :
  1 <= p < 10 ^ 21 ->
  parseIntOfToString leadingDigit (Finite (inject_Z p)) = Finite (inject_Z p).
Proof.
  intros Hp. cbn [parseIntOfToString].
  change 0%Q with (inject_Z 0). rewrite Qeq_bool_Z.
  destruct (Z.eqb_spec p 0); [lia|].
  assert (P : positional (inject_Z p) = true).
  { unfold positional. apply andb_true_intro. split.
    - apply Qle_bool_iff. rewrite Qabs_pos.
      + apply Qle_trans with 1%Q; [vm_compute; discriminate|].
        change 1%Q with (inject_Z 1). rewrite <- Zle_Qle. lia.
      + change 0%Q with (inject_Z 0). rewrite <- Zle_Qle. lia.
    - apply negb_true_iff. destruct (Qle_bool _ _) eqn:E; [|reflexivity].
      apply Qle_bool_iff in E. rewrite power21, Qabs_pos in E.
      + rewrite <- Zle_Qle in E. lia.
      + change 0%Q with (inject_Z 0). rewrite <- Zle_Qle. lia. }
  rewrite P. unfold truncate. change 0%Q with (inject_Z 0). rewrite Qle_bool_Z.
  destruct (Z.leb_spec 0 p); [|lia]. now rewrite Qfloor_Z.
Qed.

Lemma numberOr_cases (n : option Double) (d : Z) :
  - 10 ^ 21 < d < 10 ^ 21 ->
  numberOr leadingDigit n d = NaN \/
  exists z, numberOr leadingDigit n d = Finite (inject_Z z) /\ - 10 ^ 21 < z < 10 ^ 21.
Proof.
  intros Hd. destruct n as [x|]; cbn [numberOr]; [|right; eauto].
  pose proof (parseInt_spec x) as S. destruct x as [|s|q]; auto.
  destruct S as (z & E & B & _). right. eauto.
Qed.


Lemma validated_limit_cases (query : PaginationQuery) :
  v_limit (validatePaginationParams leadingDigit query) = NaN \/
  exists l, v_limit (validatePaginationParams leadingDigit query) = Finite (inject_Z l) /\
            1 <= l <= 100.
Proof.
  validated.
  destruct (numberOr_cases (limit query) 10 ltac:(lia)) as [-> | (z & -> & B)].
  - left. reflexivity.
  - right. change (Finite 1) with (Finite (inject_Z 1)).
    change (Finite 100) with (Finite (inject_Z 100)).
    rewrite mathMax_int, mathMin_int. eexists. split; [reflexivity|lia].
Qed.




(** ** The pages of a result set *)

Lemma firstn_add_skipn {A} (a b : nat) (l : list A) :
  firstn (a + b) l = firstn a l ++ firstn b (skipn a l).
Proof.
  revert l. induction a as [|a IH]; intros [|x l]; simpl; try reflexivity.
  - now rewrite firstn_nil.
  - now rewrite IH.
Qed.

Lemma chunks_concat {A} (l : nat) (c : list A) (k : nat) :
  flat_map (fun i => firstn l (skipn (i * l) c)) (seq 0 k) = firstn (k * l) c.
Proof.
  induction k as [|k IH]; [reflexivity|].
  rewrite seq_S, flat_map_app, IH. simpl flat_map. rewrite app_nil_r.
  replace (S k * l)%nat with (k * l + l)%nat by lia.
  symmetry. apply firstn_add_skipn.
Qed.

Lemma int_bound (z : Z) : Z.abs z < 2 ^ 53 -> (Qabs (inject_Z z) <= pow2 1023)%Q.
Proof.
  intros H. apply Qle_trans with (pow2 53); [|apply pow2_le; lia].
  rewrite pow2_Z by lia. apply Qabs_Qle_condition.
  change (- inject_Z (2 ^ 53))%Q with (inject_Z (- 2 ^ 53)).
  rewrite <- !Zle_Qle. lia.
Qed.

Lemma ofZ_int (z : Z) : Z.abs z < 2 ^ 53 -> ofZ z = Finite (inject_Z z).
Proof. intros H. unfold ofZ. now rewrite nearest_Z. Qed.

(** An operation whose exact result is an integer below [2^53] is exact. *)
Lemma rnd_int (x : Q) (z : Z) :
  (x == inject_Z z)%Q -> Z.abs z < 2 ^ 53 -> rnd x = Finite (inject_Z z).
Proof.
  intros E H. rewrite (rnd_ext _ _ E), rnd_finite by now apply int_bound.
  now rewrite nearest_Z.
Qed.

Lemma isInteger_int (z : Z) : isInteger (inject_Z z) = true.
Proof. unfold isInteger. rewrite Qfloor_Z. apply Qeq_bool_iff. reflexivity. Qed.

Lemma validate_withPage (query : PaginationQuery) (p : Z) :
  1 <= p < 2 ^ 53 ->
  validatePaginationParams leadingDigit (withPage p query) =
    {| v_page := Finite (inject_Z p);
       v_limit := v_limit (validatePaginationParams leadingDigit query);
       v_sortBy := v_sortBy (validatePaginationParams leadingDigit query);
       v_sortOrder := v_sortOrder (validatePaginationParams leadingDigit query) |}.
Proof.
  intros Hp. unfold validatePaginationParams, withPage.
  cbn [page limit sortBy sortOrder numberOr].
  rewrite ofZ_int by lia. rewrite parseInt_int by lia.
  change (Finite 1) with (Finite (inject_Z 1)). rewrite mathMax_int.
  do 3 f_equal. lia.
Qed.

(** [Math.ceil(n / l)] on doubles is the number of pages of [n] documents,
    [l] to a page. *)
Lemma totalPages_int (n l : Z) :
  1 <= l <= 100 -> 0 <= n < 2 ^ 46 ->
  exists pages,
    mathCeil (fdiv (ofZ n) (Finite (inject_Z l))) = Finite (inject_Z pages) /\
    (pages - 1) * l < n <= pages * l.
Proof.
  intros Hl Hn. rewrite ofZ_int by lia. cbn [fdiv].
  change 0%Q with (inject_Z 0). rewrite Qeq_bool_Z.
  destruct (Z.eqb_spec l 0); [lia|].
  assert (L0 : (0 < inject_Z l)%Q) by (change 0%Q with (inject_Z 0); rewrite <- Zlt_Qlt; lia).
  set (k := n / l). set (r := n mod l).
  pose proof (Z.div_mod n l ltac:(lia)) as Hdm. fold k r in Hdm.
  pose proof (Z.mod_pos_bound n l ltac:(lia)) as Hr. fold r in Hr.
  assert (K0 : 0 <= k) by (apply Z.div_pos; lia).
  assert (K1 : k <= n) by nia.
  assert (Eq : (inject_Z n / inject_Z l == inject_Z k + inject_Z r / inject_Z l)%Q).
  { rewrite Hdm at 1. rewrite inject_Z_plus, inject_Z_mult. field. lra. }
  destruct (Z.eq_dec r 0) as [R0|R0].
  - exists k. split; [|nia].
    rewrite (rnd_int _ k); [| |lia].
    + cbn [mathCeil]. now rewrite Qceiling_Z.
    + rewrite Eq, R0. change (inject_Z 0) with 0%Q. field. lra.
  - exists (k + 1). split; [|nia].
    assert (B : (Qabs (inject_Z n / inject_Z l) <= 70368744177664)%Q).
    { apply Qdiv_abs_le; [exact L0|].
      assert (N0 : (0 <= inject_Z n)%Q)
        by (change 0%Q with (inject_Z 0); rewrite <- Zle_Qle; lia).
      rewrite Qabs_pos by exact N0.
      assert (N1 : (inject_Z n <= 70368744177664)%Q).
      { change 70368744177664%Q with (inject_Z (2 ^ 46)). rewrite <- Zle_Qle. lia. }
      assert (L1 : (1 <= inject_Z l)%Q)
        by (change 1%Q with (inject_Z 1); rewrite <- Zle_Qle; lia).
      apply Qle_trans with (1 * 70368744177664)%Q; [lra|].
      apply Qmult_le_compat_r; [exact L1|discriminate]. }
    rewrite rnd_finite.
    2:{ eapply Qle_trans; [exact B|].
        assert (E : (70368744177664 == pow2 46)%Q) by reflexivity.
        rewrite E. apply pow2_le. lia. }
    cbn [mathCeil]. do 2 f_equal.
    pose proof (nearest_within _ _ B) as E.
    pose proof tiny_pos as T0. pose proof tiny_small as T1.
    assert (Rlo : (1 # 100 <= inject_Z r / inject_Z l)%Q).
    { apply Qle_shift_div_l; [exact L0|].
      assert (A1 : (inject_Z l <= 100)%Q)
        by (change 100%Q with (inject_Z 100); rewrite <- Zle_Qle; lia).
      assert (A2 : (1 <= inject_Z r)%Q)
        by (change 1%Q with (inject_Z 1); rewrite <- Zle_Qle; lia).
      lra. }
    assert (Rhi : (inject_Z r / inject_Z l <= 1 - (1 # 100))%Q).
    { apply Qle_shift_div_r; [exact L0|].
      assert (A1 : (inject_Z l <= 100)%Q)
        by (change 100%Q with (inject_Z 100); rewrite <- Zle_Qle; lia).
      assert (A0 : (1 <= inject_Z l)%Q)
        by (change 1%Q with (inject_Z 1); rewrite <- Zle_Qle; lia).
      assert (A2 : (inject_Z r + 1 <= inject_Z l)%Q).
      { change 1%Q with (inject_Z 1). rewrite <- inject_Z_plus, <- Zle_Qle. lia. }
      lra. }
    set (x := nearest (inject_Z n / inject_Z l)) in *.
    apply Qabs_Qle_condition in E. unfold ulp53 in E.
    assert (X1 : (inject_Z k < x)%Q) by lra.
    assert (X2 : (x < inject_Z (k + 1))%Q).
    { rewrite inject_Z_plus. change (inject_Z 1) with 1%Q. lra. }
    pose proof (Qle_ceiling x) as C1. pose proof (Qceiling_lt x) as C2.
    assert (C3 : (inject_Z k < inject_Z (Qceiling x))%Q) by (eapply Qlt_le_trans; eauto).
    assert (C4 : (inject_Z (Qceiling x - 1) < inject_Z (k + 1))%Q)
      by (eapply Qlt_trans; eauto).
    rewrite <- Zlt_Qlt in C3, C4. lia.
Qed.

Lemma paginate_page {T Extra : Type} (parseDate : string -> option Z)
    (findSorted : option CreatedAtFilter -> option (list (string * string)) -> Extra ->
                  string * Z -> list T)
    (nowFilter nowResult : Z) (query : PaginationQuery) (searchFields : list string)
    (extra : Extra) (l p : Z) :
  v_limit (validatePaginationParams leadingDigit query) = Finite (inject_Z l) ->
  1 <= l <= 100 -> 1 <= p < 2 ^ 46 ->
  let cursor := cursorOf parseDate leadingDigit findSorted nowFilter query searchFields extra in
  paginate parseDate leadingDigit findSorted nowFilter nowResult (withPage p query)
    searchFields extra =
    Some (buildPaginationResult parseDate nowResult
            (firstn (Z.to_nat l) (skipn (Z.to_nat ((p - 1) * l)) cursor))
            (Z.of_nat (length cursor)) (Finite (inject_Z p)) (Finite (inject_Z l)) query).
Proof.
  intros Hl Hl' Hp cursor.
  unfold paginate. rewrite (validate_withPage query p ltac:(lia)).
  cbn [v_page v_limit v_sortBy v_sortOrder]. rewrite Hl.
  change (findSorted _ _ _ _) with cursor.
  assert (Es : fmul (fsub (Finite (inject_Z p)) (Finite 1)) (Finite (inject_Z l))
               = Finite (inject_Z ((p - 1) * l))).
  { cbn [fsub]. rewrite (rnd_int _ (p - 1)); [| |lia].
    - cbn [fmul]. apply rnd_int; [|nia]. now rewrite inject_Z_mult.
    - unfold Z.sub. rewrite inject_Z_plus. reflexivity. }
  rewrite Es. cbn [skipLimit]. rewrite !isInteger_int.
  change 0%Q with (inject_Z 0). change 1%Q with (inject_Z 1). rewrite !Qle_bool_Z.
  destruct (Z.leb_spec 0 ((p - 1) * l)); [|nia].
  destruct (Z.leb_spec 1 l); [|lia].
  cbn [andb bind]. rewrite !Qfloor_Z. reflexivity.
Qed.

Lemma buildPaginationResult_page {T} (parseDate : string -> option Z) (now : Z)
    (d : list T) (total : Z) (p l : Double) (query : PaginationQuery) :
  data (buildPaginationResult parseDate now d total p l query) = d /\
  pagination (buildPaginationResult parseDate now d total p l query) =
    {| currentPage := p; totalPages := mathCeil (fdiv (ofZ total) l); totalItems := total;
       itemsPerPage := l; hasNextPage := jsLt p (mathCeil (fdiv (ofZ total) l));
       hasPrevPage := jsLt (Finite 1) p |}.
Proof.
  unfold buildPaginationResult.
  destruct (timeRange query) as [[]|];
    try (split; reflexivity);
    destruct (truthyString (startDate query) && truthyString (endDate query));
    try (split; reflexivity);
    destruct (startDate query), (endDate query); split; reflexivity.
Qed.

Lemma jsLt_int (a b : Z) : jsLt (Finite (inject_Z a)) (Finite (inject_Z b)) = (a <? b).
Proof.
  unfold jsLt, jsLe. rewrite Qle_bool_Z.
  destruct (Z.leb_spec b a), (Z.ltb_spec a b); try reflexivity; lia.
Qed.

(** X7.  With an integer limit [l] (after clamping) and fewer than [2^46]
    documents answered to the query, the pages 1, 2, ... below [2^46] cut
    the documents into consecutive runs of [l]: page [p] is the run
    starting at offset [(p - 1) * l], [totalPages] is the least number of
    pages that holds them all, every page before the last is full, the
    last one is not empty, the pages after it are, [hasNextPage] and
    [hasPrevPage] tell whether [p] is before the last and after the first
    page, and the pages put end to end give back every document once, in
    order. *)
Theorem pages_partition_the_result_set :
  forall (T Extra : Type) (parseDate : string -> option Z)
         (findSorted : option CreatedAtFilter -> option (list (string * string)) ->
                       Extra -> string * Z -> list T)
         (nowFilter nowResult : Z) (query : PaginationQuery)
         (searchFields : list string) (extra : Extra) (l : Z),
    v_limit (validatePaginationParams leadingDigit query) = Finite (inject_Z l) ->
    let cursor := cursorOf parseDate leadingDigit findSorted nowFilter query searchFields extra in
    let n := Z.of_nat (length cursor) in
    n < 2 ^ 46 ->
    exists pages,
      (pages - 1) * l < n <= pages * l /\
      (forall p, 1 <= p < 2 ^ 46 ->
         exists r,
           paginate parseDate leadingDigit findSorted nowFilter nowResult (withPage p query)
             searchFields extra = Some r /\
           data r = firstn (Z.to_nat l) (skipn (Z.to_nat ((p - 1) * l)) cursor) /\
           currentPage (pagination r) = Finite (inject_Z p) /\
           itemsPerPage (pagination r) = Finite (inject_Z l) /\
           totalItems (pagination r) = n /\
           totalPages (pagination r) = Finite (inject_Z pages) /\
           (hasNextPage (pagination r) = true <-> p < pages) /\
           (hasPrevPage (pagination r) = true <-> 1 < p) /\
           (p < pages -> Z.of_nat (length (data r)) = l) /\
           (p = pages -> 1 <= Z.of_nat (length (data r)) <= l) /\
           (pages < p -> data r = [])) /\
      flat_map (pageData parseDate leadingDigit findSorted nowFilter nowResult query
                  searchFields extra)
        (map Z.of_nat (seq 1 (Z.to_nat pages))) = cursor.
Proof.
  intros T Extra parseDate findSorted nowFilter nowResult query searchFields extra l Hl
         cursor n Hn.
  assert (Hl' : 1 <= l <= 100).
  { destruct (validated_limit_cases query) as [E | (l' & E & Hl')];
      rewrite Hl in E; [discriminate|].
    injection E as E. assert (l = l') by lia. now subst. }
  destruct (totalPages_int n l Hl') as (pages & Hceil & Hpages); [unfold n; lia|].
  exists pages. split; [exact Hpages|]. split.
  - intros p Hp. eexists.
    split; [apply (paginate_page _ _ _ _ _ _ _ _ _ Hl Hl' Hp)|].
    fold cursor. fold n.
    destruct (buildPaginationResult_page parseDate nowResult
                (firstn (Z.to_nat l) (skipn (Z.to_nat ((p - 1) * l)) cursor))
                n (Finite (inject_Z p)) (Finite (inject_Z l)) query) as [-> ->].
    cbn [currentPage itemsPerPage totalItems totalPages hasNextPage hasPrevPage].
    rewrite Hceil. change (Finite 1) with (Finite (inject_Z 1)). rewrite !jsLt_int.
    assert (Hlen : Z.of_nat (length (firstn (Z.to_nat l)
                                       (skipn (Z.to_nat ((p - 1) * l)) cursor)))
                   = Z.min l (Z.max 0 (n - (p - 1) * l))).
    { rewrite length_firstn, length_skipn. unfold n. nia. }
    split; [reflexivity|]. split; [reflexivity|]. split; [reflexivity|].
    split; [reflexivity|]. split; [reflexivity|].
    split; [apply Z.ltb_lt|]. split; [apply Z.ltb_lt|].
    split; [|split].
    + intros Hlt. rewrite Hlen. nia.
    + intros ->. rewrite Hlen. nia.
    + intros Hgt. apply length_zero_iff_nil. apply Nat2Z.inj. rewrite Hlen. nia.
  - assert (Hpd : forall i : nat,
              In i (seq 0 (Z.to_nat pages)) ->
              pageData parseDate leadingDigit findSorted nowFilter nowResult query
                searchFields extra (Z.of_nat (S i))
              = firstn (Z.to_nat l) (skipn (i * Z.to_nat l) cursor)).
    { intros i Hi. apply in_seq in Hi. unfold pageData.
      rewrite (paginate_page _ _ _ _ _ _ _ _ (Z.of_nat (S i)) Hl Hl') by nia.
      fold cursor.
      rewrite (proj1 (buildPaginationResult_page _ _ _ _ _ _ _)).
      do 2 f_equal. nia. }
    rewrite <- seq_shift, flat_map_concat_map, !map_map.
    rewrite (map_ext_in _ _ _ Hpd).
    rewrite <- flat_map_concat_map, chunks_concat.
    apply firstn_all2. unfold n in Hpages. nia.
Qed.

(** ** The date filter and the range echoed in the response *)

Section DateFilterFacts.
Variable parseDate : string -> option Z.

Lemma validateDateRange_valid (s e : string) :
  isValid (validateDateRange parseDate s e) = true <->
  exists a b, parseDate s = Some a /\ parseDate e = Some b /\ a < b.
Proof.
  unfold validateDateRange.
  destruct (parseDate s) as [a|]; [|split; [discriminate|intros (? & ? & [=] & _)]].
  destruct (parseDate e) as [b|]; [|split; [discriminate|intros (? & ? & _ & [=] & _)]].
  destruct (Z.leb_spec b a); simpl; split.
  - discriminate.
  - intros (? & ? & [= <-] & [= <-] & ?). lia.
  - intros _. exists a, b. split; [reflexivity|split; [reflexivity|lia]].
  - reflexivity.
Qed.

Lemma namedRange_cases (query : PaginationQuery) :
  namedRange query \/ timeRange query = Some tr_custom \/ timeRange query = None.
Proof.
  unfold namedRange. destruct (timeRange query) as [[]|]; auto;
    left; eexists; (split; [reflexivity|discriminate]).
Qed.

Lemma not_namedRange (query : PaginationQuery) :
  ~ namedRange query <-> timeRange query = Some tr_custom \/ timeRange query = None.
Proof.
  split.
  - intros Hn. destruct (namedRange_cases query) as [H|H]; [contradiction|exact H].
  - intros [H|H] (tr & E & Hne); rewrite H in E; [injection E as <-; now apply Hne|discriminate].
Qed.

Lemma buildDateFilter_named (now : Z) (query : PaginationQuery) (tr : TimeRangeOption) :
  timeRange query = Some tr -> tr <> tr_custom ->
  buildDateFilter parseDate now query =
    Some {| gte := Some (Some (now - DateUtils.getTimeRangeInMinutes tr * 60 * 1000));
            lte := Some (Some now) |}.
Proof.
  intros E Hne. unfold buildDateFilter. rewrite E.
  destruct tr; try reflexivity. now destruct Hne.
Qed.

Lemma reported_named {T} (now : Z) (d : list T) (total : Z) (p l : Double)
    (query : PaginationQuery) (tr : TimeRangeOption) :
  timeRange query = Some tr -> tr <> tr_custom ->
  dateRange (filters (buildPaginationResult parseDate now d total p l query)) =
    Some (Some (now - DateUtils.getTimeRangeInMinutes tr * 60 * 1000), Some now) /\
  f_timeRange (filters (buildPaginationResult parseDate now d total p l query)) = Some tr.
Proof.
  intros E Hne. unfold buildPaginationResult. rewrite E.
  destruct tr; try (split; reflexivity). now destruct Hne.
Qed.

(** The filter of a query without a named range. *)
Lemma buildDateFilter_unnamed (now : Z) (query : PaginationQuery) :
  ~ namedRange query ->
  buildDateFilter parseDate now query =
    match startDate query, endDate query with
    | Some s, Some e =>
        if negb (s =? "")%string && negb (e =? "")%string then
          if isValid (validateDateRange parseDate s e)
          then Some {| gte := Some (parseDate s); lte := Some (parseDate e) |}
          else None
        else if negb (s =? "")%string then Some {| gte := Some (parseDate s); lte := None |}
        else if negb (e =? "")%string then Some {| gte := None; lte := Some (parseDate e) |}
        else None
    | Some s, None =>
        if negb (s =? "")%string then Some {| gte := Some (parseDate s); lte := None |}
        else None
    | None, Some e =>
        if negb (e =? "")%string then Some {| gte := None; lte := Some (parseDate e) |}
        else None
    | None, None => None
    end.
Proof.
  intros Hn. apply not_namedRange in Hn. unfold buildDateFilter.
  destruct Hn as [-> | ->];
    destruct (startDate query) as [s|], (endDate query) as [e|]; simpl;
    try reflexivity;
    try (destruct (negb (s =? "")%string); reflexivity).
Qed.

Lemma reported_unnamed {T} (now : Z) (d : list T) (total : Z) (p l : Double)
    (query : PaginationQuery) :
  ~ namedRange query ->
  dateRange (filters (buildPaginationResult parseDate now d total p l query)) =
    match startDate query, endDate query with
    | Some s, Some e =>
        if negb (s =? "")%string && negb (e =? "")%string
        then Some (parseDate s, parseDate e) else None
    | _, _ => None
    end.
Proof.
  intros Hn. apply not_namedRange in Hn. unfold buildPaginationResult.
  destruct Hn as [-> | ->];
    destruct (startDate query) as [s|], (endDate query) as [e|]; simpl;
    try reflexivity;
    try (destruct (negb (s =? "")%string && negb (e =? "")%string); reflexivity);
    try (destruct (negb (s =? "")%string); reflexivity).
Qed.

(** X8.  A two-sided window applied by [PaginationUtils.buildDateFilter]
    is never empty, backwards or made of an invalid date: for a named
    range it ends at the clock reading and starts the named duration
    earlier, for explicit bounds both parse and the start is strictly
    before the end.  A one-sided filter comes from a lone explicit bound,
    which is applied as parsed, valid or not. *)
Theorem applied_windows_are_well_formed :
  forall (now : Z) (query : PaginationQuery) (f : CreatedAtFilter),
    buildDateFilter parseDate now query = Some f ->
    (gte f <> None \/ lte f <> None) /\
    (forall s e, gte f = Some s -> lte f = Some e ->
       exists a b, s = Some a /\ e = Some b /\ a <= b /\
         (namedRange query -> b = now) /\
         (~ namedRange query ->
            a < b /\
            exists s' e', startDate query = Some s' /\ endDate query = Some e' /\
                          parseDate s' = Some a /\ parseDate e' = Some b)) /\
    (lte f = None ->
       ~ namedRange query /\ truthyString (endDate query) = false /\
       exists s', startDate query = Some s' /\ s' <> ""%string /\
                  gte f = Some (parseDate s')) /\
    (gte f = None ->
       ~ namedRange query /\ truthyString (startDate query) = false /\
       exists e', endDate query = Some e' /\ e' <> ""%string /\
                  lte f = Some (parseDate e')).
Proof.
  intros now query f Hf.
  destruct (namedRange_cases query) as [(tr & E & Hne) | Hun].
  - assert (Hnamed : namedRange query) by (exists tr; auto).
    rewrite (buildDateFilter_named _ _ _ E Hne) in Hf. injection Hf as <-. simpl.
    split; [left; discriminate|]. split; [|split; discriminate].
    intros s e [= <-] [= <-]. do 2 eexists. split; [reflexivity|]. split; [reflexivity|].
    split; [destruct tr; simpl; lia|]. split; [reflexivity|]. intros Hn. contradiction.
  - apply not_namedRange in Hun. rewrite (buildDateFilter_unnamed _ _ Hun) in Hf.
    destruct (startDate query) as [s'|] eqn:Es, (endDate query) as [e'|] eqn:Ee;
      try discriminate.
    + destruct (String.eqb_spec s' "") as [->|Hs], (String.eqb_spec e' "") as [->|He];
        simpl in Hf; try discriminate.
      * injection Hf as <-. simpl.
        split; [right; discriminate|]. split; [discriminate|]. split; [discriminate|].
        intros _. split; [exact Hun|]. split; [reflexivity|]. eauto.
      * injection Hf as <-. simpl.
        split; [left; discriminate|]. split; [discriminate|]. split; [|discriminate].
        intros _. split; [exact Hun|]. split; [reflexivity|]. eauto.
      * destruct (isValid (validateDateRange parseDate s' e')) eqn:Hv; [|discriminate].
        injection Hf as <-. simpl.
        apply validateDateRange_valid in Hv. destruct Hv as (a & b & Ha & Hb & Hab).
        split; [left; discriminate|]. split; [|split; discriminate].
        intros s e [= <-] [= <-]. exists a, b.
        split; [exact Ha|]. split; [exact Hb|]. split; [lia|].
        split; [intros Hn; contradiction|]. intros _. split; [exact Hab|]. eauto 6.
    + destruct (String.eqb_spec s' "") as [->|Hs]; simpl in Hf; [discriminate|].
      injection Hf as <-. simpl.
      split; [left; discriminate|]. split; [discriminate|]. split; [|discriminate].
      intros _. split; [exact Hun|]. split; [reflexivity|]. eauto.
    + destruct (String.eqb_spec e' "") as [->|He]; simpl in Hf; [discriminate|].
      injection Hf as <-. simpl.
      split; [right; discriminate|]. split; [discriminate|]. split; [discriminate|].
      intros _. split; [exact Hun|]. split; [reflexivity|]. eauto.
Qed.

Lemma truthy_nonempty (s : string) : s <> ""%string <-> truthyString (Some s) = true.
Proof.
  simpl. destruct (String.eqb_spec s ""); simpl; split; intros H;
    try reflexivity; try discriminate; try contradiction; try assumption.
Qed.

(** The three ways a query without a named range can bound the dates:
    not at all, by a lone bound, or by two bounds. *)
Lemma unnamed_filter_cases {T} (now : Z) (d : list T) (total : Z) (p l : Double)
    (query : PaginationQuery) :
  ~ namedRange query ->
  let applied := buildDateFilter parseDate now query in
  let reported :=
    dateRange (filters (buildPaginationResult parseDate now d total p l query)) in
  (truthyString (startDate query) = false /\ truthyString (endDate query) = false /\
   applied = None /\ reported = None) \/
  (truthyString (startDate query) <> truthyString (endDate query) /\
   applied <> None /\ reported = None) \/
  (exists s e,
     startDate query = Some s /\ endDate query = Some e /\
     s <> ""%string /\ e <> ""%string /\
     reported = Some (parseDate s, parseDate e) /\
     applied = if isValid (validateDateRange parseDate s e)
               then Some {| gte := Some (parseDate s); lte := Some (parseDate e) |}
               else None).
Proof.
  intros Hun applied reported.
  assert (Ha : applied = _) by apply (buildDateFilter_unnamed _ _ Hun).
  assert (Hr : reported = _) by apply (reported_unnamed now d total p l query Hun).
  rewrite Ha, Hr. clear Ha Hr applied reported.
  destruct (startDate query) as [s|], (endDate query) as [e|]; simpl.
  - destruct (String.eqb_spec s "") as [->|Hs], (String.eqb_spec e "") as [->|He]; simpl.
    + left. auto.
    + right. left. split; [discriminate|]. split; [discriminate|reflexivity].
    + right. left. split; [discriminate|]. split; [discriminate|reflexivity].
    + right. right. exists s, e. auto 7.
  - destruct (String.eqb_spec s "") as [->|Hs]; simpl.
    + left. auto.
    + right. left. split; [discriminate|]. split; [discriminate|reflexivity].
  - destruct (String.eqb_spec e "") as [->|He]; simpl.
    + left. auto.
    + right. left. split; [discriminate|]. split; [discriminate|reflexivity].
  - left. auto.
Qed.

(** X9.  The date range echoed in the response describes the filter that
    was applied exactly when the range is named (and the clock is read at
    the same instant), when no bound is given, or when both explicit bounds
    are given and valid.  With two bounds that do not validate the range
    is echoed although no date filter was applied, and with a lone bound
    the filter is applied although no range is echoed.  For a named range
    read at two instants the echoed window is the applied one shifted by
    the time elapsed. *)
Theorem echoed_range_matches_filter :
  forall (T : Type) (now : Z) (d : list T) (total : Z) (p l : Double)
         (query : PaginationQuery),
    let applied := buildDateFilter parseDate now query in
    let reported :=
      dateRange (filters (buildPaginationResult parseDate now d total p l query)) in
    (sameWindow applied reported <->
       namedRange query \/
       (truthyString (startDate query) = false /\ truthyString (endDate query) = false) \/
       (exists s e, startDate query = Some s /\ endDate query = Some e /\
                    s <> "" /\ e <> "" /\
                    isValid (validateDateRange parseDate s e) = true))%string /\
    (applied = None /\ reported <> None <->
       ~ namedRange query /\
       exists s e, startDate query = Some s /\ endDate query = Some e /\
                   s <> "" /\ e <> "" /\
                   isValid (validateDateRange parseDate s e) = false)%string /\
    (applied <> None /\ reported = None <->
       ~ namedRange query /\
       truthyString (startDate query) <> truthyString (endDate query)) /\
    (forall later tr, timeRange query = Some tr -> tr <> tr_custom ->
       exists a b,
         applied = Some {| gte := Some (Some a); lte := Some (Some b) |} /\
         dateRange (filters (buildPaginationResult parseDate later d total p l query))
           = Some (Some (a + (later - now)), Some (b + (later - now)))).
Proof.
  intros T now d total p l query applied reported.
  assert (Hlast : forall later tr, timeRange query = Some tr -> tr <> tr_custom ->
            exists a b,
              applied = Some {| gte := Some (Some a); lte := Some (Some b) |} /\
              dateRange (filters (buildPaginationResult parseDate later d total p l query))
                = Some (Some (a + (later - now)), Some (b + (later - now)))).
  { intros later tr E Hne. do 2 eexists. split.
    - apply (buildDateFilter_named _ _ _ E Hne).
    - rewrite (proj1 (reported_named later d total p l query tr E Hne)).
      do 3 f_equal; lia. }
  destruct (namedRange_cases query) as [(tr & E & Hne) | Hun].
  - assert (Hnamed : namedRange query) by (exists tr; auto).
    assert (Ha : applied = Some {| gte := Some (Some (now - DateUtils.getTimeRangeInMinutes tr * 60 * 1000));
                                  lte := Some (Some now) |})
      by apply (buildDateFilter_named _ _ _ E Hne).
    assert (Hr : reported = Some (Some (now - DateUtils.getTimeRangeInMinutes tr * 60 * 1000), Some now))
      by apply (proj1 (reported_named now d total p l query tr E Hne)).
    refine (conj _ (conj _ (conj _ Hlast))); rewrite Ha, Hr.
    + split; [auto|]. intros _. simpl. split; reflexivity.
    + split; [intros [[=] _]|intros [Hn _]; contradiction].
    + split; [intros [_ [=]]|intros [Hn _]; contradiction].
  - pose proof Hun as Hun'. apply not_namedRange in Hun'.
    refine (conj _ (conj _ (conj _ Hlast))).
    + destruct (unnamed_filter_cases now d total p l query Hun')
        as [(Hs & He & Ha & Hr) | [(Hne & Ha & Hr) | (s & e & Es & Ee & Hs & He & Hr & Ha)]];
        fold applied in Ha; fold reported in Hr; split.
      * intros _. right. left. auto.
      * intros _. rewrite Ha, Hr. exact I.
      * intros Hsame. unfold sameWindow in Hsame. rewrite Hr in Hsame.
        destruct applied; [contradiction|now destruct Ha].
      * intros [Hn | [[Hs He] | (s & e & Es & Ee & Hs & He & _)]].
        -- contradiction.
        -- congruence.
        -- destruct Hne. rewrite Es, Ee. apply truthy_nonempty in Hs, He. congruence.
      * intros Hsame. right. right. exists s, e. do 4 (split; [assumption|]).
        unfold sameWindow in Hsame. rewrite Hr in Hsame.
        destruct (isValid (validateDateRange parseDate s e)); [reflexivity|].
        rewrite Ha in Hsame. contradiction.
      * intros [Hn | [[Hs' _] | (s0 & e0 & Es0 & Ee0 & _ & _ & Hv)]].
        -- contradiction.
        -- rewrite Es in Hs'. apply truthy_nonempty in Hs. congruence.
        -- rewrite Es in Es0. rewrite Ee in Ee0. injection Es0 as <-. injection Ee0 as <-.
           rewrite Hv in Ha. rewrite Ha, Hr. simpl. split; reflexivity.
    + destruct (unnamed_filter_cases now d total p l query Hun')
        as [(Hs & He & Ha & Hr) | [(Hne & Ha & Hr) | (s & e & Es & Ee & Hs & He & Hr & Ha)]];
        fold applied in Ha; fold reported in Hr; split.
      * intros [_ H]. now destruct H.
      * intros (_ & s & e & Es & _ & Hs' & _). rewrite Es in Hs.
        apply truthy_nonempty in Hs'. congruence.
      * intros [H _]. now destruct Ha.
      * intros (_ & s & e & Es & Ee & Hs & He & _). destruct Hne.
        rewrite Es, Ee. apply truthy_nonempty in Hs, He. congruence.
      * intros [Hnone _]. split; [exact Hun'|]. exists s, e.
        do 4 (split; [assumption|]).
        destruct (isValid (validateDateRange parseDate s e)); [|reflexivity].
        rewrite Ha in Hnone. discriminate.
      * intros (_ & s0 & e0 & Es0 & Ee0 & _ & _ & Hv).
        rewrite Es in Es0. rewrite Ee in Ee0. injection Es0 as <-. injection Ee0 as <-.
        rewrite Hv in Ha. rewrite Ha, Hr. split; [reflexivity|discriminate].
    + destruct (unnamed_filter_cases now d total p l query Hun')
        as [(Hs & He & Ha & Hr) | [(Hne & Ha & Hr) | (s & e & Es & Ee & Hs & He & Hr & Ha)]];
        fold applied in Ha; fold reported in Hr; split.
      * intros [H _]. now destruct H.
      * intros [_ H]. destruct H. congruence.
      * intros _. split; [exact Hun'|exact Hne].
      * intros _. split; [exact Ha|exact Hr].
      * intros [_ Hnone]. rewrite Hr in Hnone. discriminate.
      * intros [_ H]. destruct H. rewrite Es, Ee.
        apply truthy_nonempty in Hs, He. congruence.
Qed.

End DateFilterFacts.

End PaginationFacts.


(** ** The further properties on the example data *)

(** X1 on the two services of the examples. *)
Lemma emitted_services_are_the_matching_ones_witness :
  NoDup (map sa_servicename twoServicesRanked) /\
  In "A"%string (map sa_servicename twoServicesRanked).
Proof.
  destruct (emitted_services_are_the_matching_ones isoDate 0 anyQuery twoServices
              twoServicesRanked) as (_ & Hnodup & Hcover).
  - vm_compute. reflexivity.
  - split; [exact Hnodup|].
    apply (Hcover (or_introl eq_refl) (metric "A" 10 200)).
    + left. reflexivity.
    + vm_compute. reflexivity.
Defined.

(** X3 on forty events, 23 with a CPU usage of 1 and 17 without gauge:
    the mean is 0.575 and the reported average 0.57, the sum divided by
    40 and multiplied by 100 being 57.49999999999999 in doubles. *)
Lemma saturation_statistics_witness :
  exists r,
    aggregateServiceMetrics isoDate 0 anyQuery gauges23of40 = Some [r] /\
    Saturation.averageCpuUsage (saturation r) = rnd (57 # 100) /\
    (Qsum (cpuSamplesOf isoDate 0 anyQuery gauges23of40 "A")
       / inject_Z (Z.of_nat (length (cpuSamplesOf isoDate 0 anyQuery gauges23of40 "A")))
     == 575 # 1000)%Q /\
    gaugeStatistics (cpuSamplesOf isoDate 0 anyQuery gauges23of40 "A")
      (Saturation.averageCpuUsage (saturation r)) (Saturation.maxCpuUsage (saturation r)).
Proof.
  eexists. split; [vm_compute; reflexivity|].
  split; [vm_compute; reflexivity|]. split; [vm_compute; reflexivity|].
  match goal with
  | |- context [saturation ?r] =>
      destruct (saturation_statistics isoDate 0 anyQuery gauges23of40 [r] r)
        as (_ & _ & _ & Hcpu & _)
  end.
  - vm_compute. reflexivity.
  - left. reflexivity.
  - exact Hcpu.
Defined.

(** X5 on the two services of the examples, scanned backwards. *)
Lemma statistics_independent_of_scan_order_witness :
  exists full',
    aggregateServiceMetrics isoDate 0 (withoutLimit anyQuery) (rev twoServices)
      = Some full' /\
    forall r, In r twoServicesRanked -> exists r', In r' full' /\ SameStatistics r r'.
Proof.
  apply (statistics_independent_of_scan_order isoDate 0 anyQuery twoServices
           (rev twoServices) twoServicesRanked).
  - apply Permutation_rev.
  - vm_compute. reflexivity.
Defined.

Lemma firstDigitOne_range : forall q, 1 <= firstDigitOne q <= 9.
Proof. intros q. unfold firstDigitOne. lia. Defined.


(** X7 on five documents read two at a time: three pages, the last one
    holding the fifth document. *)
Lemma pages_partition_the_result_set_witness :
  flat_map (Pagination.pageData isoDate firstDigitOne fiveDocuments 0 0 (pageQuery 1 2) [] tt)
    [1; 2; 3] = [1; 2; 3; 4; 5] /\
  Pagination.pageData isoDate firstDigitOne fiveDocuments 0 0 (pageQuery 1 2) [] tt 3 = [5].
Proof.
  destruct (pages_partition_the_result_set firstDigitOne firstDigitOne_range
              Z unit isoDate fiveDocuments 0 0 (pageQuery 1 2) [] tt 2)
    as (pages & Hbounds & Hpage & Hcat).
  - vm_compute. reflexivity.
  - simpl. lia.
  - simpl in Hbounds. assert (pages = 3) as -> by lia.
    split; [exact Hcat|].
    destruct (Hpage 3 ltac:(lia)) as (r & Hr & Hdata & _).
    unfold Pagination.pageData. rewrite Hr. exact Hdata.
Defined.

(** X8 on an explicit range of one day. *)
Lemma applied_windows_are_well_formed_witness :
  exists a b,
    a < b /\
    isoDate "1970-01-01T00:00:00.000Z" = Some a /\
    isoDate "1970-01-02T00:00:00.000Z" = Some b.
Proof.
  destruct (applied_windows_are_well_formed isoDate 0
              (rangeQuery "1970-01-01T00:00:00.000Z" "1970-01-02T00:00:00.000Z")
              {| Pagination.gte := Some (Some 0); Pagination.lte := Some (Some 86400000) |}
              eq_refl) as (_ & Hwindow & _).
  destruct (Hwindow (Some 0) (Some 86400000) eq_refl eq_refl)
    as (a & b & _ & _ & _ & _ & Hcustom).
  destruct Hcustom as (Hlt & s' & e' & [= <-] & [= <-] & Ha & Hb).
  - intros (tr & [=] & _).
  - exists a, b. split; [exact Hlt|]. split; [exact Ha|exact Hb].
Defined.


(** * Seeding *)

(** When every matching event of an emitted service is an error, its
    error count is its total and its error rate is 100. *)
Lemma errorRate_all_errors (parseDate : string -> option Z) (now : Z)
    (query : AggregationQuery) (collection : list ServiceMetric)
    (out : list ServiceAggregation) (r : ServiceAggregation) :
  aggregateServiceMetrics parseDate now query collection = Some out ->
  In r out ->
  (forall m, In m collection -> servicename m = sa_servicename r -> isError m = true) ->
  Error.errorCount (error r) = Error.totalRequests (error r) /\
  Error.errorRate (error r) = Finite 100.
Proof.
  intros Hout Hin Herr.
  destruct (aggregate_origin _ _ _ _ _ _ Hout Hin) as (p & i & j & Hp & _ & Hr).
  apply projectStage_Some in Hp.
  destruct Hp as (Hne & _ & Ht & He & Hrate & _).
  set (ms := matched parseDate now query collection) in *.
  destruct (groupOf_fields (sa_servicename r) ms) as (_ & Gt & Ge & _).
  assert (Hall : filter isError (eventsOf (sa_servicename r) ms)
                 = eventsOf (sa_servicename r) ms).
  { apply forallb_filter_id. apply forallb_forall. intros m Hm.
    unfold eventsOf, ms, matched in Hm.
    apply filter_In in Hm. destruct Hm as [Hm Hname].
    apply filter_In in Hm. destruct Hm as [Hm _].
    apply String.eqb_eq in Hname. now apply Herr. }
  rewrite Hall, <- Gt in Ge.
  assert (Hfields : Error.errorCount (error r) = p_errorCount p /\
                    Error.totalRequests (error r) = p_totalRequests p /\
                    Error.errorRate (error r) = round2 (p_errorRate p)).
  { rewrite Hr. simpl. auto. }
  destruct Hfields as (-> & -> & ->).
  split; [congruence|].
  rewrite Hrate, Ge. set (t := g_totalRequests (groupOf (sa_servicename r) ms)) in *.
  unfold ofZ. cbn [fdiv].
  assert (N : ~ (nearest (inject_Z t) == 0)%Q).
  { intros E. apply (proj1 (ofZ_zero t)) in E. contradiction. }
  destruct (Qeq_bool (nearest (inject_Z t)) 0) eqn:E0;
    [apply Qeq_bool_iff in E0; contradiction|].
  rewrite (rnd_ext _ 1) by (field; exact N).
  vm_compute. reflexivity.
Qed.

Lemma nth_error_map_seq {A} (f : nat -> A) (s n i : nat) (x : A) :
  nth_error (map f (seq s n)) i = Some x -> (i < n)%nat /\ x = f (s + i)%nat.
Proof.
  revert s i. induction n as [|n IH]; intros s [|i]; simpl; try discriminate.
  - intros [= <-]. split; [lia|]. f_equal. lia.
  - intros H. apply IH in H. destruct H as [Hlt ->]. split; [lia|]. f_equal. lia.
Qed.

Lemma fold_insertMany (bs : list (list Sample.SampleMetric))
    (c : list Sample.SampleMetric) :
  fold_left Sample.insertMany bs c = c ++ concat bs.
Proof.
  revert c. induction bs as [|b bs IH]; intros c; simpl.
  - now rewrite app_nil_r.
  - rewrite IH. unfold Sample.insertMany. now rewrite app_assoc.
Qed.

Lemma batchesFrom_concat (fuel i : nat) (l : list Sample.SampleMetric) :
  (length l - i <= fuel)%nat -> concat (Sample.batchesFrom fuel i l) = skipn i l.
Proof.
  revert i. induction fuel as [|fuel IH]; intros i Hfuel; simpl.
  - symmetry. apply skipn_all2. lia.
  - destruct (Nat.ltb_spec i (length l)) as [Hlt|Hge].
    + simpl. rewrite IH by (unfold Sample.batchSize; lia).
      unfold Sample.slice.
      replace (i + Sample.batchSize - i)%nat with Sample.batchSize by lia.
      rewrite Nat.add_comm, <- skipn_skipn. apply firstn_skipn.
    + symmetry. apply skipn_all2. lia.
Qed.

Lemma batchesFrom_sizes (fuel i : nat) (l : list Sample.SampleMetric) :
  Forall (fun b => 1 <= length b <= Sample.batchSize)%nat (Sample.batchesFrom fuel i l).
Proof.
  revert i. induction fuel as [|fuel IH]; intros i; simpl; [constructor|].
  destruct (Nat.ltb_spec i (length l)) as [Hlt|Hge]; [|constructor].
  constructor; [|apply IH].
  unfold Sample.slice. rewrite length_firstn, length_skipn.
  unfold Sample.batchSize. lia.
Qed.

(** X10.  [createSampleMetrics] leaves a non-empty collection as it is
    and fills an empty one with the [count] generated documents, each
    inserted once and in order by batches of 1 to 1000 documents; a
    second call, whatever it would generate, changes nothing. *)
Theorem seeding_fills_only_an_empty_collection :
  forall (random : nat -> Q) (clock : nat -> Z) (count : Z)
         (collection : list Sample.SampleMetric),
    let samples := Sample.sampleMetrics random clock count in
    (collection <> [] ->
     Sample.createSampleMetrics random clock count collection = collection) /\
    Sample.createSampleMetrics random clock count [] = samples /\
    length samples = Z.to_nat count /\
    concat (Sample.batches samples) = samples /\
    Forall (fun b => 1 <= length b <= Sample.batchSize)%nat (Sample.batches samples) /\
    (forall (random' : nat -> Q) (clock' : nat -> Z) (count' : Z),
       1 <= count \/ collection <> [] ->
       Sample.createSampleMetrics random' clock' count'
         (Sample.createSampleMetrics random clock count collection)
       = Sample.createSampleMetrics random clock count collection).
Proof.
  intros random clock count collection samples.
  assert (Hkeep : forall r c n (col : list Sample.SampleMetric),
            col <> [] -> Sample.createSampleMetrics r c n col = col).
  { intros r c n col Hne. unfold Sample.createSampleMetrics.
    destruct col as [|x col]; [congruence|]. reflexivity. }
  assert (Hcat : forall l, concat (Sample.batches l) = l).
  { intros l. unfold Sample.batches. rewrite batchesFrom_concat by lia. reflexivity. }
  assert (Hfill : Sample.createSampleMetrics random clock count [] = samples).
  { unfold Sample.createSampleMetrics. simpl.
    rewrite fold_insertMany. simpl. apply Hcat. }
  assert (Hlen : length samples = Z.to_nat count).
  { unfold samples, Sample.sampleMetrics. now rewrite length_map, length_seq. }
  split; [apply Hkeep|]. split; [exact Hfill|]. split; [exact Hlen|].
  split; [apply Hcat|]. split; [apply batchesFrom_sizes|].
  intros random' clock' count' Hnonempty. apply Hkeep.
  destruct collection as [|x collection].
  - rewrite Hfill. destruct Hnonempty as [Hc|Hc]; [|congruence].
    intros E. rewrite E in Hlen. simpl in Hlen. lia.
  - rewrite Hkeep; discriminate.
Qed.

Lemma newDate_ext (x y : Q) : (x == y)%Q -> Sample.newDate x = Sample.newDate y.
Proof.
  intros E. unfold Sample.newDate.
  rewrite (Qfloor_comp x y E), (Qceiling_comp x y E).
  replace (Qle_bool 0 x) with (Qle_bool 0 y); [reflexivity|].
  destruct (Qle_bool 0 x) eqn:A, (Qle_bool 0 y) eqn:B; try reflexivity.
  - apply Qle_bool_iff in A. rewrite E in A. apply Qle_bool_iff in A. congruence.
  - apply Qle_bool_iff in B. rewrite <- E in B. apply Qle_bool_iff in B. congruence.
Qed.

Section SeedFacts.
Variable random : nat -> Q.
Variable clock : nat -> Z.
Hypothesis random_unit : forall k, (0 <= random k < 1)%Q.

Lemma floor_of_unit (k : nat) (n : Z) :
  0 < n -> 0 <= Qfloor (random k * inject_Z n) < n.
Proof.
  intros Hn. destruct (random_unit k) as [H0 H1].
  assert (Hq : (0 < inject_Z n)%Q) by (change 0%Q with (inject_Z 0); now rewrite <- Zlt_Qlt).
  split.
  - rewrite <- (Qfloor_Z 0). apply Qfloor_resp_le.
    change (inject_Z 0) with 0%Q. apply Qmult_le_0_compat; lra.
  - rewrite Zlt_Qlt. apply Qle_lt_trans with (random k * inject_Z n)%Q.
    + apply Qfloor_le.
    + nra.
Qed.

Lemma newDate_window (now : Z) (k : nat) (width : Z) :
  0 < width ->
  now - width <= Sample.newDate (inject_Z now - random k * inject_Z width) <= now.
Proof.
  intros Hw. destruct (random_unit k) as [H0 H1].
  assert (Hq : (0 < inject_Z width)%Q) by (change 0%Q with (inject_Z 0); now rewrite <- Zlt_Qlt).
  set (x := (inject_Z now - random k * inject_Z width)%Q).
  assert (Hlo : (inject_Z (now - width) < x)%Q).
  { unfold x. unfold Z.sub. rewrite inject_Z_plus, inject_Z_opp. nra. }
  assert (Hhi : (x <= inject_Z now)%Q) by (unfold x; nra).
  unfold Sample.newDate. destruct (Qle_bool 0 x).
  - split.
    + apply Z.le_trans with (Qfloor (inject_Z (now - width))); [rewrite Qfloor_Z; lia|].
      apply Qfloor_resp_le. now apply Qlt_le_weak.
    + apply Z.le_trans with (Qfloor (inject_Z now)); [|rewrite Qfloor_Z; lia].
      now apply Qfloor_resp_le.
  - split.
    + apply Z.lt_le_incl. rewrite Zlt_Qlt.
      apply Qlt_le_trans with x; [exact Hlo|apply Qle_ceiling].
    + apply Z.le_trans with (Qceiling (inject_Z now)); [|rewrite Qceiling_Z; lia].
      now apply Qceiling_resp_le.
Qed.

Lemma failing_service_status (i : nat) :
  Sample.alwaysFailing (nth (i mod 6) Sample.services ""%string) ->
  400 <= nth (i mod 9) Sample.statusCodes 0.
Proof.
  intros Hfail.
  pose proof (Nat.Div0.mod_mul_r i 3 3) as H9.
  pose proof (Nat.Div0.mod_mul_r i 3 2) as H6.
  change (3 * 3)%nat with 9%nat in H9. change (3 * 2)%nat with 6%nat in H6.
  pose proof (Nat.mod_upper_bound i 3 ltac:(lia)) as B3.
  pose proof (Nat.mod_upper_bound (i / 3) 3 ltac:(lia)) as B33.
  pose proof (Nat.mod_upper_bound (i / 3) 2 ltac:(lia)) as B32.
  assert (H : (i mod 6 = 2 \/ i mod 6 = 5)%nat).
  { assert (B6 : (i mod 6 < 6)%nat) by lia.
    destruct (i mod 6)%nat as [|[|[|[|[|[|n]]]]]]; try lia;
      destruct Hfail as [E|E]; discriminate E. }
  assert (H' : (i mod 9 = 2 \/ i mod 9 = 5 \/ i mod 9 = 8)%nat) by lia.
  destruct H' as [-> | [-> | ->]]; simpl; lia.
Qed.

(** What element [i] of the generated array looks like. *)
Lemma sampleMetric_facts (i : nat) :
  let m := Sample.sampleMetric random clock i in
  let e := Sample.metric m in
  In (servicename e) Sample.services /\
  In (statusCode e) Sample.statusCodes /\
  1 <= requestCount e <= 10 /\
  (10 <= responseTime e < 2010)%Q /\
  (exists cpu mem,
     cpuUsage e = Some cpu /\ memoryUsage e = Some mem /\
     0 <= cpu < 100 /\ 0 <= mem < 100)%Q /\
  clock (2 * i) - 604800000 <= timestamp e <= clock (2 * i) /\
  (Sample.errorMessage m <> None <-> 400 <= statusCode e) /\
  (forall k, nth_error Sample.services k = Some (servicename e) ->
             nth_error Sample.endpoints k = Some (Sample.endpoint m)) /\
  (Sample.alwaysFailing (servicename e) -> 400 <= statusCode e).
Proof.
  intros m e. unfold e, m. clear e m.
  unfold Sample.sampleMetric.
  cbn [Sample.metric Sample.errorMessage Sample.endpoint servicename statusCode
       requestCount responseTime cpuUsage memoryUsage timestamp].
  change (length Sample.services) with 6%nat.
  change (length Sample.statusCodes) with 9%nat.
  change (length Sample.endpoints) with 6%nat.
  split; [|split; [|split; [|split; [|split; [|split; [|split; [|split]]]]]]].
  - apply nth_In. change (length Sample.services) with 6%nat.
    apply Nat.mod_upper_bound. lia.
  - apply nth_In. change (length Sample.statusCodes) with 9%nat.
    apply Nat.mod_upper_bound. lia.
  - pose proof (floor_of_unit (5 * i + 2) 10 ltac:(lia)) as H.
    change (inject_Z 10) with 10%Q in H. lia.
  - destruct (random_unit (5 * i + 1)) as [H0 H1]. split; lra.
  - destruct (random_unit (5 * i + 3)) as [C0 C1].
    destruct (random_unit (5 * i + 4)) as [M0 M1].
    do 2 eexists. split; [reflexivity|]. split; [reflexivity|]. split; split; lra.
  - pose proof (newDate_window (clock (2 * i)) (5 * i) 604800000 ltac:(lia)) as H.
    rewrite (newDate_ext _ (inject_Z (clock (2 * i)) - random (5 * i) * inject_Z 604800000)).
    + exact H.
    + change (inject_Z 604800000) with 604800000%Q. ring.
  - destruct (Z.leb_spec 400 (nth (i mod 9) Sample.statusCodes 0)); split;
      try discriminate; try lia; try tauto.
  - intros k Hk.
    assert (B6 : (i mod 6 < 6)%nat) by (apply Nat.mod_upper_bound; lia).
    destruct (i mod 6)%nat as [|[|[|[|[|[|n]]]]]]; try lia;
      destruct k as [|[|[|[|[|[|k]]]]]]; simpl in Hk; try discriminate Hk;
      try reflexivity; destruct k; discriminate Hk.
  - apply failing_service_status.
Qed.

(** X11.  The documents [createSampleMetrics] generates satisfy the data
    model, whatever [Math.random()] returns in [0, 1): the service and the
    status code are among the listed ones, [requestCount] is between 1
    and 10, the response time is in [10, 2010), both gauges are present
    and in [0, 100), the timestamp lies in the seven days before the
    clock reading, and an error message is attached exactly to the events
    with a status of 400 or more.  The service fixes the endpoint, and
    every event of payment-service and of file-service is an error. *)
Theorem sample_metrics_satisfy_the_data_model :
  forall (count : Z) (i : nat) (m : Sample.SampleMetric),
    nth_error (Sample.sampleMetrics random clock count) i = Some m ->
    let e := Sample.metric m in
    In (servicename e) Sample.services /\
    In (statusCode e) Sample.statusCodes /\
    1 <= requestCount e <= 10 /\
    (10 <= responseTime e < 2010)%Q /\
    (exists cpu mem,
       cpuUsage e = Some cpu /\ memoryUsage e = Some mem /\
       0 <= cpu < 100 /\ 0 <= mem < 100)%Q /\
    clock (2 * i) - 604800000 <= timestamp e <= clock (2 * i) /\
    (Sample.errorMessage m <> None <-> 400 <= statusCode e) /\
    (forall k, nth_error Sample.services k = Some (servicename e) ->
               nth_error Sample.endpoints k = Some (Sample.endpoint m)) /\
    (Sample.alwaysFailing (servicename e) -> 400 <= statusCode e).
Proof.
  intros count i m Hm e.
  apply nth_error_map_seq in Hm. destruct Hm as [_ Hm]. simpl in Hm.
  unfold e. rewrite Hm. apply sampleMetric_facts.
Qed.

(** X12.  The aggregation of a collection seeded by [createSampleMetrics]
    is never rejected, every service it emits is one of the six generated
    ones, and payment-service and file-service are reported with an error
    count equal to their total and an error rate of 100, whatever the
    query and the random draws. *)
Theorem seeded_collection_aggregates :
  forall (parseDate : string -> option Z) (now : Z) (query : AggregationQuery)
         (count : Z),
    exists out,
      aggregateServiceMetrics parseDate now query
        (map Sample.metric (Sample.createSampleMetrics random clock count [])) = Some out /\
      forall r, In r out ->
        In (sa_servicename r) Sample.services /\
        0 < Error.totalRequests (error r) /\
        (Sample.alwaysFailing (sa_servicename r) ->
           Error.errorCount (error r) = Error.totalRequests (error r) /\
           Error.errorRate (error r) = Finite 100).
Proof.
  intros parseDate now query count.
  set (collection := map Sample.metric (Sample.createSampleMetrics random clock count [])).
  assert (Hmodel : forall e, In e collection ->
            In (servicename e) Sample.services /\ 1 <= requestCount e /\
            (Sample.alwaysFailing (servicename e) -> isError e = true)).
  { intros e He. unfold collection in He. apply in_map_iff in He.
    destruct He as (m & <- & Hm).
    unfold Sample.createSampleMetrics in Hm. simpl in Hm.
    rewrite fold_insertMany in Hm. simpl in Hm.
    unfold Sample.batches in Hm. rewrite batchesFrom_concat in Hm by lia. simpl in Hm.
    apply In_nth_error in Hm. destruct Hm as [i Hi].
    apply nth_error_map_seq in Hi. destruct Hi as [_ Hi]. simpl in Hi. subst m.
    destruct (sampleMetric_facts i) as (Hs & _ & Hrc & _ & _ & _ & _ & _ & Hfail).
    split; [exact Hs|]. split; [lia|].
    intros Hf. apply Z.leb_le. now apply Hfail. }
  destruct (aggregate_total parseDate now query collection) as [out Hout].
  { apply Forall_forall. intros e He. now apply Hmodel. }
  exists out. split; [exact Hout|]. intros r Hin.
  destruct (aggregate_origin _ _ _ _ _ _ Hout Hin) as (p & i & j & Hp & Hne & Hr).
  destruct (eventsOf_matched _ _ _ _ _ Hne) as (e & He & _ & Hname).
  split; [rewrite <- Hname; now apply Hmodel|]. split.
  - apply projectStage_Some in Hp. destruct Hp as (_ & _ & Ht & _).
    destruct (groupOf_fields (sa_servicename r) (matched parseDate now query collection))
      as (_ & Gt & _).
    replace (Error.totalRequests (error r)) with (p_totalRequests p)
      by (rewrite Hr; reflexivity).
    rewrite Ht, Gt. apply Zsum_pos; [|exact Hne].
    apply Forall_filter_keep. apply Forall_filter_keep.
    apply Forall_forall. intros e' He'. now apply Hmodel.
  - intros Hfail.
    destruct (errorRate_all_errors _ _ _ _ _ _ Hout Hin) as [Hc Hrate].
    { intros m' Hm' Hn. apply Hmodel; [exact Hm'|]. now rewrite Hn. }
    split; [exact Hc|exact Hrate].
Qed.

End SeedFacts.

(** * The ranking criterion and the time window *)

Lemma unranked_rankedAll (services : list ServiceAggregation) (rb : string) :
  Permutation (map unranked services) (map unranked (rankedAll services rb)).
Proof.
  unfold rankedAll, mapi.
  rewrite (mapi_from_map unranked unranked) by reflexivity.
  apply Permutation_map, jsSort_perm.
Qed.

(** X13.  The ranking criterion only reorders: with any other [rankBy]
    and no limit the aggregation returns the same services with the same
    figures, ranks apart; and when the first query has no limit either the
    two outputs are rearrangements of each other. *)
Theorem ranking_criterion_only_reorders :
  forall (parseDate : string -> option Z) (now : Z) (query : AggregationQuery)
         (rb : option string) (collection : list ServiceMetric)
         (out : list ServiceAggregation),
    aggregateServiceMetrics parseDate now query collection = Some out ->
    exists out',
      aggregateServiceMetrics parseDate now (withRankBy rb (withoutLimit query)) collection
        = Some out' /\
      (forall r, In r out -> exists r', In r' out' /\ unranked r' = unranked r) /\
      (limit query = None \/ limit query = Some 0 ->
       Permutation (map unranked out) (map unranked out')).
Proof.
  intros parseDate now query rb collection out Hout.
  destruct (aggregate_shape _ _ _ _ _ Hout) as (ps & Hps & ->).
  set (services := mapi processResult (map addFieldsStage ps)).
  set (rb' := rankByOrDefault (withRankBy rb (withoutLimit query))).
  exists (rankedAll services rb'). split; [|split].
  - unfold aggregateServiceMetrics, runPipeline.
    change (matchStage parseDate now (withRankBy rb (withoutLimit query)))
      with (matchStage parseDate now query).
    change (projectStage parseDate (withRankBy rb (withoutLimit query)))
      with (projectStage parseDate query).
    fold (matched parseDate now query collection). rewrite Hps. reflexivity.
  - intros r Hin.
    destruct (rankServices_prefix services (rankByOrDefault query) (limit query))
      as [n Hn].
    rewrite Hn in Hin. apply firstn_In in Hin.
    assert (Hu : In (unranked r) (map unranked (rankedAll services rb'))).
    { apply (Permutation_in _ (unranked_rankedAll services rb')).
      apply (Permutation_in _ (Permutation_sym
                                 (unranked_rankedAll services (rankByOrDefault query)))).
      now apply in_map. }
    apply in_map_iff in Hu. destruct Hu as (r' & Hr' & Hin'). eauto.
  - intros Hlim. rewrite (rankServices_unlimited _ _ _ Hlim).
    apply Permutation_trans with (map unranked services).
    + apply Permutation_sym, unranked_rankedAll.
    + apply unranked_rankedAll.
Qed.

(** X14.  When a date filter is applied, the duration the rates are
    divided by is the width of the window the documents are taken from:
    under a named range every matching document lies in the [ms]
    milliseconds up to the evaluation instant, under two explicit bounds
    between the two parsed dates, both ends included, and in either case
    two matching documents are at most [ms] apart. *)
Theorem matching_events_lie_in_the_rate_window :
  forall (parseDate : string -> option Z) (now : Z) (query : AggregationQuery)
         (ms : Z) (m : ServiceMetric),
    getTimeRangeInMs parseDate query = Some ms ->
    matchStage parseDate now query m = true ->
    (forall tr, timeRange query = Some tr -> tr <> tr_custom ->
       now - ms <= timestamp m <= now) /\
    (customOrAbsent query -> bothBounds query = true ->
       exists s e s' e',
         startDate query = Some s /\ endDate query = Some e /\
         parseDate s = Some s' /\ parseDate e = Some e' /\
         ms = e' - s' /\ s' <= timestamp m <= e') /\
    (buildDateFilter parseDate now query <> None ->
     forall m', matchStage parseDate now query m' = true ->
       Z.abs (timestamp m - timestamp m') <= ms).
Proof.
  intros parseDate now query ms m Hms Hm.
  assert (Hdate : forall x, matchStage parseDate now query x = true ->
            matchesDate (buildDateFilter parseDate now query) x = true).
  { intros x Hx. unfold matchStage in Hx. now apply andb_prop in Hx. }
  assert (Hnamed : forall tr x, timeRange query = Some tr -> tr <> tr_custom ->
            matchStage parseDate now query x = true ->
            now - ms <= timestamp x <= now).
  { intros tr x E Hne Hx. apply Hdate in Hx.
    unfold buildDateFilter in Hx. unfold getTimeRangeInMs in Hms. rewrite E in *.
    destruct tr; try (now destruct Hne); injection Hms as <-;
      simpl in Hx; apply andb_prop in Hx; destruct Hx as [H1 H2];
      apply Z.leb_le in H1, H2; simpl; lia. }
  assert (Hcustom : customOrAbsent query -> bothBounds query = true ->
            exists s e s' e',
              startDate query = Some s /\ endDate query = Some e /\
              parseDate s = Some s' /\ parseDate e = Some e' /\ ms = e' - s' /\
              forall x, matchStage parseDate now query x = true ->
                        s' <= timestamp x <= e').
  { intros Hc Hb. unfold bothBounds in Hb.
    assert (Hf : buildDateFilter parseDate now query =
                 match startDate query, endDate query with
                 | Some s, Some e => Some (parseDate s, parseDate e)
                 | _, _ => None
                 end).
    { unfold buildDateFilter. destruct Hc as [-> | ->]; now rewrite Hb. }
    unfold getTimeRangeInMs in Hms.
    assert (Hms' : match startDate query, endDate query with
                   | Some s, Some e =>
                       e' <- parseDate e ;; s' <- parseDate s ;; Some (e' - s')
                   | _, _ => Some (24 * 60 * 60 * 1000)
                   end = Some ms).
    { destruct Hc as [Hc | Hc]; rewrite Hc, Hb in Hms; exact Hms. }
    clear Hms.
    destruct (startDate query) as [s|]; [|discriminate Hb].
    destruct (endDate query) as [e|];
      [|rewrite andb_false_r in Hb; discriminate Hb].
    destruct (parseDate e) as [e'|] eqn:Pe; simpl in Hms'; [|discriminate].
    destruct (parseDate s) as [s'|] eqn:Ps; simpl in Hms'; [|discriminate].
    injection Hms' as <-.
    exists s, e, s', e'. do 5 (split; [first [reflexivity | assumption]|]).
    intros x Hx. apply Hdate in Hx. rewrite Hf in Hx. simpl in Hx.
    apply andb_prop in Hx. destruct Hx as [H1 H2]. apply Z.leb_le in H1, H2. lia. }
  split; [|split].
  - intros tr E Hne. now apply (Hnamed tr).
  - intros Hc Hb.
    destruct (Hcustom Hc Hb) as (s & e & s' & e' & Hs & He & Ps & Pe & Hw & Hall).
    exists s, e, s', e'. do 5 (split; [assumption|]). now apply Hall.
  - intros Hf m' Hm'.
    destruct (timeRange query) as [tr|] eqn:E.
    + destruct tr;
        try (assert (H1 := Hnamed _ m eq_refl ltac:(discriminate) Hm);
             assert (H2 := Hnamed _ m' eq_refl ltac:(discriminate) Hm'); lia).
      assert (Hc : customOrAbsent query) by (left; exact E).
      destruct (bothBounds query) eqn:Hb.
      * destruct (Hcustom Hc eq_refl) as (_ & _ & s' & e' & _ & _ & _ & _ & -> & Hall).
        pose proof (Hall m Hm). pose proof (Hall m' Hm'). lia.
      * exfalso. apply Hf. unfold buildDateFilter. rewrite E.
        unfold bothBounds in Hb. now rewrite Hb.
    + assert (Hc : customOrAbsent query) by (right; exact E).
      destruct (bothBounds query) eqn:Hb.
      * destruct (Hcustom Hc eq_refl) as (_ & _ & s' & e' & _ & _ & _ & _ & -> & Hall).
        pose proof (Hall m Hm). pose proof (Hall m' Hm'). lia.
      * exfalso. apply Hf. unfold buildDateFilter. rewrite E.
        unfold bothBounds in Hb. now rewrite Hb.
Qed.

Lemma halfRandom_unit : forall k, (0 <= halfRandom k < 1)%Q.
Proof.
  intros k. unfold halfRandom. split; [discriminate|reflexivity].
Defined.

(** X11 on the third generated document, an event of payment-service. *)
Lemma sample_metrics_satisfy_the_data_model_witness :
  In (servicename (Sample.metric (Sample.sampleMetric halfRandom fixedClock 2)))
     Sample.services /\
  1 <= requestCount (Sample.metric (Sample.sampleMetric halfRandom fixedClock 2)) <= 10.
Proof.
  destruct (sample_metrics_satisfy_the_data_model halfRandom fixedClock halfRandom_unit
              3 2 (Sample.sampleMetric halfRandom fixedClock 2) eq_refl)
    as (Hservice & _ & Hcount & _).
  split; [exact Hservice|exact Hcount].
Defined.

(** X12 on a collection seeded with twelve documents. *)
Lemma seeded_collection_aggregates_witness :
  exists out,
    aggregateServiceMetrics isoDate 0 anyQuery
      (map Sample.metric (Sample.createSampleMetrics halfRandom fixedClock 12 []))
      = Some out /\
    forall r, In r out ->
      In (sa_servicename r) Sample.services /\
      0 < Error.totalRequests (error r) /\
      (Sample.alwaysFailing (sa_servicename r) ->
         Error.errorCount (error r) = Error.totalRequests (error r) /\
         Error.errorRate (error r) = Finite 100).
Proof.
  apply (seeded_collection_aggregates halfRandom fixedClock halfRandom_unit
           isoDate 0 anyQuery 12).
Defined.

(** X13 on the two services of the examples, ranked by rate instead. *)
Lemma ranking_criterion_only_reorders_witness :
  exists out',
    aggregateServiceMetrics isoDate 0
      (withRankBy (Some "rate"%string) (withoutLimit anyQuery)) twoServices = Some out' /\
    (forall r, In r twoServicesRanked -> exists r', In r' out' /\ unranked r' = unranked r) /\
    (limit anyQuery = None \/ limit anyQuery = Some 0 ->
     Permutation (map unranked twoServicesRanked) (map unranked out')).
Proof.
  apply (ranking_criterion_only_reorders isoDate 0 anyQuery (Some "rate"%string)
           twoServices twoServicesRanked).
  vm_compute. reflexivity.
Defined.

(** X14 on the last hour, evaluated one hour after an event. *)
Lemma matching_events_lie_in_the_rate_window_witness :
  0 <= timestamp (metric "A" 10 200) <= 3600000.
Proof.
  destruct (matching_events_lie_in_the_rate_window isoDate 3600000
              (namedQuery tr_1hour) 3600000 (metric "A" 10 200) eq_refl eq_refl)
    as (Hnamed & _).
  apply (Hnamed tr_1hour eq_refl). discriminate.
Defined.

(** * The parse routes *)

Section ParseFacts.
Import Parse.

(** Both sides of an equation between texts, flattened. *)
Ltac text_normal :=
  unfold encode, chars;
  cbn [concat list_ascii_of_string app];
  rewrite ?app_nil_r, <- ?app_assoc;
  cbn [app].

Lemma stripPrefix_app (text s : list ascii) : stripPrefix text (text ++ s) = Some s.
Proof.
  induction text as [|a text IH]; simpl; [reflexivity|].
  now rewrite Ascii.eqb_refl.
Qed.

Lemma stripPrefix_Some (text s s' : list ascii) :
  stripPrefix text s = Some s' -> s = text ++ s'.
Proof.
  revert s. induction text as [|a text IH]; intros [|c s]; simpl; try discriminate.
  - now intros [= <-].
  - now intros [= <-].
  - destruct (Ascii.eqb_spec a c) as [<-|]; [|discriminate].
    intros H. now rewrite (IH _ H).
Qed.

Lemma backtrack_Some {A} (continue : nat -> option A) (n : nat) (r : A) :
  backtrack continue n = Some r ->
  exists m, (1 <= m <= n)%nat /\ continue m = Some r.
Proof.
  induction n as [|n IH]; simpl; [discriminate|].
  destruct (continue (S n)) as [r'|] eqn:E.
  - intros [= <-]. exists (S n). split; [lia|exact E].
  - intros H. destruct (IH H) as (m & Hm & Hr). exists m. split; [lia|exact Hr].
Qed.

Lemma backtrack_complete {A} (continue : nat -> option A) (n m : nat) :
  (1 <= m <= n)%nat -> continue m <> None -> backtrack continue n <> None.
Proof.
  induction n as [|n IH]; intros Hm Hc; [lia|]. simpl.
  destruct (continue (S n)) as [r|] eqn:E; [discriminate|].
  apply IH; [|exact Hc].
  assert (m <> S n) by (intros ->; congruence). lia.
Qed.

Lemma backtrack_first {A} (continue : nat -> option A) (n : nat) (r : A) :
  (1 <= n)%nat -> continue n = Some r -> backtrack continue n = Some r.
Proof.
  destruct n as [|n]; [lia|]. intros _ H. simpl. now rewrite H.
Qed.

Lemma takeWhile_firstn (class : ascii -> bool) (s : list ascii) (n : nat) :
  (n <= takeWhile class s)%nat ->
  forallb class (firstn n s) = true /\ length (firstn n s) = n.
Proof.
  revert n. induction s as [|c s IH]; intros n Hn; simpl in Hn.
  - assert (n = O) by lia. subst n. split; reflexivity.
  - destruct n as [|n]; [split; reflexivity|].
    destruct (class c) eqn:E; [|lia].
    destruct (IH n ltac:(lia)) as [H1 H2]. simpl. rewrite E, H1, H2. auto.
Qed.

Lemma takeWhile_app_ge (class : ascii -> bool) (w s : list ascii) :
  forallb class w = true -> (length w <= takeWhile class (w ++ s))%nat.
Proof.
  induction w as [|c w IH]; simpl; [lia|].
  destruct (class c); simpl; [|discriminate]. intros H. apply IH in H. lia.
Qed.

Lemma takeWhile_app_exact (class : ascii -> bool) (w s : list ascii) :
  forallb class w = true -> takeWhile class s = O ->
  takeWhile class (w ++ s) = length w.
Proof.
  induction w as [|c w IH]; simpl; [auto|].
  destruct (class c); simpl; [|discriminate]. intros H Hs. now rewrite IH.
Qed.

Lemma firstn_length_app {A} (w s : list A) : firstn (length w) (w ++ s) = w.
Proof.
  rewrite firstn_app, Nat.sub_diag, firstn_all. simpl. apply app_nil_r.
Qed.

Lemma skipn_length_app {A} (w s : list A) : skipn (length w) (w ++ s) = s.
Proof.
  rewrite skipn_app, Nat.sub_diag, skipn_all. reflexivity.
Qed.

(** What a successful match consumed. *)
Lemma matchAtoms_sound (atoms : list Atom) (s : list ascii) (captures : list (list ascii)) :
  matchAtoms atoms s = Some captures ->
  Forall2 atomText atoms captures /\ exists rest, s = concat captures ++ rest.
Proof.
  revert s captures. induction atoms as [|a atoms IH]; intros s captures; simpl.
  - intros [= <-]. split; [constructor|]. now exists s.
  - destruct a as [class|text].
    + intros H. apply backtrack_Some in H. destruct H as (m & Hm & H).
      destruct (matchAtoms atoms (skipn m s)) as [caps|] eqn:E; [|discriminate].
      simpl in H. injection H as <-.
      destruct (IH _ _ E) as (Hall & rest & Hrest).
      destruct (takeWhile_firstn class s m ltac:(lia)) as [Hclass Hlen].
      split.
      * constructor; [|exact Hall]. split; [|exact Hclass].
        intros E0. rewrite E0 in Hlen. simpl in Hlen. lia.
      * exists rest. simpl. rewrite <- app_assoc, <- Hrest. symmetry. apply firstn_skipn.
    + destruct (stripPrefix text s) as [s'|] eqn:Es; [|discriminate].
      destruct (matchAtoms atoms s') as [caps|] eqn:E; [|discriminate].
      simpl. intros [= <-].
      destruct (IH _ _ E) as (Hall & rest & Hrest).
      split; [constructor; [reflexivity|exact Hall]|].
      exists rest. simpl. rewrite <- app_assoc, <- Hrest. now apply stripPrefix_Some.
Qed.

(** A text the atoms can consume is matched, possibly in another way. *)
Lemma matchAtoms_complete (atoms : list Atom) (captures : list (list ascii))
    (rest : list ascii) :
  Forall2 atomText atoms captures ->
  matchAtoms atoms (concat captures ++ rest) <> None.
Proof.
  induction 1 as [|a t atoms captures Ha _ IH]; simpl; [discriminate|].
  rewrite <- app_assoc. destruct a as [class|text].
  - destruct Ha as [Hne Hclass].
    apply (backtrack_complete _ _ (length t)).
    + split; [destruct t; [congruence|simpl; lia]|now apply takeWhile_app_ge].
    + rewrite skipn_length_app.
      destruct (matchAtoms atoms (concat captures ++ rest)); [discriminate|contradiction].
  - simpl in Ha. subst t. rewrite stripPrefix_app.
    destruct (matchAtoms atoms (concat captures ++ rest)); [discriminate|contradiction].
Qed.

Lemma search_sound (atoms : list Atom) (s : list ascii) (captures : list (list ascii)) :
  search atoms s = Some captures ->
  exists pre s', s = pre ++ s' /\ matchAtoms atoms s' = Some captures.
Proof.
  induction s as [|c s IH]; simpl.
  - destruct (matchAtoms atoms []) eqn:E; [|discriminate].
    intros [= <-]. now exists [], [].
  - destruct (matchAtoms atoms (c :: s)) eqn:E.
    + intros [= <-]. now exists [], (c :: s).
    + intros H. destruct (IH H) as (pre & s' & -> & Hm). now exists (c :: pre), s'.
Qed.

Lemma search_complete (atoms : list Atom) (pre s : list ascii) :
  matchAtoms atoms s <> None -> search atoms (pre ++ s) <> None.
Proof.
  intros Hm. induction pre as [|c pre IH]; simpl.
  - destruct s; simpl; destruct (matchAtoms atoms _); try discriminate; contradiction.
  - destruct (matchAtoms atoms (c :: pre ++ s)); [discriminate|exact IH].
Qed.

Lemma search_first (atoms : list Atom) (s : list ascii) (captures : list (list ascii)) :
  matchAtoms atoms s = Some captures -> search atoms s = Some captures.
Proof.
  intros H. destruct s; simpl; now rewrite H.
Qed.

(** The groups of a match of the pattern. *)
Lemma jsMatch_sound (s : list ascii) (groups : list (list ascii)) :
  jsMatch s = Some groups ->
  exists pre first last id post,
    s = pre ++ encode first last id ++ post /\
    word letter first /\ word letter last /\ word digit id /\
    groups = [first ++ chars "0000"; last ++ chars "000"; id].
Proof.
  unfold jsMatch. destruct (search _ s) as [captures|] eqn:E; [|discriminate].
  simpl. intros [= <-].
  apply search_sound in E. destruct E as (pre & s' & -> & E).
  apply matchAtoms_sound in E. destruct E as (Hall & post & ->).
  simpl in Hall.
  inversion Hall as [|a1 first l1 c1 Hfirst H1]; subst.
  inversion H1 as [|a2 t2 l2 c2 Ht2 H2]; subst.
  inversion H2 as [|a3 last l3 c3 Hlast H3]; subst.
  inversion H3 as [|a4 t4 l4 c4 Ht4 H4]; subst.
  inversion H4 as [|a5 id l5 c5 Hid H5]; subst.
  inversion H5; subst. simpl in Ht2, Ht4. subst t2 t4.
  exists pre, first, last, id, post.
  split; [|split; [exact Hfirst|split; [exact Hlast|split; [exact Hid|]]]].
  - text_normal. reflexivity.
  - text_normal. reflexivity.
Qed.

Lemma jsMatch_complete (pre first last id post : list ascii) :
  word letter first -> word letter last -> word digit id ->
  jsMatch (pre ++ encode first last id ++ post) <> None.
Proof.
  intros Hfirst Hlast Hid. unfold jsMatch.
  assert (H : search (concat pattern) (pre ++ encode first last id ++ post) <> None).
  { apply search_complete.
    replace (encode first last id ++ post)
      with (concat [first; chars "0000"; last; chars "000"; id] ++ post)
      by (text_normal; reflexivity).
    apply matchAtoms_complete. simpl.
    repeat constructor; try assumption; try apply Hfirst; try apply Hlast; try apply Hid. }
  destruct (search _ _); [discriminate|contradiction].
Qed.

Lemma sliceUntilLast_app (w t : list ascii) : sliceUntilLast (length t) (w ++ t) = w.
Proof.
  unfold sliceUntilLast. rewrite length_app.
  replace (length w + length t - length t)%nat with (length w) by lia.
  apply firstn_length_app.
Qed.

(** X15.  The two parse routes answer exactly the texts that contain a
    record: letters, [0000], letters, [000], digits.  The answer of the
    first route is cut out of the text without a gap, its first and last
    name ending in the padding, its client number being a non-empty run
    of digits; the second route answers the same record with the padding
    removed and a dash before the last four digits.  An absent text and a
    text without a record make both handlers throw. *)
Theorem parse_accepts_exactly_the_record_shape :
  forall s : list ascii,
    (parseV1 (Some s) <> None <->
       exists pre first last id post,
         s = pre ++ encode first last id ++ post /\
         word letter first /\ word letter last /\ word digit id) /\
    (parseV2 (Some s) <> None <-> parseV1 (Some s) <> None) /\
    parseV1 None = None /\
    parseV2 None = None /\
    (forall r, parseV1 (Some s) = Some r ->
       exists pre first last post,
         s = pre ++ firstName r ++ lastName r ++ clientId r ++ post /\
         firstName r = first ++ chars "0000" /\
         lastName r = last ++ chars "000" /\
         word letter first /\ word letter last /\ word digit (clientId r) /\
         parseV2 (Some s) =
           Some {| firstName := first; lastName := last;
                   clientId := sliceUntilLast 4 (clientId r) ++ chars "-"
                               ++ sliceLast 4 (clientId r) |}).
Proof.
  intros s. unfold parseV1, parseV2. simpl.
  split; [|split; [|split; [reflexivity|split; [reflexivity|]]]].
  - split.
    + destruct (jsMatch s) as [groups|] eqn:E; [intros _|intros H; now destruct H].
      destruct (jsMatch_sound _ _ E) as (pre & first & last & id & post & Hs & H).
      exists pre, first, last, id, post. tauto.
    + intros (pre & first & last & id & post & -> & Hf & Hl & Hi).
      pose proof (jsMatch_complete pre first last id post Hf Hl Hi) as H.
      destruct (jsMatch _); [discriminate|contradiction].
  - destruct (jsMatch s); simpl; split; intros H; try discriminate; exact H.
  - intros r. destruct (jsMatch s) as [groups|] eqn:E; simpl; [|discriminate].
    intros [= <-].
    destruct (jsMatch_sound _ _ E)
      as (pre & first & last & id & post & -> & Hf & Hl & Hi & ->).
    exists pre, first, last, post. cbn [nth firstName lastName clientId].
    split; [unfold encode; rewrite <- !app_assoc; reflexivity|].
    split; [reflexivity|]. split; [reflexivity|].
    split; [exact Hf|]. split; [exact Hl|]. split; [exact Hi|].
    change 4%nat with (length (chars "0000")) at 1.
    change 3%nat with (length (chars "000")) at 1.
    now rewrite !sliceUntilLast_app.
Qed.

Lemma takeWhile_class_false (class : ascii -> bool) (c : ascii) (s : list ascii) :
  class c = false -> takeWhile class (c :: s) = O.
Proof. intros H. simpl. now rewrite H. Qed.

(** The greedy match of an encoded record is the record. *)
Lemma matchAtoms_encode (first last id : list ascii) :
  word letter first -> word letter last -> word digit id ->
  matchAtoms (concat pattern) (encode first last id)
  = Some [first; chars "0000"; last; chars "000"; id].
Proof.
  intros [Hf0 Hf] [Hl0 Hl] [Hi0 Hi]. unfold encode. simpl concat.
  assert (Hpos : forall w : list ascii, w <> [] -> (1 <= length w)%nat)
    by (intros [|c w] H; [congruence|simpl; lia]).
  cbn [matchAtoms].
  rewrite (takeWhile_app_exact letter first _ Hf) by reflexivity.
  apply backtrack_first; [now apply Hpos|].
  rewrite firstn_length_app, skipn_length_app, stripPrefix_app.
  rewrite (takeWhile_app_exact letter last _ Hl) by reflexivity.
  rewrite (backtrack_first _ _ [last; chars "000"; id]); [reflexivity|now apply Hpos|].
  rewrite firstn_length_app, skipn_length_app, stripPrefix_app.
  pose proof (takeWhile_app_exact digit id [] Hi eq_refl) as Hall.
  rewrite app_nil_r in Hall. rewrite Hall.
  rewrite (backtrack_first _ _ [id]); [reflexivity|now apply Hpos|].
  now rewrite firstn_all.
Qed.

(** X16.  A record written as letters, [0000], letters, [000], digits is
    read back: the first route answers its three padded fields, the
    second its two names and its digits with a dash before the last four
    (before all of them when there are fewer); taking the dash out gives
    the digits back. *)
Theorem parse_reads_back_an_encoded_record :
  forall first last id : list ascii,
    word letter first -> word letter last -> word digit id ->
    parseV1 (Some (encode first last id)) =
      Some {| firstName := first ++ chars "0000"; lastName := last ++ chars "000";
              clientId := id |} /\
    parseV2 (Some (encode first last id)) =
      Some {| firstName := first; lastName := last;
              clientId := sliceUntilLast 4 id ++ chars "-" ++ sliceLast 4 id |} /\
    sliceUntilLast 4 id ++ sliceLast 4 id = id /\
    length (sliceLast 4 id) = Nat.min 4 (length id).
Proof.
  intros first last id Hf Hl Hi.
  assert (Hm : jsMatch (encode first last id)
               = Some [first ++ chars "0000"; last ++ chars "000"; id]).
  { unfold jsMatch. rewrite (search_first _ _ _ (matchAtoms_encode _ _ _ Hf Hl Hi)).
    simpl. now rewrite app_nil_r. }
  assert (Hlast : length (sliceLast 4 id) = Nat.min 4 (length id)).
  { unfold sliceLast. rewrite length_skipn. lia. }
  unfold parseV1, parseV2. cbn [bind]. rewrite Hm. cbn [bind nth].
  split; [reflexivity|]. split; [|split; [apply firstn_skipn|exact Hlast]].
  change 4%nat with (length (chars "0000")) at 1.
  change 3%nat with (length (chars "000")) at 1.
  now rewrite !sliceUntilLast_app.
Qed.

End ParseFacts.

(** X16 on the text quoted in the source of the routes. *)
Lemma parse_reads_back_an_encoded_record_witness :
  Parse.parseV1 (Some (Parse.chars "JOHN0000MICHAEL0009994567")) =
    Some {| Parse.firstName := Parse.chars "JOHN0000";
            Parse.lastName := Parse.chars "MICHAEL000";
            Parse.clientId := Parse.chars "9994567" |} /\
  Parse.parseV2 (Some (Parse.chars "JOHN0000MICHAEL0009994567")) =
    Some {| Parse.firstName := Parse.chars "JOHN";
            Parse.lastName := Parse.chars "MICHAEL";
            Parse.clientId := Parse.chars "999-4567" |}.
Proof.
  destruct (parse_reads_back_an_encoded_record
              (Parse.chars "JOHN") (Parse.chars "MICHAEL") (Parse.chars "9994567"))
    as (Hv1 & Hv2 & _).
  - split; [discriminate|reflexivity].
  - split; [discriminate|reflexivity].
  - split; [discriminate|reflexivity].
  - split; [exact Hv1|exact Hv2].
Defined.

(** * A negative limit *)

Lemma jsSlice0_negative {A} (l : list A) (k : Z) :
  k < 0 -> jsSlice0 l k = firstn (length l - Z.to_nat (- k)) l.
Proof.
  intros Hk. unfold jsSlice0.
  destruct (Z.ltb_spec k 0); [|lia]. f_equal. lia.
Qed.

(** X17.  A negative [limit] cuts the ranked list from its end: with
    [limit = - j] the output is the ranked list of the query without its
    [j] lowest-ranked services, and is empty when there are at most [j]
    of them. *)
Theorem negative_limit_drops_the_lowest_ranked :
  forall (parseDate : string -> option Z) (now : Z) (query : AggregationQuery)
         (collection : list ServiceMetric) (k : Z),
    limit query = Some k -> k < 0 ->
    aggregateServiceMetrics parseDate now query collection =
      option_map (fun full => firstn (length full - Z.to_nat (- k)) full)
        (aggregateServiceMetrics parseDate now (withoutLimit query) collection) /\
    (forall full out,
       aggregateServiceMetrics parseDate now (withoutLimit query) collection = Some full ->
       aggregateServiceMetrics parseDate now query collection = Some out ->
       Z.of_nat (length out) = Z.max 0 (Z.of_nat (length full) + k)).
Proof.
  intros parseDate now query collection k Hlim Hk.
  assert (Heq : aggregateServiceMetrics parseDate now query collection =
      option_map (fun full => firstn (length full - Z.to_nat (- k)) full)
        (aggregateServiceMetrics parseDate now (withoutLimit query) collection)).
  { unfold aggregateServiceMetrics.
    change (runPipeline parseDate now (withoutLimit query) collection)
      with (runPipeline parseDate now query collection).
    destruct (runPipeline parseDate now query collection) as [results|]; simpl;
      [|reflexivity].
    change (rankByOrDefault (withoutLimit query)) with (rankByOrDefault query).
    unfold rankServices. rewrite Hlim.
    destruct (Z.eqb_spec k 0); [lia|]. simpl.
    now rewrite (jsSlice0_negative _ k Hk). }
  split; [exact Heq|].
  intros full out Hfull Hout. rewrite Heq, Hfull in Hout. simpl in Hout.
  injection Hout as <-. rewrite length_firstn. lia.
Qed.

(** X17 with [limit = -1] on two services: the lower-ranked one is dropped. *)
Lemma negative_limit_drops_the_lowest_ranked_witness :
  aggregateServiceMetrics isoDate 0 (withLimit (-1)) twoServices =
    option_map (fun full => firstn (length full - Z.to_nat (- -1)) full)
      (aggregateServiceMetrics isoDate 0 (withoutLimit (withLimit (-1))) twoServices) /\
  (forall full out,
     aggregateServiceMetrics isoDate 0 (withoutLimit (withLimit (-1))) twoServices
       = Some full ->
     aggregateServiceMetrics isoDate 0 (withLimit (-1)) twoServices = Some out ->
     Z.of_nat (length out) = Z.max 0 (Z.of_nat (length full) + -1)).
Proof.
  apply (negative_limit_drops_the_lowest_ranked isoDate 0 (withLimit (-1)) twoServices (-1)).
  - reflexivity.
  - reflexivity.
Defined.

